(* ===== verification/_CoqProject ===== *)
-Q . S2P
Prelude.v
GoStrings.v
GoPath.v
GoCrypto.v
GoUtf8.v
GoMap.v
GoJson.v
GoJsonFacts.v
Config.v
ExportPath.v
InventoryPath.v
ConfigMapMaterial.v
Normalize.v
ArchivePath.v
GitBatch.v
Fs.v
TestUtils.v
BatchWorker.v
BatchWorkerFacts.v
ExportBatch.v
WorkerQueue.v
HashCache.v
Reconciler.v
Hmac.v
GitHubPush.v
Fetch.v
Apply.v
UnstructuredMap.v
MirrorTypes.v
DeepCopy.v
Flags.v
Scheme.v
Webhook.v
WebhookTrace.v
Concurrent.v
Rbac.v
LoopBreak.v
FeedbackLoop.v
SyncConvergence.v
ConcurrentSync.v
Manager.v
Convergence.v
Restart.v
ReconcileCalls.v
ConcurrentReconcile.v
Quiescence.v
DeletionLoop.v
