(* ===== verification/Prelude.v ===== *)
(** * Accord: the inventory-controller and the sync-operator

    Accord keeps Argo CD Applications and ApplicationSets of a cluster and a Git
    repository in step. Two operators share the work:

    - the inventory-controller (cmd/inventory-controller) watches the objects.
      A reconcile (internal/inventory/reconciler.go) normalizes the object,
      hashes it, ignores it when the hash is already on the object or in the
      cache, and otherwise queues its YAML for its path under inventory/. The
      batch worker (internal/git/worker.go) takes the queue at every tick, clones
      the repository, writes and archives files, commits and pushes;
    - the sync-operator (cmd/sync-operator) receives GitHub push payloads
      (internal/sync/webhook.go), checks their HMAC, reads which inventory files
      a push added, modified and removed, fetches the former and applies them
      with the hash of their material as an annotation, and deletes the objects
      of the latter.

    The annotation is what keeps the two from feeding each other for ever. A third
    binary, the mirror-upgrader (cmd/mirror-upgrader), is a scaffold so far: a type
    MirrorUpgradeRequest (api/v1alpha1) and a controller that does nothing with it.

    ** Files

    What Go's standard library does is modelled, as far as the code uses it:
    - [Prelude]: errors and results, strings as byte strings, the tactics and the
      hint database [accord] of the development;
    - [GoStrings]: strings, strconv, sort.Strings, err.Error(); [GoPath]: path and
      path/filepath; [GoUtf8]: unicode/utf8; [GoCrypto]: hex, SHA-256, HMAC;
    - [GoMap]: maps whose iteration order is not observed; [GoJson], [GoJsonFacts]:
      encoding/json, parser and printer, with the round trip between them;
    - [Fs]: the calls of package os the worker makes, on a tree of files.

    The packages, one file or more each:
    - [Config]: internal/config;
    - [ExportPath]: internal/inventory/gvk.go and export_path.go, with the part of
      text/template that templates of fields use;
    - [InventoryPath]: internal/sync/path.go;
    - [ConfigMapMaterial]: internal/configmapmaterial;
    - [Normalize]: internal/inventory/normalize.go;
    - [HashCache], [Reconciler]: internal/inventory/hashcache.go, reconciler.go;
      [ReconcileCalls]: the same reconciles as trees of their calls on the API
      server, the cache and the queue;
    - [ArchivePath], [GitBatch], [BatchWorker], [BatchWorkerFacts], [ExportBatch],
      [WorkerQueue]: internal/git. [GitBatch] has the data and the commit message,
      [BatchWorker] the operations, [BatchWorkerFacts] the specification of what a
      batch does to a tree, [ExportBatch] the refinement, [WorkerQueue] the queue
      under interleaving;
    - [Hmac], [GitHubPush], [Fetch], [Apply], [Webhook], [WebhookTrace]:
      internal/sync/hmac.go, github.go, fetch.go, apply.go, webhook.go, and what
      the handler does to the outside, as a log of calls; [Concurrent]: the same
      handler as a tree of calls, and requests served at the same time;
    - [UnstructuredMap]: a concrete unstructured object, for the witnesses;
    - [MirrorTypes]: the types of api/v1alpha1 with their JSON form and the schema
      of their validation markers; [DeepCopy]: zz_generated.deepcopy.go, on a heap
      of cells;
    - [Flags]: the command line of the binaries; [Scheme]: the schemes of
      internal/bootstrap and groupversion_info.go; [Manager]:
      internal/bootstrap/manager.go, internal/controller and the binaries of cmd/;
    - [Rbac]: the rbac markers of the packages, and the role made of them;
    - [TestUtils]: test/utils/utils.go, the helpers of the end-to-end tests.

    Compositions:
    - [Convergence]: the inventory side as a whole, from the cluster to the branch,
      over failures, pushes of others and restarts of the controller; [Restart]: what a restart forgets;
      [ConcurrentReconcile]: the same with reconciles of different objects that
      run at the same time; [Quiescence]: the same when the cluster stops changing;
    - [LoopBreak]: the two operators together; [FeedbackLoop]: one whole turn, from
      a reconcile over the push it causes to the reconcile of what was applied;
    - [SyncConvergence]: the sync side as a whole, from the branch to the cluster;
      [ConcurrentSync]: the same with pushes served at the same time;
    - [DeletionLoop]: a deletion on its way from the cluster over the branch back to
      the cluster.

    ** How the code is rendered

    A Go function is a Rocq function of the same name. A pair of a value and an
    error is a [result]; [fmt.Errorf] with %w is [ErrWrap]. Shared state is
    passed explicitly: [rstate] is the cache and the queue a reconcile works on,
    a [fs] the disk, [remote] the repository, and the type [W] of [Fetch],
    [Apply] and [Webhook] whatever GitHub and the cluster are. Calls into
    third-party code are the methods of classes ([SigsYaml], [RuntimeObject],
    [ClientObject], [Unstructured], [KubeClient], [HttpClient], [GoGit],
    [TempDirs], [OsFaults], [TextTemplate], [ControllerRuntime],
    [RuntimeScheme], [LibraryFlags], [MetaJson], [ApiMachinery], [Machine]); what their
    documentation promises, where a theorem needs it, is a class of laws
    ([SigsYamlLaws], [UnstructuredLaws], [UnstructuredContent], [GoGitSpec],
    [TempDirsLaws], [Float64Laws], [RuntimeSchemeLaws], [MetaJsonLaws]), or of
    assumptions about the surroundings ([GitUp]: calls on clones succeed;
    [ClusterUp]: applies and deletes do; [Immutable]: GitHub answers a request as
    before; [EnforcesRules]: the API server enforces the role), with a concrete instance. Unicode tables, the texts of
    library errors and the format of floating-point numbers are parameters as
    well.

    Ranging over a Go map is a range over an arbitrary permutation of its
    entries. The mutex of the batch worker is the atomicity of the steps of
    [qstep]: a flush takes the batch in one step and puts it back, after a
    failure, in another, and enqueues happen in between. A reconcile is one step
    in [Convergence]; in [ConcurrentReconcile] every call of it is a step of its
    own, and [reconciles_are_atomic] shows that the former is enough: a run of
    the calls is matched by a run of whole reconciles. The deep copies, where
    aliasing is the point, work on an explicit heap, with pointers into structs
    and slices as [ref]s. Integers that can wrap are written so: durations are
    64-bit ([int64_wrap]), SHA-256 words 32-bit. Sizes of strings are not
    bounded.

    The JSON parser runs on fuel, [2 * length + 2] for a text, one unit per nested
    call; [parse_fuel_enough] shows that no more is needed and [parse_total] that
    it never runs out. Every other recursion is structural. [path_Clean], the
    commit message, SHA-256 and the handler of pushes all evaluate.

    ** What is shown

    - The webhook: nothing is called without an authentic push, and every apply
      and every delete is named by a path of that push ([ServeHTTP_gate],
      [webhook_writes_are_authorized], [ServeHTTP_refines]); an apply sends only
      an object of the identity its path names ([ApplyInventoryYAML_correct]);
      the signature check, the payload parser, the fetch and the path parser are
      characterised on every branch; the binary does not start without a secret
      ([sync_operator_main_authenticated]).
    - Normalization and hash: which leaves are kept, when both operators compute
      the same hash, that it ignores bookkeeping and separates materials up to a
      collision of SHA-256 ([Normalize], [ConfigMapMaterial]).
    - The inventory side: a reconcile on every branch, the meaning of the cache
      in every run ([cache_is_latest_operation]), no forgotten export and last write
      wins in the queue ([WorkerQueue]), and that an export publishes exactly
      the specified effect of its batch, whatever the order of the map, and
      nothing when it fails ([exportBatch_publishes],
      [exportBatch_order_independent], [failed_export_publishes_nothing]).
    - The inventory side as a whole: the branch converges to the cluster, over
      failed reads, failed exports, pushes of others and restarts, for the
      objects the process is up to date with ([inventory_converges]; [tracking]
      says which those are, and which events end it), also when reconciles
      of different objects interleave call by call ([reconciles_are_atomic],
      [concurrent_inventory_converges]); when the cluster stops changing the
      work ends after a bounded number of steps, failed reads and exports
      included ([work_ends]), and when Git is up it ends with every change
      published ([inventory_catches_up]).
    - The sync side as a whole: the cluster follows the branch when pushes are
      served one after the other ([cluster_follows_git]); a file that a push
      changes and then removes is the exception ([removed_later_is_orphaned]), and
      a push that is served again takes the cluster back to its commit
      ([replayed_push_reverts]).
    - Together: what one operator exports the other applies
      ([exported_document_is_applied]), what the other applied the one does not
      export again ([applied_object_is_not_exported]), and so the loop ends
      after one turn ([feedback_loop_ends]); a deletion goes round once as well
      ([deletion_loop_ends]).
    - Requests served at the same time: each makes only the calls its own push
      authorizes ([concurrent_writes_are_authorized]), serving ends after a
      bounded number of calls and no handler waits for another
      ([serving_ends]), and pushes that name different objects leave the
      cluster as if served one after the other
      ([concurrent_pushes_serialize]).
    - The binaries: the command line is read as given ([flag_round_trip],
      [later_flags_are_ignored]), the manager has the options they say
      ([sync_operator_main_authenticated]), and every controller watches the kind
      its reconciler reads ([controllers_watch_known_kinds]).
    - MirrorUpgradeRequest: what a program can write has the type of the schema
      exactly when it is valid ([request_json_typed]), what the schema accepts
      is read ([typed_request_is_read]), text and value round-trip
      ([request_text_round_trip]), and deep copies share nothing with the
      original ([MirrorUpgradeRequest_DeepCopy_isolated],
      [MirrorUpgradeRequestList_DeepCopy_isolated]).
    - Behaviour a reader would not expect, as theorems: the role has no
      permission for the deletions the handler makes
      ([git_deletions_are_forbidden]), a rename from .yml to .yaml deletes the
      object ([rename_deletes_the_object]), a name that ends in .yml aliases
      another ([export_path_yml_aliases]), a failed flush restores older content
      ([failed_flush_restores_stale]), an archive outside inventory/ blocks the
      worker ([archive_outside_inventory_blocks]), a template that fails loses
      an export ([render_failure_is_swallowed]), a revert can go unnoticed
      ([annotated_update_hides_revert]), an accepted interval can panic
      ([accepted_interval_can_panic]), an archived copy outlives the return of
      its object ([recreated_object_keeps_archive]), a manifest with null
      annotations is exported once more after its apply
      ([null_annotations_are_exported_again]), a deletion while the controller
      is down, or before it was flushed, never reaches the branch
      ([restart_forgets_deletions]), a file beyond 8 MiB is cut off
      ([large_file_is_truncated]), an object that is created again while its
      deletion is on its way is deleted ([deletion_loop_ends]), a document that
      trimming alters is applied with another hash ([material_hash_agrees]), and
      uncommenting loses lines of 64 KiB ([UncommentCode_loses_long_lines]).

    ** What is not modelled

    Logging; deadlines of contexts, other than through the answers of the
    clients; the merge of a server-side apply, which is the API server's;
    the rest of config/, which is deployment. A call on the cluster or on GitHub
    is one step, also where requests are served at the same time. The runs
    of [Convergence] have the default template. Templates that use more than
    text and field actions, YAML itself, go-git, apimachinery and
    controller-runtime are parameters. *)
From stdpp Require Export base gmap strings list sorting pretty.
From Stdlib Require Export Ascii ZArith Lia.

#[global] Open Scope list_scope.

(** ** Go errors *)

(** The error values of the program. [Err] is a leaf whose text is all the code
    looks at ([errors.New], [fmt.Errorf] without [%w], an error of a library);
    [ErrAPI] is a Kubernetes API status error, classified by its reason;
    [ErrMismatch] is the typed [PathManifestMismatchError] of internal/sync;
    [ErrWrap ctx e] is [fmt.Errorf("<ctx>: %w", e)]. *)
Inductive error : Type :=
| Err (msg : string)
| ErrAPI (reason msg : string)
| ErrMismatch (Field PathExpect ManifestSeen : string)
| ErrWrap (ctx : string) (inner : error).

#[export] Instance error_eq_dec : EqDecision error.
Proof. solve_decision. Defined.

(** [apierrors.IsNotFound]: the reason of the API status found along the chain
    of wrapped errors. *)
Fixpoint IsNotFound (e : error) : bool :=
  match e with
  | ErrAPI reason _ => bool_decide (reason = "NotFound")
  | ErrWrap _ e' => IsNotFound e'
  | _ => false
  end.

(** ** Results: a Go [(T, error)] pair of which exactly one side is used *)

Inductive result (A : Type) : Type :=
| Ok (a : A)
| Failed (e : error).
Arguments Ok {A} a.
Arguments Failed {A} e.

#[export] Instance result_eq_dec {A} `{EqDecision A} : EqDecision (result A).
Proof. solve_decision. Defined.

#[export] Instance result_ret : MRet result := @Ok.
#[export] Instance result_bind : MBind result :=
  λ A B f r, match r with Ok a => f a | Failed e => Failed e end.

(** [if err != nil { return fmt.Errorf("<ctx>: %w", err) }] *)
Definition wrap_err {A} (ctx : string) (r : result A) : result A :=
  match r with Ok a => Ok a | Failed e => Failed (ErrWrap ctx e) end.

Definition is_ok {A} (r : result A) : bool :=
  match r with Ok _ => true | Failed _ => false end.

Lemma Ok_inj {A} (a b : A) : Ok a = Ok b → a = b.
Proof. by intros [= ->]. Qed.

(** ** Bytes and strings: a Go [string] or [[]byte] is a Rocq [string] of
    8-bit characters *)

Definition byte_val (c : ascii) : Z := Z.of_nat (nat_of_ascii c).
Definition byte_of (z : Z) : ascii := ascii_of_nat (Z.to_nat (z mod 256)).

(** [s[n:]] and [s[:n]] for [n <= len(s)]. *)
Fixpoint str_drop (n : nat) (s : string) : string :=
  match n, s with
  | O, _ => s
  | S n', String _ s' => str_drop n' s'
  | S _, EmptyString => EmptyString
  end.

Fixpoint str_take (n : nat) (s : string) : string :=
  match n, s with
  | O, _ => EmptyString
  | S n', String c s' => String c (str_take n' s')
  | S _, EmptyString => EmptyString
  end.

(** Concatenation of a list of strings. *)
Fixpoint str_concat (l : list string) : string :=
  match l with [] => "" | s :: l' => s +:+ str_concat l' end.

Fixpoint str_forallb (p : ascii → bool) (s : string) : bool :=
  match s with EmptyString => true | String c s' => p c && str_forallb p s' end.

(** The longest prefix of bytes that satisfy [f], and what follows it. *)
Fixpoint str_dropWhile (f : ascii → bool) (s : string) : string :=
  match s with
  | EmptyString => ""
  | String c s' => if f c then str_dropWhile f s' else s
  end.
Fixpoint str_takeWhile (f : ascii → bool) (s : string) : string :=
  match s with
  | EmptyString => ""
  | String c s' => if f c then String c (str_takeWhile f s') else ""
  end.

(** All 256 bytes; [ascii_forallb p] decides a property of every byte. *)
Definition all_ascii : list ascii := map ascii_of_nat (seq 0 256).
Definition ascii_forallb (p : ascii → bool) : bool := forallb p all_ascii.

Lemma ascii_forallb_spec p : ascii_forallb p = true → ∀ c, p c = true.
Proof.
  unfold ascii_forallb, all_ascii. rewrite forallb_forall. intros H c.
  apply H. rewrite <- (ascii_nat_embedding c). apply in_map.
  apply in_seq. pose proof (nat_ascii_bounded c). lia.
Qed.

(** An equation between closed terms, by evaluation of both sides. *)
Ltac by_vm := match goal with |- ?a = ?b => exact (eq_refl b <: a = b) end.

(** Decide a boolean property of every byte by evaluating it on all 256. *)
Ltac by_bytes := let H := fresh in
  match goal with
  | |- ∀ c : ascii, ?p = true =>
      pose proof (ascii_forallb_spec (λ c : ascii, p)) as H; apply H; vm_compute; reflexivity
  end.

(** ** Bytes *)

Lemma byte_val_bound c : (0 <= byte_val c < 256)%Z.
Proof. unfold byte_val. pose proof (nat_ascii_bounded c). lia. Qed.

Lemma byte_of_val c : byte_of (byte_val c) = c.
Proof.
  unfold byte_of. pose proof (byte_val_bound c). rewrite Z.mod_small by done.
  unfold byte_val. rewrite Nat2Z.id. apply ascii_nat_embedding.
Qed.

Lemma byte_val_of z : byte_val (byte_of z) = (z mod 256)%Z.
Proof.
  unfold byte_of, byte_val. pose proof (Z.mod_pos_bound z 256 eq_refl).
  rewrite nat_ascii_embedding; lia.
Qed.

Lemma byte_val_inj c d : byte_val c = byte_val d → c = d.
Proof. intros H. by rewrite <- (byte_of_val c), H, byte_of_val. Qed.

(** ** String lemmas *)

Section strings.
Implicit Types s t u : string.

Lemma sapp_cons c s t : String c s +:+ t = String c (s +:+ t).
Proof. reflexivity. Qed.

Lemma sapp_nil_l s : "" +:+ s = s.
Proof. reflexivity. Qed.

Lemma sapp_nil_r s : s +:+ "" = s.
Proof. induction s as [|c s IH]; [done|]. by rewrite sapp_cons, IH. Qed.

Lemma sapp_assoc s t u : (s +:+ t) +:+ u = s +:+ (t +:+ u).
Proof. induction s as [|c s IH]; [done|]. by rewrite !sapp_cons, IH. Qed.

Lemma slen_app s t : String.length (s +:+ t) = String.length s + String.length t.
Proof. induction s as [|c s IH]; [done|]. rewrite sapp_cons; simpl. lia. Qed.

Lemma sapp_inv_l s t u : s +:+ t = s +:+ u → t = u.
Proof. apply String.app_inj. Qed.

Lemma sapp_inv_r s t u : s +:+ u = t +:+ u → s = t.
Proof.
  revert t. induction s as [|c s IH]; intros [|d t]; intros H; simpl in *.
  - done.
  - apply (f_equal String.length) in H. rewrite !slen_app in H. simpl in H. lia.
  - apply (f_equal String.length) in H. rewrite !slen_app in H. simpl in H. lia.
  - rewrite !sapp_cons in H. injection H as -> H. f_equal. by apply IH.
Qed.

Lemma sapp_eq_nil s t : s +:+ t = "" → s = "" ∧ t = "".
Proof. destruct s; [done|]. by rewrite sapp_cons. Qed.

Lemma str_drop_app s t : str_drop (String.length s) (s +:+ t) = t.
Proof. induction s as [|c s IH]; [by destruct t|]. rewrite sapp_cons. exact IH. Qed.

Lemma str_take_app s t : str_take (String.length s) (s +:+ t) = s.
Proof. induction s as [|c s IH]; [by destruct t|]. rewrite sapp_cons; simpl. by rewrite IH. Qed.

Lemma str_take_drop n s : str_take n s +:+ str_drop n s = s.
Proof.
  revert s. induction n as [|n IH]; intros [|c s]; try done.
  simpl. rewrite sapp_cons. by rewrite IH.
Qed.

Lemma length_str_drop n s : String.length (str_drop n s) = String.length s - n.
Proof. revert s. induction n as [|n IH]; intros [|c s]; simpl; try lia. apply IH. Qed.

Lemma length_str_take n s : String.length (str_take n s) = min n (String.length s).
Proof. revert s. induction n as [|n IH]; intros [|c s]; simpl; try lia. by rewrite IH. Qed.

Lemma prefix_spec p s : String.prefix p s = true ↔ ∃ r, s = p +:+ r.
Proof.
  revert s. induction p as [|c p IH]; intros s; simpl.
  { split; [intros _; by exists s|]. by destruct s. }
  destruct s as [|d s]; simpl.
  { split; [done|]. intros [r H]. done. }
  destruct (ascii_dec c d) as [->|Hne].
  - rewrite IH. split; intros [r H]; exists r.
    + by rewrite H, sapp_cons.
    + rewrite sapp_cons in H. by injection H.
  - split; [done|]. intros [r H]. rewrite sapp_cons in H. congruence.
Qed.

Lemma prefix_app p r : String.prefix p (p +:+ r) = true.
Proof. apply prefix_spec. by exists r. Qed.

Lemma str_forallb_app p s t :
  str_forallb p (s +:+ t) = str_forallb p s && str_forallb p t.
Proof.
  induction s as [|c s IH]; [done|]. rewrite sapp_cons; simpl.
  by rewrite IH, andb_assoc.
Qed.

Lemma str_concat_app l1 l2 : str_concat (l1 ++ l2) = str_concat l1 +:+ str_concat l2.
Proof. induction l1 as [|s l1 IH]; [done|]. simpl. by rewrite IH, sapp_assoc. Qed.

(** Split a string at its last character. *)
Lemma str_snoc_inv s : s = "" ∨ ∃ t c, s = t +:+ String c "".
Proof.
  induction s as [|c s IH]; [by left|right].
  destruct IH as [->|(t & d & ->)]; [by exists "", c|]. by exists (String c t), d.
Qed.

(** Induction on the number of bytes, for recursions that remove several at a time. *)
Lemma str_len_ind (P : string → Prop) :
  (∀ s, (∀ t, String.length t < String.length s → P t) → P s) → ∀ s, P s.
Proof. intros H s. apply (induction_ltof1 _ String.length). exact H. Qed.

Lemma takeWhile_app f s t :
  str_forallb f s = true →
  str_takeWhile f (s +:+ t) = s +:+ str_takeWhile f t.
Proof.
  induction s as [|c s IH]; [done|]. rewrite sapp_cons. simpl.
  intros [-> Hs]%andb_true_iff. by rewrite IH.
Qed.

(** Reversal. *)
Lemma srev_app_acc s t u : String.rev_app s t +:+ u = String.rev_app s (t +:+ u).
Proof. revert t. induction s as [|c s IH]; intros t; [done|]. simpl. by rewrite IH. Qed.

Lemma srev_app_rev s t : String.rev_app s t = String.rev s +:+ t.
Proof. unfold String.rev. by rewrite srev_app_acc. Qed.

Lemma srev_cons c s : String.rev (String c s) = String.rev s +:+ String c "".
Proof. unfold String.rev at 1. simpl. apply srev_app_rev. Qed.

Lemma srev_app s t : String.rev (s +:+ t) = String.rev t +:+ String.rev s.
Proof.
  induction s as [|c s IH]; [by rewrite sapp_nil_r|].
  by rewrite sapp_cons, !srev_cons, IH, sapp_assoc.
Qed.

Lemma srev_involutive s : String.rev (String.rev s) = s.
Proof. induction s as [|c s IH]; [done|]. by rewrite srev_cons, srev_app, IH. Qed.

End strings.

(** ** Lists *)

Lemma Forall3_insert {A B D} (P : A → B → D → Prop) l k m i x y z :
  Forall3 P l k m → P x y z → Forall3 P (<[i := x]> l) (<[i := y]> k) (<[i := z]> m).
Proof. intros Hall Hx. revert i. induction Hall; intros [|i]; constructor; auto. Qed.

Lemma sum_list_insert i n n' ns :
  ns !! i = Some n → sum_list (<[i := n']> ns) + n = sum_list ns + n'.
Proof.
  revert i. induction ns as [|x ns IH]; intros [|i] Hi; [done|done|injection Hi as ->; cbn; lia|].
  change (x + sum_list (<[i := n']> ns) + n = x + sum_list ns + n'). rewrite <- !Nat.add_assoc. f_equal. by apply IH.
Qed.

Create HintDb accord.
Create Rewrite HintDb accord.
#[export] Hint Rewrite sapp_cons sapp_nil_l sapp_nil_r sapp_assoc slen_app : accord.
#[export] Hint Rewrite str_drop_app str_take_app str_forallb_app : accord.
#[export] Hint Resolve prefix_app sapp_nil_r sapp_assoc : accord.

(** Normalise string concatenations. *)
Ltac str_norm := autorewrite with accord; try done.
