(* ===== verification/GoStrings.v ===== *)
(** The parts of Go's [strings], [strconv], [sort] and [errors] packages the
    program uses, on byte strings. *)
From S2P Require Import Prelude.

(** Tables of the Unicode standard the library consults on non-ASCII text; the
    program's behaviour on ASCII text does not depend on them. *)
Class GoUnicode := {
  unicode_ToLower : string → string;
  unicode_Quote : string → string
}.

(** ** strings *)

Definition is_ascii_byte (c : ascii) : bool := (byte_val c <? 128)%Z.
Definition is_ascii : string → bool := str_forallb is_ascii_byte.

Definition strings_HasPrefix (s prefix : string) : bool := String.prefix prefix s.

Definition strings_TrimPrefix (s prefix : string) : string :=
  if strings_HasPrefix s prefix then str_drop (String.length prefix) s else s.

Definition strings_HasSuffix (s suffix : string) : bool :=
  (String.length suffix <=? String.length s) &&
  bool_decide (str_drop (String.length s - String.length suffix) s = suffix).

Definition strings_TrimSuffix (s suffix : string) : string :=
  if strings_HasSuffix s suffix
  then str_take (String.length s - String.length suffix) s else s.

Definition cons_head (c : ascii) (l : list string) : list string :=
  match l with [] => [String c ""] | s :: l' => String c s :: l' end.

(** [strings.Split(s, sep)] for a non-empty [sep]; [skip] counts the bytes of a
    separator still to be passed over. *)
Fixpoint split_go (sep : string) (skip : nat) (s : string) : list string :=
  match s with
  | EmptyString => [""]
  | String c s' =>
      match skip with
      | S k => split_go sep k s'
      | O => if String.prefix sep s
             then "" :: split_go sep (String.length sep - 1) s'
             else cons_head c (split_go sep 0 s')
      end
  end.
Definition strings_Split (s sep : string) : list string := split_go sep 0 s.

Fixpoint strings_Join (l : list string) (sep : string) : string :=
  match l with
  | [] => ""
  | [s] => s
  | s :: l' => s +:+ sep +:+ strings_Join l' sep
  end.

(** UTF-8 encodings of the code points with property White_Space: one byte
    (tab, LF, VT, FF, CR, space), two bytes (U+0085, U+00A0) and three bytes
    (U+1680, U+2000-U+200A, U+2028, U+2029, U+202F, U+205F, U+3000). *)
Definition is_space1 (c : ascii) : bool :=
  let b := byte_val c in (((9 <=? b) && (b <=? 13)) || (b =? 32))%Z.
Definition is_space2 (c1 c2 : ascii) : bool :=
  let b1 := byte_val c1 in let b2 := byte_val c2 in
  ((b1 =? 194) && ((b2 =? 133) || (b2 =? 160)))%Z.
Definition is_space3 (c1 c2 c3 : ascii) : bool :=
  let b1 := byte_val c1 in let b2 := byte_val c2 in let b3 := byte_val c3 in
  (((b1 =? 225) && (b2 =? 154) && (b3 =? 128)) ||
   ((b1 =? 226) && (b2 =? 128) && ((128 <=? b3) && (b3 <=? 138) ||
        (b3 =? 168) || (b3 =? 169) || (b3 =? 175))) ||
   ((b1 =? 226) && (b2 =? 129) && (b3 =? 159)) ||
   ((b1 =? 227) && (b2 =? 128) && (b3 =? 128)))%Z.

(** Drop leading space runes; [sp2] and [sp3] say which pairs and triples of
    bytes, in reading order, are one. *)
Fixpoint trim_go (sp2 : ascii → ascii → bool) (sp3 : ascii → ascii → ascii → bool)
    (s : string) : string :=
  match s with
  | EmptyString => ""
  | String c1 r1 =>
      if is_space1 c1 then trim_go sp2 sp3 r1
      else match r1 with
           | EmptyString => s
           | String c2 r2 =>
               if sp2 c1 c2 then trim_go sp2 sp3 r2
               else match r2 with
                    | EmptyString => s
                    | String c3 r3 => if sp3 c1 c2 c3 then trim_go sp2 sp3 r3 else s
                    end
           end
  end.
Definition trim_left : string → string := trim_go is_space2 is_space3.
Definition trim_right (s : string) : string :=
  String.rev (trim_go (λ a b, is_space2 b a) (λ a b c, is_space3 c b a) (String.rev s)).

Definition strings_TrimSpace (s : string) : string := trim_right (trim_left s).

Definition ascii_lower (c : ascii) : ascii :=
  let b := byte_val c in
  if ((65 <=? b) && (b <=? 90))%Z then byte_of (b + 32) else c.
Fixpoint str_map (f : ascii → ascii) (s : string) : string :=
  match s with EmptyString => "" | String c s' => String (f c) (str_map f s') end.

Definition strings_ToLower `{GoUnicode} (s : string) : string :=
  if is_ascii s then str_map ascii_lower s else unicode_ToLower s.

(** ** sort.Strings: ascending byte-lexicographic order *)
Definition sort_Strings (l : list string) : list string := merge_sort String.le l.

(** ** strconv *)

Definition strconv_Itoa (n : Z) : string := pretty n.

Definition hex_digit (n : Z) : ascii :=
  byte_of (if (n <? 10)%Z then 48 + n else 87 + n)%Z.

(** [strconv.Quote]: one byte of an ASCII string inside the quotes. *)
Definition quote_byte (c : ascii) : string :=
  let b := byte_val c in
  if (b =? 34)%Z then String "\" (String (byte_of 34) "")
  else if (b =? 92)%Z then "\\"
  else if ((32 <=? b) && (b <? 127))%Z then String c ""
  else if (b =? 7)%Z then "\a" else if (b =? 8)%Z then "\b"
  else if (b =? 12)%Z then "\f" else if (b =? 10)%Z then "\n"
  else if (b =? 13)%Z then "\r" else if (b =? 9)%Z then "\t"
  else if (b =? 11)%Z then "\v"
  else "\x" +:+ String (hex_digit (b / 16)) (String (hex_digit (b mod 16)) "").
Fixpoint quote_body (s : string) : string :=
  match s with EmptyString => "" | String c s' => quote_byte c +:+ quote_body s' end.

Definition dquote : string := String (byte_of 34) "".

Definition strconv_Quote `{GoUnicode} (s : string) : string :=
  if is_ascii s then dquote +:+ quote_body s +:+ dquote else unicode_Quote s.

(** [strconv.ParseUint(s, 10, 64)] from left to right, stopping at the first
    non-digit or at the first overflow. *)
Inductive num_error := ErrSyntax | ErrRange.

Definition digit_val (c : ascii) : option Z :=
  let b := byte_val c in
  if ((48 <=? b) && (b <=? 57))%Z then Some (b - 48)%Z else None.

Definition max_uint64 : Z := 18446744073709551615.
Definition max_int64 : Z := 9223372036854775807.

Fixpoint parse_uint (n : Z) (s : string) : Z + num_error :=
  match s with
  | EmptyString => inl n
  | String c s' =>
      match digit_val c with
      | None => inr ErrSyntax
      | Some d =>
          let n' := (n * 10 + d)%Z in
          if (n' <=? max_uint64)%Z then parse_uint n' s' else inr ErrRange
      end
  end.

(** The sign and the digits that follow it. *)
Definition strip_sign (s : string) : bool * string :=
  match s with
  | String c s' =>
      if (byte_val c =? 45)%Z then (true, s')
      else if (byte_val c =? 43)%Z then (false, s') else (false, s)
  | EmptyString => (false, s)
  end.

(** [strconv.Atoi] on a 64-bit platform. *)
Definition atoi (s : string) : Z + num_error :=
  let '(neg, digits) := strip_sign s in
  if bool_decide (digits = "") then inr ErrSyntax
  else match parse_uint 0 digits with
       | inr e => inr e
       | inl un =>
           if neg then if (un <=? max_int64 + 1)%Z then inl (- un)%Z else inr ErrRange
           else if (un <=? max_int64)%Z then inl un else inr ErrRange
       end.

Definition strconv_Atoi `{GoUnicode} (s : string) : result Z :=
  match atoi s with
  | inl n => Ok n
  | inr ErrSyntax => Failed (Err ("strconv.Atoi: parsing " +:+ strconv_Quote s +:+ ": invalid syntax"))
  | inr ErrRange => Failed (Err ("strconv.Atoi: parsing " +:+ strconv_Quote s +:+ ": value out of range"))
  end.

(** ** The text of an error: [err.Error()] *)
Fixpoint Error_text `{GoUnicode} (e : error) : string :=
  match e with
  | Err msg => msg
  | ErrAPI _ msg => msg
  | ErrMismatch f p m =>
      "path/manifest mismatch on " +:+ f +:+ ": path expects " +:+ strconv_Quote p +:+
      " but manifest has " +:+ strconv_Quote m
  | ErrWrap ctx e' => ctx +:+ ": " +:+ Error_text e'
  end.

(** An interpretation of the tables that leaves non-ASCII text as it is. *)
Definition ascii_tables : GoUnicode := {|
  unicode_ToLower := λ s, s;
  unicode_Quote := λ s, dquote +:+ s +:+ dquote
|}.

(** ** Prefixes and suffixes *)

Section affixes.
Implicit Types s t p : string.

Lemma HasPrefix_spec s p : strings_HasPrefix s p = true ↔ ∃ r, s = p +:+ r.
Proof. apply prefix_spec. Qed.

Lemma HasPrefix_app p s : strings_HasPrefix (p +:+ s) p = true.
Proof. apply prefix_app. Qed.

Lemma TrimPrefix_app p s : strings_TrimPrefix (p +:+ s) p = s.
Proof. unfold strings_TrimPrefix. by rewrite HasPrefix_app, str_drop_app. Qed.

Lemma HasSuffix_app s p : strings_HasSuffix (s +:+ p) p = true.
Proof.
  unfold strings_HasSuffix. rewrite slen_app.
  replace (_ + _ - _) with (String.length s) by lia.
  rewrite str_drop_app, bool_decide_eq_true_2 by done.
  by rewrite (proj2 (Nat.leb_le _ _)) by lia.
Qed.

Lemma HasSuffix_spec s p : strings_HasSuffix s p = true ↔ ∃ r, s = r +:+ p.
Proof.
  split; [|intros [r ->]; apply HasSuffix_app].
  unfold strings_HasSuffix. intros [Hlen Heq]%andb_true_iff.
  apply bool_decide_eq_true in Heq.
  exists (str_take (String.length s - String.length p) s).
  rewrite <- Heq at 2. by rewrite str_take_drop.
Qed.

Lemma TrimSuffix_app s p : strings_TrimSuffix (s +:+ p) p = s.
Proof.
  unfold strings_TrimSuffix. rewrite HasSuffix_app, slen_app.
  replace (_ + _ - _) with (String.length s) by lia. apply str_take_app.
Qed.

Lemma TrimSuffix_other s p : strings_HasSuffix s p = false → strings_TrimSuffix s p = s.
Proof. unfold strings_TrimSuffix. by intros ->. Qed.

(** Two suffixes of the same length are comparable. *)
Lemma app_suffix_inv s t p q :
  String.length p = String.length q → s +:+ p = t +:+ q → s = t ∧ p = q.
Proof.
  intros Hlen H. assert (Hl : String.length s = String.length t).
  { apply (f_equal String.length) in H. rewrite !slen_app in H. lia. }
  split.
  - apply (f_equal (str_take (String.length s))) in H.
    rewrite str_take_app, Hl, str_take_app in H. done.
  - apply (f_equal (str_drop (String.length s))) in H.
    rewrite str_drop_app, Hl, str_drop_app in H. done.
Qed.
End affixes.

(** ** Splitting at a one-byte separator *)

Section split_char.
Context (d : ascii).
Abbreviation sep := (String d "").

Definition no_char (s : string) : bool := str_forallb (λ c, negb (bool_decide (c = d))) s.

Lemma split_nil : strings_Split "" sep = [""].
Proof. done. Qed.

Lemma split_cons c s :
  strings_Split (String c s) sep =
  if decide (c = d) then "" :: strings_Split s sep else cons_head c (strings_Split s sep).
Proof.
  unfold strings_Split. simpl. destruct (ascii_dec d c) as [->|Hne].
  - rewrite decide_True by done. by destruct s.
  - by rewrite decide_False by congruence.
Qed.

Lemma split_no_char s : no_char s = true → strings_Split s sep = [s].
Proof.
  induction s as [|c s IH]; [done|]. intros [Hc Hs]%andb_true_iff.
  rewrite split_cons. apply negb_true_iff, bool_decide_eq_false in Hc.
  by rewrite decide_False, IH by done.
Qed.

Lemma split_app s t :
  no_char s = true → strings_Split (s +:+ sep +:+ t) sep = s :: strings_Split t sep.
Proof.
  induction s as [|c s IH]; intros Hs.
  - rewrite sapp_nil_l, sapp_cons, split_cons. by rewrite decide_True.
  - apply andb_true_iff in Hs as [Hc Hs]. rewrite sapp_cons, split_cons.
    apply negb_true_iff, bool_decide_eq_false in Hc.
    by rewrite decide_False, IH by done.
Qed.

Lemma split_not_nil s : strings_Split s sep ≠ [].
Proof.
  destruct s as [|c s]; [done|]. rewrite split_cons. case_decide; [done|].
  by destruct (strings_Split s sep).
Qed.

Lemma split_parts s : Forall (λ x, no_char x = true) (strings_Split s sep).
Proof.
  induction s as [|c s IH]; [by repeat constructor|]. rewrite split_cons.
  case_decide as Hc; [by constructor|].
  destruct (strings_Split s sep) as [|x l]; simpl.
  - constructor; [|done]. unfold no_char. simpl. by rewrite bool_decide_eq_false_2.
  - apply Forall_cons in IH as [Hx Hl]. constructor; [|done].
    unfold no_char in *. simpl. by rewrite bool_decide_eq_false_2, Hx by done.
Qed.

Lemma join_split s : strings_Join (strings_Split s sep) sep = s.
Proof.
  induction s as [|c s IH]; [done|]. rewrite split_cons.
  pose proof (split_not_nil s) as Hne. revert IH Hne.
  generalize (strings_Split s sep) as l. intros [|x l] IH Hne; [done|].
  case_decide as Hc.
  - subst c. change (strings_Join ("" :: x :: l) sep) with (sep +:+ strings_Join (x :: l) sep).
    by rewrite IH.
  - rewrite <- IH. by destruct l.
Qed.

Lemma split_join l :
  l ≠ [] → Forall (λ e, no_char e = true) l → strings_Split (strings_Join l sep) sep = l.
Proof.
  intros Hne Hl. induction Hl as [|e l He Hl IH]; [done|].
  destruct l as [|e' l]; [by apply split_no_char|].
  change (strings_Join (e :: e' :: l) sep) with (e +:+ sep +:+ strings_Join (e' :: l) sep).
  by rewrite split_app, IH.
Qed.
End split_char.

(** ** Trimming *)

Section trim.
Context (sp2 : ascii → ascii → bool) (sp3 : ascii → ascii → ascii → bool).

(** The string starts with a space rune. *)
Definition lead_space (s : string) : bool :=
  match s with
  | EmptyString => false
  | String c1 r1 => is_space1 c1 ||
      match r1 with
      | EmptyString => false
      | String c2 r2 => sp2 c1 c2 ||
          match r2 with EmptyString => false | String c3 _ => sp3 c1 c2 c3 end
      end
  end.

Lemma trim_go_id s : lead_space s = false → trim_go sp2 sp3 s = s.
Proof.
  destruct s as [|c1 [|c2 [|c3 s]]]; simpl; try done;
    rewrite ?orb_false_r, ?orb_false_iff.
  - by intros ->.
  - by intros [-> ->].
  - by intros [-> [-> ->]].
Qed.

Lemma trim_go_spec s :
  lead_space (trim_go sp2 sp3 s) = false ∧ ∃ p, s = p +:+ trim_go sp2 sp3 s.
Proof.
  induction s as [s IH] using str_len_ind.
  destruct (lead_space s) eqn:Hs; [|rewrite trim_go_id by done; split; [done|by exists ""]].
  destruct s as [|c1 r1]; [done|]. simpl in Hs |- *.
  assert (Hadd : ∀ p r, String c1 r1 = p +:+ r → String.length r < S (String.length r1) →
      lead_space (trim_go sp2 sp3 r) = false ∧
      ∃ q, String c1 r1 = q +:+ trim_go sp2 sp3 r).
  { intros p r Heq Hlt. destruct (IH r Hlt) as [H1 [q H2]]. split; [done|].
    exists (p +:+ q). by rewrite sapp_assoc, <- H2. }
  destruct (is_space1 c1); [apply (Hadd (String c1 "")); [done|lia]|].
  destruct r1 as [|c2 r2]; [done|].
  destruct (sp2 c1 c2); [apply (Hadd (String c1 (String c2 ""))); [done|simpl; lia]|].
  destruct r2 as [|c3 r3]; [done|]. simpl in Hs. rewrite Hs.
  apply (Hadd (String c1 (String c2 (String c3 "")))); [done|simpl; lia].
Qed.

Lemma lead_space_prefix p r : lead_space (p +:+ r) = false → lead_space p = false.
Proof.
  destruct p as [|c1 [|c2 [|c3 p]]]; rewrite ?sapp_cons; try done; simpl.
  - rewrite !orb_false_iff. tauto.
  - rewrite !orb_false_iff. tauto.
Qed.
End trim.

Lemma trim_left_lead s : lead_space is_space2 is_space3 (trim_left s) = false.
Proof. apply trim_go_spec. Qed.

Lemma trim_right_prefix s : ∃ r, s = trim_right s +:+ r.
Proof.
  unfold trim_right. destruct (trim_go_spec (λ a b, is_space2 b a)
    (λ a b c, is_space3 c b a) (String.rev s)) as [_ [p Hp]].
  exists (String.rev p). rewrite <- srev_app, <- Hp. by rewrite srev_involutive.
Qed.

Lemma trim_right_idem s : trim_right (trim_right s) = trim_right s.
Proof.
  unfold trim_right. rewrite srev_involutive. f_equal. apply trim_go_id, trim_go_spec.
Qed.

Lemma TrimSpace_idem s : strings_TrimSpace (strings_TrimSpace s) = strings_TrimSpace s.
Proof.
  unfold strings_TrimSpace at 1.
  enough (trim_left (strings_TrimSpace s) = strings_TrimSpace s) as ->.
  - apply trim_right_idem.
  - apply trim_go_id. unfold strings_TrimSpace. destruct (trim_right_prefix (trim_left s)) as [r Hr].
    apply (lead_space_prefix _ _ _ r). rewrite <- Hr. apply trim_left_lead.
Qed.

(** A string that starts and ends with a visible ASCII byte is its own trim. *)
Definition visible (c : ascii) : bool := ((33 <=? byte_val c) && (byte_val c <? 127))%Z.

Lemma visible_not_space c : visible c = true →
  is_space1 c = false ∧ (∀ d, is_space2 c d = false ∧ is_space2 d c = false) ∧
  (∀ d e, is_space3 c d e = false ∧ is_space3 d e c = false).
Proof.
  unfold visible, is_space1, is_space2, is_space3. intros Hc.
  apply andb_true_iff in Hc as [H1%Z.leb_le H2%Z.ltb_lt].
  repeat split; intros;
    repeat match goal with
    | |- context [(?a =? ?b)%Z] =>
        lazymatch a with byte_val c => rewrite (proj2 (Z.eqb_neq a b)) by lia end
    | |- context [(?a <=? byte_val c)%Z] =>
        first [rewrite (proj2 (Z.leb_gt a _)) by lia | rewrite (proj2 (Z.leb_le a _)) by lia]
    | |- context [(byte_val c <=? ?a)%Z] =>
        first [rewrite (proj2 (Z.leb_gt _ a)) by lia | rewrite (proj2 (Z.leb_le _ a)) by lia]
    end; simpl; rewrite ?andb_false_r; done.
Qed.

Lemma TrimSpace_visible c s d :
  visible c = true → visible d = true →
  strings_TrimSpace (String c s +:+ String d "") = String c s +:+ String d "".
Proof.
  intros Hc Hd. apply visible_not_space in Hc as (Hc1 & Hc2 & Hc3).
  apply visible_not_space in Hd as (Hd1 & Hd2 & Hd3).
  unfold strings_TrimSpace, trim_left. rewrite trim_go_id.
  - unfold trim_right. rewrite trim_go_id; [by rewrite srev_involutive|].
    rewrite srev_app. change (String.rev (String d "")) with (String d "").
    rewrite sapp_cons, sapp_nil_l. generalize (String.rev (String c s)) as t.
    intros [|x [|y t]]; simpl; by rewrite Hd1, ?(proj2 (Hd2 x)), ?(proj2 (Hd3 y x)).
  - rewrite sapp_cons. generalize (s +:+ String d "") as t.
    intros [|x [|y t]]; simpl; by rewrite Hc1, ?(proj1 (Hc2 x)), ?(proj1 (Hc3 x y)).
Qed.

(** ** Sorting *)

Lemma sort_Strings_perm l : sort_Strings l ≡ₚ l.
Proof. apply merge_sort_Permutation. Qed.

Lemma sort_Strings_sorted l : StronglySorted String.le (sort_Strings l).
Proof. apply StronglySorted_merge_sort; apply _. Qed.

Lemma sort_Strings_canonical l1 l2 : l1 ≡ₚ l2 → sort_Strings l1 = sort_Strings l2.
Proof.
  intros Hp. apply (StronglySorted_unique String.le); try apply sort_Strings_sorted.
  by rewrite !sort_Strings_perm.
Qed.

#[export] Hint Rewrite TrimPrefix_app TrimSuffix_app HasPrefix_app HasSuffix_app : accord.
#[export] Hint Resolve HasPrefix_app HasSuffix_app sort_Strings_sorted : accord.
