(* ===== verification/GoPath.v ===== *)
(** Go's slash-separated paths: [path.Clean], [path.Base], and the Unix versions
    of [filepath.Join], [filepath.Dir] and [filepath.FromSlash]. *)
From S2P Require Import Prelude GoStrings.

Definition slash_char : ascii := "/"%char.
Definition slash : string := String slash_char "".

(** One element of the path against the elements kept so far, last first. *)
Definition clean_step (rooted : bool) (acc : list string) (e : string) : list string :=
  if decide (e = "" ∨ e = ".") then acc
  else if decide (e = "..") then
    match acc with
    | [] => if rooted then [] else [".."]
    | x :: acc' => if decide (x = "..") then ".." :: acc else acc'
    end
  else e :: acc.

(** [path.Clean]: the shortest path name equivalent to [p] by purely lexical
    processing. *)
Definition path_Clean (p : string) : string :=
  if decide (p = "") then "." else
  let rooted := strings_HasPrefix p slash in
  let elems := rev (foldl (clean_step rooted) [] (strings_Split p slash)) in
  if rooted then slash +:+ strings_Join elems slash
  else match elems with [] => "." | _ => strings_Join elems slash end.

Definition is_slash (c : ascii) : bool := bool_decide (c = slash_char).

(** [path.Base]: the last element, trailing slashes removed. *)
Definition path_Base (p : string) : string :=
  if decide (p = "") then "." else
  let b := String.rev (str_takeWhile (λ c, negb (is_slash c))
             (str_dropWhile is_slash (String.rev p))) in
  if decide (b = "") then "/" else b.

(** [filepath.FromSlash] is the identity on Unix. *)
Definition filepath_FromSlash (p : string) : string := p.

(** [filepath.Join(a, b)]: empty elements are skipped. *)
Definition filepath_Join (a b : string) : string :=
  if decide (a = "") then (if decide (b = "") then "" else path_Clean b)
  else path_Clean (a +:+ slash +:+ b).

(** [filepath.Dir]: everything but the last element, cleaned. *)
Definition filepath_Dir (p : string) : string :=
  path_Clean (String.rev (str_dropWhile (λ c, negb (is_slash c)) (String.rev p))).

(** The elements of a cleaned path. *)
Definition path_elems (p : string) : list string :=
  filter (λ e, e ≠ "" ∧ e ≠ ".") (strings_Split p slash).

(** An ordinary path element: not empty, not a dot name, no slash. *)
Definition plain_elem (e : string) : bool :=
  bool_decide (e ≠ "") && bool_decide (e ≠ ".") && bool_decide (e ≠ "..") &&
  no_char slash_char e.

(** ** Cleaned paths *)

Lemma plain_elem_spec e :
  plain_elem e = true ↔ e ≠ "" ∧ e ≠ "." ∧ e ≠ ".." ∧ no_char slash_char e = true.
Proof. unfold plain_elem. rewrite !andb_true_iff, !bool_decide_eq_true. tauto. Qed.

(** The shape of the accumulated elements: ordinary ones, over a pile of [..]
    that only an unrooted path can have. *)
Fixpoint clean_acc (rooted : bool) (acc : list string) : Prop :=
  match acc with
  | [] => True
  | e :: acc' => clean_acc rooted acc' ∧
      (plain_elem e = true ∨ e = ".." ∧ rooted = false ∧ Forall (λ x, x = "..") acc')
  end.

Lemma clean_acc_dots rooted acc :
  clean_acc rooted (".." :: acc) → rooted = false ∧ Forall (λ x, x = "..") acc.
Proof. intros [_ [H|(_ & H1 & H2)]]; [by vm_compute in H|done]. Qed.

Lemma clean_step_acc rooted acc e :
  no_char slash_char e = true → clean_acc rooted acc → clean_acc rooted (clean_step rooted acc e).
Proof.
  intros He Hacc. unfold clean_step. case_decide as H1; [done|].
  case_decide as H2; [subst e|].
  - destruct acc as [|x acc]; [destruct rooted; simpl; auto|].
    case_decide as Hx; [|by destruct Hacc]. subst x.
    pose proof (clean_acc_dots _ _ Hacc) as [-> Hd]. simpl. split; [done|].
    right. auto.
  - simpl. split; [done|]. left. apply plain_elem_spec. tauto.
Qed.

Lemma clean_foldl_acc rooted l acc :
  Forall (λ e, no_char slash_char e = true) l → clean_acc rooted acc →
  clean_acc rooted (foldl (clean_step rooted) acc l).
Proof.
  intros Hl. revert acc. induction Hl as [|e l He Hl IH]; intros acc Hacc; [done|].
  simpl. by apply IH, clean_step_acc.
Qed.

Lemma clean_acc_no_slash rooted acc :
  clean_acc rooted acc → Forall (λ e, no_char slash_char e = true ∧ e ≠ "" ∧ e ≠ ".") acc.
Proof.
  induction acc as [|e acc IH]; [done|]. intros [Hacc He]. constructor; [|auto].
  destruct He as [He%plain_elem_spec|(-> & _)]; [tauto|done].
Qed.

(** Elements in clean shape pass through the fold unchanged. *)
Lemma clean_foldl_id rooted acc :
  clean_acc rooted acc → foldl (clean_step rooted) [] (rev acc) = acc.
Proof.
  induction acc as [|e acc IH]; [done|]. intros [Hacc He]. simpl.
  rewrite foldl_app, (IH Hacc). simpl. unfold clean_step.
  destruct He as [He%plain_elem_spec|(-> & -> & Hd)].
  - rewrite decide_False, decide_False by tauto. done.
  - destruct Hd as [|x acc -> Hd]; done.
Qed.

Lemma clean_foldl_join rooted elems :
  elems ≠ [] → clean_acc rooted (rev elems) →
  foldl (clean_step rooted) [] (strings_Split (strings_Join elems slash) slash) = rev elems.
Proof.
  intros Hne Hacc. rewrite (split_join slash_char); [|done|].
  - rewrite <- (rev_involutive elems) at 1. by apply clean_foldl_id.
  - apply clean_acc_no_slash in Hacc. apply Forall_rev in Hacc.
    rewrite rev_involutive in Hacc. eapply Forall_impl; [exact Hacc|]. by intros x (? & _).
Qed.

Lemma path_Clean_join rooted elems :
  elems ≠ [] → clean_acc rooted (rev elems) →
  path_Clean (if rooted then slash +:+ strings_Join elems slash else strings_Join elems slash)
  = (if rooted then slash +:+ strings_Join elems slash else strings_Join elems slash).
Proof.
  intros Hne Hacc. pose proof (clean_foldl_join _ _ Hne Hacc) as Hfold.
  unfold path_Clean. destruct rooted.
  - rewrite decide_False by done. rewrite HasPrefix_app.
    change (slash +:+ strings_Join elems slash)
      with ("" +:+ slash +:+ strings_Join elems slash) at 1.
    unfold slash at 2. rewrite split_app by done. simpl.
    fold slash. change (clean_step true [] "") with (@nil string).
    by rewrite Hfold, rev_involutive.
  - destruct elems as [|e elems]; [done|].
    pose proof (clean_acc_no_slash _ _ Hacc) as Hns. apply Forall_rev in Hns.
    rewrite rev_involutive in Hns. apply Forall_cons in Hns as [(He1 & He2 & He3) _].
    assert (∃ c r, strings_Join (e :: elems) slash = String c r ∧ c ≠ slash_char)
      as (c & r & Hj & Hc).
    { destruct e as [|c e]; [done|]. apply andb_true_iff in He1 as [Hc _].
      apply negb_true_iff, bool_decide_eq_false in Hc.
      destruct elems; simpl; [by eauto|]. rewrite sapp_cons. by eauto. }
    rewrite decide_False by (by rewrite Hj).
    replace (strings_HasPrefix (strings_Join (e :: elems) slash) slash) with false.
    + by rewrite Hfold, rev_involutive.
    + symmetry. apply not_true_iff_false. rewrite HasPrefix_spec, Hj.
      intros [r' Hr]. unfold slash in Hr. rewrite sapp_cons in Hr. congruence.
Qed.

(** [path.Clean] is idempotent. *)
Lemma path_Clean_idem p : path_Clean (path_Clean p) = path_Clean p.
Proof.
  unfold path_Clean at 2 3. case_decide as Hp; [done|].
  set (rooted := strings_HasPrefix p slash).
  assert (Hacc : clean_acc rooted (foldl (clean_step rooted) [] (strings_Split p slash))).
  { apply clean_foldl_acc; [apply split_parts|done]. }
  revert Hacc. generalize (foldl (clean_step rooted) [] (strings_Split p slash)) as acc.
  intros acc Hacc. destruct (decide (acc = [])) as [->|Hne].
  { by destruct rooted. }
  assert (Hne' : rev acc ≠ []).
  { intros H. apply Hne. by rewrite <- (rev_involutive acc), H. }
  assert (Hacc' : clean_acc rooted (rev (rev acc))) by (by rewrite rev_involutive).
  pose proof (path_Clean_join rooted (rev acc) Hne' Hacc') as H.
  destruct rooted; [exact H|]. by destruct (rev acc).
Qed.

Lemma clean_acc_plain rooted acc :
  Forall (λ e, plain_elem e = true) acc → clean_acc rooted acc.
Proof. induction 1; simpl; auto. Qed.

(** A relative path made of ordinary elements is clean. *)
Lemma path_Clean_plain elems :
  elems ≠ [] → Forall (λ e, plain_elem e = true) elems →
  path_Clean (strings_Join elems slash) = strings_Join elems slash.
Proof.
  intros Hne Hp. apply (path_Clean_join false); [done|].
  by apply clean_acc_plain, Forall_rev.
Qed.

Lemma plain_no_slash e : plain_elem e = true → no_char slash_char e = true.
Proof. intros H%plain_elem_spec. tauto. Qed.

Lemma plain_elems_no_slash elems :
  Forall (λ e, plain_elem e = true) elems →
  Forall (λ e, no_char slash_char e = true) elems.
Proof. intros H. eapply Forall_impl; [exact H|]. apply plain_no_slash. Qed.

Lemma split_join_plain elems :
  elems ≠ [] → Forall (λ e, plain_elem e = true) elems →
  strings_Split (strings_Join elems slash) slash = elems.
Proof. intros Hne Hp. apply (split_join slash_char); [done|]. by apply plain_elems_no_slash. Qed.

(** ** [path.Base] *)

Lemma str_forallb_rev f s : str_forallb f (String.rev s) = str_forallb f s.
Proof.
  induction s as [|c s IH]; [done|].
  rewrite srev_cons, str_forallb_app, IH. simpl. by rewrite andb_true_r, andb_comm.
Qed.

Lemma path_Base_last p e :
  plain_elem e = true → path_Base (p +:+ slash +:+ e) = e.
Proof.
  intros (He1 & _ & _ & He2)%plain_elem_spec. unfold path_Base.
  rewrite decide_False.
  2:{ intros H%sapp_eq_nil. by destruct H. }
  rewrite !srev_app.
  assert (Hd : ∀ t, str_dropWhile is_slash (String.rev e +:+ t) = String.rev e +:+ t).
  { intros t. pose proof (str_forallb_rev (λ c, negb (bool_decide (c = slash_char))) e) as Hr.
    unfold no_char in He2. rewrite He2 in Hr.
    destruct (String.rev e) as [|c r] eqn:Hre.
    - exfalso. apply He1. by rewrite <- (srev_involutive e), Hre.
    - apply andb_true_iff in Hr as [Hc _]. apply negb_true_iff in Hc.
      rewrite sapp_cons. simpl. unfold is_slash. by rewrite Hc. }
  rewrite sapp_assoc, Hd, takeWhile_app by (by rewrite str_forallb_rev).
  change (String.rev slash) with slash. unfold slash. rewrite sapp_cons. simpl.
  rewrite sapp_nil_r, srev_involutive. by rewrite decide_False.
Qed.

#[export] Hint Resolve path_Clean_idem plain_no_slash plain_elems_no_slash : accord.

(** ** Absolute paths of ordinary elements *)

Definition plain (elems : list string) : Prop := Forall (λ e, plain_elem e = true) elems.
Definition abs (elems : list string) : string := slash +:+ strings_Join elems slash.

Lemma join_cons e elems :
  elems ≠ [] → strings_Join (e :: elems) slash = e +:+ slash +:+ strings_Join elems slash.
Proof. by destruct elems. Qed.

Lemma abs_join elems : elems ≠ [] → abs elems = strings_Join ("" :: elems) slash.
Proof. intros Hne. by rewrite join_cons. Qed.

Lemma join_app l1 l2 :
  l1 ≠ [] → l2 ≠ [] →
  strings_Join (l1 ++ l2) slash = strings_Join l1 slash +:+ slash +:+ strings_Join l2 slash.
Proof.
  intros H1 H2. induction l1 as [|e l1 IH]; [done|]. destruct l1 as [|e' l1].
  - cbn [app]. by apply join_cons.
  - change ((e :: e' :: l1) ++ l2) with (e :: (e' :: l1) ++ l2).
    rewrite !join_cons by done. rewrite IH by done. by rewrite !sapp_assoc.
Qed.

Lemma path_Clean_abs elems : elems ≠ [] → plain elems → path_Clean (abs elems) = abs elems.
Proof.
  intros Hne Hp. apply (path_Clean_join true); [done|]. by apply clean_acc_plain, Forall_rev.
Qed.

Lemma plain_snoc elems e : plain (elems ++ [e]) ↔ plain elems ∧ plain_elem e = true.
Proof. unfold plain. rewrite Forall_app, Forall_singleton. done. Qed.

Lemma path_elems_abs elems : elems ≠ [] → plain elems → path_elems (abs elems) = elems.
Proof.
  intros Hne Hp. unfold path_elems. rewrite abs_join, (split_join slash_char) by
    (done || (constructor; [done|by apply plain_elems_no_slash])).
  rewrite filter_cons, decide_False by tauto. clear Hne.
  induction Hp as [|e elems He Hp IH]; [done|]. apply plain_elem_spec in He.
  rewrite filter_cons, decide_True by tauto. by rewrite IH.
Qed.

(** A trailing slash is cleaned away. *)
Lemma path_Clean_abs_slash elems :
  elems ≠ [] → plain elems → path_Clean (abs elems +:+ slash) = abs elems.
Proof.
  intros Hne Hp. unfold path_Clean. rewrite decide_False by done.
  assert (Hpre : strings_HasPrefix (abs elems +:+ slash) slash = true)
    by (unfold abs; rewrite sapp_assoc; apply HasPrefix_app).
  rewrite Hpre. clear Hpre.
  replace (abs elems +:+ slash) with (strings_Join ("" :: elems ++ [""]) slash).
  2:{ rewrite join_cons by by destruct elems. rewrite join_app by done.
      unfold abs. by rewrite !sapp_assoc. }
  rewrite (split_join slash_char); [|done|].
  2:{ constructor; [done|]. apply Forall_app. split; [by apply plain_elems_no_slash|by constructor]. }
  cbn [foldl]. change (clean_step true [] "") with (@nil string). rewrite foldl_app. cbn [foldl].
  assert (Hf : foldl (clean_step true) [] elems = rev elems).
  { rewrite <- (rev_involutive elems) at 1. by apply clean_foldl_id, clean_acc_plain, Forall_rev. }
  rewrite Hf. unfold clean_step. rewrite decide_True by by left. by rewrite rev_involutive.
Qed.

Lemma dropWhile_app_all f s t :
  str_forallb f s = true → str_dropWhile f (s +:+ t) = str_dropWhile f t.
Proof.
  induction s as [|c s IH]; [done|]. intros [Hc Hs]%andb_true_iff. rewrite sapp_cons. simpl.
  rewrite Hc. by apply IH.
Qed.

Lemma filepath_Dir_abs elems e :
  elems ≠ [] → plain elems → plain_elem e = true → filepath_Dir (abs (elems ++ [e])) = abs elems.
Proof.
  intros Hne Hp He. apply plain_elem_spec in He as (_ & _ & _ & He).
  unfold filepath_Dir. unfold abs at 1. rewrite join_app by done. cbn [strings_Join].
  rewrite <- !sapp_assoc, !srev_app. change (String.rev slash) with slash.
  rewrite dropWhile_app_all.
  2:{ rewrite str_forallb_rev. exact He. }
  change (slash +:+ String.rev (strings_Join elems slash) +:+ slash) with
    (String slash_char (String.rev (strings_Join elems slash) +:+ slash)) at 1.
  cbn [str_dropWhile].
  change (negb (is_slash slash_char)) with false. cbv iota.
  rewrite srev_cons, srev_app, srev_involutive. change (String.rev slash) with slash.
  change (String slash_char "") with slash. by apply path_Clean_abs_slash.
Qed.

Lemma filepath_Join_abs dirs elems :
  dirs ≠ [] → elems ≠ [] → plain dirs → plain elems →
  filepath_Join (abs dirs) (strings_Join elems slash) = abs (dirs ++ elems).
Proof.
  intros Hd He Hpd Hpe. unfold filepath_Join. rewrite decide_False by done.
  replace (abs dirs +:+ slash +:+ strings_Join elems slash) with (abs (dirs ++ elems)).
  - apply path_Clean_abs; [by destruct dirs|]. by apply Forall_app.
  - unfold abs. rewrite join_app by done. by rewrite !sapp_assoc.
Qed.
