(* ===== verification/GoCrypto.v ===== *)
(** Go's [encoding/hex], [crypto/sha256] and [crypto/hmac] on byte strings:
    executable definitions (FIPS 180-4, RFC 2104), with 32-bit words kept in [Z]
    and their wrap-around written out. *)
From S2P Require Import Prelude GoStrings.

(** ** encoding/hex *)

Fixpoint hex_EncodeToString (s : string) : string :=
  match s with
  | EmptyString => ""
  | String c s' =>
      String (hex_digit (byte_val c / 16)) (String (hex_digit (byte_val c mod 16))
        (hex_EncodeToString s'))
  end.

Definition hex_val (c : ascii) : option Z :=
  let b := byte_val c in
  if ((48 <=? b) && (b <=? 57))%Z then Some (b - 48)%Z
  else if ((97 <=? b) && (b <=? 102))%Z then Some (b - 87)%Z
  else if ((65 <=? b) && (b <=? 70))%Z then Some (b - 55)%Z
  else None.

Definition hex_upper (n : Z) : ascii := byte_of (if (n <? 10)%Z then 48 + n else 55 + n)%Z.

(** The verb [%#U] of a byte: the code point, then the character in quotes when
    it is printable (a Latin-1 one is printed as UTF-8). *)
Definition fmt_U (c : ascii) : string :=
  let b := byte_val c in
  "U+00" +:+ String (hex_upper (b / 16)) (String (hex_upper (b mod 16)) "") +:+
  (if ((32 <=? b) && (b <? 127))%Z then " '" +:+ String c "'"
   else if ((161 <=? b) && negb (b =? 173))%Z
   then " '" +:+ String (byte_of (192 + b / 64)) (String (byte_of (128 + b mod 64)) "'")
   else "").

Definition hex_invalid (c : ascii) : error := Err ("encoding/hex: invalid byte: " +:+ fmt_U c).

Fixpoint hex_DecodeString (s : string) : result string :=
  match s with
  | EmptyString => Ok ""
  | String p EmptyString =>
      match hex_val p with
      | None => Failed (hex_invalid p)
      | Some _ => Failed (Err "encoding/hex: odd length hex string")
      end
  | String p (String q s') =>
      match hex_val p, hex_val q with
      | None, _ => Failed (hex_invalid p)
      | _, None => Failed (hex_invalid q)
      | Some a, Some b => r ← hex_DecodeString s'; Ok (String (byte_of (16 * a + b)) r)
      end
  end.

(** ** crypto/sha256 *)

Definition W32 : Z := 4294967296.
Definition add32 (a b : Z) : Z := ((a + b) mod W32)%Z.
Definition rotr (n x : Z) : Z := Z.lor (Z.shiftr x n) (Z.shiftl x (32 - n) mod W32).
Definition not32 (x : Z) : Z := (W32 - 1 - x)%Z.

Definition Ch (x y z : Z) : Z := Z.lxor (Z.land x y) (Z.land (not32 x) z).
Definition Maj (x y z : Z) : Z :=
  Z.lxor (Z.lxor (Z.land x y) (Z.land x z)) (Z.land y z).
Definition Sigma0 (x : Z) : Z := Z.lxor (Z.lxor (rotr 2 x) (rotr 13 x)) (rotr 22 x).
Definition Sigma1 (x : Z) : Z := Z.lxor (Z.lxor (rotr 6 x) (rotr 11 x)) (rotr 25 x).
Definition sigma0 (x : Z) : Z := Z.lxor (Z.lxor (rotr 7 x) (rotr 18 x)) (Z.shiftr x 3).
Definition sigma1 (x : Z) : Z := Z.lxor (Z.lxor (rotr 17 x) (rotr 19 x)) (Z.shiftr x 10).

(** The integer cube root, bit by bit from the top. *)
Fixpoint icbrt (bits : nat) (n acc : Z) : Z :=
  match bits with
  | O => acc
  | S b =>
      let c := (acc + 2 ^ Z.of_nat b)%Z in
      icbrt b n (if (c * c * c <=? n)%Z then c else acc)
  end.

(** No divisor of [n] from [d] up to its square root. *)
Fixpoint no_divisor (fuel : nat) (d n : Z) : bool :=
  match fuel with
  | O => true
  | S f => if (n <? d * d)%Z then true else if (n mod d =? 0)%Z then false else no_divisor f (d + 1) n
  end.
Definition is_prime (n : Z) : bool := no_divisor 20 2 n.

(** The round constants: the first 32 bits of the fractional parts of the cube
    roots of the first 64 primes. *)
Definition K256 : list Z := Eval vm_compute in
  map (λ p, icbrt 36 (p * 2 ^ 96) 0 mod W32)%Z (List.filter is_prime (map Z.of_nat (seq 2 310))).

Record sha_state := ShaState { ha : Z; hb : Z; hc : Z; hd : Z; he : Z; hf : Z; hg : Z; hh : Z }.

Definition sha_init : sha_state :=
  ShaState 0x6a09e667 0xbb67ae85 0x3c6ef372 0xa54ff53a 0x510e527f 0x9b05688c 0x1f83d9ab 0x5be0cd19.

(** The message schedule as a window of sixteen words: the next word is appended
    as the oldest leaves. *)
Definition sched_next (w : list Z) : Z :=
  add32 (add32 (sigma1 (nth 14 w 0%Z)) (nth 9 w 0%Z))
        (add32 (sigma0 (nth 1 w 0%Z)) (nth 0 w 0%Z)).

Definition sha_round (sw : sha_state * list Z) (k : Z) : sha_state * list Z :=
  let '(s, w) := sw in
  let t1 := add32 (add32 (add32 (hh s) (Sigma1 (he s))) (Ch (he s) (hf s) (hg s)))
                  (add32 k (nth 0 w 0%Z)) in
  let t2 := add32 (Sigma0 (ha s)) (Maj (ha s) (hb s) (hc s)) in
  (ShaState (add32 t1 t2) (ha s) (hb s) (hc s) (add32 (hd s) t1) (he s) (hf s) (hg s),
   tail w ++ [sched_next w]).

Definition sha_compress (s : sha_state) (block : list Z) : sha_state :=
  let t := (foldl sha_round (s, block) K256).1 in
  ShaState (add32 (ha s) (ha t)) (add32 (hb s) (hb t)) (add32 (hc s) (hc t)) (add32 (hd s) (hd t))
           (add32 (he s) (he t)) (add32 (hf s) (hf t)) (add32 (hg s) (hg t)) (add32 (hh s) (hh t)).

Fixpoint string_bytes (s : string) : list Z :=
  match s with EmptyString => [] | String c s' => byte_val c :: string_bytes s' end.
Fixpoint bytes_string (l : list Z) : string :=
  match l with [] => "" | b :: l' => String (byte_of b) (bytes_string l') end.

(** [n] bytes, the most significant first. *)
Fixpoint be_bytes (n : nat) (x : Z) : list Z :=
  match n with O => [] | S n' => Z.shiftr x (8 * Z.of_nat n') mod 256 :: be_bytes n' x end%Z.

Definition sha_pad (m : list Z) : list Z :=
  let len := Z.of_nat (length m) in
  m ++ 128%Z :: replicate (Z.to_nat ((55 - len) mod 64)) 0%Z ++ be_bytes 8 (8 * len).

Fixpoint be_words (l : list Z) : list Z :=
  match l with
  | a :: b :: c :: d :: l' => (((a * 256 + b) * 256 + c) * 256 + d)%Z :: be_words l'
  | _ => []
  end.

(** Compress each group of sixteen words; [buf] holds the [n] last ones read. *)
Fixpoint sha_blocks (s : sha_state) (buf : list Z) (n : nat) (ws : list Z) : sha_state :=
  match ws with
  | [] => s
  | w :: ws' =>
      if n =? 15 then sha_blocks (sha_compress s (rev (w :: buf))) [] 0 ws'
      else sha_blocks s (w :: buf) (S n) ws'
  end.

Definition sha_digest (s : sha_state) : list Z :=
  be_bytes 4 (ha s) ++ be_bytes 4 (hb s) ++ be_bytes 4 (hc s) ++ be_bytes 4 (hd s) ++
  be_bytes 4 (he s) ++ be_bytes 4 (hf s) ++ be_bytes 4 (hg s) ++ be_bytes 4 (hh s).

Definition sha256_bytes (m : list Z) : list Z :=
  sha_digest (sha_blocks sha_init [] 0 (be_words (sha_pad m))).

(** [sha256.Sum256]. *)
Definition sha256_Sum256 (s : string) : string := bytes_string (sha256_bytes (string_bytes s)).

(** ** crypto/hmac with SHA-256 *)

Definition hmac_key (key : list Z) : list Z :=
  let k := if (64 <? length key)%nat then sha256_bytes key else key in
  k ++ replicate (64 - length k) 0%Z.

Definition hmac_sha256 (secret body : string) : string :=
  let k := hmac_key (string_bytes secret) in
  let ipad := map (Z.lxor 0x36) k in
  let opad := map (Z.lxor 0x5c) k in
  bytes_string (sha256_bytes (opad ++ sha256_bytes (ipad ++ string_bytes body))).

(** [subtle.ConstantTimeCompare]: every byte is looked at, whatever differs. *)
Fixpoint ct_diff (v : Z) (x y : string) : Z :=
  match x, y with
  | String a x', String b y' => ct_diff (Z.lor v (Z.lxor (byte_val a) (byte_val b))) x' y'
  | _, _ => v
  end.
Definition hmac_Equal (x y : string) : bool :=
  (String.length x =? String.length y) && (ct_diff 0 x y =? 0)%Z.

(** ** Hexadecimal *)

Lemma hex_val_digit n : (0 <= n < 16)%Z → hex_val (hex_digit n) = Some n.
Proof.
  intros Hn. assert (H : n ∈ map Z.of_nat (seq 0 16)).
  { apply list_elem_of_In, in_map_iff. exists (Z.to_nat n). rewrite in_seq. lia. }
  revert H. clear Hn. revert n. apply Forall_forall. by repeat constructor.
Qed.

(** [hex.DecodeString] undoes [hex.EncodeToString]. *)
Lemma hex_decode_encode s : hex_DecodeString (hex_EncodeToString s) = Ok s.
Proof.
  induction s as [|c s IH]; [done|]. pose proof (byte_val_bound c) as Hc. simpl.
  rewrite !hex_val_digit, IH
    by first [apply Z.mod_pos_bound; lia | split; [apply Z.div_pos|apply Z.div_lt_upper_bound]; lia].
  change (Ok (String (byte_of (16 * (byte_val c / 16) + byte_val c mod 16)) s) = Ok (String c s)).
  by rewrite <- Z.div_mod, byte_of_val by done.
Qed.

Lemma hex_encode_inj s t : hex_EncodeToString s = hex_EncodeToString t → s = t.
Proof.
  intros H. apply (f_equal hex_DecodeString) in H.
  rewrite !hex_decode_encode in H. congruence.
Qed.

Lemma hex_encode_length s : String.length (hex_EncodeToString s) = 2 * String.length s.
Proof. induction s as [|c s IH]; [done|]. simpl. lia. Qed.

(** The digits an encoding uses: [0-9a-f]. *)
Definition lower_hex (c : ascii) : bool :=
  let b := byte_val c in
  (((48 <=? b) && (b <=? 57)) || ((97 <=? b) && (b <=? 102)))%Z.

Lemma hex_digit_lower n : (0 <= n < 16)%Z → lower_hex (hex_digit n) = true.
Proof.
  intros Hn. unfold lower_hex, hex_digit. rewrite byte_val_of.
  destruct (Z.ltb_spec n 10); rewrite Z.mod_small by lia.
  - by rewrite (proj2 (Z.leb_le 48 _)), (proj2 (Z.leb_le _ 57)) by lia.
  - by rewrite (proj2 (Z.leb_le 97 _)), (proj2 (Z.leb_le _ 102)), orb_true_r by lia.
Qed.

Lemma hex_encode_lower s : str_forallb lower_hex (hex_EncodeToString s) = true.
Proof.
  induction s as [|c s IH]; [done|]. pose proof (byte_val_bound c) as Hc. simpl.
  rewrite !hex_digit_lower, IH
    by first [apply Z.mod_pos_bound; lia | split; [apply Z.div_pos|apply Z.div_lt_upper_bound]; lia].
  done.
Qed.

(** ** SHA-256 *)

Lemma be_bytes_length n x : length (be_bytes n x) = n.
Proof. induction n as [|n IH]; [done|]. simpl. by rewrite IH. Qed.

Lemma bytes_string_length l : String.length (bytes_string l) = length l.
Proof. induction l as [|b l IH]; [done|]. simpl. by rewrite IH. Qed.

Lemma sha_digest_length s : length (sha_digest s) = 32.
Proof. unfold sha_digest. by rewrite !length_app, !be_bytes_length. Qed.

Lemma sha256_length s : String.length (sha256_Sum256 s) = 32.
Proof. unfold sha256_Sum256, sha256_bytes. by rewrite bytes_string_length, sha_digest_length. Qed.

Lemma hmac_length k b : String.length (hmac_sha256 k b) = 32.
Proof. unfold hmac_sha256, sha256_bytes. by rewrite bytes_string_length, sha_digest_length. Qed.

(** Padding yields whole 64-byte blocks, so no byte is dropped. *)
Lemma sha_pad_blocks m : (Z.of_nat (length (sha_pad m)) mod 64 = 0)%Z.
Proof.
  unfold sha_pad. rewrite length_app, length_cons, length_app, length_replicate, be_bytes_length.
  pose proof (Z.mod_pos_bound (55 - Z.of_nat (length m)) 64 eq_refl).
  pose proof (Z.div_mod (55 - Z.of_nat (length m)) 64 ltac:(done)) as Hd.
  replace (Z.of_nat _) with ((1 - (55 - Z.of_nat (length m)) / 64) * 64)%Z by lia.
  apply Z.mod_mul. done.
Qed.

(** FIPS 180-4 and RFC 4231 test vectors. *)
Example sha256_abc : hex_EncodeToString (sha256_Sum256 "abc") =
  "ba7816bf8f01cfea414140de5dae2223b00361a396177a9cb410ff61f20015ad".
Proof. vm_compute. reflexivity. Qed.
Example sha256_two_blocks :
  hex_EncodeToString (sha256_Sum256 "abcdbcdecdefdefgefghfghighijhijkijkljklmklmnlmnomnopnopq") =
  "248d6a61d20638b8e5c026930c3e6039a33ce45964ff2167f6ecedd419db06c1".
Proof. vm_compute. reflexivity. Qed.
Example hmac_rfc4231_2 :
  hex_EncodeToString (hmac_sha256 "Jefe" "what do ya want for nothing?") =
  "5bdcc146bf60754e6a042426089575c75a003f089d2739839dec58b964ec3843".
Proof. vm_compute. reflexivity. Qed.

(** ** Constant-time comparison *)

Lemma ct_diff_zero x y v :
  String.length x = String.length y → (0 <= v)%Z →
  ct_diff v x y = 0%Z ↔ v = 0%Z ∧ x = y.
Proof.
  revert y v. induction x as [|a x IH]; intros [|b y] v Hlen Hv; try done.
  { simpl. naive_solver. }
  simpl. injection Hlen as Hlen.
  pose proof (byte_val_bound a). pose proof (byte_val_bound b).
  assert (0 ≤ Z.lxor (byte_val a) (byte_val b))%Z by (apply Z.lxor_nonneg; lia).
  rewrite IH; [|done|by apply Z.lor_nonneg].
  rewrite Z.lor_eq_0_iff, Z.lxor_eq_0_iff. split.
  - intros [[-> Hab%byte_val_inj] ->]. by subst.
  - intros [-> Heq]. by injection Heq as -> ->.
Qed.

(** [hmac.Equal] decides equality. *)
Lemma hmac_Equal_spec x y : hmac_Equal x y = true ↔ x = y.
Proof.
  unfold hmac_Equal. rewrite andb_true_iff, Nat.eqb_eq, Z.eqb_eq. split.
  - intros [Hlen H]. by apply ct_diff_zero in H as [_ ->].
  - intros ->. split; [done|]. by apply ct_diff_zero.
Qed.

Lemma hmac_Equal_false x y : hmac_Equal x y = false ↔ x ≠ y.
Proof. rewrite <- not_true_iff_false, hmac_Equal_spec. done. Qed.

#[export] Hint Rewrite hex_decode_encode hex_encode_length sha256_length hmac_length : accord.
#[export] Hint Resolve hex_encode_lower sha256_length : accord.

#[global] Opaque sha256_Sum256 hmac_sha256.
