(* ===== verification/GoUtf8.v ===== *)
(** UTF-8 as Go's [unicode/utf8] decodes it: a string is a sequence of encoded
    runes and of bytes that start none, each of the latter being one invalid
    rune of width one. *)
From S2P Require Import Prelude.

(** A byte within inclusive bounds. *)
Definition in_range (lo hi : Z) (c : ascii) : bool := ((lo <=? byte_val c) && (byte_val c <=? hi))%Z.

(** Well-formed encodings of one to four bytes. *)
Definition utf8_1 (c1 : ascii) : bool := (byte_val c1 <? 128)%Z.
Definition utf8_2 (c1 c2 : ascii) : bool := in_range 0xC2 0xDF c1 && in_range 0x80 0xBF c2.
Definition utf8_3 (c1 c2 c3 : ascii) : bool :=
  ((in_range 0xE0 0xE0 c1 && in_range 0xA0 0xBF c2) ||
   (in_range 0xE1 0xEC c1 && in_range 0x80 0xBF c2) ||
   (in_range 0xED 0xED c1 && in_range 0x80 0x9F c2) ||
   (in_range 0xEE 0xEF c1 && in_range 0x80 0xBF c2)) && in_range 0x80 0xBF c3.
Definition utf8_4 (c1 c2 c3 c4 : ascii) : bool :=
  ((in_range 0xF0 0xF0 c1 && in_range 0x90 0xBF c2) ||
   (in_range 0xF1 0xF3 c1 && in_range 0x80 0xBF c2) ||
   (in_range 0xF4 0xF4 c1 && in_range 0x80 0x8F c2)) &&
  in_range 0x80 0xBF c3 && in_range 0x80 0xBF c4.

(** The string is the encoding of one rune. *)
Definition is_rune (r : string) : bool :=
  match r with
  | String c1 EmptyString => utf8_1 c1
  | String c1 (String c2 EmptyString) => utf8_2 c1 c2
  | String c1 (String c2 (String c3 EmptyString)) => utf8_3 c1 c2 c3
  | String c1 (String c2 (String c3 (String c4 EmptyString))) => utf8_4 c1 c2 c3 c4
  | _ => false
  end.

(** Fold over the runes of a string, from the right; [bad] is given a byte that
    starts no rune. *)
Fixpoint utf8_fold {A} (ok : string → A → A) (bad : ascii → A → A) (nil : A) (s : string) : A :=
  match s with
  | EmptyString => nil
  | String c1 r1 =>
      if utf8_1 c1 then ok (String c1 "") (utf8_fold ok bad nil r1) else
      match r1 with
      | EmptyString => bad c1 (utf8_fold ok bad nil r1)
      | String c2 r2 =>
          if utf8_2 c1 c2 then ok (String c1 (String c2 "")) (utf8_fold ok bad nil r2) else
          match r2 with
          | EmptyString => bad c1 (utf8_fold ok bad nil r1)
          | String c3 r3 =>
              if utf8_3 c1 c2 c3
              then ok (String c1 (String c2 (String c3 ""))) (utf8_fold ok bad nil r3) else
              match r3 with
              | EmptyString => bad c1 (utf8_fold ok bad nil r1)
              | String c4 r4 =>
                  if utf8_4 c1 c2 c3 c4
                  then ok (String c1 (String c2 (String c3 (String c4 "")))) (utf8_fold ok bad nil r4)
                  else bad c1 (utf8_fold ok bad nil r1)
              end
          end
      end
  end.

Definition utf8_valid : string → bool := utf8_fold (λ _ b, b) (λ _ _, false) true.

(** U+FFFD, what an invalid byte is replaced by. *)
Definition rune_error : string :=
  String (byte_of 0xEF) (String (byte_of 0xBF) (String (byte_of 0xBD) "")).

Definition utf8_coerce : string → string :=
  utf8_fold (λ r a, r +:+ a) (λ _ a, rune_error +:+ a) "".

(** [utf8.EncodeRune] of a code point that is no surrogate. *)
Definition encode_rune (z : Z) : string :=
  if (z <? 0x80)%Z then String (byte_of z) ""
  else if (z <? 0x800)%Z then String (byte_of (0xC0 + z / 64)) (String (byte_of (0x80 + z mod 64)) "")
  else if (z <? 0x10000)%Z then
    String (byte_of (0xE0 + z / 4096)) (String (byte_of (0x80 + z / 64 mod 64))
      (String (byte_of (0x80 + z mod 64)) ""))
  else String (byte_of (0xF0 + z / 262144)) (String (byte_of (0x80 + z / 4096 mod 64))
      (String (byte_of (0x80 + z / 64 mod 64)) (String (byte_of (0x80 + z mod 64)) ""))).

(** ** Lemmas *)

Lemma in_range_spec lo hi c : in_range lo hi c = true ↔ (lo <= byte_val c <= hi)%Z.
Proof. unfold in_range. rewrite andb_true_iff, !Z.leb_le. lia. Qed.

Lemma in_range_false lo hi c : (byte_val c < lo ∨ hi < byte_val c)%Z → in_range lo hi c = false.
Proof. intros H. apply not_true_iff_false. rewrite in_range_spec. lia. Qed.

(** The first byte of a rune tells its length. *)
Lemma utf8_2_lead c1 c2 : utf8_2 c1 c2 = true → (0xC2 <= byte_val c1 <= 0xDF)%Z.
Proof. unfold utf8_2. rewrite andb_true_iff, !in_range_spec. lia. Qed.
Lemma utf8_3_lead c1 c2 c3 : utf8_3 c1 c2 c3 = true → (0xE0 <= byte_val c1 <= 0xEF)%Z.
Proof. unfold utf8_3. rewrite !andb_true_iff, !orb_true_iff, !andb_true_iff, !in_range_spec. lia. Qed.
Lemma utf8_4_lead c1 c2 c3 c4 : utf8_4 c1 c2 c3 c4 = true → (0xF0 <= byte_val c1 <= 0xF4)%Z.
Proof. unfold utf8_4. rewrite !andb_true_iff, !orb_true_iff, !andb_true_iff, !in_range_spec. lia. Qed.

Lemma utf8_1_false c : (128 <= byte_val c)%Z → utf8_1 c = false.
Proof. intros H. by apply Z.ltb_ge. Qed.
Lemma utf8_2_false c1 c2 : (0xE0 <= byte_val c1)%Z → utf8_2 c1 c2 = false.
Proof. intros H. unfold utf8_2. rewrite in_range_false by lia. done. Qed.
Lemma utf8_3_false c1 c2 c3 : (0xF0 <= byte_val c1)%Z → utf8_3 c1 c2 c3 = false.
Proof. intros H. unfold utf8_3. by rewrite !(in_range_false _ _ c1) by lia. Qed.

Section fold.
Context {A : Type} (ok : string → A → A) (bad : ascii → A → A) (nil : A).
Abbreviation fold := (utf8_fold ok bad nil).

Lemma utf8_fold_rune r s : is_rune r = true → fold (r +:+ s) = ok r (fold s).
Proof.
  destruct r as [|c1 [|c2 [|c3 [|c4 [|]]]]]; try done; intros H; rewrite !sapp_cons, sapp_nil_l;
    cbn [is_rune] in H; cbn [utf8_fold].
  - by rewrite H.
  - pose proof (utf8_2_lead _ _ H). by rewrite utf8_1_false, H by lia.
  - pose proof (utf8_3_lead _ _ _ H). by rewrite utf8_1_false, utf8_2_false, H by lia.
  - pose proof (utf8_4_lead _ _ _ _ H).
    by rewrite utf8_1_false, utf8_2_false, utf8_3_false, H by lia.
Qed.
End fold.

(** A string is empty, starts with a rune, or starts with an invalid byte. *)
Inductive utf8_view : string → Prop :=
| view_nil : utf8_view ""
| view_rune r s : is_rune r = true → utf8_view (r +:+ s)
| view_bad c s :
    (∀ A (ok : string → A → A) bad nil,
       utf8_fold ok bad nil (String c s) = bad c (utf8_fold ok bad nil s)) →
    utf8_view (String c s).

Lemma utf8_view_all s : utf8_view s.
Proof.
  destruct s as [|c1 r1]; [constructor|].
  destruct (utf8_1 c1) eqn:H1; [by apply (view_rune (String c1 "") r1)|].
  destruct r1 as [|c2 r2].
  { apply view_bad. intros. cbn [utf8_fold]. by rewrite H1. }
  destruct (utf8_2 c1 c2) eqn:H2; [by apply (view_rune (String c1 (String c2 "")) r2)|].
  destruct r2 as [|c3 r3].
  { apply view_bad. intros. cbn [utf8_fold]. by rewrite H1, H2. }
  destruct (utf8_3 c1 c2 c3) eqn:H3;
    [by apply (view_rune (String c1 (String c2 (String c3 ""))) r3)|].
  destruct r3 as [|c4 r4].
  { apply view_bad. intros. cbn [utf8_fold]. by rewrite H1, H2, H3. }
  destruct (utf8_4 c1 c2 c3 c4) eqn:H4;
    [by apply (view_rune (String c1 (String c2 (String c3 (String c4 "")))) r4)|].
  apply view_bad. intros. cbn [utf8_fold]. by rewrite H1, H2, H3, H4.
Qed.

Lemma is_rune_length r : is_rune r = true → 0 < String.length r ≤ 4.
Proof. destruct r as [|c1 [|c2 [|c3 [|c4 [|]]]]]; try done; simpl; lia. Qed.

(** Induction along the runes. *)
Lemma utf8_ind (P : string → Prop) :
  P "" →
  (∀ r s, is_rune r = true → P s → P (r +:+ s)) →
  (∀ c s, (∀ A (ok : string → A → A) bad nil,
             utf8_fold ok bad nil (String c s) = bad c (utf8_fold ok bad nil s)) →
          P s → P (String c s)) →
  ∀ s, P s.
Proof.
  intros H0 Hr Hb s. induction s as [s IH] using str_len_ind.
  destruct (utf8_view_all s) as [|r t Ht|c t Ht]; [done| |].
  - apply Hr; [done|]. apply IH. apply is_rune_length in Ht. rewrite slen_app. lia.
  - apply Hb; [done|]. apply IH. simpl. lia.
Qed.

Lemma utf8_valid_rune r s : is_rune r = true → utf8_valid (r +:+ s) = utf8_valid s.
Proof. intros H. unfold utf8_valid. by rewrite utf8_fold_rune. Qed.

(** Induction over a valid string. *)
Lemma utf8_valid_ind (P : string → Prop) :
  P "" → (∀ r s, is_rune r = true → utf8_valid s = true → P s → P (r +:+ s)) →
  ∀ s, utf8_valid s = true → P s.
Proof.
  intros H0 Hr s. induction s as [|r s H IH|c s H IH] using utf8_ind; [done| |].
  - rewrite utf8_valid_rune by done. auto.
  - unfold utf8_valid. by rewrite H.
Qed.

Lemma utf8_valid_app s t : utf8_valid s = true → utf8_valid (s +:+ t) = utf8_valid t.
Proof.
  intros Hs. revert s Hs. apply utf8_valid_ind; [done|].
  intros r s' Hr _ IH. by rewrite sapp_assoc, utf8_valid_rune.
Qed.

Lemma rune_error_rune : is_rune rune_error = true.
Proof. done. Qed.

Lemma utf8_coerce_valid s : utf8_valid (utf8_coerce s) = true.
Proof.
  induction s as [|r s H IH|c s H IH] using utf8_ind; [done| |]; unfold utf8_coerce.
  - by rewrite utf8_fold_rune, utf8_valid_rune.
  - rewrite H. by rewrite utf8_valid_rune.
Qed.

Lemma utf8_coerce_id s : utf8_valid s = true → utf8_coerce s = s.
Proof.
  revert s. apply utf8_valid_ind; [done|]. intros r s' Hr _ IH.
  unfold utf8_coerce in *. by rewrite utf8_fold_rune, IH.
Qed.

Lemma in_range_byte_of lo hi z :
  (0 <= z < 256)%Z → (lo <= z <= hi)%Z → in_range lo hi (byte_of z) = true.
Proof. intros Hz H. apply in_range_spec. rewrite byte_val_of, Z.mod_small; lia. Qed.

Lemma encode_rune_rune z :
  (0 <= z < 0xD800 ∨ 0xE000 <= z < 0x110000)%Z → is_rune (encode_rune z) = true.
Proof.
  intros Hz. unfold encode_rune.
  destruct (Z.ltb_spec z 0x80).
  { simpl. unfold utf8_1. rewrite byte_val_of, Z.mod_small by lia. apply Z.ltb_lt. lia. }
  pose proof (Z.div_mod z 64 ltac:(done)) as E1.
  pose proof (Z.mod_pos_bound z 64 eq_refl) as B1.
  destruct (Z.ltb_spec z 0x800).
  { simpl. unfold utf8_2. rewrite !in_range_byte_of by lia. done. }
  pose proof (Z.div_mod (z / 64) 64 ltac:(done)) as E2.
  pose proof (Z.mod_pos_bound (z / 64) 64 eq_refl) as B2.
  rewrite Z.div_div in E2 by done. change (64 * 64)%Z with 4096%Z in E2.
  destruct (Z.ltb_spec z 0x10000).
  { simpl. unfold utf8_3. rewrite (in_range_byte_of 0x80 0xBF (0x80 + z mod 64)) by lia.
    rewrite andb_true_r, !orb_true_iff, !andb_true_iff, !in_range_spec, !byte_val_of,
      !(Z.mod_small _ 256) by lia. lia. }
  pose proof (Z.div_mod (z / 4096) 64 ltac:(done)) as E3.
  pose proof (Z.mod_pos_bound (z / 4096) 64 eq_refl) as B3.
  rewrite Z.div_div in E3 by done. change (4096 * 64)%Z with 262144%Z in E3.
  simpl. unfold utf8_4. rewrite (in_range_byte_of 0x80 0xBF (0x80 + z mod 64)) by lia.
  rewrite (in_range_byte_of 0x80 0xBF (0x80 + z / 64 mod 64)) by lia.
  rewrite !andb_true_r, !orb_true_iff, !andb_true_iff, !in_range_spec, !byte_val_of,
      !(Z.mod_small _ 256) by lia. lia.
Qed.

#[export] Hint Resolve utf8_coerce_valid rune_error_rune : accord.
