(* ===== verification/GoMap.v ===== *)
(** Go maps with string keys whose iteration order is not observed: association
    lists with strictly ascending keys. That form is canonical (maps with the
    same lookups are equal), and it is the order in which [encoding/json]
    prints a map. *)
From S2P Require Import Prelude.

Section defs.
Context {V : Type}.
Implicit Types (m l : list (string * V)) (k : string) (v : V).

Fixpoint amap_get (k : string) (m : list (string * V)) : option V :=
  match m with
  | [] => None
  | (k', v) :: m' => if decide (k = k') then Some v else amap_get k m'
  end.

Fixpoint amap_set (k : string) (v : V) (m : list (string * V)) : list (string * V) :=
  match m with
  | [] => [(k, v)]
  | (k', v') :: m' =>
      match String.compare k k' with
      | Lt => (k, v) :: m
      | Eq => (k, v) :: m'
      | Gt => (k', v') :: amap_set k v m'
      end
  end.

Fixpoint amap_delete (k : string) (m : list (string * V)) : list (string * V) :=
  match m with
  | [] => []
  | (k', v) :: m' => if decide (k = k') then amap_delete k m' else (k', v) :: amap_delete k m'
  end.

(** Assignments in order: the last one for a key wins. *)
Definition amap_of_list (l : list (string * V)) : list (string * V) :=
  foldl (λ m kv, amap_set kv.1 kv.2 m) [] l.

Definition str_lt (s t : string) : bool := bool_decide (String.compare s t = Lt).

Definition above (k : string) (m : list (string * V)) : bool :=
  match m with [] => true | (k', _) :: _ => str_lt k k' end.

(** Strictly ascending keys. *)
Fixpoint ascending (m : list (string * V)) : bool :=
  match m with [] => true | (k, _) :: m' => above k m' && ascending m' end.
End defs.

(** ** The order of keys *)

Lemma str_lt_spec s t : str_lt s t = true ↔ String.compare s t = Lt.
Proof. apply bool_decide_eq_true. Qed.

Lemma compare_refl s : String.compare s s = Eq.
Proof. induction s as [|c s IH]; [done|]. simpl. unfold Ascii.compare. by rewrite N.compare_refl. Qed.

Lemma compare_le s t : String.compare s t = Lt ↔ String.le s t ∧ s ≠ t.
Proof.
  unfold String.le, String.leb. destruct (String.compare s t) eqn:H.
  - apply String.compare_eq_iff in H. naive_solver.
  - split; [|done]. intros _. split; [done|]. intros ->.
    by rewrite compare_refl in H.
  - naive_solver.
Qed.

Lemma str_lt_trans s t u : str_lt s t = true → str_lt t u = true → str_lt s u = true.
Proof.
  rewrite !str_lt_spec, !compare_le. intros [H1 N1] [H2 N2]. split; [by etrans|].
  intros ->. apply N1. by apply (anti_symm String.le).
Qed.

Lemma str_lt_irrefl s : str_lt s s = false.
Proof. apply not_true_iff_false. rewrite str_lt_spec, compare_le. tauto. Qed.

Lemma compare_gt_lt s t : String.compare s t = Gt → str_lt t s = true.
Proof. intros H. rewrite str_lt_spec, String.compare_antisym, H. done. Qed.

Section lemmas.
Context {V : Type}.
Implicit Types (m l : list (string * V)) (k : string) (v : V).

Lemma above_trans k k' m : str_lt k k' = true → above k' m = true → above k m = true.
Proof. destruct m as [|[k2 v2] m]; [done|]. simpl. apply str_lt_trans. Qed.

Lemma above_get k m : above k m = true → ascending m = true → amap_get k m = None.
Proof.
  revert k. induction m as [|[k' v'] m IH]; intros k; [done|]. simpl.
  intros Hk [Hk' Hm]%andb_true_iff. rewrite decide_False.
  - apply IH; [by eapply above_trans|done].
  - intros ->. by rewrite str_lt_irrefl in Hk.
Qed.

Lemma above_set k k' v m : str_lt k k' = true → above k m = true → above k (amap_set k' v m) = true.
Proof.
  destruct m as [|[k2 v2] m]; [done|]. simpl. intros H1 H2.
  by destruct (String.compare k' k2).
Qed.

Lemma ascending_set k v m : ascending m = true → ascending (amap_set k v m) = true.
Proof.
  induction m as [|[k' v'] m IH]; [done|]. simpl. intros [Hk' Hm]%andb_true_iff.
  destruct (String.compare k k') eqn:Hc; simpl.
  - apply String.compare_eq_iff in Hc as ->. by rewrite Hk', Hm.
  - apply str_lt_spec in Hc. by rewrite Hc, Hk', Hm.
  - rewrite IH, above_set by (try done; by apply compare_gt_lt). done.
Qed.

Lemma get_set k k' v m :
  amap_get k (amap_set k' v m) = if decide (k = k') then Some v else amap_get k m.
Proof.
  induction m as [|[k2 v2] m IH]; [done|]. simpl.
  destruct (String.compare k' k2) eqn:Hc; simpl.
  - apply String.compare_eq_iff in Hc as ->. by case_decide.
  - done.
  - rewrite IH. destruct (decide (k = k2)) as [->|]; [|done].
    rewrite decide_False; [done|]. intros ->. by rewrite compare_refl in Hc.
Qed.

Lemma get_delete k k' m :
  amap_get k (amap_delete k' m) = if decide (k = k') then None else amap_get k m.
Proof.
  induction m as [|[k2 v2] m IH]; simpl; [by case_decide|].
  destruct (decide (k' = k2)) as [->|]; simpl; rewrite IH; repeat case_decide; congruence.
Qed.

Lemma above_delete k k' m : above k m = true → ascending m = true → above k (amap_delete k' m) = true.
Proof.
  induction m as [|[k2 v2] m IH]; [done|]. simpl.
  intros H1 [H2 H3]%andb_true_iff. case_decide; [|done].
  apply IH; [|done]. by eapply above_trans.
Qed.

Lemma ascending_delete k m : ascending m = true → ascending (amap_delete k m) = true.
Proof.
  induction m as [|[k2 v2] m IH]; [done|]. simpl. intros [H1 H2]%andb_true_iff.
  case_decide; simpl; [by apply IH|]. by rewrite above_delete, IH.
Qed.

(** Maps with the same lookups are equal. *)
Lemma amap_ext m1 m2 :
  ascending m1 = true → ascending m2 = true →
  (∀ k, amap_get k m1 = amap_get k m2) → m1 = m2.
Proof.
  revert m2. induction m1 as [|[k1 v1] m1 IH]; intros [|[k2 v2] m2] H1 H2 Hext.
  - done.
  - specialize (Hext k2). simpl in Hext. by rewrite decide_True in Hext.
  - specialize (Hext k1). simpl in Hext. by rewrite decide_True in Hext.
  - simpl in H1, H2. apply andb_true_iff in H1 as [A1 H1].
    apply andb_true_iff in H2 as [A2 H2].
    assert (k1 = k2) as ->.
    { destruct (decide (k1 = k2)) as [|Hne]; [done|]. exfalso.
      pose proof (Hext k1) as E1. pose proof (Hext k2) as E2. simpl in E1, E2.
      rewrite decide_True in E1 by done. rewrite (decide_True (P := k2 = k2)) in E2 by done.
      rewrite decide_False in E1 by done. rewrite decide_False in E2 by congruence.
      destruct (String.compare k1 k2) eqn:Hc.
      - by apply String.compare_eq_iff in Hc.
      - apply str_lt_spec in Hc. rewrite above_get in E1; [done| |done].
        by eapply above_trans.
      - apply compare_gt_lt in Hc. rewrite above_get in E2; [done| |done].
        by eapply above_trans. }
    pose proof (Hext k2) as E. simpl in E. rewrite !decide_True in E by done.
    injection E as ->. f_equal. apply IH; [done..|]. intros k.
    specialize (Hext k). simpl in Hext. case_decide as Hk; [subst k|done].
    by rewrite !above_get.
Qed.

Lemma ascending_of_list_acc l m :
  ascending m = true → ascending (foldl (λ m kv, amap_set kv.1 kv.2 m) m l) = true.
Proof. revert m. induction l as [|[k v] l IH]; intros m Hm; [done|]. by apply IH, ascending_set. Qed.

Lemma ascending_of_list l : ascending (amap_of_list l) = true.
Proof. by apply ascending_of_list_acc. Qed.

(** An element above all the others goes to the end. *)
Lemma amap_set_snoc k v m :
  Forall (λ kv, str_lt kv.1 k = true) m → amap_set k v m = m ++ [(k, v)].
Proof.
  induction 1 as [|[k' v'] m Hk' Hm IH]; [done|]. simpl.
  apply str_lt_spec in Hk'. simpl in Hk'. rewrite String.compare_antisym in Hk'.
  destruct (String.compare k k'); try done. by rewrite IH.
Qed.

Lemma ascending_above_all k m :
  above k m = true → ascending m = true → Forall (λ kv, str_lt k kv.1 = true) m.
Proof.
  revert k. induction m as [|[k' v'] m IH]; intros k; [by constructor|]. simpl.
  intros Hk [Hk' Hm]%andb_true_iff. constructor; [done|].
  apply IH; [by eapply above_trans|done].
Qed.

Lemma amap_of_list_acc l m :
  ascending (m ++ l) = true → foldl (λ m kv, amap_set kv.1 kv.2 m) m l = m ++ l.
Proof.
  revert m. induction l as [|[k v] l IH]; intros m H; [by rewrite app_nil_r|]. simpl.
  rewrite amap_set_snoc, IH; rewrite <- ?app_assoc; [done..|].
  clear IH. induction m as [|[k' v'] m IH]; [constructor|]. simpl in H.
  apply andb_true_iff in H as [Ha Hm]. constructor; [|auto].
  pose proof (ascending_above_all _ _ Ha Hm) as Hall.
  rewrite Forall_app, Forall_cons in Hall. tauto.
Qed.

(** Reading back a map in its order rebuilds it. *)
Lemma amap_of_ascending m : ascending m = true → amap_of_list m = m.
Proof. apply (amap_of_list_acc m []). Qed.

Lemma get_delete_eq k m : amap_get k (amap_delete k m) = None.
Proof. rewrite get_delete. by rewrite decide_True. Qed.

Lemma delete_fresh k m : ascending m = true → amap_get k m = None → amap_delete k m = m.
Proof.
  intros Hm Hk. apply amap_ext; [by apply ascending_delete|done|].
  intros k'. rewrite get_delete. case_decide; congruence.
Qed.

Lemma amap_get_nil m : (∀ k, amap_get k m = None) → m = [].
Proof.
  destruct m as [|[k v] m]; [done|]. intros H. specialize (H k). simpl in H.
  by rewrite decide_True in H.
Qed.

Lemma get_Forall (P : V → Prop) k v m :
  Forall (λ kv, P kv.2) m → amap_get k m = Some v → P v.
Proof.
  induction 1 as [|[k' v'] m Hv Hm IH]; [done|]. simpl. case_decide; [|done]. by intros [= <-].
Qed.

Lemma Forall_set (P : string * V → Prop) k v m :
  P (k, v) → Forall P m → Forall P (amap_set k v m).
Proof.
  intros Hv. induction 1 as [|[k' v'] m Hv' Hm IH]; [by repeat constructor|]. simpl.
  destruct (String.compare k k'); by repeat constructor.
Qed.

Lemma Forall_of_list (P : string * V → Prop) l : Forall P l → Forall P (amap_of_list l).
Proof.
  intros Hl. unfold amap_of_list. assert (H : Forall P []) by constructor. revert H.
  generalize (@nil (string * V)) as m. induction Hl as [|[k v] l Hv Hl IH]; intros m Hm; [done|].
  simpl. apply IH. by apply Forall_set.
Qed.

Lemma Forall_delete (P : string * V → Prop) k m : Forall P m → Forall P (amap_delete k m).
Proof. induction 1 as [|[k' v'] m Hv' Hm IH]; simpl; [done|]. case_decide; auto. Qed.

Lemma amap_delete_set k v m : amap_delete k (amap_set k v m) = amap_delete k m.
Proof.
  induction m as [|[k' v'] m IH]; simpl; [by rewrite decide_True|].
  destruct (String.compare k k') eqn:Hc; simpl.
  - apply String.compare_eq_iff in Hc as ->. by rewrite !decide_True.
  - by rewrite decide_True.
  - by rewrite IH.
Qed.
End lemmas.

#[export] Hint Resolve ascending_set ascending_delete ascending_of_list : accord.
#[export] Hint Resolve Forall_set Forall_of_list Forall_delete : accord.
#[export] Hint Rewrite @get_set @get_delete : accord.
