(* ===== verification/GoJson.v ===== *)
(** Go's [encoding/json] on byte strings: the grammar its scanner accepts, the
    decoding of strings, the conversion to [interface{}] values, and the compact
    encoding with HTML escaping of [json.Marshal]. *)
From S2P Require Import Prelude GoStrings GoUtf8 GoMap.

(** ** Values *)

(** JSON values over a type of numbers: the literal text after parsing, float64
    after conversion to [interface{}]. The members of an object are in the order
    of the text; a Go map is kept in ascending order of its keys. *)
Local Unset Elimination Schemes.
Inductive json (N : Type) : Type :=
| JNull
| JBool (b : bool)
| JNum (n : N)
| JStr (s : string)
| JArr (l : list (json N))
| JObj (l : list (string * json N)).
Local Set Elimination Schemes.
Arguments JNull {N}.
Arguments JBool {N} b.
Arguments JNum {N} n.
Arguments JStr {N} s.
Arguments JArr {N} l.
Arguments JObj {N} l.

(** float64: parsing of a literal fails when it is out of range; formatting uses
    the fewest digits that parse back to the same number. *)
Class Float64 := {
  f64 : Type;
  f64_parse : string → option f64;
  f64_format : f64 → string
}.

(** ** Lexical structure *)

Definition json_space (c : ascii) : bool :=
  let b := byte_val c in ((b =? 32) || (b =? 9) || (b =? 10) || (b =? 13))%Z.
Definition skip_ws : string → string := str_dropWhile json_space.

Definition is_digit (c : ascii) : bool := in_range 48 57 c.

Definition hexd (c : ascii) : option Z :=
  let b := byte_val c in
  if ((48 <=? b) && (b <=? 57))%Z then Some (b - 48)%Z
  else if ((97 <=? b) && (b <=? 102))%Z then Some (b - 87)%Z
  else if ((65 <=? b) && (b <=? 70))%Z then Some (b - 55)%Z
  else None.

Definition is_c (n : Z) (c : ascii) : bool := (byte_val c =? n)%Z.

(** The scanner inside a string literal: the bytes up to the closing quote, and
    what follows it. *)
Inductive lstate := LNorm | LEsc | LHex (n : nat).
#[export] Instance lstate_eq_dec : EqDecision lstate.
Proof. solve_decision. Defined.

Fixpoint lex_string (st : lstate) (s : string) : option (string * string) :=
  match s with
  | EmptyString => None
  | String c r =>
      let continue st' := prod_map (String c) id <$> lex_string st' r in
      match st with
      | LNorm =>
          if is_c 34 c then Some ("", r)
          else if is_c 92 c then continue LEsc
          else if (byte_val c <? 32)%Z then None
          else continue LNorm
      | LEsc =>
          if is_c 117 c then continue (LHex 3)
          else if is_c 98 c || is_c 102 c || is_c 110 c || is_c 114 c || is_c 116 c ||
                  is_c 92 c || is_c 47 c || is_c 34 c then continue LNorm
          else None
      | LHex n =>
          if bool_decide (hexd c = None) then None
          else continue (match n with O => LNorm | S n' => LHex n' end)
      end
  end.

Definition hex4 (a b c d : ascii) : option Z :=
  match hexd a, hexd b, hexd c, hexd d with
  | Some x, Some y, Some z, Some w => Some (((x * 16 + y) * 16 + z) * 16 + w)%Z
  | _, _, _, _ => None
  end.

Definition is_surrogate (r : Z) : bool := ((0xD800 <=? r) && (r <? 0xE000))%Z.

(** [utf16.DecodeRune]: the code point of a pair, or nothing. *)
Definition utf16_pair (r1 r2 : Z) : option Z :=
  if ((0xD800 <=? r1) && (r1 <? 0xDC00) && (0xDC00 <=? r2) && (r2 <? 0xE000))%Z
  then Some ((r1 - 0xD800) * 1024 + (r2 - 0xDC00) + 0x10000)%Z else None.

(** The byte a one-letter escape stands for. *)
Definition simple_escape (c : ascii) : option ascii :=
  if is_c 98 c then Some (byte_of 8)
  else if is_c 102 c then Some (byte_of 12)
  else if is_c 110 c then Some (byte_of 10)
  else if is_c 114 c then Some (byte_of 13)
  else if is_c 116 c then Some (byte_of 9)
  else if is_c 34 c || is_c 92 c || is_c 47 c || is_c 39 c then Some c
  else None.

(** [unquote] on the body of a literal the scanner has accepted: escapes are
    replaced, a lone surrogate and an invalid byte become U+FFFD. *)
Fixpoint unquote (s : string) : string :=
  match s with
  | EmptyString => ""
  | String c1 r1 =>
      if is_c 92 c1 then
        match r1 with
        | EmptyString => ""
        | String e r2 =>
            if is_c 117 e then
              match r2 with
              | String a (String b (String c (String d r6))) =>
                  match hex4 a b c d with
                  | None => ""
                  | Some rr =>
                      if is_surrogate rr then
                        match r6 with
                        | String bs (String u (String a' (String b' (String c' (String d' r12))))) =>
                            if is_c 92 bs && is_c 117 u then
                              match hex4 a' b' c' d' with
                              | None => rune_error +:+ unquote r6
                              | Some rr1 =>
                                  match utf16_pair rr rr1 with
                                  | Some p => encode_rune p +:+ unquote r12
                                  | None => rune_error +:+ unquote r6
                                  end
                              end
                            else rune_error +:+ unquote r6
                        | _ => rune_error +:+ unquote r6
                        end
                      else encode_rune rr +:+ unquote r6
                  end
              | _ => ""
              end
            else match simple_escape e with
                 | Some b => String b (unquote r2)
                 | None => ""
                 end
        end
      else if utf8_1 c1 then String c1 (unquote r1)
      else match r1 with
      | EmptyString => rune_error +:+ unquote r1
      | String c2 r2 =>
          if utf8_2 c1 c2 then String c1 (String c2 (unquote r2)) else
          match r2 with
          | EmptyString => rune_error +:+ unquote r1
          | String c3 r3 =>
              if utf8_3 c1 c2 c3 then String c1 (String c2 (String c3 (unquote r3))) else
              match r3 with
              | EmptyString => rune_error +:+ unquote r1
              | String c4 r4 =>
                  if utf8_4 c1 c2 c3 c4
                  then String c1 (String c2 (String c3 (String c4 (unquote r4))))
                  else rune_error +:+ unquote r1
              end
          end
      end
  end.

(** Number literals, taken as long as possible. *)
Definition lex_exponent (acc s : string) : option (string * string) :=
  match s with
  | String e r =>
      if is_c 101 e || is_c 69 e then
        let '(sg, r') := match r with
          | String g r' => if is_c 43 g || is_c 45 g then (String g "", r') else ("", r)
          | EmptyString => ("", r)
          end in
        let ds := str_takeWhile is_digit r' in
        if decide (ds = "") then None
        else Some (acc +:+ String e "" +:+ sg +:+ ds, str_dropWhile is_digit r')
      else Some (acc, s)
  | EmptyString => Some (acc, s)
  end.

Definition lex_fraction (acc s : string) : option (string * string) :=
  match s with
  | String dot r =>
      if is_c 46 dot then
        let ds := str_takeWhile is_digit r in
        if decide (ds = "") then None
        else lex_exponent (acc +:+ String dot "" +:+ ds) (str_dropWhile is_digit r)
      else lex_exponent acc s
  | EmptyString => lex_exponent acc s
  end.

Definition lex_integer (acc s : string) : option (string * string) :=
  match s with
  | String c r =>
      if is_c 48 c then lex_fraction (acc +:+ String c "") r
      else if is_digit c
      then lex_fraction (acc +:+ str_takeWhile is_digit s) (str_dropWhile is_digit s)
      else None
  | EmptyString => None
  end.

Definition lex_number (s : string) : option (string * string) :=
  match s with
  | String m r => if is_c 45 m then lex_integer (String m "") r else lex_integer "" s
  | EmptyString => None
  end.

(** ** The parser *)

(** The nesting depth the scanner allows. *)
Definition maxNestingDepth : Z := 10000.

Inductive presult (A : Type) : Type :=
| POk (a : A) (rest : string)
| PErr
| PFuel.
Arguments POk {A} a rest.
Arguments PErr {A}.
Arguments PFuel {A}.

Definition of_lex {A} (f : string → A) (o : option (string * string)) : presult A :=
  match o with Some (l, rest) => POk (f l) rest | None => PErr end.

Definition parse_literal {A} (word : string) (v : A) (s : string) : presult A :=
  if String.prefix word s then POk v (str_drop (String.length word) s) else PErr.

Fixpoint parse_value (n : nat) (depth : Z) (s : string) : presult (json string) :=
  match n with
  | O => PFuel
  | S n' =>
      match skip_ws s with
      | EmptyString => PErr
      | String c r as t =>
          if is_c 123 c then
            if (maxNestingDepth <=? depth)%Z then PErr else
            match skip_ws r with
            | String d r' =>
                if is_c 125 d then POk (JObj []) r'
                else match parse_members n' (depth + 1) r with
                     | POk l rest => POk (JObj l) rest
                     | PErr => PErr
                     | PFuel => PFuel
                     end
            | EmptyString => PErr
            end
          else if is_c 91 c then
            if (maxNestingDepth <=? depth)%Z then PErr else
            match skip_ws r with
            | String d r' =>
                if is_c 93 d then POk (JArr []) r'
                else match parse_elements n' (depth + 1) r with
                     | POk l rest => POk (JArr l) rest
                     | PErr => PErr
                     | PFuel => PFuel
                     end
            | EmptyString => PErr
            end
          else if is_c 34 c then of_lex (λ raw, JStr (unquote raw)) (lex_string LNorm r)
          else if is_c 116 c then parse_literal "true" (JBool true) t
          else if is_c 102 c then parse_literal "false" (JBool false) t
          else if is_c 110 c then parse_literal "null" JNull t
          else of_lex JNum (lex_number t)
      end
  end
with parse_members (n : nat) (depth : Z) (s : string) : presult (list (string * json string)) :=
  match n with
  | O => PFuel
  | S n' =>
      match skip_ws s with
      | String q r =>
          if is_c 34 q then
            match lex_string LNorm r with
            | None => PErr
            | Some (raw, r1) =>
                match skip_ws r1 with
                | String col r2 =>
                    if is_c 58 col then
                      match parse_value n' depth r2 with
                      | PErr => PErr
                      | PFuel => PFuel
                      | POk v r3 =>
                          match skip_ws r3 with
                          | String e r4 =>
                              if is_c 44 e then
                                match parse_members n' depth r4 with
                                | POk l rest => POk ((unquote raw, v) :: l) rest
                                | PErr => PErr
                                | PFuel => PFuel
                                end
                              else if is_c 125 e then POk [(unquote raw, v)] r4
                              else PErr
                          | EmptyString => PErr
                          end
                      end
                    else PErr
                | EmptyString => PErr
                end
            end
          else PErr
      | EmptyString => PErr
      end
  end
with parse_elements (n : nat) (depth : Z) (s : string) : presult (list (json string)) :=
  match n with
  | O => PFuel
  | S n' =>
      match parse_value n' depth s with
      | PErr => PErr
      | PFuel => PFuel
      | POk v r3 =>
          match skip_ws r3 with
          | String e r4 =>
              if is_c 44 e then
                match parse_elements n' depth r4 with
                | POk l rest => POk (v :: l) rest
                | PErr => PErr
                | PFuel => PFuel
                end
              else if is_c 93 e then POk [v] r4
              else PErr
          | EmptyString => PErr
          end
      end
  end.

(** Each byte costs at most two calls. *)
Definition parse_fuel (s : string) : nat := 2 * String.length s + 2.

(** A whole document: one value between white space. *)
Definition parse_json (s : string) : option (json string) :=
  match parse_value (parse_fuel s) 0 s with
  | POk v rest => if decide (skip_ws rest = "") then Some v else None
  | _ => None
  end.

(** ** Conversion to [interface{}] *)

Section interface.
Context `{Float64}.

(** [valueInterface]: numbers become float64, members are assigned to a fresh
    map in the order of the text. *)
Fixpoint to_interface (v : json string) : option (json f64) :=
  match v with
  | JNull => Some JNull
  | JBool b => Some (JBool b)
  | JNum lit => JNum <$> f64_parse lit
  | JStr s => Some (JStr s)
  | JArr l =>
      JArr <$> (fix go l := match l with
        | [] => Some []
        | v :: l' => v' ← to_interface v; l'' ← go l'; Some (v' :: l'')
        end) l
  | JObj l =>
      (λ l', JObj (amap_of_list l')) <$> (fix go l := match l with
        | [] => Some []
        | (k, v) :: l' => v' ← to_interface v; l'' ← go l'; Some ((k, v') :: l'')
        end) l
  end.

Fixpoint json_map {N M} (f : N → M) (v : json N) : json M :=
  match v with
  | JNull => JNull
  | JBool b => JBool b
  | JNum n => JNum (f n)
  | JStr s => JStr s
  | JArr l => JArr (map (json_map f) l)
  | JObj l => JObj (map (λ kv, (kv.1, json_map f kv.2)) l)
  end.
End interface.

(** ** The encoder *)

(** One ASCII byte of a string, with [escapeHTML] on. *)
Definition esc_byte (c : ascii) : string :=
  let b := byte_val c in
  if (b =? 34)%Z then String (byte_of 92) (String c "")
  else if (b =? 92)%Z then String c (String c "")
  else if (b =? 8)%Z then "\b" else if (b =? 12)%Z then "\f"
  else if (b =? 10)%Z then "\n" else if (b =? 13)%Z then "\r"
  else if (b =? 9)%Z then "\t"
  else if ((b <? 32) || (b =? 60) || (b =? 62) || (b =? 38))%Z
  then "\u00" +:+ String (hex_digit (b / 16)) (String (hex_digit (b mod 16)) "")
  else String c "".

Definition line_sep : string := String (byte_of 0xE2) (String (byte_of 0x80) (String (byte_of 0xA8) "")).
Definition para_sep : string := String (byte_of 0xE2) (String (byte_of 0x80) (String (byte_of 0xA9) "")).

Definition esc_rune (r : string) : string :=
  match r with
  | String c EmptyString => esc_byte c
  | _ => if decide (r = line_sep) then "\u2028"
         else if decide (r = para_sep) then "\u2029" else r
  end.

Definition esc_body : string → string :=
  utf8_fold (λ r a, esc_rune r +:+ a) (λ _ a, "\ufffd" +:+ a) "".

Definition json_quote (s : string) : string := dquote +:+ esc_body s +:+ dquote.

Fixpoint print_json (v : json string) : string :=
  match v with
  | JNull => "null"
  | JBool b => if b then "true" else "false"
  | JNum lit => lit
  | JStr s => json_quote s
  | JArr l => "[" +:+ strings_Join (map print_json l) "," +:+ "]"
  | JObj l => "{" +:+ strings_Join (map (λ kv, json_quote kv.1 +:+ ":" +:+ print_json kv.2) l) ","
              +:+ "}"
  end.

Section marshal.
Context `{Float64}.

(** [json.Marshal] of an [interface{}] value. *)
Definition marshal (v : json f64) : string := print_json (json_map f64_format v).

(** [json.Unmarshal] into an [interface{}]. *)
Definition unmarshal (s : string) : option (json f64) := v ← parse_json s; to_interface v.
End marshal.

(** An instance that keeps numbers as their literals. *)
Definition literal_ok (s : string) : bool := bool_decide (lex_number s = Some (s, "")).
Definition literal_f64 : Float64 := {|
  f64 := { s : string | literal_ok s = true };
  f64_parse s :=
    match bool_dec (literal_ok s) true with
    | left H => Some (s ↾ H)
    | right _ => None
    end;
  f64_format := proj1_sig
|}.
