(* ===== verification/GoJsonFacts.v ===== *)
(** Facts about [encoding/json]: the parser never runs out of fuel, what it
    accepts is well formed, and it reads back what the encoder prints. *)
From S2P Require Import Prelude GoStrings GoUtf8 GoMap GoJson.

(** ** Induction on values *)

Lemma json_ind' {N} (P : json N → Prop) :
  P JNull → (∀ b, P (JBool b)) → (∀ n, P (JNum n)) → (∀ s, P (JStr s)) →
  (∀ l, Forall P l → P (JArr l)) → (∀ l, Forall (λ kv, P kv.2) l → P (JObj l)) →
  ∀ v, P v.
Proof.
  intros Hnull Hbool Hnum Hstr Harr Hobj. fix IH 1. intros [|b|n|s|l|l].
  - exact Hnull.
  - apply Hbool.
  - apply Hnum.
  - apply Hstr.
  - apply Harr. revert l. fix go 1. intros [|v l]; [by constructor|].
    constructor; [apply IH|apply go].
  - apply Hobj. revert l. fix go 1. intros [|[k v] l]; [by constructor|].
    constructor; [apply IH|apply go].
Qed.

(** ** Lengths of what the lexer leaves *)

Lemma dropWhile_length f s : String.length (str_dropWhile f s) ≤ String.length s.
Proof. induction s as [|c s IH]; simpl; [lia|]. destruct (f c); simpl; lia. Qed.

Lemma skip_ws_length s : String.length (skip_ws s) ≤ String.length s.
Proof. apply dropWhile_length. Qed.

Lemma lex_string_length st s raw rest :
  lex_string st s = Some (raw, rest) → String.length rest < String.length s.
Proof.
  revert st raw. induction s as [|c s IH]; intros st raw; [done|]. simpl.
  assert (Hc : ∀ st', prod_map (String c) id <$> lex_string st' s = Some (raw, rest) →
                 String.length rest < S (String.length s)).
  { intros st' H. destruct (lex_string st' s) as [[raw' rest']|] eqn:E; [|done].
    injection H as _ <-. apply IH in E. lia. }
  destruct st; repeat case_match; try done; try apply Hc.
  intros [= _ <-]. lia.
Qed.

Lemma lex_exponent_length acc s lit rest :
  lex_exponent acc s = Some (lit, rest) → String.length rest ≤ String.length s.
Proof.
  destruct s as [|e r]; simpl; [by intros [= _ <-]|].
  destruct (_ || _); [|intros [= _ <-]; simpl; lia].
  destruct r as [|g r'].
  - case_decide; [done|]. intros [= _ <-]. simpl. lia.
  - destruct (_ || _); case_decide; try done; intros [= _ <-].
    + pose proof (dropWhile_length is_digit r'). simpl. lia.
    + pose proof (dropWhile_length is_digit (String g r')). simpl in *. lia.
Qed.

Lemma lex_fraction_length acc s lit rest :
  lex_fraction acc s = Some (lit, rest) → String.length rest ≤ String.length s.
Proof.
  destruct s as [|dot r]; [by intros [= _ <-]|]. unfold lex_fraction.
  destruct (is_c 46 dot).
  - case_decide; [done|]. intros Hl%lex_exponent_length.
    pose proof (dropWhile_length is_digit r). simpl. lia.
  - intros Hl%lex_exponent_length. done.
Qed.

Lemma lex_integer_length acc s lit rest :
  lex_integer acc s = Some (lit, rest) → String.length rest < String.length s.
Proof.
  destruct s as [|c r]; [done|]. unfold lex_integer. destruct (is_c 48 c).
  - intros H%lex_fraction_length. simpl. lia.
  - destruct (is_digit c) eqn:Hd; [|done]. intros H%lex_fraction_length.
    simpl in *. rewrite Hd in H. pose proof (dropWhile_length is_digit r). lia.
Qed.

Lemma lex_number_length s lit rest :
  lex_number s = Some (lit, rest) → String.length rest < String.length s.
Proof.
  destruct s as [|m r]; [done|]. unfold lex_number.
  destruct (is_c 45 m); intros H%lex_integer_length; simpl in *; lia.
Qed.

Lemma parse_literal_length {A} word (v : A) s v' rest :
  word ≠ "" → parse_literal word v s = POk v' rest → String.length rest < String.length s.
Proof.
  unfold parse_literal. destruct (String.prefix word s) eqn:Hp; [|done].
  intros Hw [= _ <-]. apply prefix_spec in Hp as [r ->].
  rewrite str_drop_app, slen_app. destruct word; [done|]. simpl. lia.
Qed.

(** ** Fuel *)

(** A result that is not the lack of fuel and leaves a shorter text. *)
Definition shrinks {A} (s : string) (r : presult A) : Prop :=
  match r with
  | POk _ rest => String.length rest < String.length s
  | PErr => True
  | PFuel => False
  end.

Lemma of_lex_shrinks {A} (f : string → A) (lex : string → option (string * string)) s t :
  (∀ lit rest, lex t = Some (lit, rest) → String.length rest < String.length s) →
  shrinks s (of_lex f (lex t)).
Proof. intros H. destruct (lex t) as [[l r]|] eqn:E; [|done]. simpl. by eapply H. Qed.

Lemma literal_shrinks {A} word (v : A) s t :
  word ≠ "" → String.length t ≤ String.length s → shrinks s (parse_literal word v t).
Proof.
  intros Hw Hle. destruct (parse_literal word v t) as [v' rest| |] eqn:E; [|done|].
  - apply parse_literal_length in E; [|done]. simpl. lia.
  - unfold parse_literal in E. by destruct (String.prefix word t).
Qed.

(** Enough fuel for the length of the text always gives a verdict. *)
Lemma parse_total n :
  (∀ depth s, 2 * String.length s < n → shrinks s (parse_value n depth s)) ∧
  (∀ depth s, 2 * String.length s < n → shrinks s (parse_members n depth s)) ∧
  (∀ depth s, 2 * String.length s + 1 < n → shrinks s (parse_elements n depth s)).
Proof.
  induction n as [|n (IHv & IHm & IHe)]; [by repeat split; intros; lia|]. split; [|split].
  - intros depth s Hn. cbn [parse_value]. pose proof (skip_ws_length s) as Hs.
    destruct (skip_ws s) as [|c r] eqn:Ec; [done|]. simpl in Hs.
    destruct (is_c 123 c); [|destruct (is_c 91 c); [|destruct (is_c 34 c);
      [|destruct (is_c 116 c); [|destruct (is_c 102 c); [|destruct (is_c 110 c)]]]]].
    + destruct (_ <=? _)%Z; [done|]. pose proof (skip_ws_length r) as Hr.
      destruct (skip_ws r) as [|d r']; [done|]. simpl in Hr.
      destruct (is_c 125 d); [simpl; lia|].
      specialize (IHm (depth + 1)%Z r ltac:(lia)).
      destruct (parse_members n (depth + 1) r); simpl in *; lia || done.
    + destruct (_ <=? _)%Z; [done|]. pose proof (skip_ws_length r) as Hr.
      destruct (skip_ws r) as [|d r']; [done|]. simpl in Hr.
      destruct (is_c 93 d); [simpl; lia|].
      specialize (IHe (depth + 1)%Z r ltac:(lia)).
      destruct (parse_elements n (depth + 1) r); simpl in *; lia || done.
    + apply of_lex_shrinks. intros lit rest H%lex_string_length. lia.
    + apply literal_shrinks; [done|]. simpl. lia.
    + apply literal_shrinks; [done|]. simpl. lia.
    + apply literal_shrinks; [done|]. simpl. lia.
    + apply of_lex_shrinks. intros lit rest H%lex_number_length. simpl in H. lia.
  - intros depth s Hn. cbn [parse_members]. pose proof (skip_ws_length s) as Hs.
    destruct (skip_ws s) as [|q r]; [done|]. simpl in Hs. destruct (is_c 34 q); [|done].
    destruct (lex_string LNorm r) as [[raw r1]|] eqn:El; [|done]. apply lex_string_length in El.
    pose proof (skip_ws_length r1) as H1. destruct (skip_ws r1) as [|col r2]; [done|].
    simpl in H1. destruct (is_c 58 col); [|done].
    specialize (IHv depth r2 ltac:(lia)).
    destruct (parse_value n depth r2) as [v r3| |]; [|done|done]. simpl in IHv.
    pose proof (skip_ws_length r3) as H3. destruct (skip_ws r3) as [|e r4]; [done|].
    simpl in H3. destruct (is_c 44 e); [|destruct (is_c 125 e); simpl; lia || done].
    specialize (IHm depth r4 ltac:(lia)).
    destruct (parse_members n depth r4); simpl in *; lia || done.
  - intros depth s Hn. cbn [parse_elements].
    specialize (IHv depth s ltac:(lia)).
    destruct (parse_value n depth s) as [v r3| |]; [|done|done]. simpl in IHv.
    pose proof (skip_ws_length r3) as H3. destruct (skip_ws r3) as [|e r4]; [done|].
    simpl in H3. destruct (is_c 44 e); [|destruct (is_c 93 e); simpl; lia || done].
    specialize (IHe depth r4 ltac:(lia)).
    destruct (parse_elements n depth r4); simpl in *; lia || done.
Qed.

(** A verdict does not depend on the fuel that gave it. *)
Definition agrees {A} (r r' : presult A) : Prop := r ≠ PFuel → r' = r.

Lemma parse_mono n :
  (∀ m depth s, n ≤ m → agrees (parse_value n depth s) (parse_value m depth s)) ∧
  (∀ m depth s, n ≤ m → agrees (parse_members n depth s) (parse_members m depth s)) ∧
  (∀ m depth s, n ≤ m → agrees (parse_elements n depth s) (parse_elements m depth s)).
Proof.
  unfold agrees. induction n as [|n (IHv & IHm & IHe)]; [done|].
  repeat split; intros [|m] depth s Hm; try lia; apply le_S_n in Hm.
  - cbn [parse_value]. destruct (skip_ws s) as [|c r]; [done|].
    destruct (is_c 123 c); [|destruct (is_c 91 c); [|done]].
    + destruct (_ <=? _)%Z; [done|]. destruct (skip_ws r) as [|d r']; [done|].
      destruct (is_c 125 d); [done|]. specialize (IHm m (depth + 1)%Z r Hm).
      destruct (parse_members n (depth + 1) r); intros H; rewrite ?IHm by done; done.
    + destruct (_ <=? _)%Z; [done|]. destruct (skip_ws r) as [|d r']; [done|].
      destruct (is_c 93 d); [done|]. specialize (IHe m (depth + 1)%Z r Hm).
      destruct (parse_elements n (depth + 1) r); intros H; rewrite ?IHe by done; done.
  - cbn [parse_members]. destruct (skip_ws s) as [|q r]; [done|]. destruct (is_c 34 q); [|done].
    destruct (lex_string LNorm r) as [[raw r1]|]; [|done].
    destruct (skip_ws r1) as [|col r2]; [done|]. destruct (is_c 58 col); [|done].
    specialize (IHv m depth r2 Hm).
    destruct (parse_value n depth r2) as [v r3| |]; [|by rewrite IHv by done|done].
    rewrite IHv by done. destruct (skip_ws r3) as [|e r4]; [done|].
    destruct (is_c 44 e); [|done]. specialize (IHm m depth r4 Hm).
    destruct (parse_members n depth r4); intros H; rewrite ?IHm by done; done.
  - cbn [parse_elements]. specialize (IHv m depth s Hm).
    destruct (parse_value n depth s) as [v r3| |]; [|by rewrite IHv by done|done].
    rewrite IHv by done. destruct (skip_ws r3) as [|e r4]; [done|].
    destruct (is_c 44 e); [|done]. specialize (IHe m depth r4 Hm).
    destruct (parse_elements n depth r4); intros H; rewrite ?IHe by done; done.
Qed.

(** The fuel of [parse_json] gives the verdict of every larger amount. *)
Lemma parse_fuel_enough n depth s :
  parse_fuel s ≤ n → parse_value n depth s = parse_value (parse_fuel s) depth s.
Proof.
  intros Hn. apply parse_mono; [done|]. intros H.
  destruct (parse_total (parse_fuel s)) as [Hv _].
  specialize (Hv depth s ltac:(unfold parse_fuel; lia)). by rewrite H in Hv.
Qed.

(** ** Well-formed values *)

(** What the parser can return at nesting depth [d]: nesting within the bound,
    number literals the lexer takes whole, and valid UTF-8. *)
Fixpoint json_wf (d : Z) (v : json string) : bool :=
  match v with
  | JNum lit => literal_ok lit
  | JStr s => utf8_valid s
  | JArr l => (d <? maxNestingDepth)%Z && forallb (json_wf (d + 1)) l
  | JObj l => (d <? maxNestingDepth)%Z &&
      forallb (λ kv, utf8_valid kv.1 && json_wf (d + 1) kv.2) l
  | _ => true
  end.

Lemma hexd_bound c x : hexd c = Some x → (0 <= x < 16)%Z.
Proof.
  unfold hexd. repeat case_match; intros [= <-];
    repeat match goal with
    | H : (_ && _) = true |- _ => apply andb_true_iff in H as [?%Z.leb_le ?%Z.leb_le]
    end; lia.
Qed.

Lemma hex4_bound a b c d r : hex4 a b c d = Some r → (0 <= r < 65536)%Z.
Proof.
  unfold hex4. destruct (hexd a) eqn:Ha, (hexd b) eqn:Hb, (hexd c) eqn:Hc, (hexd d) eqn:Hd; try done.
  apply hexd_bound in Ha, Hb, Hc, Hd. intros [= <-]. lia.
Qed.

Lemma utf16_pair_bound r1 r2 p : utf16_pair r1 r2 = Some p → (0x10000 <= p < 0x110000)%Z.
Proof.
  unfold utf16_pair. destruct (_ && _) eqn:H; [|done].
  rewrite !andb_true_iff, !Z.leb_le, !Z.ltb_lt in H. intros [= <-]. lia.
Qed.

Lemma surrogate_false r : is_surrogate r = false → (r < 0xD800 ∨ 0xE000 <= r)%Z.
Proof. unfold is_surrogate. rewrite andb_false_iff, Z.leb_gt, Z.ltb_ge. lia. Qed.

Lemma simple_escape_ascii e b : simple_escape e = Some b → utf8_1 b = true.
Proof.
  unfold simple_escape. repeat case_match; intros [= <-]; try done.
  repeat match goal with H : _ = false |- _ => clear H end.
  repeat match goal with H : _ || _ = true |- _ => apply orb_true_iff in H as [H|H] end;
    match goal with H : is_c _ _ = true |- _ => apply Z.eqb_eq in H; by unfold utf8_1; rewrite H end.
Qed.

(** Decoding a literal always gives valid UTF-8. *)
Lemma unquote_valid s : utf8_valid (unquote s) = true.
Proof.
  induction s as [s IH] using str_len_ind.
  assert (Hrune : ∀ r t, is_rune r = true → String.length t < String.length s →
            utf8_valid (r +:+ unquote t) = true).
  { intros r t Hr Ht. rewrite utf8_valid_rune by done. by apply IH. }
  assert (Herr : ∀ t, String.length t < String.length s →
            utf8_valid (rune_error +:+ unquote t) = true).
  { intros t Ht. by apply Hrune. }
  destruct s as [|c1 r1]; [done|]. cbn [unquote].
  destruct (is_c 92 c1).
  - destruct r1 as [|e r2]; [done|]. destruct (is_c 117 e).
    + destruct r2 as [|a [|b [|c [|d r6]]]]; try done.
      destruct (hex4 a b c d) as [rr|] eqn:Hrr; [|done]. apply hex4_bound in Hrr.
      destruct (is_surrogate rr) eqn:Hsur.
      * destruct r6 as [|bs [|u [|a' [|b' [|c' [|d' r12]]]]]];
          try (apply Herr; simpl; lia).
        destruct (_ && _); [|apply Herr; simpl; lia].
        destruct (hex4 a' b' c' d') as [rr1|]; [|apply Herr; simpl; lia].
        destruct (utf16_pair rr rr1) as [p|] eqn:Hp; [|apply Herr; simpl; lia].
        apply utf16_pair_bound in Hp. apply Hrune; [apply encode_rune_rune; lia|simpl; lia].
      * apply surrogate_false in Hsur. apply Hrune; [apply encode_rune_rune; lia|simpl; lia].
    + destruct (simple_escape e) as [b|] eqn:Hb; [|done]. apply simple_escape_ascii in Hb.
      apply (Hrune (String b "")); [done|simpl; lia].
  - destruct (utf8_1 c1) eqn:H1; [apply (Hrune (String c1 "")); [done|simpl; lia]|].
    destruct r1 as [|c2 r2]; [done|].
    destruct (utf8_2 c1 c2) eqn:H2;
      [apply (Hrune (String c1 (String c2 ""))); [done|simpl; lia]|].
    destruct r2 as [|c3 r3]; [apply Herr; simpl; lia|].
    destruct (utf8_3 c1 c2 c3) eqn:H3;
      [apply (Hrune (String c1 (String c2 (String c3 "")))); [done|simpl; lia]|].
    destruct r3 as [|c4 r4]; [apply Herr; simpl; lia|].
    destruct (utf8_4 c1 c2 c3 c4) eqn:H4; [|apply Herr; simpl; lia].
    apply (Hrune (String c1 (String c2 (String c3 (String c4 ""))))); [done|simpl; lia].
Qed.

(** ** Number literals *)

(** The text after a value in printed JSON: nothing, a comma or a closing
    bracket. None of them continues a number. *)
Definition delim (s : string) : bool :=
  match s with
  | EmptyString => true
  | String c _ => is_c 44 c || is_c 93 c || is_c 125 c
  end.

Lemma while_app f s t :
  match t with EmptyString => true | String c _ => negb (f c) end = true →
  str_takeWhile f (s +:+ t) = str_takeWhile f s ∧
  str_dropWhile f (s +:+ t) = str_dropWhile f s +:+ t.
Proof.
  intros Ht. induction s as [|c s IH].
  - rewrite sapp_nil_l. destruct t as [|d t]; [done|]. simpl.
    apply negb_true_iff in Ht. by rewrite Ht.
  - rewrite sapp_cons. simpl. destruct (f c); [|done]. destruct IH as [-> ->]. done.
Qed.

Lemma is_c_spec n c : is_c n c = true ↔ byte_val c = n.
Proof. apply Z.eqb_eq. Qed.

Lemma delim_not (n : Z) c s :
  n ≠ 44%Z → n ≠ 93%Z → n ≠ 125%Z → delim (String c s) = true → is_c n c = false.
Proof.
  unfold delim, is_c. rewrite !orb_true_iff, !Z.eqb_eq, Z.eqb_neq. lia.
Qed.

Lemma delim_not_digit c s : delim (String c s) = true → is_digit c = false.
Proof.
  unfold delim, is_c, is_digit. rewrite !orb_true_iff, !Z.eqb_eq. intros H.
  apply in_range_false. lia.
Qed.

Lemma delim_digits s t : delim t = true →
  str_takeWhile is_digit (s +:+ t) = str_takeWhile is_digit s ∧
  str_dropWhile is_digit (s +:+ t) = str_dropWhile is_digit s +:+ t.
Proof.
  intros Ht. apply while_app. destruct t as [|c t]; [done|].
  by rewrite (delim_not_digit c t).
Qed.

Lemma lex_exponent_app acc s lit r t :
  delim t = true → lex_exponent acc s = Some (lit, r) →
  lex_exponent acc (s +:+ t) = Some (lit, r +:+ t).
Proof.
  intros Ht. destruct s as [|e s].
  - intros [= <- <-]. rewrite sapp_nil_l. destruct t as [|c t]; [done|]. simpl.
    by rewrite !(delim_not _ c t) by done.
  - rewrite sapp_cons. simpl. destruct (_ || _); [|by intros [= <- <-]].
    destruct s as [|g s].
    { simpl. done. }
    rewrite sapp_cons. destruct (_ || _).
    + destruct (delim_digits s t Ht) as [-> ->]. case_decide; [done|]. by intros [= <- <-].
    + rewrite <- sapp_cons. destruct (delim_digits (String g s) t Ht) as [-> ->].
      case_decide; [done|]. by intros [= <- <-].
Qed.

Lemma lex_fraction_app acc s lit r t :
  delim t = true → lex_fraction acc s = Some (lit, r) →
  lex_fraction acc (s +:+ t) = Some (lit, r +:+ t).
Proof.
  intros Ht. destruct s as [|dot s].
  - intros [= <- <-]. rewrite sapp_nil_l. destruct t as [|c t]; [done|].
    unfold lex_fraction. rewrite (delim_not _ c t) by done.
    by apply (lex_exponent_app acc "" acc "" (String c t)).
  - rewrite sapp_cons. unfold lex_fraction. destruct (is_c 46 dot).
    + destruct (delim_digits s t Ht) as [-> ->]. case_decide; [done|].
      by apply lex_exponent_app.
    + rewrite <- sapp_cons. by apply lex_exponent_app.
Qed.

Lemma lex_integer_app acc s lit r t :
  delim t = true → lex_integer acc s = Some (lit, r) →
  lex_integer acc (s +:+ t) = Some (lit, r +:+ t).
Proof.
  intros Ht. destruct s as [|c s]; [done|]. rewrite sapp_cons. unfold lex_integer.
  destruct (is_c 48 c); [by apply lex_fraction_app|].
  destruct (is_digit c); [|done].
  rewrite <- sapp_cons. destruct (delim_digits (String c s) t Ht) as [-> ->].
  by apply lex_fraction_app.
Qed.

(** A number literal before a delimiter is lexed as it is. *)
Lemma lex_number_app s lit r t :
  delim t = true → lex_number s = Some (lit, r) → lex_number (s +:+ t) = Some (lit, r +:+ t).
Proof.
  intros Ht. destruct s as [|m s]; [done|]. rewrite sapp_cons. unfold lex_number.
  destruct (is_c 45 m); [by apply lex_integer_app|].
  rewrite <- sapp_cons. by apply lex_integer_app.
Qed.

Lemma take_drop_while f s : str_takeWhile f s +:+ str_dropWhile f s = s.
Proof.
  induction s as [|c s IH]; [done|]. simpl. destruct (f c); [|done].
  by rewrite sapp_cons, IH.
Qed.

Lemma takeWhile_all f s : str_forallb f (str_takeWhile f s) = true.
Proof. induction s as [|c s IH]; [done|]. simpl. destruct (f c) eqn:E; [|done]. simpl. by rewrite E. Qed.

Lemma while_all_id f s t :
  str_forallb f s = true → str_takeWhile f t = "" →
  str_takeWhile f (s +:+ t) = s ∧ str_dropWhile f (s +:+ t) = t.
Proof.
  intros Hs Ht. induction s as [|c s IH].
  - rewrite sapp_nil_l. pose proof (take_drop_while f t) as E. by rewrite Ht, sapp_nil_l in E.
  - apply andb_true_iff in Hs as [Hc Hs]. rewrite sapp_cons. simpl. rewrite Hc.
    destruct (IH Hs) as [-> ->]. done.
Qed.

(** The first byte of what follows the digits of a number: [.], [e] or [E]. *)
Definition starts_in (p : ascii → bool) (s : string) : bool :=
  match s with EmptyString => true | String c _ => p c end.
Definition exp_char (c : ascii) : bool := is_c 101 c || is_c 69 c.

Lemma starts_in_digits p s :
  (∀ c, p c = true → is_digit c = false) → starts_in p s = true → str_takeWhile is_digit s = "".
Proof. destruct s as [|c s]; [done|]. simpl. intros Hp Hc. by rewrite Hp. Qed.

Lemma exp_char_not_digit c : exp_char c = true → is_digit c = false.
Proof.
  unfold exp_char, is_digit. rewrite orb_true_iff, !is_c_spec. intros H. apply in_range_false. lia.
Qed.

Lemma frac_char_not_digit c : (is_c 46 c || exp_char c) = true → is_digit c = false.
Proof.
  unfold exp_char, is_digit. rewrite !orb_true_iff, !is_c_spec. intros H. apply in_range_false. lia.
Qed.

Lemma lex_exponent_inv acc s lit rest :
  lex_exponent acc s = Some (lit, rest) →
  ∃ l, lit = acc +:+ l ∧ s = l +:+ rest ∧ starts_in exp_char l = true ∧
       ∀ acc', lex_exponent acc' l = Some (acc' +:+ l, "").
Proof.
  assert (Hnil : ∃ l, acc = acc +:+ l ∧ s = l +:+ s ∧ starts_in exp_char l = true ∧
       ∀ acc', lex_exponent acc' l = Some (acc' +:+ l, "")).
  { exists "". repeat split; [by rewrite sapp_nil_r|]. intros acc'. simpl. by rewrite sapp_nil_r. }
  destruct s as [|e r]; [by intros [= <- <-]|]. unfold lex_exponent at 1.
  fold (exp_char e). destruct (exp_char e) eqn:He; [|by intros [= <- <-]].
  clear Hnil. set (p := match r with EmptyString => _ | _ => _ end).
  assert (Hp : ∃ sg r', p = (sg, r') ∧ r = sg +:+ r' ∧
    ∀ ds, ds ≠ "" → str_forallb is_digit ds = true →
      match sg +:+ ds with
      | String g r' => if is_c 43 g || is_c 45 g then (String g "", r') else ("", sg +:+ ds)
      | EmptyString => ("", sg +:+ ds) end = (sg, ds)).
  { assert (Hdig : ∀ ds, ds ≠ "" → str_forallb is_digit ds = true →
      match "" +:+ ds with
      | String g r' => if is_c 43 g || is_c 45 g then (String g "", r') else ("", "" +:+ ds)
      | EmptyString => ("", "" +:+ ds) end = ("", ds)).
    { intros [|g ds] Hne Hds; [done|]. apply andb_true_iff in Hds as [Hg _].
      unfold is_digit in Hg. rewrite in_range_spec in Hg. rewrite sapp_nil_l.
      unfold is_c. rewrite !(proj2 (Z.eqb_neq _ _)) by lia. done. }
    subst p. destruct r as [|g r']; [by exists "", ""|].
    destruct (is_c 43 g || is_c 45 g) eqn:Hg; [|by exists "", (String g r')].
    exists (String g ""), r'. repeat split. intros ds _ _. rewrite sapp_cons, sapp_nil_l.
    by rewrite Hg. }
  destruct Hp as (sg & r' & -> & -> & Hsg). set (ds := str_takeWhile is_digit r').
  case_decide as Hds; [done|]. intros [= <- <-].
  exists (String e "" +:+ sg +:+ ds). repeat split.
  - rewrite !sapp_assoc. subst ds. rewrite take_drop_while. by rewrite sapp_cons.
  - done.
  - intros acc'. rewrite sapp_cons, sapp_nil_l. unfold lex_exponent.
    fold (exp_char e). rewrite He.
    assert (Hall : str_forallb is_digit ds = true) by apply takeWhile_all.
    rewrite (Hsg ds Hds Hall).
    destruct (while_all_id is_digit ds "" Hall eq_refl) as [Hw1 Hw2].
    rewrite sapp_nil_r in Hw1, Hw2. by rewrite Hw1, Hw2, decide_False.
Qed.

Lemma lex_fraction_inv acc s lit rest :
  lex_fraction acc s = Some (lit, rest) →
  ∃ l, lit = acc +:+ l ∧ s = l +:+ rest ∧
       starts_in (λ c, is_c 46 c || exp_char c) l = true ∧
       ∀ acc', lex_fraction acc' l = Some (acc' +:+ l, "").
Proof.
  assert (Hexp : lex_exponent acc s = Some (lit, rest) → ∃ l, lit = acc +:+ l ∧ s = l +:+ rest ∧
       starts_in (λ c, is_c 46 c || exp_char c) l = true ∧
       ∀ acc', lex_fraction acc' l = Some (acc' +:+ l, "")).
  { intros (l & -> & -> & Hst & Hl)%lex_exponent_inv. exists l. repeat split.
    - destruct l as [|c l]; [done|]. simpl in *. by rewrite Hst, orb_true_r.
    - intros acc'. destruct l as [|c l]; [apply Hl|]. unfold lex_fraction.
      replace (is_c 46 c) with false; [apply Hl|]. simpl in Hst. symmetry.
      apply not_true_iff_false. unfold exp_char in Hst. rewrite orb_true_iff, !is_c_spec in *. lia. }
  destruct s as [|dot r]; [exact Hexp|]. unfold lex_fraction at 1.
  destruct (is_c 46 dot) eqn:Hdot; [|exact Hexp].
  case_decide as Hds; [done|]. intros (l & -> & Hr & Hst & Hl)%lex_exponent_inv.
  set (ds := str_takeWhile is_digit r) in *.
  assert (Hall : str_forallb is_digit ds = true) by apply takeWhile_all.
  exists (String dot "" +:+ ds +:+ l). repeat split.
  - by rewrite !sapp_assoc.
  - rewrite sapp_cons, sapp_nil_l, !sapp_cons, sapp_assoc, <- Hr. subst ds.
    by rewrite take_drop_while.
  - simpl. by rewrite Hdot.
  - intros acc'. rewrite sapp_cons, sapp_nil_l. unfold lex_fraction. rewrite Hdot.
    destruct (while_all_id is_digit ds l Hall) as [-> ->].
    { eapply starts_in_digits; [apply exp_char_not_digit|done]. }
    rewrite decide_False by done. rewrite Hl. by rewrite !sapp_assoc.
Qed.

Lemma lex_integer_inv acc s lit rest :
  lex_integer acc s = Some (lit, rest) →
  ∃ l, lit = acc +:+ l ∧ s = l +:+ rest ∧ starts_in is_digit l = true ∧ l ≠ "" ∧
       ∀ acc', lex_integer acc' l = Some (acc' +:+ l, "").
Proof.
  destruct s as [|c r]; [done|]. unfold lex_integer at 1.
  destruct (is_c 48 c) eqn:H0; [|destruct (is_digit c) eqn:Hd; [|done]].
  - intros (l & -> & -> & Hst & Hl)%lex_fraction_inv. exists (String c l). repeat split.
    + by rewrite !sapp_assoc.
    + simpl. apply is_c_spec in H0. unfold is_digit. apply in_range_spec. lia.
    + done.
    + intros acc'. unfold lex_integer. rewrite H0, Hl. by rewrite !sapp_assoc.
  - intros (l & -> & Hr & Hst & Hl)%lex_fraction_inv.
    set (ds := str_takeWhile is_digit (String c r)) in *.
    assert (Hall : str_forallb is_digit ds = true) by apply takeWhile_all.
    assert (Hds : ∃ ds', ds = String c ds') by (subst ds; simpl; rewrite Hd; by eexists).
    destruct Hds as [ds' Hds'].
    exists (ds +:+ l). repeat split.
    + by rewrite !sapp_assoc.
    + rewrite sapp_assoc, <- Hr. subst ds. by rewrite take_drop_while.
    + by rewrite Hds'.
    + by rewrite Hds'.
    + intros acc'.
      destruct (while_all_id is_digit ds l Hall) as [Hw1 Hw2].
      { eapply starts_in_digits; [apply frac_char_not_digit|done]. }
      assert (Hcons : ds +:+ l = String c (ds' +:+ l)) by (by rewrite Hds').
      rewrite Hcons in *. unfold lex_integer. rewrite H0, Hd, Hw1, Hw2, Hl.
      by rewrite sapp_assoc, <- Hcons.
Qed.

(** The literal the lexer takes is a literal on its own. *)
Lemma lex_number_inv s lit rest :
  lex_number s = Some (lit, rest) → s = lit +:+ rest ∧ literal_ok lit = true.
Proof.
  unfold literal_ok. rewrite bool_decide_eq_true.
  destruct s as [|m r]; [done|]. unfold lex_number at 1. destruct (is_c 45 m) eqn:Hm.
  - intros (l & -> & -> & _ & _ & Hl)%lex_integer_inv. rewrite !sapp_cons, sapp_nil_l.
    split; [done|]. unfold lex_number. rewrite Hm, Hl. done.
  - intros (l & -> & Hs & Hst & Hne & Hl)%lex_integer_inv. rewrite sapp_nil_l.
    split; [done|]. destruct l as [|c l]; [done|]. simpl in Hst. unfold lex_number.
    replace (is_c 45 c) with false; [apply Hl|]. symmetry. apply not_true_iff_false.
    unfold is_digit in Hst. rewrite in_range_spec in Hst. rewrite is_c_spec. lia.
Qed.

(** ** Strings *)

(** The scanner over bytes that do not close the literal. *)
Fixpoint lex_run (st : lstate) (w : string) : option lstate :=
  match w with
  | EmptyString => Some st
  | String c r =>
      match st with
      | LNorm =>
          if is_c 34 c then None
          else if is_c 92 c then lex_run LEsc r
          else if (byte_val c <? 32)%Z then None
          else lex_run LNorm r
      | LEsc =>
          if is_c 117 c then lex_run (LHex 3) r
          else if is_c 98 c || is_c 102 c || is_c 110 c || is_c 114 c || is_c 116 c ||
                  is_c 92 c || is_c 47 c || is_c 34 c then lex_run LNorm r
          else None
      | LHex n =>
          if bool_decide (hexd c = None) then None
          else lex_run (match n with O => LNorm | S n' => LHex n' end) r
      end
  end.

Lemma lex_run_string st w st' x :
  lex_run st w = Some st' →
  lex_string st (w +:+ x) = prod_map (String.append w) id <$> lex_string st' x.
Proof.
  revert st. induction w as [|c w IH]; intros st.
  - intros [= ->]. rewrite sapp_nil_l. by destruct (lex_string st' x) as [[??]|].
  - rewrite sapp_cons. cbn [lex_run lex_string]. intros H.
    assert (Hc : ∀ s1, lex_run s1 w = Some st' →
      prod_map (String c) id <$> lex_string s1 (w +:+ x) =
      prod_map (String.append (String c w)) id <$> lex_string st' x).
    { intros s1 H1. rewrite (IH s1 H1). by destruct (lex_string st' x) as [[??]|]. }
    destruct st; repeat case_match; try done; by apply Hc.
Qed.

Definition high_byte (c : ascii) : bool := (128 <=? byte_val c)%Z.

Lemma lex_run_high w : str_forallb high_byte w = true → lex_run LNorm w = Some LNorm.
Proof.
  induction w as [|c w IH]; [done|]. intros [Hc Hw]%andb_true_iff.
  apply Z.leb_le in Hc. cbn [lex_run]. unfold is_c. rewrite !(proj2 (Z.eqb_neq _ _)) by lia.
  rewrite (proj2 (Z.ltb_ge _ _)) by lia. by apply IH.
Qed.

(** A rune of several bytes has only high bytes. *)
Lemma rune_high c r : is_rune (String c r) = true → r ≠ "" → str_forallb high_byte (String c r) = true.
Proof.
  unfold high_byte. destruct r as [|c2 [|c3 [|c4 [|]]]]; try done; intros H _; cbn [is_rune] in H.
  - unfold utf8_2 in H. rewrite andb_true_iff, !in_range_spec in H.
    cbn [str_forallb]. rewrite !andb_true_iff, !Z.leb_le. lia.
  - pose proof (utf8_3_lead _ _ _ H). unfold utf8_3 in H.
    rewrite !andb_true_iff, !orb_true_iff, !andb_true_iff, !in_range_spec in H.
    cbn [str_forallb]. rewrite !andb_true_iff, !Z.leb_le. lia.
  - pose proof (utf8_4_lead _ _ _ _ H). unfold utf8_4 in H.
    rewrite !andb_true_iff, !orb_true_iff, !andb_true_iff, !in_range_spec in H.
    cbn [str_forallb]. rewrite !andb_true_iff, !Z.leb_le. lia.
Qed.

Lemma esc_byte_runs : ∀ c, bool_decide (lex_run LNorm (esc_byte c) = Some LNorm) = true.
Proof. by_bytes. Qed.

Lemma esc_rune_runs r : is_rune r = true → lex_run LNorm (esc_rune r) = Some LNorm.
Proof.
  intros Hr. destruct r as [|c [|c2 r]]; [done| |].
  - pose proof (esc_byte_runs c) as H. by apply bool_decide_eq_true in H.
  - unfold esc_rune. case_decide as H1; [done|]. case_decide as H2; [done|].
    apply lex_run_high. by apply rune_high.
Qed.

Lemma esc_body_rune r s :
  is_rune r = true → esc_body (r +:+ s) = esc_rune r +:+ esc_body s.
Proof. intros Hr. unfold esc_body. by rewrite utf8_fold_rune. Qed.

(** The scanner takes an encoded string up to its closing quote. *)
Lemma lex_string_esc s rest :
  lex_string LNorm (esc_body s +:+ dquote +:+ rest) = Some (esc_body s, rest).
Proof.
  induction s as [|r s Hr IH|c s Hbad IH] using utf8_ind.
  - done.
  - rewrite esc_body_rune, sapp_assoc by done.
    rewrite (lex_run_string _ _ _ _ (esc_rune_runs r Hr)), IH. done.
  - unfold esc_body. rewrite Hbad. fold esc_body. rewrite sapp_assoc.
    rewrite (lex_run_string LNorm "\ufffd" LNorm) by done. by rewrite IH.
Qed.

(** The three shapes of an encoded ASCII byte. *)
Definition esc_shape (c : ascii) : bool :=
  negb (utf8_1 c) ||
  match esc_byte c with
  | String a EmptyString => bool_decide (a = c) && negb (is_c 92 a)
  | String a (String e EmptyString) =>
      is_c 92 a && negb (is_c 117 e) && bool_decide (simple_escape e = Some c)
  | String a (String u (String x (String y (String z (String w EmptyString))))) =>
      is_c 92 a && is_c 117 u &&
      match hex4 x y z w with
      | Some n => negb (is_surrogate n) && bool_decide (encode_rune n = String c "")
      | None => false
      end
  | _ => false
  end.

Lemma esc_shape_all : ∀ c, esc_shape c = true.
Proof. by_bytes. Qed.

Lemma unquote_rune r x :
  is_rune r = true → r ≠ "\" → unquote (r +:+ x) = r +:+ unquote x.
Proof.
  intros Hr Hb. destruct r as [|c1 [|c2 [|c3 [|c4 [|]]]]]; try done; rewrite !sapp_cons, sapp_nil_l;
    cbn [is_rune] in Hr; cbn [unquote].
  - assert (Hc : is_c 92 c1 = false).
    { apply not_true_iff_false. rewrite is_c_spec. intros H. apply Hb.
      by rewrite <- (byte_of_val c1), H. }
    by rewrite Hc, Hr.
  - pose proof (utf8_2_lead _ _ Hr). unfold is_c. rewrite (proj2 (Z.eqb_neq _ _)) by lia.
    by rewrite utf8_1_false, Hr by lia.
  - pose proof (utf8_3_lead _ _ _ Hr). unfold is_c. rewrite (proj2 (Z.eqb_neq _ _)) by lia.
    by rewrite utf8_1_false, utf8_2_false, Hr by lia.
  - pose proof (utf8_4_lead _ _ _ _ Hr). unfold is_c. rewrite (proj2 (Z.eqb_neq _ _)) by lia.
    by rewrite utf8_1_false, utf8_2_false, utf8_3_false, Hr by lia.
Qed.

Lemma unquote_simple bs e c x :
  is_c 92 bs = true → is_c 117 e = false → simple_escape e = Some c →
  unquote (String bs (String e x)) = String c (unquote x).
Proof. intros H1 H2 H3. cbn [unquote]. by rewrite H1, H2, H3. Qed.

Lemma unquote_hex bs u a b c d n x :
  is_c 92 bs = true → is_c 117 u = true → hex4 a b c d = Some n → is_surrogate n = false →
  unquote (String bs (String u (String a (String b (String c (String d x)))))) =
  encode_rune n +:+ unquote x.
Proof. intros H1 H2 H3 H4. cbn [unquote]. by rewrite H1, H2, H3, H4. Qed.

Lemma unquote_esc_byte c x :
  utf8_1 c = true → unquote (esc_byte c +:+ x) = String c (unquote x).
Proof.
  intros Hc. pose proof (esc_shape_all c) as H. unfold esc_shape in H. rewrite Hc in H. simpl in H.
  destruct (esc_byte c) as [|a [|e [|y [|z [|w [|v [|]]]]]]]; try done; rewrite !sapp_cons, sapp_nil_l.
  - apply andb_true_iff in H as [H1%bool_decide_eq_true H2%negb_true_iff]. subst a.
    cbn [unquote]. by rewrite H2, Hc.
  - rewrite !andb_true_iff, negb_true_iff, bool_decide_eq_true in H.
    destruct H as [[H1 H2] H3]. by apply unquote_simple.
  - apply andb_true_iff in H as [[H1 H2]%andb_true_iff H3].
    destruct (hex4 y z w v) as [n|] eqn:Hn; [|done].
    apply andb_true_iff in H3 as [H3%negb_true_iff H4%bool_decide_eq_true].
    rewrite (unquote_hex _ _ _ _ _ _ n) by done. by rewrite H4.
Qed.

Lemma unquote_esc_rune r x :
  is_rune r = true → unquote (esc_rune r +:+ x) = r +:+ unquote x.
Proof.
  intros Hr. destruct r as [|c [|c2 r]]; [done| |]; [by apply unquote_esc_byte|].
  unfold esc_rune. case_decide as H1.
  { rewrite H1. by apply (unquote_hex _ _ _ _ _ _ 0x2028). }
  case_decide as H2.
  { rewrite H2. by apply (unquote_hex _ _ _ _ _ _ 0x2029). }
  by apply unquote_rune.
Qed.

(** Decoding an encoded string gives the string, its invalid bytes replaced. *)
Lemma unquote_esc_body s : unquote (esc_body s) = utf8_coerce s.
Proof.
  induction s as [|r s Hr IH|c s Hbad IH] using utf8_ind; [done| |].
  - rewrite esc_body_rune, unquote_esc_rune, IH by done.
    unfold utf8_coerce. by rewrite utf8_fold_rune.
  - unfold esc_body, utf8_coerce. rewrite !Hbad. fold esc_body utf8_coerce.
    change (unquote ("\ufffd" +:+ esc_body s)) with (encode_rune 0xfffd +:+ unquote (esc_body s)).
    by rewrite IH.
Qed.

(** ** What the parser returns is well formed *)

Lemma parse_wf n :
  (∀ d s v r, parse_value n d s = POk v r → json_wf d v = true) ∧
  (∀ d s l r, parse_members n d s = POk l r →
     forallb (λ kv, utf8_valid kv.1 && json_wf d kv.2) l = true) ∧
  (∀ d s l r, parse_elements n d s = POk l r → forallb (json_wf d) l = true).
Proof.
  induction n as [|n (IHv & IHm & IHe)]; [done|]. split; [|split].
  - intros d s v rest. cbn [parse_value]. destruct (skip_ws s) as [|c r]; [done|].
    destruct (is_c 123 c); [|destruct (is_c 91 c); [|destruct (is_c 34 c);
      [|destruct (is_c 116 c); [|destruct (is_c 102 c); [|destruct (is_c 110 c)]]]]].
    + destruct (Z.leb_spec maxNestingDepth d) as [|Hd]; [done|].
      apply Z.ltb_lt in Hd. destruct (skip_ws r) as [|e r']; [done|].
      destruct (is_c 125 e); [intros [= <- _]; simpl; by rewrite Hd|].
      destruct (parse_members n (d + 1) r) as [l r1| |] eqn:E; try done.
      intros [= <- _]. cbn [json_wf]. rewrite Hd. by eapply IHm.
    + destruct (Z.leb_spec maxNestingDepth d) as [|Hd]; [done|].
      apply Z.ltb_lt in Hd. destruct (skip_ws r) as [|e r']; [done|].
      destruct (is_c 93 e); [intros [= <- _]; simpl; by rewrite Hd|].
      destruct (parse_elements n (d + 1) r) as [l r1| |] eqn:E; try done.
      intros [= <- _]. cbn [json_wf]. rewrite Hd. by eapply IHe.
    + destruct (lex_string LNorm r) as [[raw r1]|]; [|done]. intros [= <- _]. apply unquote_valid.
    + unfold parse_literal. destruct (String.prefix _ _); [|done]. by intros [= <- _].
    + unfold parse_literal. destruct (String.prefix _ _); [|done]. by intros [= <- _].
    + unfold parse_literal. destruct (String.prefix _ _); [|done]. by intros [= <- _].
    + destruct (lex_number (String c r)) as [[lit r1]|] eqn:E; [|done].
      intros [= <- _]. by apply lex_number_inv in E as [_ ?].
  - intros d s l rest. cbn [parse_members]. destruct (skip_ws s) as [|q r]; [done|].
    destruct (is_c 34 q); [|done]. destruct (lex_string LNorm r) as [[raw r1]|]; [|done].
    destruct (skip_ws r1) as [|col r2]; [done|]. destruct (is_c 58 col); [|done].
    destruct (parse_value n d r2) as [v r3| |] eqn:Ev; try done. apply IHv in Ev.
    destruct (skip_ws r3) as [|e r4]; [done|]. destruct (is_c 44 e).
    + destruct (parse_members n d r4) as [l' r5| |] eqn:Em; try done. apply IHm in Em.
      intros [= <- _]. cbn [forallb fst snd]. by rewrite unquote_valid, Ev, Em.
    + destruct (is_c 125 e); [|done]. intros [= <- _]. cbn [forallb fst snd].
      by rewrite unquote_valid, Ev.
  - intros d s l rest. cbn [parse_elements].
    destruct (parse_value n d s) as [v r3| |] eqn:Ev; try done. apply IHv in Ev.
    destruct (skip_ws r3) as [|e r4]; [done|]. destruct (is_c 44 e).
    + destruct (parse_elements n d r4) as [l' r5| |] eqn:Em; try done. apply IHe in Em.
      intros [= <- _]. cbn [forallb]. by rewrite Ev, Em.
    + destruct (is_c 93 e); [|done]. intros [= <- _]. cbn [forallb]. by rewrite Ev.
Qed.

Lemma parse_json_wf s v : parse_json s = Some v → json_wf 0 v = true.
Proof.
  unfold parse_json. destruct (parse_value _ 0 s) as [v' r| |] eqn:E; try done.
  case_decide; [|done]. intros [= <-]. by eapply parse_wf.
Qed.

(** ** Printing, then parsing *)

(** The first byte of a printed value starts a value and closes nothing. *)
Definition value_head (c : ascii) : bool :=
  negb (json_space c) && negb (is_c 93 c) && negb (is_c 125 c).

Lemma literal_head lit :
  literal_ok lit = true → ∃ c r, lit = String c r ∧ (is_c 45 c || is_digit c) = true.
Proof.
  unfold literal_ok. rewrite bool_decide_eq_true. destruct lit as [|c r]; [done|].
  intros H. exists c, r. split; [done|]. revert H. unfold lex_number.
  destruct (is_c 45 c); [done|]. unfold lex_integer. destruct (is_c 48 c) eqn:H0.
  - intros _. apply is_c_spec in H0. unfold is_digit. apply in_range_spec. lia.
  - by destruct (is_digit c).
Qed.

Lemma number_head : ∀ c, negb (is_c 45 c || is_digit c) || (value_head c &&
  negb (is_c 123 c) && negb (is_c 91 c) && negb (is_c 34 c) && negb (is_c 116 c) &&
  negb (is_c 102 c) && negb (is_c 110 c)) = true.
Proof. by_bytes. Qed.

Lemma print_head d v :
  json_wf d v = true → ∃ c r, print_json v = String c r ∧ value_head c = true.
Proof.
  destruct v as [|[]|lit|s|l|l]; intros Hwf; try (by do 2 eexists).
  apply literal_head in Hwf as (c & r & -> & Hc). exists c, r. split; [done|].
  pose proof (number_head c) as H. rewrite Hc in H. simpl in H.
  rewrite !andb_true_iff in H. tauto.
Qed.

Lemma skip_ws_head c r : value_head c = true → skip_ws (String c r) = String c r.
Proof.
  unfold value_head. rewrite !andb_true_iff, !negb_true_iff. intros [[H _] _].
  unfold skip_ws. simpl. by rewrite H.
Qed.

Lemma skip_ws_print d v t : json_wf d v = true → skip_ws (print_json v +:+ t) = print_json v +:+ t.
Proof. intros (c & r & -> & Hc)%print_head. rewrite sapp_cons. by apply skip_ws_head. Qed.

Lemma parse_value_mono n m d s v r :
  parse_value n d s = POk v r → n ≤ m → parse_value m d s = POk v r.
Proof.
  intros H Hm. destruct (parse_mono n) as [Hv _]. rewrite (Hv m d s Hm); [done|]. by rewrite H.
Qed.
Lemma parse_members_mono n m d s l r :
  parse_members n d s = POk l r → n ≤ m → parse_members m d s = POk l r.
Proof.
  intros H Hm. destruct (parse_mono n) as (_ & Hv & _). rewrite (Hv m d s Hm); [done|]. by rewrite H.
Qed.
Lemma parse_elements_mono n m d s l r :
  parse_elements n d s = POk l r → n ≤ m → parse_elements m d s = POk l r.
Proof.
  intros H Hm. destruct (parse_mono n) as (_ & _ & Hv). rewrite (Hv m d s Hm); [done|]. by rewrite H.
Qed.

(** The value reads back from its text before any delimiter, whatever the depth
    its nesting leaves room for. *)
Definition reads_back (v : json string) : Prop :=
  ∀ d rest, json_wf d v = true → delim rest = true →
    ∃ n, parse_value n d (print_json v +:+ rest) = POk v rest.

Lemma delim_sep c t : is_c 44 c || is_c 93 c || is_c 125 c = true → delim (String c t) = true.
Proof. done. Qed.

Lemma skip_comma t : skip_ws ("," +:+ t) = String "," t.
Proof. done. Qed.

Lemma elements_read_back l d rest :
  l ≠ [] → Forall reads_back l → forallb (json_wf d) l = true →
  ∃ n, parse_elements n d (strings_Join (map print_json l) "," +:+ "]" +:+ rest) = POk l rest.
Proof.
  intros Hne Hl. induction Hl as [|v l Hv Hl IH]; [done|].
  intros [Hwf Hwfl]%andb_true_iff. destruct l as [|v' l].
  - destruct (Hv d ("]" +:+ rest) Hwf eq_refl) as [n Hn]. exists (S n). cbn [map strings_Join].
    cbn [parse_elements]. by rewrite Hn.
  - destruct (IH ltac:(done) Hwfl) as [m Hm].
    set (t := strings_Join (map print_json (v' :: l)) "," +:+ "]" +:+ rest) in *.
    destruct (Hv d ("," +:+ t) Hwf eq_refl) as [n Hn].
    exists (S (max n m)).
    replace (strings_Join (map print_json (v :: v' :: l)) "," +:+ "]" +:+ rest)
      with (print_json v +:+ "," +:+ t) by (subst t; cbn [map strings_Join]; by rewrite !sapp_assoc).
    clearbody t.
    cbn [parse_elements]. rewrite (parse_value_mono n _ _ _ _ _ Hn) by lia.
    rewrite skip_comma. change (is_c 44 ",") with true. cbn match.
    by rewrite (parse_elements_mono m _ _ _ _ _ Hm) by lia.
Qed.

Definition print_member (kv : string * json string) : string :=
  json_quote kv.1 +:+ ":" +:+ print_json kv.2.

Lemma json_quote_app s t : json_quote s +:+ t = String (byte_of 34) (esc_body s +:+ dquote +:+ t).
Proof. unfold json_quote. by rewrite !sapp_assoc. Qed.

Lemma unquote_esc_valid s : utf8_valid s = true → unquote (esc_body s) = s.
Proof. intros H. by rewrite unquote_esc_body, utf8_coerce_id. Qed.

(** One member, whatever follows it. *)
Lemma member_step n d kv t :
  utf8_valid kv.1 = true →
  parse_members (S n) d (print_member kv +:+ t) =
  match parse_value n d (print_json kv.2 +:+ t) with
  | PErr => PErr
  | PFuel => PFuel
  | POk v r3 =>
      match skip_ws r3 with
      | String e r4 =>
          if is_c 44 e then
            match parse_members n d r4 with
            | POk l rest => POk ((kv.1, v) :: l) rest
            | PErr => PErr
            | PFuel => PFuel
            end
          else if is_c 125 e then POk [(kv.1, v)] r4
          else PErr
      | EmptyString => PErr
      end
  end.
Proof.
  intros Hk. unfold print_member. rewrite !sapp_assoc, json_quote_app. cbn [parse_members].
  rewrite skip_ws_head by done. change (is_c 34 (byte_of 34)) with true. cbn match.
  rewrite lex_string_esc, unquote_esc_valid by done. done.
Qed.

Lemma members_read_back l d rest :
  l ≠ [] → Forall (λ kv, reads_back kv.2) l →
  forallb (λ kv, utf8_valid kv.1 && json_wf d kv.2) l = true →
  ∃ n, parse_members n d (strings_Join (map print_member l) "," +:+ "}" +:+ rest) = POk l rest.
Proof.
  intros Hne Hl. induction Hl as [|[k v] l Hv Hl IH]; [done|].
  cbn [forallb fst snd] in *. intros [[Hk Hwf]%andb_true_iff Hwfl]%andb_true_iff.
  destruct l as [|kv' l].
  - destruct (Hv d ("}" +:+ rest) Hwf eq_refl) as [n Hn]. exists (S n). cbn [map strings_Join].
    rewrite member_step by done. cbn [fst snd]. by rewrite Hn.
  - destruct (IH ltac:(done) Hwfl) as [m Hm].
    set (t := strings_Join (map print_member (kv' :: l)) "," +:+ "}" +:+ rest) in *.
    destruct (Hv d ("," +:+ t) Hwf eq_refl) as [n Hn].
    exists (S (max n m)).
    replace (strings_Join (map print_member ((k, v) :: kv' :: l)) "," +:+ "}" +:+ rest)
      with (print_member (k, v) +:+ "," +:+ t)
      by (subst t; cbn [map strings_Join]; by rewrite !sapp_assoc).
    clearbody t.
    rewrite member_step by done. cbn [fst snd].
    rewrite (parse_value_mono n _ _ _ _ _ Hn) by lia.
    rewrite skip_comma. change (is_c 44 ",") with true. cbn match.
    by rewrite (parse_members_mono m _ _ _ _ _ Hm) by lia.
Qed.

Lemma print_join_head {A} (f : A → string) a l t :
  (∃ c r, f a = String c r ∧ value_head c = true) →
  ∃ c r, strings_Join (map f (a :: l)) "," +:+ t = String c r ∧ value_head c = true.
Proof.
  intros (c & r & Hf & Hc). exists c. cbn [map strings_Join].
  destruct (map f l); rewrite Hf, !sapp_cons; by eexists.
Qed.

Lemma value_head_open c : value_head c = true → is_c 93 c = false ∧ is_c 125 c = false.
Proof. unfold value_head. rewrite !andb_true_iff, !negb_true_iff. tauto. Qed.

Lemma parse_array_text n d r :
  parse_value (S n) d ("[" +:+ r) =
  if (maxNestingDepth <=? d)%Z then PErr else
  match skip_ws r with
  | String e r' =>
      if is_c 93 e then POk (JArr []) r'
      else match parse_elements n (d + 1) r with
           | POk l rest => POk (JArr l) rest
           | PErr => PErr
           | PFuel => PFuel
           end
  | EmptyString => PErr
  end.
Proof. reflexivity. Qed.

Lemma parse_object_text n d r :
  parse_value (S n) d ("{" +:+ r) =
  if (maxNestingDepth <=? d)%Z then PErr else
  match skip_ws r with
  | String e r' =>
      if is_c 125 e then POk (JObj []) r'
      else match parse_members n (d + 1) r with
           | POk l rest => POk (JObj l) rest
           | PErr => PErr
           | PFuel => PFuel
           end
  | EmptyString => PErr
  end.
Proof. reflexivity. Qed.

Lemma parse_literal_app {A} word (v : A) t : parse_literal word v (word +:+ t) = POk v t.
Proof. unfold parse_literal. by rewrite prefix_app, str_drop_app. Qed.

Lemma parse_print v : reads_back v.
Proof.
  induction v as [|b|lit|s|l IH|l IH] using json_ind'; intros d rest Hwf Hrest.
  - exists 1. exact (parse_literal_app "null" JNull rest).
  - exists 1. destruct b.
    + exact (parse_literal_app "true" (JBool true) rest).
    + exact (parse_literal_app "false" (JBool false) rest).
  - exists 1. cbn [print_json]. cbn [json_wf] in Hwf. pose proof Hwf as Hlit.
    apply literal_head in Hwf as (c & r & -> & Hc).
    pose proof (number_head c) as H. rewrite Hc in H. cbn [negb orb] in H.
    rewrite !andb_true_iff, !negb_true_iff in H. destruct H as ((((((H1 & H2) & H3) & H4) & H5) & H6) & H7).
    rewrite sapp_cons. cbn [parse_value]. rewrite skip_ws_head, H2, H3, H4, H5, H6, H7 by done.
    unfold literal_ok in Hlit. apply bool_decide_eq_true in Hlit.
    rewrite <- sapp_cons, (lex_number_app _ _ "" rest Hrest Hlit). done.
  - exists 1. cbn [print_json json_wf] in *. rewrite json_quote_app. cbn [parse_value].
    rewrite skip_ws_head by done. change (is_c 34 (byte_of 34)) with true. cbn match.
    change (is_c 123 (byte_of 34)) with false. change (is_c 91 (byte_of 34)) with false. cbn match.
    rewrite lex_string_esc. cbn [of_lex]. by rewrite unquote_esc_valid.
  - cbn [print_json json_wf] in *. apply andb_true_iff in Hwf as [Hd Hl].
    apply Z.ltb_lt, Z.leb_gt in Hd. destruct l as [|v l].
    { exists 1. cbn [map strings_Join]. by rewrite sapp_assoc, parse_array_text, Hd. }
    destruct (elements_read_back (v :: l) (d + 1) rest ltac:(done) IH Hl) as [n Hn].
    exists (S n). rewrite !sapp_assoc, parse_array_text, Hd.
    set (t := strings_Join _ _ +:+ _) in *.
    assert (Ht : ∃ c r, t = String c r ∧ value_head c = true).
    { apply print_join_head. apply andb_true_iff in Hl as [Hl _]. by eapply print_head. }
    clearbody t. destruct Ht as (c & r & -> & Hc). rewrite skip_ws_head by done.
    destruct (value_head_open _ Hc) as [-> _]. by rewrite Hn.
  - cbn [print_json json_wf] in *. apply andb_true_iff in Hwf as [Hd Hl].
    apply Z.ltb_lt, Z.leb_gt in Hd. destruct l as [|kv l].
    { exists 1. cbn [map strings_Join]. by rewrite sapp_assoc, parse_object_text, Hd. }
    destruct (members_read_back (kv :: l) (d + 1) rest ltac:(done) IH Hl) as [n Hn].
    exists (S n). rewrite !sapp_assoc, parse_object_text, Hd. fold print_member.
    change (λ kv : string * json string, json_quote kv.1 +:+ ":" +:+ print_json kv.2)
      with print_member.
    set (t := strings_Join _ _ +:+ _) in *.
    assert (Ht : ∃ c r, t = String c r ∧ value_head c = true).
    { apply print_join_head. unfold print_member. rewrite json_quote_app. by do 2 eexists. }
    clearbody t. destruct Ht as (c & r & -> & Hc). rewrite skip_ws_head by done.
    destruct (value_head_open _ Hc) as [_ ->]. by rewrite Hn.
Qed.

(** Parsing the compact text of a well-formed value gives the value back. *)
Lemma parse_json_print v : json_wf 0 v = true → parse_json (print_json v) = Some v.
Proof.
  intros Hwf. destruct (parse_print v 0%Z "" Hwf eq_refl) as [n Hn]. rewrite sapp_nil_r in Hn.
  unfold parse_json. rewrite <- (parse_fuel_enough (max n (parse_fuel (print_json v)))) by lia.
  rewrite (parse_value_mono n _ _ _ _ _ Hn) by lia. done.
Qed.

Lemma print_json_inj v w :
  json_wf 0 v = true → json_wf 0 w = true → print_json v = print_json w → v = w.
Proof.
  intros Hv Hw H. apply parse_json_print in Hv, Hw. rewrite H in Hv. congruence.
Qed.

(** ** Conversion to and from [interface{}] *)

(** What the documentation of strconv and encoding/json promises of float64:
    the shortest text is a JSON number and parses back to the same number. *)
Class Float64Laws `{Float64} : Prop := {
  f64_format_literal f : literal_ok (f64_format f) = true;
  f64_parse_format f : f64_parse (f64_format f) = Some f
}.

#[export] Instance literal_f64_laws : @Float64Laws literal_f64.
Proof.
  split.
  - intros [s Hs]. exact Hs.
  - intros [s Hs]. unfold f64_parse, f64_format, literal_f64. cbn [proj1_sig].
    destruct (bool_dec (literal_ok s) true) as [H|H]; [|done]. f_equal. by apply (sig_eq_pi _).
Qed.

Section convert.
Context `{Float64Laws}.

(** An [interface{}] value as Go holds it: the keys of a map are distinct, listed
    here in ascending order. *)
Fixpoint canonical (v : json f64) : bool :=
  match v with
  | JArr l => forallb canonical l
  | JObj l => ascending l && forallb (λ kv, canonical kv.2) l
  | _ => true
  end.

(** One that [json.Unmarshal] can return at nesting depth [d]: all strings valid,
    nesting within the bound. *)
Definition go_value (d : Z) (v : json f64) : bool :=
  canonical v && json_wf d (json_map f64_format v).
Definition decodable (v : json f64) : bool := go_value 0 v.

Lemma go_value_obj d l :
  go_value d (JObj l) = true ↔
  (d < maxNestingDepth)%Z ∧ ascending l = true ∧
  Forall (λ kv, utf8_valid kv.1 = true ∧ go_value (d + 1) kv.2 = true) l.
Proof.
  unfold go_value. cbn [canonical json_map json_wf]. rewrite !andb_true_iff, Z.ltb_lt.
  enough (forallb (λ kv, canonical kv.2) l = true ∧
          forallb (λ kv, utf8_valid kv.1 && json_wf (d + 1) kv.2)
            (map (λ kv, (kv.1, json_map f64_format kv.2)) l) = true ↔
          Forall (λ kv, utf8_valid kv.1 = true ∧ (canonical kv.2 &&
            json_wf (d + 1) (json_map f64_format kv.2)) = true) l) by tauto.
  induction l as [|[k v] l IH]; [done|]. cbn [forallb map fst snd].
  rewrite Forall_cons, !andb_true_iff, <- IH. cbn [fst snd]. tauto.
Qed.

Lemma to_interface_map v :
  canonical v = true → to_interface (json_map f64_format v) = Some v.
Proof.
  induction v as [|b|n|s|l IH|l IH] using json_ind'; try done; cbn [canonical json_map to_interface].
  - intros _. by rewrite f64_parse_format.
  - intros Hl.
    match goal with |- JArr <$> ?g _ = _ => assert (Hgo : g (map (json_map f64_format) l) = Some l) end.
    { induction IH as [|v l Hv IHl IH]; [done|]. cbn [forallb map] in *.
      apply andb_true_iff in Hl as [Hcv Hcl]. rewrite (Hv Hcv), (IH Hcl). done. }
    by rewrite Hgo.
  - intros [Hasc Hl]%andb_true_iff.
    match goal with |- _ <$> ?g _ = _ =>
      assert (Hgo : g (map (λ kv, (kv.1, json_map f64_format kv.2)) l) = Some l) end.
    { clear Hasc. induction IH as [|[k v] l Hv IHl IH]; [done|]. cbn [forallb map fst snd] in *.
      apply andb_true_iff in Hl as [Hcv Hcl]. rewrite (Hv Hcv), (IH Hcl). done. }
    rewrite Hgo. cbn. by rewrite amap_of_ascending.
Qed.

(** Marshalling, then unmarshalling, gives the value back. *)
Lemma unmarshal_marshal v : decodable v = true → unmarshal (marshal v) = Some v.
Proof.
  unfold decodable, go_value. intros [Hc Hwf]%andb_true_iff. unfold unmarshal, marshal.
  rewrite parse_json_print by done. by apply to_interface_map.
Qed.

Lemma marshal_inj v w :
  decodable v = true → decodable w = true → marshal v = marshal w → v = w.
Proof.
  intros Hv%unmarshal_marshal Hw%unmarshal_marshal Heq. rewrite Heq in Hv. congruence.
Qed.

(** Every value [json.Unmarshal] returns is decodable. *)
Lemma to_interface_wf v : ∀ d w,
  json_wf d v = true → to_interface v = Some w →
  canonical w = true ∧ json_wf d (json_map f64_format w) = true.
Proof.
  induction v as [|b|n|s|l IH|l IH] using json_ind'; intros d w Hwf; cbn [to_interface].
  - by intros [= <-].
  - by intros [= <-].
  - destruct (f64_parse n) as [f|]; [|done]. intros [= <-]. split; [done|].
    apply f64_format_literal.
  - by intros [= <-].
  - match goal with |- JArr <$> ?g _ = _ → _ => set (go := g) end.
    cbn [json_wf] in Hwf. apply andb_true_iff in Hwf as [Hd Hl].
    assert (Hgo : ∀ l', go l = Some l' → forallb canonical l' = true ∧
              forallb (json_wf (d + 1)) (map (json_map f64_format) l') = true).
    { induction IH as [|v l Hv IHl IH]; [by intros l' [= <-]|]. intros l'. cbn [forallb] in Hl.
      apply andb_true_iff in Hl as [Hwv Hwl]. cbn.
      destruct (to_interface v) as [v'|] eqn:Ev; [|done]. cbn.
      fold go. destruct (go l) as [l''|]; [|done]. intros [= <-].
      destruct (Hv (d + 1)%Z v' Hwv eq_refl) as [H1 H2]. destruct (IH Hwl l'' eq_refl) as [H3 H4].
      cbn [forallb map]. by rewrite H1, H2, H3, H4. }
    destruct (go l) as [l'|]; [|done]. intros [= <-]. cbn [canonical json_map json_wf].
    rewrite Hd. by apply Hgo.
  - match goal with |- _ <$> ?g _ = _ → _ => set (go := g) end.
    cbn [json_wf] in Hwf. apply andb_true_iff in Hwf as [Hd Hl].
    set (P := λ kv : string * json f64, canonical kv.2 = true ∧ utf8_valid kv.1 = true ∧
       json_wf (d + 1) (json_map f64_format kv.2) = true).
    assert (Hgo : ∀ l', go l = Some l' → Forall P l').
    { induction IH as [|[k v] l Hv IHl IH]; [by intros l' [= <-]|]. intros l'.
      cbn [forallb fst snd] in *. rewrite !andb_true_iff in Hl. destruct Hl as [[Hk Hwv] Hwl]. cbn.
      destruct (to_interface v) as [v'|] eqn:Ev; [|done]. cbn.
      fold go. destruct (go l) as [l''|]; [|done]. intros [= <-].
      destruct (Hv (d + 1)%Z v' Hwv eq_refl) as [H1 H2].
      constructor; [done|]. by apply IH. }
    destruct (go l) as [l'|]; [|done]. intros [= <-]. cbn [canonical json_map json_wf].
    specialize (Hgo l' eq_refl). apply Forall_of_list in Hgo.
    rewrite Hd, ascending_of_list. split; [|rewrite andb_true_l, forallb_forall];
      [apply forallb_forall|]; rewrite Forall_forall in Hgo.
    + intros kv Hin%list_elem_of_In. by apply Hgo.
    + intros kv Hin. apply in_map_iff in Hin as (kv' & <- & Hin). cbn [fst snd].
      apply list_elem_of_In, Hgo in Hin as (_ & -> & ->). done.
Qed.

Lemma unmarshal_decodable s v : unmarshal s = Some v → decodable v = true.
Proof.
  unfold unmarshal, decodable, go_value. destruct (parse_json s) as [u|] eqn:E; [|done]. cbn.
  intros Hv. apply parse_json_wf in E. destruct (to_interface_wf u 0 v E Hv) as [-> ->]. done.
Qed.
End convert.
