(* ===== verification/Config.v ===== *)
(** internal/config/config.go: the settings the binaries read from the
    environment, with their defaults and their refusals. *)
From S2P Require Import Prelude GoStrings.

Definition envGitRepoURL : string := "GIT_REPO_URL".
Definition envGitBranch : string := "GIT_BRANCH".
Definition envBatchIntervalSeconds : string := "BATCH_INTERVAL_SECONDS".
Definition envExportPathTemplate : string := "EXPORT_PATH_TEMPLATE".
Definition envGitUsername : string := "GIT_USERNAME".
Definition envGitAccessToken : string := "GIT_ACCESS_TOKEN".
Definition envWebhookSecret : string := "WEBHOOK_SECRET".

Definition defaultGitBranch : string := "main".
Definition defaultBatchIntervalSec : Z := 10.
Definition defaultExportPathTemplate : string :=
  "inventory/{{.PluralKind}}/{{.Namespace}}/{{.Name}}.yaml".

(** The process environment; [os.Getenv] yields the empty string for a variable
    that is not set. *)
Abbreviation environ := (gmap string string).
Definition os_Getenv (env : environ) (key : string) : string := default "" (env !! key).

(** [time.Duration]: nanoseconds in a signed 64-bit integer, products wrap. *)
Definition int64_wrap (z : Z) : Z := ((z + 9223372036854775808) mod 18446744073709551616 - 9223372036854775808)%Z.
Definition time_Second : Z := 1000000000.
Definition mul_Duration (a b : Z) : Z := int64_wrap (a * b).

Record InventoryControllerConfig := InvConfig {
  GitRepoURL : string;
  GitBranch : string;
  BatchInterval : Z;
  ExportPathTemplate : string;
  GitUsername : string;
  GitAccessToken : string
}.

Section loaders.
Context `{GoUnicode}.

Definition load_BatchInterval (env : environ) : result Z :=
  let v := os_Getenv env envBatchIntervalSeconds in
  if decide (v ≠ "") then
    sec ← wrap_err ("parse " +:+ envBatchIntervalSeconds) (strconv_Atoi v);
    if (sec <? 1)%Z then Failed (Err (envBatchIntervalSeconds +:+ " must be >= 1"))
    else Ok (mul_Duration sec time_Second)
  else Ok (mul_Duration defaultBatchIntervalSec time_Second).

Definition LoadInventoryControllerConfig (env : environ) : result InventoryControllerConfig :=
  let branch := os_Getenv env envGitBranch in
  let branch := if decide (branch = "") then defaultGitBranch else branch in
  interval ← load_BatchInterval env;
  let tmpl := os_Getenv env envExportPathTemplate in
  let tmpl := if decide (tmpl = "") then defaultExportPathTemplate else tmpl in
  Ok (InvConfig (os_Getenv env envGitRepoURL) branch interval tmpl
        (os_Getenv env envGitUsername) (os_Getenv env envGitAccessToken)).
End loaders.

Record SyncOperatorConfig := SyncConfig {
  WebhookSecret : string;
  SyncGitAccessToken : string
}.

Definition LoadSyncOperatorConfig (env : environ) : result SyncOperatorConfig :=
  let secret := os_Getenv env envWebhookSecret in
  if decide (strings_TrimSpace secret = "")
  then Failed (Err (envWebhookSecret +:+
         " must be set; refusing to start without webhook authentication"))
  else Ok (SyncConfig secret (os_Getenv env envGitAccessToken)).

(** ** Facts *)

Section facts.
Context `{GoUnicode}.

Lemma parse_uint_bound s : ∀ n m, (0 <= n)%Z → parse_uint n s = inl m → (0 <= m)%Z.
Proof.
  induction s as [|c s IH]; intros n m Hn; cbn [parse_uint]; [by intros [= <-]|].
  unfold digit_val. destruct (_ && _) eqn:Hd; [|done].
  apply andb_true_iff in Hd as [H1%Z.leb_le _].
  destruct (_ <=? _)%Z; [|done]. apply IH. lia.
Qed.

(** [Atoi] returns integers of the machine only. *)
Lemma atoi_range s z : atoi s = inl z → (- 9223372036854775808 <= z <= 9223372036854775807)%Z.
Proof.
  unfold atoi. destruct (strip_sign s) as [neg digits]. case_bool_decide; [done|].
  destruct (parse_uint 0 digits) as [un|] eqn:Hp; [|done]. apply parse_uint_bound in Hp; [|done].
  unfold max_int64. destruct neg; destruct (Z.leb_spec un (9223372036854775807 + 1));
    destruct (Z.leb_spec un 9223372036854775807); intros [= <-]; lia.
Qed.

Lemma int64_wrap_id z : (- 9223372036854775808 <= z <= 9223372036854775807)%Z → int64_wrap z = z.
Proof. intros Hz. unfold int64_wrap. rewrite Z.mod_small; lia. Qed.

Lemma int64_wrap_range z : (- 9223372036854775808 <= int64_wrap z <= 9223372036854775807)%Z.
Proof.
  unfold int64_wrap. pose proof (Z.mod_pos_bound (z + 9223372036854775808) 18446744073709551616 eq_refl). lia.
Qed.

(** The product by a second is the mathematical one exactly up to 9223372036
    seconds, about 292 years. *)
Lemma mul_second_exact sec :
  (1 <= sec)%Z → mul_Duration sec time_Second = (sec * 1000000000)%Z ↔ (sec <= 9223372036)%Z.
Proof.
  intros Hs. unfold mul_Duration, time_Second. split; intros Hm.
  - pose proof (int64_wrap_range (sec * 1000000000)). lia.
  - apply int64_wrap_id. lia.
Qed.

(** [if x == "" { x = d }] *)
Lemma or_default_spec (x d : string) :
  d ≠ "" → let b := if decide (x = "") then d else x in b ≠ "" ∧ (b = x ∨ x = "" ∧ b = d).
Proof. intros Hd. cbn. case_decide; [split; [done|by right]|split; [done|by left]]. Qed.
End facts.

Section properties.
Context `{GoUnicode}.

(** LoadInventoryControllerConfig either returns a configuration whose branch
    and template are never empty (the variable, or its documented default) and
    whose interval is 10s when BATCH_INTERVAL_SECONDS is unset and otherwise the
    int64 product of an integer of at least 1 by a second - the exact product as
    long as it is at most 9223372036 - or it refuses, and it refuses only a
    non-empty BATCH_INTERVAL_SECONDS that is no integer or is below 1. *)
Theorem LoadInventoryControllerConfig_correct env :
  let v := os_Getenv env envBatchIntervalSeconds in
  match LoadInventoryControllerConfig env with
  | Ok c =>
      GitRepoURL c = os_Getenv env envGitRepoURL ∧
      GitUsername c = os_Getenv env envGitUsername ∧
      GitAccessToken c = os_Getenv env envGitAccessToken ∧
      (GitBranch c ≠ "" ∧ (GitBranch c = os_Getenv env envGitBranch ∨
                           os_Getenv env envGitBranch = "" ∧ GitBranch c = "main")) ∧
      (ExportPathTemplate c ≠ "" ∧
        (ExportPathTemplate c = os_Getenv env envExportPathTemplate ∨
         os_Getenv env envExportPathTemplate = "" ∧
         ExportPathTemplate c = "inventory/{{.PluralKind}}/{{.Namespace}}/{{.Name}}.yaml")) ∧
      (v = "" ∧ BatchInterval c = 10000000000%Z ∨
       ∃ sec, atoi v = inl sec ∧ (1 <= sec)%Z ∧
         (BatchInterval c = sec * 1000000000 ↔ sec <= 9223372036)%Z)
  | Failed e =>
      v ≠ "" ∧ ((∃ ne, atoi v = inr ne) ∨ ∃ sec, atoi v = inl sec ∧ (sec < 1)%Z)
  end.
Proof.
  cbn zeta. unfold LoadInventoryControllerConfig, load_BatchInterval, strconv_Atoi.
  set (v := os_Getenv env envBatchIntervalSeconds).
  pose proof (or_default_spec (os_Getenv env envGitBranch) defaultGitBranch ltac:(done)) as Hbranch.
  pose proof (or_default_spec (os_Getenv env envExportPathTemplate) defaultExportPathTemplate
    ltac:(done)) as Htmpl.
  destruct (decide (v ≠ "")) as [Hv|Hv].
  - destruct (atoi v) as [sec|ne]; [cbn|destruct ne; (split; [done|left; by eexists])].
    destruct (Z.ltb_spec sec 1); cbn; [by split; [done|right; exists sec]|].
    do 3 (split; [done|]). do 2 (split; [done|]).
    right. exists sec. split; [done|]. split; [done|]. by apply mul_second_exact.
  - cbn. do 3 (split; [done|]). do 2 (split; [done|]).
    left. split; [by apply dec_stable|done].
Qed.

(** The check that BATCH_INTERVAL_SECONDS is at least 1 does not keep the
    interval positive: the product by a second wraps in int64, so an accepted
    value yields a negative interval, and another one yields zero. *)
Lemma batch_interval_overflows :
  (∃ c, LoadInventoryControllerConfig {[ envBatchIntervalSeconds := "9223372037" ]} = Ok c ∧
        (BatchInterval c < 0)%Z) ∧
  (∃ c, LoadInventoryControllerConfig {[ envBatchIntervalSeconds := "36028797018963968" ]} = Ok c ∧
        BatchInterval c = 0%Z).
Proof. split; eexists; (split; [by vm_compute|]); done. Qed.

(** LoadSyncOperatorConfig is fail-closed: it succeeds exactly when
    WEBHOOK_SECRET has a character that is not white space, and then returns the
    secret and the token byte for byte; otherwise it fails with the documented
    message. *)
Lemma LoadSyncOperatorConfig_fail_closed env :
  let secret := os_Getenv env envWebhookSecret in
  (strings_TrimSpace secret ≠ "" →
     LoadSyncOperatorConfig env = Ok (SyncConfig secret (os_Getenv env envGitAccessToken))) ∧
  (strings_TrimSpace secret = "" →
     LoadSyncOperatorConfig env = Failed (Err
       "WEBHOOK_SECRET must be set; refusing to start without webhook authentication")).
Proof. cbn zeta. unfold LoadSyncOperatorConfig. split; intros Hs; by case_decide. Qed.
End properties.
