(* ===== verification/ExportPath.v ===== *)
(** Where an object is exported in the repository: internal/inventory/gvk.go and
    internal/inventory/export_path.go, with the part of [text/template] that
    export path templates use. *)
From S2P Require Import Prelude GoStrings Config.
From Stdlib Require String.

(** ** gvk.go *)
Record GroupVersionKind := GVK { Group : string; Version : string; Kind : string }.

#[export] Instance GVK_eq_dec : EqDecision GroupVersionKind.
Proof. solve_decision. Defined.

Definition ApplicationGVK : GroupVersionKind := GVK "argoproj.io" "v1alpha1" "Application".
Definition ApplicationSetGVK : GroupVersionKind := GVK "argoproj.io" "v1alpha1" "ApplicationSet".

(** ** export_path.go *)
Definition ArgoPluralKind `{GoUnicode} (kind : string) : string :=
  if decide (kind = "Application") then "applications"
  else if decide (kind = "ApplicationSet") then "applicationsets"
  else strings_ToLower kind +:+ "s".

Record exportPathData := ExportPathData {
  PluralKind : string; Namespace : string; Name : string }.

(** ** text/template *)

(** Template nodes of the fragment made of text and field actions [{{.Field}}];
    a template that uses anything else is left to [template_other]. *)
Inductive tnode := TByte (c : ascii) | TField (f : string).
Inductive tstate := SText | SOpen | SIdent (f : string) | SClose (f : string).

Definition tmpl_space (c : ascii) : bool :=
  let b := byte_val c in ((b =? 32) || (b =? 9) || (b =? 10) || (b =? 13))%Z.
Definition tmpl_ident (first : bool) (c : ascii) : bool :=
  let b := byte_val c in
  (((65 <=? b) && (b <=? 90)) || ((97 <=? b) && (b <=? 122)) || (b =? 95) ||
   (negb first && (48 <=? b) && (b <=? 57)))%Z.
Definition open_brace : ascii := "{"%char.
Definition close_brace : ascii := "}"%char.

(** [Parse] of the fragment, one byte at a time; [None] is a template outside it. *)
Fixpoint tmpl_parse (st : tstate) (s : string) : option (list tnode) :=
  match s with
  | EmptyString => match st with SText => Some [] | _ => None end
  | String c r =>
      match st with
      | SText =>
          match r with
          | String d r' =>
              if decide (c = open_brace ∧ d = open_brace) then tmpl_parse SOpen r'
              else cons (TByte c) <$> tmpl_parse SText r
          | EmptyString => Some [TByte c]
          end
      | SOpen =>
          if tmpl_space c then tmpl_parse SOpen r
          else if decide (c = "."%char) then tmpl_parse (SIdent "") r else None
      | SIdent f =>
          if tmpl_ident (bool_decide (f = "")) c then tmpl_parse (SIdent (f +:+ String c "")) r
          else if decide (f = "") then None
          else if tmpl_space c then tmpl_parse (SClose f) r
          else match r with
               | String d r' =>
                   if decide (c = close_brace ∧ d = close_brace)
                   then cons (TField f) <$> tmpl_parse SText r' else None
               | EmptyString => None
               end
      | SClose f =>
          if tmpl_space c then tmpl_parse (SClose f) r
          else match r with
               | String d r' =>
                   if decide (c = close_brace ∧ d = close_brace)
                   then cons (TField f) <$> tmpl_parse SText r' else None
               | EmptyString => None
               end
      end
  end.

(** The rest of the template language, and the text of an execution error. *)
Class TextTemplate := {
  template_other : string → exportPathData → result string;
  template_field_error : string → string → string
}.

Definition template_field (d : exportPathData) (f : string) : option string :=
  if decide (f = "PluralKind") then Some (PluralKind d)
  else if decide (f = "Namespace") then Some (Namespace d)
  else if decide (f = "Name") then Some (Name d) else None.

(** [Execute]: stops at the first field the data does not have. *)
Fixpoint tmpl_execute `{TextTemplate} (src : string) (d : exportPathData) (l : list tnode)
    : result string :=
  match l with
  | [] => Ok ""
  | TByte c :: l' => s ← tmpl_execute src d l'; Ok (String c s)
  | TField f :: l' =>
      match template_field d f with
      | Some v => s ← tmpl_execute src d l'; Ok (v +:+ s)
      | None => Failed (Err (template_field_error src f))
      end
  end.

Section render.
Context `{GoUnicode} `{TextTemplate}.

Definition RenderExportPath (tmplStr kind namespace name : string) : result string :=
  let data := ExportPathData (ArgoPluralKind kind) namespace name in
  match tmpl_parse SText tmplStr with
  | Some nodes => wrap_err "execute export path template" (tmpl_execute tmplStr data nodes)
  | None => template_other tmplStr data
  end.
End render.

(** An engine that knows nothing beyond the fragment. *)
Definition fragment_engine : TextTemplate := {|
  template_other _ _ := Failed (ErrWrap "parse export path template" (Err "unsupported template"));
  template_field_error src f := "can't evaluate field " +:+ f
|}.

(** ** Rendering the default template *)

Definition export_path (plural namespace name : string) : string :=
  "inventory/" +:+ plural +:+ "/" +:+ namespace +:+ "/" +:+ name +:+ ".yaml".

Lemma ArgoPluralKind_Application `{GoUnicode} : ArgoPluralKind "Application" = "applications".
Proof. done. Qed.
Lemma ArgoPluralKind_ApplicationSet `{GoUnicode} :
  ArgoPluralKind "ApplicationSet" = "applicationsets".
Proof. done. Qed.

Lemma tmpl_execute_bytes `{TextTemplate} src d s l :
  tmpl_execute src d (map TByte (String.list_ascii_of_string s) ++ l) =
  (r ← tmpl_execute src d l; Ok (s +:+ r)).
Proof.
  induction s as [|c s IH]; simpl; [by destruct (tmpl_execute src d l)|].
  rewrite IH. by destruct (tmpl_execute src d l).
Qed.

Lemma render_default `{GoUnicode} `{TextTemplate} kind namespace name :
  RenderExportPath defaultExportPathTemplate kind namespace name =
  Ok (export_path (ArgoPluralKind kind) namespace name).
Proof.
  unfold RenderExportPath, defaultExportPathTemplate.
  set (d := ExportPathData _ _ _).
  replace (tmpl_parse SText _) with (Some (
    map TByte (String.list_ascii_of_string "inventory/") ++ TField "PluralKind" ::
    map TByte (String.list_ascii_of_string "/") ++ TField "Namespace" ::
    map TByte (String.list_ascii_of_string "/") ++ TField "Name" ::
    map TByte (String.list_ascii_of_string ".yaml") ++ [])) by (vm_compute; reflexivity).
  rewrite tmpl_execute_bytes. cbn [tmpl_execute template_field].
  reflexivity.
Qed.

#[export] Hint Rewrite @render_default : accord.
