(* ===== verification/InventoryPath.v ===== *)
(** internal/sync/path.go: the paths of the repository the sync-operator acts on. *)
From S2P Require Import Prelude GoStrings GoPath Config ExportPath.

Definition WebhookPath : string := "/api/v1/webhook".

Record ParsedInventoryPath := Parsed {
  PluralKind : string; Namespace : string; Name : string }.

#[export] Instance Parsed_eq_dec : EqDecision ParsedInventoryPath.
Proof. solve_decision. Defined.
#[export] Instance Parsed_countable : Countable ParsedInventoryPath.
Proof.
  by refine (inj_countable' (λ x, (PluralKind x, Namespace x, Name x)) (λ '(k, ns, n), Parsed k ns n) _); intros [].
Defined.

Definition ParseInventoryExportPath (gitPath : string) : option ParsedInventoryPath :=
  let p := path_Clean (strings_TrimSpace gitPath) in
  let p := strings_TrimPrefix p "/" in
  if negb (strings_HasPrefix p "inventory/") then None else
  let rest := strings_TrimPrefix p "inventory/" in
  match strings_Split rest "/" with
  | [plural; ns; file] =>
      if decide (plural ≠ "applications" ∧ plural ≠ "applicationsets") then None else
      if negb (strings_HasSuffix file ".yaml") && negb (strings_HasSuffix file ".yml") then None else
      let name := strings_TrimSuffix (strings_TrimSuffix file ".yaml") ".yml" in
      if decide (ns = "" ∨ name = "" ∨ name = "." ∨ ns = ".") then None
      else Some (Parsed plural ns name)
  | _ => None
  end.

Definition ArgoKindFromPlural `{GoUnicode} (plural : string) : result string :=
  if decide (plural = "applications") then Ok "Application"
  else if decide (plural = "applicationsets") then Ok "ApplicationSet"
  else Failed (Err ("unsupported plural kind " +:+ strconv_Quote plural)).

(** ** What the parser accepts *)

(** The path the parser looks at: trimmed, cleaned, without its leading slash. *)
Definition repo_path (gitPath : string) : string :=
  strings_TrimPrefix (path_Clean (strings_TrimSpace gitPath)) "/".

(** The file name a resource name is read from. *)
Inductive file_of (name : string) : string → Prop :=
| file_yaml : strings_HasSuffix name ".yml" = false → file_of name (name +:+ ".yaml")
| file_yml : file_of name (name +:+ ".yml")
| file_yml_yaml : file_of name ((name +:+ ".yml") +:+ ".yaml").

Definition export_plural (plural : string) : Prop :=
  plural = "applications" ∨ plural = "applicationsets".

(** A name the parser can return. *)
Definition segment_name (s : string) : Prop :=
  s ≠ "" ∧ s ≠ "." ∧ no_char slash_char s = true.

Section parser.
Implicit Types plural ns name file : string.

Lemma yml_not_yaml s : strings_HasSuffix (s +:+ ".yml") ".yaml" = false.
Proof.
  apply not_true_iff_false. rewrite HasSuffix_spec. intros [r H].
  change ".yaml" with (".y" +:+ "aml") in H. rewrite <- sapp_assoc in H.
  change ".yml" with ("." +:+ "yml") in H. rewrite <- (sapp_assoc s) in H.
  by apply app_suffix_inv in H as [_ H].
Qed.

Lemma file_of_spec name file :
  file_of name file ↔
  (strings_HasSuffix file ".yaml" = true ∨ strings_HasSuffix file ".yml" = true) ∧
  name = strings_TrimSuffix (strings_TrimSuffix file ".yaml") ".yml".
Proof.
  split.
  - intros [Hn| |]; rewrite ?HasSuffix_app, ?TrimSuffix_app.
    + rewrite (TrimSuffix_other name) by done. auto.
    + rewrite (TrimSuffix_other _ ".yaml") by apply yml_not_yaml. rewrite TrimSuffix_app. auto.
    + auto.
  - destruct (strings_HasSuffix file ".yaml") eqn:H1.
    + apply HasSuffix_spec in H1 as [r ->]. rewrite TrimSuffix_app. intros [_ ->].
      destruct (strings_HasSuffix r ".yml") eqn:H2.
      * apply HasSuffix_spec in H2 as [t ->]. rewrite TrimSuffix_app. constructor.
      * rewrite TrimSuffix_other by done. by constructor.
    + intros [[?|H2] ->]; [done|]. rewrite (TrimSuffix_other file) by done.
      apply HasSuffix_spec in H2 as [r ->]. rewrite TrimSuffix_app. constructor.
Qed.

Lemma split_three rest a b c :
  strings_Split rest slash = [a; b; c] ↔
  rest = a +:+ slash +:+ b +:+ slash +:+ c ∧ Forall (λ e, no_char slash_char e = true) [a; b; c].
Proof.
  split.
  - intros H. split.
    + rewrite <- (join_split slash_char rest). fold slash. by rewrite H.
    + rewrite <- H. apply split_parts.
  - intros [-> H]. by apply (split_join slash_char [a; b; c]).
Qed.

Lemma no_char_app s t :
  no_char slash_char (s +:+ t) = no_char slash_char s && no_char slash_char t.
Proof. apply str_forallb_app. Qed.

Lemma file_of_no_slash name file :
  file_of name file → no_char slash_char file = no_char slash_char name.
Proof. intros []; rewrite !no_char_app; by rewrite !andb_true_r. Qed.

Lemma parse_spec gitPath plural ns name :
  ParseInventoryExportPath gitPath = Some (Parsed plural ns name) ↔
  export_plural plural ∧ segment_name ns ∧ segment_name name ∧
  ∃ file, file_of name file ∧
    repo_path gitPath = "inventory/" +:+ plural +:+ slash +:+ ns +:+ slash +:+ file.
Proof.
  unfold ParseInventoryExportPath. fold (repo_path gitPath).
  generalize (repo_path gitPath) as p. intros p. split.
  - destruct (strings_HasPrefix p "inventory/") eqn:Hp; [|done].
    apply HasPrefix_spec in Hp as [rest ->]. rewrite TrimPrefix_app. simpl negb. cbv iota.
    change "/" with slash. destruct (strings_Split rest slash) as [|a [|b [|c [|]]]] eqn:Hs; try done.
    apply split_three in Hs as [-> Hns].
    repeat (apply Forall_cons in Hns as [? Hns]).
    case_decide as Hpl; [done|].
    destruct (negb _ && negb _) eqn:Hext; [done|].
    case_decide as Hnames; [done|]. intros [= -> -> <-].
    assert (Hf : file_of (strings_TrimSuffix (strings_TrimSuffix c ".yaml") ".yml") c).
    { apply file_of_spec. split; [|done].
      apply andb_false_iff in Hext as [?%negb_false_iff|?%negb_false_iff]; auto. }
    split; [|split; [|split]].
    + unfold export_plural. destruct (decide (plural = "applications")); [auto|].
      destruct (decide (plural = "applicationsets")); [auto|]. tauto.
    + unfold segment_name. tauto.
    + unfold segment_name. rewrite <- (file_of_no_slash _ _ Hf). tauto.
    + by exists c.
  - intros (Hpl & (Hn1 & Hn2 & Hn3) & (Hm1 & Hm2 & Hm3) & file & Hf & ->).
    rewrite HasPrefix_app, TrimPrefix_app. simpl negb. cbv iota.
    change "/" with slash.
    rewrite (proj2 (split_three _ plural ns file)).
    2:{ split; [done|]. repeat constructor; [|done|by rewrite (file_of_no_slash _ _ Hf)].
        by destruct Hpl as [-> | ->]. }
    rewrite decide_False by (destruct Hpl as [-> | ->]; naive_solver).
    apply file_of_spec in Hf as [Hext Hname]. rewrite <- Hname.
    rewrite (decide_False (P := _ ∨ _)) by tauto.
    by destruct Hext as [-> | ->]; rewrite ?andb_false_r.
Qed.
End parser.

(** ** Paths the inventory-controller writes *)

Lemma plain_elem_file name : no_char slash_char name = true → plain_elem (name +:+ ".yaml") = true.
Proof.
  intros H. apply plain_elem_spec. rewrite no_char_app, H. repeat split.
  - intros Heq%sapp_eq_nil. by destruct Heq.
  - intros Heq%(f_equal String.length). rewrite slen_app in Heq. simpl in Heq. lia.
  - intros Heq%(f_equal String.length). rewrite slen_app in Heq. simpl in Heq. lia.
Qed.

(** A path of ordinary elements under inventory/ that ends in [.yaml] is left as
    it is by trimming and cleaning. *)
Lemma repo_path_plain elems p :
  elems ≠ [] → Forall (λ e, plain_elem e = true) elems →
  strings_Join ("inventory" :: elems) slash = p +:+ ".yaml" →
  repo_path (p +:+ ".yaml") = p +:+ ".yaml".
Proof.
  intros Hne Hpl Hp. unfold repo_path.
  destruct elems as [|e elems]; [done|].
  assert (Hshape : ∃ t, p +:+ ".yaml" = "i" +:+ t +:+ "l").
  { rewrite <- Hp. change (strings_Join _ _) with ("inventory" +:+ slash +:+ strings_Join (e :: elems) slash).
    destruct p as [|c p].
    { apply (f_equal String.length) in Hp. change (strings_Join _ _)
        with ("inventory" +:+ slash +:+ strings_Join (e :: elems) slash) in Hp.
      rewrite !slen_app in Hp. simpl in Hp. lia. }
    exists (p +:+ ".yam"). rewrite !sapp_assoc. change (".yam" +:+ "l") with ".yaml".
    change ("inventory" +:+ slash +:+ strings_Join (e :: elems) slash)
      with (strings_Join ("inventory" :: e :: elems) slash). rewrite Hp.
    change (strings_Join ("inventory" :: e :: elems) slash)
      with (String "i" ("nventory" +:+ slash +:+ strings_Join (e :: elems) slash)) in Hp.
    rewrite sapp_cons in *. by injection Hp as <- _. }
  destruct Hshape as [t Ht].
  rewrite Ht, <- sapp_assoc. change ("i" +:+ t) with (String "i" t).
  rewrite TrimSpace_visible by done. change (String "i" t) with ("i" +:+ t).
  rewrite sapp_assoc, <- Ht, <- Hp.
  rewrite path_Clean_plain by (try done; by constructor).
  done.
Qed.

Lemma repo_path_export plural ns name :
  plain_elem plural = true → plain_elem ns = true → no_char slash_char name = true →
  repo_path (export_path plural ns name) = export_path plural ns name.
Proof.
  intros Hp Hns Hname.
  replace (export_path plural ns name)
    with (("inventory/" +:+ plural +:+ "/" +:+ ns +:+ "/" +:+ name) +:+ ".yaml")
    by (unfold export_path; by rewrite !sapp_assoc).
  apply (repo_path_plain [plural; ns; name +:+ ".yaml"]); [done| |].
  - repeat constructor; [done|done|by apply plain_elem_file].
  - simpl. unfold slash. by rewrite !sapp_assoc.
Qed.

(** What the sync-operator reads from an exported path, whatever the name. *)
Lemma parse_export plural ns name stem :
  export_plural plural → plain_elem ns = true → segment_name name → segment_name stem →
  file_of stem (name +:+ ".yaml") →
  ParseInventoryExportPath (export_path plural ns name) = Some (Parsed plural ns stem).
Proof.
  intros Hpl Hns (Hn1 & Hn2 & Hn3) Hstem Hf. apply parse_spec.
  split; [done|]. apply plain_elem_spec in Hns as Hns'. split; [unfold segment_name; tauto|].
  split; [done|]. exists (name +:+ ".yaml"). split; [done|].
  apply repo_path_export; [|done|done]. by destruct Hpl as [-> | ->].
Qed.

Lemma ArgoPluralKind_export `{GoUnicode} kind :
  kind = "Application" ∨ kind = "ApplicationSet" → export_plural (ArgoPluralKind kind).
Proof. unfold export_plural. intros [-> | ->]; auto. Qed.

Section claims.
Context `{GoUnicode} `{TextTemplate}.

(** C29: the paths the sync-operator acts on are exactly those whose trimmed and
    cleaned form is inventory/<plural>/<namespace>/<file> with a plural of the two
    Argo kinds and a file <name>.yaml, <name>.yml or <name>.yml.yaml; of the last the
    name is <name> as well. Namespace and name are not empty, not a dot and without
    a slash. The returned triple is read from that form, and every other path is
    rejected. The comment of the function promises acceptance of <name>.yaml only. *)
Theorem ParseInventoryExportPath_correct gitPath plural ns name :
  ParseInventoryExportPath gitPath = Some (Parsed plural ns name) ↔
  export_plural plural ∧ segment_name ns ∧ segment_name name ∧
  ∃ file, file_of name file ∧
    repo_path gitPath = "inventory/" +:+ plural +:+ slash +:+ ns +:+ slash +:+ file.
Proof. apply parse_spec. Qed.

(** C30: the path the inventory-controller renders with the default template for
    an Argo object is parsed back by the sync-operator to the same kind,
    namespace and name, unless the object's name ends in .yml. *)
Theorem export_path_roundtrip kind ns name p :
  kind = "Application" ∨ kind = "ApplicationSet" →
  plain_elem ns = true → segment_name name →
  RenderExportPath defaultExportPathTemplate kind ns name = Ok p →
  ParseInventoryExportPath p = Some (Parsed (ArgoPluralKind kind) ns name) ↔
  strings_HasSuffix name ".yml" = false.
Proof.
  intros Hk Hns Hname Hp. rewrite render_default in Hp. injection Hp as <-. split.
  - intros Hparse%parse_spec. destruct Hparse as (_ & _ & _ & file & Hf & Heq).
    rewrite repo_path_export in Heq; [|by destruct Hk as [-> | ->]|done|apply Hname].
    unfold export_path in Heq. change "/" with slash in Heq.
    do 5 apply sapp_inv_l in Heq. subst file.
    apply file_of_spec in Hf as [_ Hf]. rewrite TrimSuffix_app in Hf.
    apply not_true_iff_false. intros [t ->]%HasSuffix_spec. rewrite TrimSuffix_app in Hf.
    apply (f_equal String.length) in Hf. rewrite slen_app in Hf. simpl in Hf. lia.
  - intros Hsuf. apply parse_export; try done; [by apply ArgoPluralKind_export|by constructor].
Qed.

(** An object named <stem>.yml is exported to a path that the sync-operator
    reads as the different object <stem>: applying the exported file is a
    path/manifest mismatch, and removing it deletes the object <stem>. *)
Theorem export_path_yml_aliases kind ns stem p :
  kind = "Application" ∨ kind = "ApplicationSet" →
  plain_elem ns = true → segment_name stem →
  RenderExportPath defaultExportPathTemplate kind ns (stem +:+ ".yml") = Ok p →
  ParseInventoryExportPath p = Some (Parsed (ArgoPluralKind kind) ns stem).
Proof.
  intros Hk Hns Hstem Hp. rewrite render_default in Hp. injection Hp as <-.
  apply parse_export; [by apply ArgoPluralKind_export|done| |done|constructor].
  destruct Hstem as (Hs1 & Hs2 & Hs3). split; [|split].
  - intros Heq%sapp_eq_nil. by destruct Heq.
  - intros Heq%(f_equal String.length). rewrite slen_app in Heq. simpl in Heq. lia.
  - by rewrite no_char_app, Hs3.
Qed.
End claims.

(** ** Witnesses *)

Lemma export_path_roundtrip_witness :
  let _ := ascii_tables in let _ := fragment_engine in
  ∃ p, RenderExportPath defaultExportPathTemplate "ApplicationSet" "argocd" "guestbook" = Ok p ∧
    ParseInventoryExportPath p = Some (Parsed "applicationsets" "argocd" "guestbook").
Proof.
  intros tables engine. eexists. split; [apply render_default|].
  apply (export_path_roundtrip "ApplicationSet" "argocd" "guestbook" _ (or_intror eq_refl) eq_refl);
    [by repeat split|apply render_default|reflexivity].
Defined.

Lemma export_path_yml_aliases_witness :
  let _ := ascii_tables in let _ := fragment_engine in
  ∃ p, RenderExportPath defaultExportPathTemplate "Application" "argocd" "guestbook.yml" = Ok p ∧
    ParseInventoryExportPath p = Some (Parsed "applications" "argocd" "guestbook").
Proof.
  intros tables engine. eexists. split; [apply render_default|].
  apply (export_path_yml_aliases "Application" "argocd" "guestbook" _ (or_introl eq_refl) eq_refl);
    [by repeat split|apply render_default].
Defined.
