(* ===== verification/ConfigMapMaterial.v ===== *)
(** internal/configmapmaterial/material.go: the canonical JSON of a ConfigMap and
    its hash. *)
From S2P Require Import Prelude GoStrings GoCrypto GoUtf8 GoMap GoJson GoJsonFacts.

Definition SyncContentHashAnnotationKey : string := "accord.io/sync-content-hash".
Definition InventoryLabelKey : string := "accord.io/inventory".
Definition InventoryLabelValue : string := "true".

(** A [map[string]string]: [None] is the nil map, otherwise an association list in
    ascending order of the keys. *)
Abbreviation strmap := (list (string * string)).

(** The fields of [corev1.ConfigMap] the package reads. *)
Record ConfigMap := CM {
  Namespace : string;
  Name : string;
  Labels : option strmap;
  Annotations : option strmap;
  Data : option strmap
}.

Record configMapCanonical := Canonical {
  APIVersion : string;
  Kind : string;
  MetaNamespace : string;
  MetaName : string;
  MetaLabels : option strmap;
  MetaAnnotations : option strmap;
  CData : option strmap
}.

Definition materialView (cm : ConfigMap) : ConfigMap :=
  CM (Namespace cm) (Name cm) (Labels cm)
     (amap_delete SyncContentHashAnnotationKey <$> Annotations cm) (Data cm).

(** [if len(m) > 0 { field = m }], from a nil field. *)
Definition if_nonempty (m : option strmap) : option strmap :=
  match m with Some ((_ :: _) as l) => Some l | _ => None end.

(** The encoding of a map, and of a field with [omitempty]. *)
Definition json_of_map (m : strmap) : json string := JObj (map (λ kv, (kv.1, JStr kv.2)) m).
Definition omitempty (key : string) (m : option strmap) : list (string * json string) :=
  match m with Some ((_ :: _) as l) => [(key, json_of_map l)] | _ => [] end.

(** What [json.Marshal] encodes a [configMapCanonical] as. *)
Definition canonical_value (c : configMapCanonical) : json string :=
  JObj ([("apiVersion", JStr (APIVersion c)); ("kind", JStr (Kind c));
         ("metadata", JObj ([("namespace", JStr (MetaNamespace c)); ("name", JStr (MetaName c))]
            ++ omitempty "labels" (MetaLabels c) ++ omitempty "annotations" (MetaAnnotations c)))]
        ++ omitempty "data" (CData c)).

Definition canonicalOf (cm : ConfigMap) : configMapCanonical :=
  let v := materialView cm in
  Canonical "v1" "ConfigMap" (Namespace v) (Name v) (if_nonempty (Labels v))
    (if_nonempty (Annotations v)) (if_nonempty (Data v)).

Definition MaterialCanonicalJSON (cm : ConfigMap) : result string :=
  Ok (print_json (canonical_value (canonicalOf cm))).

Definition MaterialSHA256Hex (cm : ConfigMap) : result string :=
  b ← wrap_err "failed to marshal canonical ConfigMap" (MaterialCanonicalJSON cm);
  Ok (hex_EncodeToString (sha256_Sum256 b)).

(** ** The material of a ConfigMap *)

(** A nil map and an empty one are the same material. *)
Definition or_empty (m : option strmap) : strmap := default [] m.

(** What the canonical JSON is a function of. *)
Definition material (cm : ConfigMap) : string * string * strmap * strmap * strmap :=
  (Namespace cm, Name cm, or_empty (Labels cm),
   amap_delete SyncContentHashAnnotationKey (or_empty (Annotations cm)), or_empty (Data cm)).

(** Every string is valid UTF-8, which the API server guarantees. *)
Definition map_valid (m : strmap) : bool := forallb (λ kv, utf8_valid kv.1 && utf8_valid kv.2) m.
Definition cm_valid (cm : ConfigMap) : bool :=
  utf8_valid (Namespace cm) && utf8_valid (Name cm) && map_valid (or_empty (Labels cm)) &&
  map_valid (or_empty (Annotations cm)) && map_valid (or_empty (Data cm)).

Lemma if_nonempty_or_empty m : or_empty (if_nonempty m) = or_empty m.
Proof. by destruct m as [[|]|]. Qed.

Lemma omitempty_if key m : omitempty key (if_nonempty m) = omitempty key (Some (or_empty m)).
Proof. by destruct m as [[|]|]. Qed.

Lemma or_empty_delete k m : or_empty (amap_delete k <$> m) = amap_delete k (or_empty m).
Proof. by destruct m. Qed.

Lemma json_of_map_inj m n : json_of_map m = json_of_map n → m = n.
Proof.
  unfold json_of_map. intros [= H]. revert n H.
  induction m as [|[k v] m IH]; intros [|[k' v'] n]; try done. intros [= -> -> H]. by rewrite (IH n).
Qed.

Lemma map_valid_wf d m : (d < maxNestingDepth)%Z → map_valid m = true → json_wf d (json_of_map m) = true.
Proof.
  intros Hd%Z.ltb_lt Hm. unfold json_of_map. cbn [json_wf]. rewrite Hd. cbn [andb].
  induction m as [|[k v] m IH]; [done|]. cbn [map_valid forallb map fst snd] in *.
  apply andb_true_iff in Hm as [Hkv Hm]. rewrite (IH Hm), andb_true_r. done.
Qed.

Lemma omitempty_wf d key m :
  (d < maxNestingDepth)%Z → utf8_valid key = true → map_valid m = true →
  forallb (λ kv, utf8_valid kv.1 && json_wf d kv.2) (omitempty key (Some m)) = true.
Proof.
  intros Hd Hk Hm. destruct m as [|kv m]; [done|]. cbn [omitempty forallb fst snd].
  by rewrite Hk, map_valid_wf.
Qed.

(** The value the canonical JSON prints, from the material. *)
Definition material_value (t : string * string * strmap * strmap * strmap) : json string :=
  let '(ns, name, labels, annotations, data) := t in
  JObj ([("apiVersion", JStr "v1"); ("kind", JStr "ConfigMap");
         ("metadata", JObj ([("namespace", JStr ns); ("name", JStr name)]
            ++ omitempty "labels" (Some labels) ++ omitempty "annotations" (Some annotations)))]
        ++ omitempty "data" (Some data)).

Lemma canonical_material cm : canonical_value (canonicalOf cm) = material_value (material cm).
Proof.
  unfold canonical_value, canonicalOf, material_value, material. cbn -[omitempty amap_delete].
  rewrite !omitempty_if. by rewrite or_empty_delete.
Qed.

Lemma omitempty_inj k m n l l' :
  ((∃ kv t, l = kv :: t ∧ kv.1 = k) → False) → ((∃ kv t, l' = kv :: t ∧ kv.1 = k) → False) →
  omitempty k (Some m) ++ l = omitempty k (Some n) ++ l' → m = n ∧ l = l'.
Proof.
  intros Hl Hl'. destruct m as [|a m], n as [|b n]; cbn [omitempty app].
  - done.
  - intros ->. destruct Hl. by do 2 eexists.
  - intros <-. destruct Hl'. by do 2 eexists.
  - remember (json_of_map (a :: m)) as x eqn:Hx. remember (json_of_map (b :: n)) as y eqn:Hy.
    intros [= -> ->]. split; [|done]. apply json_of_map_inj. congruence.
Qed.

Lemma omitempty_head k k' m : k ≠ k' →
  (∃ kv t, omitempty k (Some m) = kv :: t ∧ kv.1 = k') → False.
Proof. intros Hk (kv & t & Heq & Hkv). destruct m as [|a m]; [done|]. cbn in Heq. by injection Heq as <- _. Qed.

#[local] Opaque omitempty.
Lemma material_value_inj t u : material_value t = material_value u → t = u.
Proof.
  destruct t as [[[[ns nm] lb] an] da], u as [[[[ns' nm'] lb'] an'] da'].
  unfold material_value. intros H. injection H as <- <- Hmeta Hdata.
  apply (omitempty_inj "labels") in Hmeta as [<- Hann];
    [|by apply omitempty_head|by apply omitempty_head].
  rewrite <- (app_nil_r (omitempty "annotations" (Some an))) in Hann.
  rewrite <- (app_nil_r (omitempty "annotations" (Some an'))) in Hann.
  apply (omitempty_inj "annotations") in Hann as [<- _]; [|by intros (?&?&?&?)|by intros (?&?&?&?)].
  rewrite <- (app_nil_r (omitempty "data" (Some da))) in Hdata.
  rewrite <- (app_nil_r (omitempty "data" (Some da'))) in Hdata.
  apply (omitempty_inj "data") in Hdata as [<- _]; [done|by intros (?&?&?&?)|by intros (?&?&?&?)].
Qed.
#[local] Transparent omitempty.

Lemma amap_delete_valid k m : map_valid m = true → map_valid (amap_delete k m) = true.
Proof.
  unfold map_valid. rewrite !forallb_forall. setoid_rewrite <- list_elem_of_In.
  rewrite <- !Forall_forall. apply Forall_delete.
Qed.

Lemma material_value_wf cm : cm_valid cm = true → json_wf 0 (material_value (material cm)) = true.
Proof.
  unfold cm_valid, material, material_value. rewrite !andb_true_iff.
  intros ((((Hns & Hnm) & Hl) & Ha) & Hd). cbn -[omitempty maxNestingDepth amap_delete Z.add].
  rewrite !forallb_app, !omitempty_wf by (try done; by apply amap_delete_valid).
  cbn -[maxNestingDepth amap_delete]. by rewrite Hns, Hnm.
Qed.

Lemma canonical_json_inj cm cm' :
  cm_valid cm = true → cm_valid cm' = true →
  MaterialCanonicalJSON cm = MaterialCanonicalJSON cm' → material cm = material cm'.
Proof.
  intros Hv%material_value_wf Hv'%material_value_wf. unfold MaterialCanonicalJSON.
  rewrite !canonical_material. intros H. apply material_value_inj, print_json_inj; [done..|].
  congruence.
Qed.

Lemma material_json cm cm' :
  material cm = material cm' → MaterialCanonicalJSON cm = MaterialCanonicalJSON cm'.
Proof. intros H. unfold MaterialCanonicalJSON. by rewrite !canonical_material, H. Qed.

Lemma material_set_annotation cm v :
  material (CM (Namespace cm) (Name cm) (Labels cm)
    (Some (amap_set SyncContentHashAnnotationKey v (or_empty (Annotations cm)))) (Data cm))
  = material cm.
Proof. unfold material. cbn -[amap_delete amap_set]. by rewrite amap_delete_set. Qed.

Lemma MaterialSHA256Hex_eq cm :
  MaterialSHA256Hex cm = Ok (hex_EncodeToString (sha256_Sum256
    (print_json (canonical_value (canonicalOf cm))))).
Proof. done. Qed.

(** The canonical JSON never fails and is exactly as fine as the material of
    the ConfigMap: two ConfigMaps have the same canonical JSON if and only if
    they agree on namespace, name, labels, data and on all annotations but the
    sync-content-hash one, a nil map counting as an empty one. *)
Theorem MaterialCanonicalJSON_material cm cm' :
  cm_valid cm = true → cm_valid cm' = true →
  is_ok (MaterialCanonicalJSON cm) = true ∧
  (MaterialCanonicalJSON cm = MaterialCanonicalJSON cm' ↔ material cm = material cm').
Proof.
  intros Hv Hv'. split; [done|]. split; [by apply canonical_json_inj|].
  apply material_json.
Qed.

(** The hash is 64 lower-case hexadecimal digits; it does not change when the
    sync-content-hash annotation is set, changed or removed; and two ConfigMaps
    with the same hash have the same material unless their canonical JSON is a
    collision of SHA-256. *)
Theorem MaterialSHA256Hex_correct cm cm' h :
  cm_valid cm = true → cm_valid cm' = true → MaterialSHA256Hex cm = Ok h →
  String.length h = 64 ∧ str_forallb lower_hex h = true ∧
  (material cm = material cm' → MaterialSHA256Hex cm' = Ok h) ∧
  (∀ v, MaterialSHA256Hex (CM (Namespace cm) (Name cm) (Labels cm)
          (Some (amap_set SyncContentHashAnnotationKey v (or_empty (Annotations cm)))) (Data cm))
        = Ok h) ∧
  (MaterialSHA256Hex cm' = Ok h → material cm = material cm' ∨
     ∃ j j', MaterialCanonicalJSON cm = Ok j ∧ MaterialCanonicalJSON cm' = Ok j' ∧
       j ≠ j' ∧ sha256_Sum256 j = sha256_Sum256 j').
Proof.
  intros Hv Hv' Hh. pose proof Hh as Hh'. rewrite MaterialSHA256Hex_eq in Hh'.
  apply Ok_inj in Hh' as <-.
  rewrite hex_encode_length, sha256_length. split; [done|]. split; [apply hex_encode_lower|].
  assert (Hsame : ∀ cm2, material cm = material cm2 → MaterialSHA256Hex cm2 = MaterialSHA256Hex cm).
  { intros cm2 H%material_json. unfold MaterialSHA256Hex. by rewrite H. }
  split; [intros H; by rewrite (Hsame _ H)|]. split.
  - intros v. rewrite Hsame; [done|]. by rewrite material_set_annotation.
  - rewrite MaterialSHA256Hex_eq. intros H%Ok_inj%hex_encode_inj.
    destruct (decide (MaterialCanonicalJSON cm = MaterialCanonicalJSON cm')) as [E|E].
    + left. by apply canonical_json_inj.
    + right. do 2 eexists. split; [done|]. split; [done|]. split; [|done].
      intros E'. apply E. unfold MaterialCanonicalJSON. by rewrite E'.
Qed.

(** ** Witnesses *)

Definition sample_cm : ConfigMap :=
  CM "team-a" "settings" None (Some [(SyncContentHashAnnotationKey, "0f")]) (Some [("k", "<v>")]).
Definition sample_cm' : ConfigMap :=
  CM "team-a" "settings" (Some []) None (Some [("k", "<v>")]).

Lemma MaterialCanonicalJSON_material_witness :
  cm_valid sample_cm = true ∧
  (MaterialCanonicalJSON sample_cm = MaterialCanonicalJSON sample_cm' ↔
   material sample_cm = material sample_cm').
Proof.
  split; [reflexivity|].
  exact (proj2 (MaterialCanonicalJSON_material sample_cm sample_cm' eq_refl eq_refl)).
Defined.

Lemma MaterialSHA256Hex_correct_witness :
  ∃ h, MaterialSHA256Hex sample_cm = Ok h ∧ MaterialSHA256Hex sample_cm' = Ok h ∧
       String.length h = 64.
Proof.
  eexists. split; [apply MaterialSHA256Hex_eq|].
  pose proof (MaterialSHA256Hex_correct sample_cm sample_cm' _ eq_refl eq_refl
    (MaterialSHA256Hex_eq sample_cm)) as (Hlen & _ & Hsame & _).
  split; [apply Hsame; reflexivity|exact Hlen].
Defined.
