(* ===== verification/Normalize.v ===== *)
(** internal/inventory/normalize.go: the material of a Kubernetes object and its
    hash. The YAML library (sigs.k8s.io/yaml) is the class [SigsYaml]; the
    marshalling of a runtime object is the class [RuntimeObject]. *)
From S2P Require Import Prelude GoStrings GoCrypto GoUtf8 GoMap GoJson GoJsonFacts ConfigMapMaterial.

Definition stripMetadataKeys : list string :=
  ["uid"; "resourceVersion"; "creationTimestamp"; "deletionTimestamp"; "generation";
   "managedFields"; "selfLink"].

Definition lastAppliedAnnotation : string := "kubectl.kubernetes.io/last-applied-configuration".

(** ** Third-party interfaces *)

Class SigsYaml := {
  YAMLToJSON : string → result string;
  JSONToYAML : string → result string
}.

(** [json.Marshal] of a value whose MarshalJSON method belongs to apimachinery. *)
Class RuntimeObject (O : Type) := { json_Marshal_object : O → result string }.

(** The messages of encoding/json for a text it refuses. *)
Class JsonMessages := { json_error_message : string → string }.

(** ** Go maps decoded from JSON: [None] is the nil map *)

Section normalize.
Context `{Float64} `{JsonMessages}.

Abbreviation gomap := (list (string * json f64)).

(** [var m map[string]interface{}; err := json.Unmarshal(s, &m)] *)
Definition unmarshal_map (s : string) : result (option gomap) :=
  match unmarshal s with
  | Some JNull => Ok None
  | Some (JObj m) => Ok (Some m)
  | _ => Failed (Err (json_error_message s))
  end.

(** [json.Marshal(m)] *)
Definition marshal_map (m : option gomap) : string :=
  match m with Some l => marshal (JObj l) | None => "null" end.

(** ** normalize.go *)

Definition firstYAMLDocument (src : string) : string :=
  let s := strings_TrimSpace src in
  if decide (s = "") then ""
  else
    let parts := strings_Split s (String (byte_of 10) "---") in
    strings_TrimSpace (nth 0 parts "").

Definition FirstYAMLDocument (src : string) : string := firstYAMLDocument src.

(** The annotations left, [None] when the key itself goes. *)
Definition normalizeAnnotations (meta : gomap) : gomap :=
  match amap_get "annotations" meta with
  | Some (JObj ann) =>
      let ann := amap_delete lastAppliedAnnotation ann in
      let ann := amap_delete SyncContentHashAnnotationKey ann in
      match ann with
      | [] => amap_delete "annotations" meta
      | _ => amap_set "annotations" (JObj ann) meta
      end
  | _ => meta
  end.

Definition normalizeMetadata (meta : gomap) : gomap :=
  normalizeAnnotations (foldl (λ m k, amap_delete k m) meta stripMetadataKeys).

(** The maps are updated in place; a decoded object shares none of them. *)
Definition normalizeKubernetesObject (obj : option gomap) : option gomap :=
  match obj with
  | None => None
  | Some m =>
      let m := amap_delete "status" m in
      match amap_get "metadata" m with
      | Some (JObj meta) =>
          match normalizeMetadata meta with
          | [] => Some (amap_delete "metadata" m)
          | meta' => Some (amap_set "metadata" (JObj meta') m)
          end
      | _ => Some m
      end
  end.

Definition MaterialHashFromNormalizedYAML `{SigsYaml} (src : string) : result string :=
  let doc := firstYAMLDocument src in
  jsonBytes ← wrap_err "failed to convert YAML to JSON" (YAMLToJSON doc);
  obj ← wrap_err "failed to unmarshal object JSON" (unmarshal_map jsonBytes);
  let out := marshal_map (normalizeKubernetesObject obj) in
  Ok (hex_EncodeToString (sha256_Sum256 out)).

Definition normalizedMapFromRuntimeObject {O} `{RuntimeObject O} (obj : O) : result (option gomap) :=
  b ← wrap_err "marshal runtime object" (json_Marshal_object obj);
  m ← wrap_err "unmarshal object JSON" (unmarshal_map b);
  Ok (normalizeKubernetesObject m).

Definition NormalizedYAMLAndMaterialHash {O} `{RuntimeObject O} `{SigsYaml} (obj : O)
    : result (string * string) :=
  m ← normalizedMapFromRuntimeObject obj;
  let j := marshal_map m in
  let h := hex_EncodeToString (sha256_Sum256 j) in
  yb ← wrap_err "json to yaml" (JSONToYAML j);
  Ok (yb, h).
End normalize.

(** ** Lookups *)

Section facts.
Context `{Float64}.
Abbreviation gomap := (list (string * json f64)).
Implicit Types m meta ann : gomap.

(** A map whose [key] holds an object, dropped when it is empty. *)
Definition set_or_drop (key : string) (sub m : gomap) : gomap :=
  match sub with [] => amap_delete key m | _ => amap_set key (JObj sub) m end.

Definition normalized_sub (sub : gomap) : option (json f64) :=
  match sub with [] => None | _ => Some (JObj sub) end.

Lemma get_set_or_drop k key sub m :
  amap_get k (set_or_drop key sub m) = if decide (k = key) then normalized_sub sub else amap_get k m.
Proof. destruct sub; simpl; [rewrite get_delete|rewrite get_set]; by case_decide. Qed.

Lemma ascending_set_or_drop key sub m :
  ascending m = true → ascending (set_or_drop key sub m) = true.
Proof. destruct sub; simpl; auto with accord. Qed.

Lemma get_strip keys k meta :
  amap_get k (foldl (λ m k, amap_delete k m) meta keys) =
  if decide (k ∈ keys) then None else amap_get k meta.
Proof.
  revert meta. induction keys as [|k' keys IH]; intros meta; simpl; [done|].
  rewrite IH, get_delete. repeat case_decide; set_solver.
Qed.

Lemma ascending_strip keys meta :
  ascending meta = true → ascending (foldl (λ m k, amap_delete k m) meta keys) = true.
Proof. revert meta. induction keys; intros meta Hm; simpl; auto with accord. Qed.

Definition strip_annotations (ann : gomap) : gomap :=
  amap_delete SyncContentHashAnnotationKey (amap_delete lastAppliedAnnotation ann).

(** What becomes of the annotations, and of the metadata. *)
Definition annotations_value (v : option (json f64)) : option (json f64) :=
  match v with Some (JObj ann) => normalized_sub (strip_annotations ann) | _ => v end.
Definition metadata_value (v : option (json f64)) : option (json f64) :=
  match v with Some (JObj meta) => normalized_sub (normalizeMetadata meta) | _ => v end.

Lemma normalizeAnnotations_eq meta :
  normalizeAnnotations meta =
  match amap_get "annotations" meta with
  | Some (JObj ann) => set_or_drop "annotations" (strip_annotations ann) meta
  | _ => meta
  end.
Proof. unfold normalizeAnnotations, strip_annotations. by destruct (amap_get _ meta) as [[]|]. Qed.

Lemma annotations_kept : "annotations" ∉ stripMetadataKeys.
Proof. by apply (bool_decide_eq_false_1 _). Qed.

Lemma get_normalizeMetadata k meta :
  amap_get k (normalizeMetadata meta) =
  if decide (k = "annotations") then annotations_value (amap_get "annotations" meta)
  else if decide (k ∈ stripMetadataKeys) then None else amap_get k meta.
Proof.
  unfold normalizeMetadata. rewrite normalizeAnnotations_eq, !get_strip.
  pose proof annotations_kept as Hk. rewrite (decide_False (P := "annotations" ∈ _)) by done.
  destruct (amap_get "annotations" meta) as [[| | | | |ann]|] eqn:Ha;
    rewrite ?get_set_or_drop, !get_strip;
    (destruct (decide (k = "annotations")) as [->|Hne]; [|done]);
    by rewrite ?decide_False, ?Ha by done.
Qed.

Lemma ascending_normalizeMetadata meta :
  ascending meta = true → ascending (normalizeMetadata meta) = true.
Proof.
  intros Hm. unfold normalizeMetadata. rewrite normalizeAnnotations_eq.
  apply (ascending_strip stripMetadataKeys) in Hm. case_match; [|done].
  case_match; try done. by apply ascending_set_or_drop.
Qed.

Lemma normalize_eq m :
  normalizeKubernetesObject (Some m) = Some
    (match amap_get "metadata" m with
     | Some (JObj meta) =>
         set_or_drop "metadata" (normalizeMetadata meta) (amap_delete "status" m)
     | _ => amap_delete "status" m
     end).
Proof.
  unfold normalizeKubernetesObject. rewrite get_delete, decide_False by done.
  destruct (amap_get "metadata" m) as [[| | | | |meta]|]; try done. by destruct (normalizeMetadata meta).
Qed.

(** The normalised map. *)
Definition normalized (m : gomap) : gomap := default [] (normalizeKubernetesObject (Some m)).

Lemma normalize_Some m : normalizeKubernetesObject (Some m) = Some (normalized m).
Proof. unfold normalized. by rewrite normalize_eq. Qed.

Lemma get_normalized k m :
  amap_get k (normalized m) =
  if decide (k = "status") then None
  else if decide (k = "metadata") then metadata_value (amap_get "metadata" m)
  else amap_get k m.
Proof.
  unfold normalized. rewrite normalize_eq. simpl.
  destruct (amap_get "metadata" m) as [[| | | | |meta]|] eqn:Hm;
    rewrite ?get_set_or_drop, !get_delete; repeat case_decide; subst; try done.
Qed.

Lemma ascending_normalized m : ascending m = true → ascending (normalized m) = true.
Proof.
  intros Hm. unfold normalized. rewrite normalize_eq. simpl.
  case_match; [case_match|]; try apply ascending_set_or_drop; auto with accord.
Qed.

(** ** Well-formed maps stay well formed *)

(** A decoded object whose members are at nesting depth [d]. *)
Definition go_map (d : Z) (m : gomap) : Prop :=
  (d < maxNestingDepth)%Z ∧ ascending m = true ∧
  Forall (λ kv, utf8_valid kv.1 = true ∧ go_value (d + 1) kv.2 = true) m.

Lemma go_map_get d m k sub :
  go_map d m → amap_get k m = Some (JObj sub) → go_map (d + 1) sub.
Proof.
  intros (_ & _ & Hm) Hk. apply go_value_obj.
  apply (get_Forall (λ v, go_value (d + 1) v = true) k _ m); [|done].
  eapply Forall_impl; [exact Hm|]. by intros kv [_ ?].
Qed.

Lemma go_map_delete d k m : go_map d m → go_map d (amap_delete k m).
Proof.
  intros (Hd & Ha & Hm). split; [done|]. split; [auto with accord|]. by apply Forall_delete.
Qed.

Lemma go_map_set_or_drop d key sub m :
  utf8_valid key = true → go_map (d + 1) sub → go_map d m → go_map d (set_or_drop key sub m).
Proof.
  intros Hk Hsub Hm. destruct sub as [|kv sub]; [by apply go_map_delete|].
  destruct Hm as (Hd & Ha & Hm). cbn [set_or_drop]. split; [done|]. split; [auto with accord|].
  apply Forall_set; [|done]. split; [done|]. cbn [snd]. by apply go_value_obj.
Qed.

Lemma go_map_strip_annotations d ann : go_map d ann → go_map d (strip_annotations ann).
Proof. intros Ha. unfold strip_annotations. by do 2 apply go_map_delete. Qed.

Lemma go_map_strip d keys meta :
  go_map d meta → go_map d (foldl (λ m k, amap_delete k m) meta keys).
Proof. revert meta. induction keys; intros meta Hm; simpl; auto using go_map_delete. Qed.

Lemma go_map_normalizeMetadata d meta : go_map d meta → go_map d (normalizeMetadata meta).
Proof.
  intros Hm%(go_map_strip d stripMetadataKeys). unfold normalizeMetadata.
  rewrite normalizeAnnotations_eq. destruct (amap_get "annotations" _) as [[| | | | |ann]|] eqn:Ha; try done.
  apply go_map_set_or_drop; [done| |done].
  apply go_map_strip_annotations. by eapply go_map_get.
Qed.

Lemma go_map_normalized d m : go_map d m → go_map d (normalized m).
Proof.
  intros Hm. unfold normalized. rewrite normalize_eq. simpl.
  destruct (amap_get "metadata" m) as [[| | | | |meta]|] eqn:Ha; try by apply go_map_delete.
  apply go_map_set_or_drop; [done| |by apply go_map_delete].
  apply go_map_normalizeMetadata. by eapply go_map_get.
Qed.

(** ** Normalising twice *)

Lemma strip_annotations_idem ann :
  ascending ann = true → strip_annotations (strip_annotations ann) = strip_annotations ann.
Proof.
  intros Ha. apply amap_ext; unfold strip_annotations; auto 6 with accord.
  intros k. rewrite !get_delete. repeat case_decide; done.
Qed.

Lemma annotations_value_idem d meta :
  go_map d meta → annotations_value (annotations_value (amap_get "annotations" meta)) =
  annotations_value (amap_get "annotations" meta).
Proof.
  intros Hm. destruct (amap_get "annotations" meta) as [[| | | | |ann]|] eqn:Ha; try done.
  apply (go_map_get d) in Ha as (_ & Hann & _); [|done]. cbn [annotations_value].
  pose proof (strip_annotations_idem ann Hann) as Hi.
  destruct (strip_annotations ann) as [|kv ann']; [done|]. cbn [normalized_sub annotations_value].
  by rewrite Hi.
Qed.

Lemma normalizeMetadata_idem d meta :
  go_map d meta → normalizeMetadata (normalizeMetadata meta) = normalizeMetadata meta.
Proof.
  intros Hm. apply amap_ext.
  - apply ascending_normalizeMetadata, ascending_normalizeMetadata, Hm.
  - apply ascending_normalizeMetadata, Hm.
  - intros k. rewrite !get_normalizeMetadata. rewrite (decide_True (P := "annotations" = _)) by done.
    case_decide; [by eapply annotations_value_idem|]. by case_decide.
Qed.

Lemma metadata_value_idem d m :
  go_map d m → metadata_value (metadata_value (amap_get "metadata" m)) =
  metadata_value (amap_get "metadata" m).
Proof.
  intros Hm. destruct (amap_get "metadata" m) as [[| | | | |meta]|] eqn:Ha; try done.
  apply (go_map_get d) in Ha; [|done]. cbn [metadata_value].
  pose proof (normalizeMetadata_idem _ _ Ha) as Hi.
  destruct (normalizeMetadata meta) as [|kv meta']; [done|]. cbn [normalized_sub metadata_value].
  by rewrite Hi.
Qed.

Lemma normalized_idem d m : go_map d m → normalized (normalized m) = normalized m.
Proof.
  intros Hm. apply amap_ext.
  - apply ascending_normalized, ascending_normalized, Hm.
  - apply ascending_normalized, Hm.
  - intros k. rewrite !get_normalized. rewrite (decide_True (P := "metadata" = "metadata")) by done.
    rewrite (decide_False (P := "metadata" = "status")) by done.
    case_decide; [done|]. case_decide; [|done]. by eapply metadata_value_idem.
Qed.

(** ** JSON text of maps *)
Context `{!Float64Laws} `{JsonMessages}.

Definition decoded (o : option gomap) : Prop := match o with Some l => go_map 0 l | None => True end.

Lemma unmarshal_map_decoded s (o : option gomap) : unmarshal_map s = Ok o → decoded o.
Proof.
  unfold unmarshal_map. destruct (unmarshal s) as [[| | | | |l]|] eqn:E; try done;
    intros <-%Ok_inj; [done|].
  apply unmarshal_decodable in E. by apply go_value_obj.
Qed.

Lemma unmarshal_marshal_map (o : option gomap) : decoded o → unmarshal_map (marshal_map o) = Ok o.
Proof.
  destruct o as [l|]; [|done]. intros Hl. unfold unmarshal_map, marshal_map.
  rewrite unmarshal_marshal; [done|]. by apply go_value_obj.
Qed.

Lemma marshal_map_inj (o o' : option gomap) :
  decoded o → decoded o' → marshal_map o = marshal_map o' → o = o'.
Proof.
  intros Ho%unmarshal_marshal_map Ho'%unmarshal_marshal_map Heq. rewrite Heq in Ho. congruence.
Qed.

Lemma normalize_decoded (o : option gomap) : decoded o → decoded (normalizeKubernetesObject o).
Proof. destruct o; [|done]. rewrite normalize_Some. apply go_map_normalized. Qed.

Lemma normalize_idem (o : option gomap) :
  decoded o → normalizeKubernetesObject (normalizeKubernetesObject o) = normalizeKubernetesObject o.
Proof. destruct o as [l|]; [|done]. intros Hl. rewrite !normalize_Some. by erewrite normalized_idem. Qed.
End facts.

(** ** The specification: paths *)

Section spec.
Context `{Float64}.
Abbreviation gomap := (list (string * json f64)).
Implicit Types m meta ann : gomap.

Fixpoint path_get (p : list string) (v : json f64) : option (json f64) :=
  match p with
  | [] => Some v
  | k :: p' => match v with
               | JObj m => v' ← amap_get k m; path_get p' v'
               | _ => None
               end
  end.

(** Paths below the status, a bookkeeping key of the metadata, or one of the two
    annotations. *)
Definition stripped (p : list string) : bool :=
  match p with
  | k :: p' =>
      if decide (k = "status") then true
      else if decide (k = "metadata") then
        match p' with
        | k' :: p'' =>
            if decide (k' ∈ stripMetadataKeys) then true
            else if decide (k' = "annotations") then
              match p'' with
              | a :: _ => bool_decide (a = lastAppliedAnnotation ∨ a = SyncContentHashAnnotationKey)
              | [] => false
              end
            else false
        | [] => false
        end
      else false
  | [] => false
  end.

Definition is_object (v : json f64) : bool := match v with JObj _ => true | _ => false end.

(** A change of an object the material does not depend on. *)
Inductive touch : gomap → gomap → Prop :=
| touch_status v m : touch m (amap_set "status" v m)
| touch_no_status m : touch m (amap_delete "status" m)
| touch_metadata k v meta m :
    k ∈ stripMetadataKeys → amap_get "metadata" m = Some (JObj meta) →
    touch m (amap_set "metadata" (JObj (amap_set k v meta)) m)
| touch_annotate a v ann meta m :
    a = lastAppliedAnnotation ∨ a = SyncContentHashAnnotationKey →
    amap_get "metadata" m = Some (JObj meta) →
    amap_get "annotations" meta = Some (JObj ann) ∨ amap_get "annotations" meta = None ∧ ann = [] →
    touch m (amap_set "metadata" (JObj (amap_set "annotations" (JObj (amap_set a v ann)) meta)) m).

Lemma get_strip_annotations a ann :
  amap_get a (strip_annotations ann) =
  if decide (a = lastAppliedAnnotation ∨ a = SyncContentHashAnnotationKey) then None
  else amap_get a ann.
Proof. unfold strip_annotations. rewrite !get_delete. repeat case_decide; naive_solver. Qed.

Definition path_of (p : list string) (o : option (json f64)) : option (json f64) :=
  match o with Some v => path_get p v | None => None end.

Lemma path_get_cons k p m : path_get (k :: p) (JObj m) = path_of p (amap_get k m).
Proof. done. Qed.

(** A path into a pruned object ends below it. *)
Lemma path_of_sub p sub v :
  is_object v = false →
  path_of p (normalized_sub sub) = Some v ↔
  match p with [] => False | k :: p' => path_of p' (amap_get k sub) = Some v end.
Proof.
  intros Hv. destruct p as [|k p], sub as [|kv sub]; try done.
  split; [|done]. by intros [= <-].
Qed.

Lemma path_of_obj p sub v :
  is_object v = false →
  path_of p (Some (JObj sub)) = Some v ↔
  match p with [] => False | k :: p' => path_of p' (amap_get k sub) = Some v end.
Proof. intros Hv. destruct p as [|k p]; [|done]. split; [|done]. by intros [= <-]. Qed.

Lemma stripped_metadata p :
  stripped ("metadata" :: p) =
  match p with
  | k' :: p'' =>
      if decide (k' ∈ stripMetadataKeys) then true
      else if decide (k' = "annotations") then
        match p'' with
        | a :: _ => bool_decide (a = lastAppliedAnnotation ∨ a = SyncContentHashAnnotationKey)
        | [] => false
        end
      else false
  | [] => false
  end.
Proof. done. Qed.

Lemma stripped_annotations p :
  stripped ("metadata" :: "annotations" :: p) =
  match p with
  | a :: _ => bool_decide (a = lastAppliedAnnotation ∨ a = SyncContentHashAnnotationKey)
  | [] => false
  end.
Proof. done. Qed.

(** A value that is no object has nothing below it. *)
Lemma path_of_scalar k p o :
  (∀ m, o ≠ Some (JObj m)) → path_of (k :: p) o = None.
Proof. intros Ho. destruct o as [[]|]; try done. by destruct (Ho l). Qed.

Lemma annotations_leaves p o v :
  is_object v = false →
  path_of p (annotations_value o) = Some v ↔
  path_of p o = Some v ∧ stripped ("metadata" :: "annotations" :: p) = false.
Proof.
  intros Hv. rewrite stripped_annotations.
  assert (Hother : (∀ m, o ≠ Some (JObj m)) → annotations_value o = o →
    path_of p (annotations_value o) = Some v ↔ path_of p o = Some v ∧
    match p with
    | a :: _ => bool_decide (a = lastAppliedAnnotation ∨ a = SyncContentHashAnnotationKey)
    | [] => false end = false).
  { intros Ho ->. destruct p as [|a p]; [tauto|]. rewrite path_of_scalar by done. naive_solver. }
  destruct o as [[| | | | |ann]|]; try by apply Hother. clear Hother. cbn [annotations_value].
  rewrite path_of_sub, path_of_obj by done. destruct p as [|a p]; [tauto|].
  rewrite get_strip_annotations. case_decide as Ha; case_bool_decide; naive_solver.
Qed.

Lemma metadata_leaves p o v :
  is_object v = false →
  path_of p (metadata_value o) = Some v ↔
  path_of p o = Some v ∧ stripped ("metadata" :: p) = false.
Proof.
  intros Hv. assert (Hother : (∀ m, o ≠ Some (JObj m)) → metadata_value o = o →
    path_of p (metadata_value o) = Some v ↔ path_of p o = Some v ∧ stripped ("metadata" :: p) = false).
  { intros Ho ->. destruct p as [|a p]; [tauto|]. rewrite path_of_scalar by done. naive_solver. }
  destruct o as [[| | | | |meta]|]; try by apply Hother. clear Hother.
  cbn [metadata_value]. rewrite path_of_sub, path_of_obj by done. destruct p as [|k p]; [tauto|].
  rewrite get_normalizeMetadata. case_decide as Hk; [subst k; by apply annotations_leaves|].
  rewrite stripped_metadata. rewrite (decide_False (P := k = "annotations")) by done.
  case_decide; naive_solver.
Qed.

Lemma normalized_leaves p m v :
  is_object v = false →
  path_get p (JObj (normalized m)) = Some v ↔ path_get p (JObj m) = Some v ∧ stripped p = false.
Proof.
  intros Hv. destruct p as [|k p]; [simpl; naive_solver|].
  rewrite !path_get_cons, get_normalized. case_decide as Hs; [subst; cbn; naive_solver|].
  case_decide as Hm; [subst; by apply metadata_leaves|].
  unfold stripped. rewrite !decide_False by done. tauto.
Qed.

(** Metadata that read alike are normalised alike. *)
Lemma normalizeMetadata_ext meta meta' :
  ascending meta = true → ascending meta' = true →
  (∀ k, k ∉ stripMetadataKeys → k ≠ "annotations" → amap_get k meta = amap_get k meta') →
  annotations_value (amap_get "annotations" meta) = annotations_value (amap_get "annotations" meta') →
  normalizeMetadata meta = normalizeMetadata meta'.
Proof.
  intros Ha Ha' Hk Hann. apply amap_ext; [by apply ascending_normalizeMetadata..|].
  intros k. rewrite !get_normalizeMetadata. repeat case_decide; auto.
Qed.

Lemma normalized_ext m m' :
  ascending m = true → ascending m' = true →
  (∀ k, k ≠ "status" → k ≠ "metadata" → amap_get k m = amap_get k m') →
  metadata_value (amap_get "metadata" m) = metadata_value (amap_get "metadata" m') →
  normalized m = normalized m'.
Proof.
  intros Ha Ha' Hk Hmeta. apply amap_ext; [by apply ascending_normalized..|].
  intros k. rewrite !get_normalized. repeat case_decide; auto.
Qed.

Lemma strip_annotations_set a v ann :
  ascending ann = true → a = lastAppliedAnnotation ∨ a = SyncContentHashAnnotationKey →
  strip_annotations (amap_set a v ann) = strip_annotations ann.
Proof.
  intros Hann Ha. apply amap_ext; unfold strip_annotations; auto 7 with accord.
  intros k. rewrite !get_delete, get_set. repeat case_decide; naive_solver.
Qed.

(** Touching an object leaves its material alone. *)
Lemma touch_normalized m m' : go_map 0 m → touch m m' → normalized m = normalized m'.
Proof.
  intros Hm Ht. pose proof Hm as (_ & Hasc & _).
  destruct Ht as [v m|m|k v meta m Hk Hmeta|a v ann meta m Ha Hmeta Hann].
  - apply normalized_ext; auto with accord.
    + intros k Hk _. by rewrite get_set, decide_False.
    + by rewrite get_set, decide_False.
  - apply normalized_ext; auto with accord.
    + intros k Hk _. by rewrite get_delete, decide_False.
    + by rewrite get_delete, decide_False.
  - pose proof (go_map_get _ _ _ _ Hm Hmeta) as (_ & Hasc' & _).
    apply normalized_ext; auto with accord.
    + intros k' _ Hk'. by rewrite get_set, decide_False.
    + rewrite get_set, decide_True, Hmeta by done. cbn [metadata_value]. f_equal.
      apply normalizeMetadata_ext; auto with accord.
      * intros k' Hk' _. rewrite get_set, decide_False; [done|]. congruence.
      * rewrite get_set, decide_False; [done|]. intros <-. by apply annotations_kept.
  - pose proof (go_map_get _ _ _ _ Hm Hmeta) as Hgm. pose proof Hgm as (_ & Hasc' & _).
    assert (Hasca : ascending ann = true).
    { destruct Hann as [Hann|[_ ->]]; [|done]. by apply (go_map_get _ _ _ _ Hgm Hann). }
    apply normalized_ext; auto with accord.
    + intros k' _ Hk'. by rewrite get_set, decide_False.
    + rewrite get_set, decide_True, Hmeta by done. cbn [metadata_value]. f_equal.
      apply normalizeMetadata_ext; auto with accord.
      * intros k' _ Hk'. by rewrite get_set, decide_False.
      * rewrite get_set, decide_True by done. cbn [annotations_value].
        rewrite strip_annotations_set by done.
        destruct Hann as [-> |[-> ->]]; [done|]. done.
Qed.
End spec.

(** ** Properties *)

(** sigs.k8s.io/yaml: JSONToYAML writes a document that YAMLToJSON reads as the
    same JSON value. *)
Class SigsYamlLaws `{Float64} `{JsonMessages} `{SigsYaml} : Prop := {
  yaml_reads_back j y :
    JSONToYAML j = Ok y → ∃ j', YAMLToJSON y = Ok j' ∧ unmarshal_map j' = unmarshal_map j
}.

Section claims.
Context `{Float64Laws} `{JsonMessages} `{!SigsYaml}.
Context {O : Type} `{!RuntimeObject O}.
Abbreviation gomap := (list (string * json f64)).

Lemma hash_of_object (obj : O) s (o : option gomap) :
  json_Marshal_object obj = Ok s → unmarshal_map s = Ok o →
  NormalizedYAMLAndMaterialHash obj =
  (yb ← wrap_err "json to yaml" (JSONToYAML (marshal_map (normalizeKubernetesObject o)));
   Ok (yb, hex_EncodeToString (sha256_Sum256 (marshal_map (normalizeKubernetesObject o))))).
Proof.
  intros Hs Ho. unfold NormalizedYAMLAndMaterialHash, normalizedMapFromRuntimeObject.
  rewrite Hs. cbn [wrap_err mbind result_bind]. by rewrite Ho.
Qed.

Lemma hash_inv (obj : O) y h :
  NormalizedYAMLAndMaterialHash obj = Ok (y, h) →
  ∃ s o, json_Marshal_object obj = Ok s ∧ unmarshal_map s = Ok o ∧
    JSONToYAML (marshal_map (normalizeKubernetesObject o)) = Ok y ∧
    h = hex_EncodeToString (sha256_Sum256 (marshal_map (normalizeKubernetesObject o))).
Proof.
  intros Hok. destruct (json_Marshal_object obj) as [s|e] eqn:Hs.
  2:{ unfold NormalizedYAMLAndMaterialHash, normalizedMapFromRuntimeObject in Hok. by rewrite Hs in Hok. }
  destruct (unmarshal_map s) as [o|e] eqn:Ho.
  2:{ unfold NormalizedYAMLAndMaterialHash, normalizedMapFromRuntimeObject in Hok.
      rewrite Hs in Hok. cbn [wrap_err mbind result_bind] in Hok. by rewrite Ho in Hok. }
  rewrite (hash_of_object obj s o Hs Ho) in Hok. exists s, o. split; [done|]. split; [done|].
  destruct (JSONToYAML _) as [yb|e]; [|done]. cbn [wrap_err mbind result_bind] in Hok.
  apply Ok_inj in Hok. injection Hok as <- <-. done.
Qed.

Lemma hash_of_yaml y j (o : option gomap) :
  YAMLToJSON (firstYAMLDocument y) = Ok j → unmarshal_map j = Ok o →
  MaterialHashFromNormalizedYAML y =
  Ok (hex_EncodeToString (sha256_Sum256 (marshal_map (normalizeKubernetesObject o)))).
Proof.
  intros Hj Ho. unfold MaterialHashFromNormalizedYAML. rewrite Hj.
  cbn [wrap_err mbind result_bind]. by rewrite Ho.
Qed.

(** C26: normalization keeps exactly the material leaves of an object: on a
    decoded object it yields a decoded object in which every path to a scalar or
    list reads the same as before, except that nothing is left under status,
    under the seven bookkeeping keys of the metadata and under the
    last-applied-configuration and sync-content-hash annotations; and
    normalizing again changes nothing. *)
Theorem normalizeKubernetesObject_correct (m : gomap) :
  go_map 0 m →
  ∃ m', normalizeKubernetesObject (Some m) = Some m' ∧ go_map 0 m' ∧
    normalizeKubernetesObject (Some m') = Some m' ∧
    ∀ p v, is_object v = false →
      path_get p (JObj m') = Some v ↔ path_get p (JObj m) = Some v ∧ stripped p = false.
Proof.
  intros Hm. exists (normalized m). rewrite !normalize_Some.
  split; [done|]. split; [by apply go_map_normalized|].
  split; [by erewrite normalized_idem|]. intros p v. apply normalized_leaves.
Qed.

(** The exported document and the hash of an object do not change when its
    status is set or dropped, when a bookkeeping key of its metadata (uid,
    resourceVersion, managedFields, ...) changes, or when the
    sync-content-hash or last-applied-configuration annotation is written. *)
Theorem material_hash_stable (obj obj' : O) s s' (m m' : gomap) :
  json_Marshal_object obj = Ok s → unmarshal_map s = Ok (Some m) →
  json_Marshal_object obj' = Ok s' → unmarshal_map s' = Ok (Some m') →
  touch m m' →
  NormalizedYAMLAndMaterialHash obj' = NormalizedYAMLAndMaterialHash obj.
Proof.
  intros Hs Hm Hs' Hm' Ht. rewrite (hash_of_object obj s _ Hs Hm), (hash_of_object obj' s' _ Hs' Hm').
  apply unmarshal_map_decoded in Hm. rewrite !normalize_Some. by rewrite (touch_normalized m m').
Qed.

(** C28: the hash is 64 lower-case hexadecimal digits, and two objects with the
    same hash normalize to the same map, unless the JSON texts of their
    normalized maps are a collision of SHA-256. *)
Theorem material_hash_separates (obj obj' : O) y y' h s s' (o o' : option gomap) :
  json_Marshal_object obj = Ok s → unmarshal_map s = Ok o →
  json_Marshal_object obj' = Ok s' → unmarshal_map s' = Ok o' →
  NormalizedYAMLAndMaterialHash obj = Ok (y, h) →
  NormalizedYAMLAndMaterialHash obj' = Ok (y', h) →
  (String.length h = 64 ∧ str_forallb lower_hex h = true) ∧
  (normalizeKubernetesObject o = normalizeKubernetesObject o' ∧ y = y' ∨
   ∃ j j', j = marshal_map (normalizeKubernetesObject o) ∧
     j' = marshal_map (normalizeKubernetesObject o') ∧
     j ≠ j' ∧ sha256_Sum256 j = sha256_Sum256 j').
Proof.
  intros Hs Ho Hs' Ho' Hh Hh'.
  apply hash_inv in Hh as (s1 & o1 & Hs1 & Ho1 & Hy & ->).
  apply hash_inv in Hh' as (s2 & o2 & Hs2 & Ho2 & Hy' & Heq%hex_encode_inj).
  rewrite Hs in Hs1. apply Ok_inj in Hs1 as <-. rewrite Ho in Ho1. apply Ok_inj in Ho1 as <-.
  rewrite Hs' in Hs2. apply Ok_inj in Hs2 as <-. rewrite Ho' in Ho2. apply Ok_inj in Ho2 as <-.
  split; [by rewrite hex_encode_length, sha256_length, hex_encode_lower|].
  destruct (decide (marshal_map (normalizeKubernetesObject o) = marshal_map (normalizeKubernetesObject o')))
    as [E|E]; [left|right; by do 2 eexists].
  split; [|congruence]. apply unmarshal_map_decoded, normalize_decoded in Ho, Ho'.
  by apply marshal_map_inj.
Qed.

(** C27: when the two ends of the loop agree on the hash. The exported document,
    read as a whole, is the object as it was normalized. The hash that the
    sync-operator computes from the document is the one that the
    inventory-controller computed for the object exactly when what it reads - only
    the first document, trimmed - normalizes to the same object, up to a collision
    of SHA-256; so whenever YAML reads the trimmed document as the whole one. *)
Theorem material_hash_agrees `{!SigsYamlLaws} (obj : O) y h :
  NormalizedYAMLAndMaterialHash obj = Ok (y, h) →
  ∃ j (o : option gomap), YAMLToJSON y = Ok j ∧ unmarshal_map j = Ok o ∧ normalizeKubernetesObject o = o ∧
    (MaterialHashFromNormalizedYAML y = Ok h ↔
     ∃ j' (o' : option gomap), YAMLToJSON (firstYAMLDocument y) = Ok j' ∧ unmarshal_map j' = Ok o' ∧
       let m := marshal_map o in
       let m' := marshal_map (normalizeKubernetesObject o') in
       normalizeKubernetesObject o' = o ∨ (m' ≠ m ∧ sha256_Sum256 m' = sha256_Sum256 m)) ∧
    (YAMLToJSON (firstYAMLDocument y) = YAMLToJSON y → MaterialHashFromNormalizedYAML y = Ok h).
Proof.
  intros (s & o & Hs & Ho & Hy & ->)%hash_inv.
  apply unmarshal_map_decoded in Ho. pose proof (normalize_decoded _ Ho) as Hn.
  apply yaml_reads_back in Hy as (j & Hj & Hread). rewrite unmarshal_marshal_map in Hread by done.
  exists j, (normalizeKubernetesObject o). split; [done|]. split; [done|]. split; [by apply normalize_idem|].
  split; [|intros Hdoc; rewrite <- Hdoc in Hj; rewrite (hash_of_yaml y j _ Hj Hread); by rewrite normalize_idem].
  split.
  - unfold MaterialHashFromNormalizedYAML. destruct (YAMLToJSON (firstYAMLDocument y)) as [j'|] eqn:Hj'; [|done].
    cbn [wrap_err mbind result_bind]. destruct (unmarshal_map j') as [o'|] eqn:Ho'; [|done].
    cbn [wrap_err mbind result_bind]. cbv zeta. intros Heq%Ok_inj%hex_encode_inj.
    exists j', o'. split; [done|]. split; [done|].
    destruct (decide (marshal_map (normalizeKubernetesObject o') = marshal_map (normalizeKubernetesObject o))) as [E|E];
      [left|by right].
    apply unmarshal_map_decoded, normalize_decoded in Ho'. by apply marshal_map_inj.
  - intros (j' & o' & Hj' & Ho' & Hsame). rewrite (hash_of_yaml y j' o' Hj' Ho').
    cbv zeta in Hsame. destruct Hsame as [->|[_ ->]]; done.
Qed.
End claims.

(** ** Witnesses: objects as their JSON text, YAML documents as JSON *)

Definition text_object : RuntimeObject string := {| json_Marshal_object := Ok |}.
Definition json_yaml : SigsYaml := {| YAMLToJSON := Ok; JSONToYAML := Ok |}.
Definition plain_messages : JsonMessages := {| json_error_message _ := "invalid JSON" |}.
#[local] Existing Instances literal_f64 text_object json_yaml plain_messages.

Lemma json_yaml_laws : SigsYamlLaws.
Proof. split. intros j y Hy. exists j. unfold JSONToYAML, json_yaml in Hy. by apply Ok_inj in Hy as <-. Qed.

(** JSON text with single quotes for double ones. *)
Definition quoted (s : string) : string :=
  str_map (λ c, if decide (c = "'"%char) then byte_of 34 else c) s.

Definition sample_text : string :=
  quoted "{'kind':'Application','metadata':{'name':'a','uid':'1'},'status':{},'x':2}".
Definition sample_map : list (string * json f64) :=
  match unmarshal_map sample_text with Ok (Some m) => m | _ => [] end.
Definition sample_touched : list (string * json f64) := amap_set "status" (JStr "ok") sample_map.

Lemma sample_decoded : unmarshal_map sample_text = Ok (Some sample_map).
Proof. by_vm. Qed.
Lemma sample_touched_decoded :
  unmarshal_map (marshal_map (Some sample_touched)) = Ok (Some sample_touched).
Proof. by_vm. Qed.
Lemma text_marshal s : json_Marshal_object s = Ok s.
Proof. done. Qed.
Lemma sample_hash : NormalizedYAMLAndMaterialHash sample_text =
  Ok (marshal_map (normalizeKubernetesObject (Some sample_map)),
      hex_EncodeToString (sha256_Sum256 (marshal_map (normalizeKubernetesObject (Some sample_map))))).
Proof. by rewrite (hash_of_object sample_text sample_text _ (text_marshal _) sample_decoded). Qed.

Lemma normalizeKubernetesObject_correct_witness :
  ∃ m', normalizeKubernetesObject (Some sample_map) = Some m' ∧
        path_get ["metadata"; "name"] (JObj m') = Some (JStr "a").
Proof.
  destruct (normalizeKubernetesObject_correct sample_map
    (unmarshal_map_decoded _ _ sample_decoded)) as (m' & Hm' & _ & _ & Hleaves).
  exists m'. split; [exact Hm'|]. apply Hleaves; [reflexivity|]. split; by_vm.
Defined.

Lemma material_hash_stable_witness :
  NormalizedYAMLAndMaterialHash (marshal_map (Some sample_touched)) =
  NormalizedYAMLAndMaterialHash sample_text.
Proof.
  exact (material_hash_stable sample_text (marshal_map (Some sample_touched)) _ _ sample_map
    sample_touched (text_marshal _) sample_decoded (text_marshal _) sample_touched_decoded (touch_status _ _)).
Defined.

Lemma material_hash_separates_witness :
  ∃ h, NormalizedYAMLAndMaterialHash sample_text =
         Ok (marshal_map (normalizeKubernetesObject (Some sample_map)), h) ∧ String.length h = 64.
Proof.
  eexists. split; [exact sample_hash|].
  exact (proj1 (proj1 (material_hash_separates sample_text sample_text _ _ _ _ _ _ _ (text_marshal _)
    sample_decoded (text_marshal _) sample_decoded sample_hash sample_hash))).
Defined.

Lemma material_hash_agrees_witness :
  MaterialHashFromNormalizedYAML (marshal_map (normalizeKubernetesObject (Some sample_map))) =
  Ok (hex_EncodeToString (sha256_Sum256 (marshal_map (normalizeKubernetesObject (Some sample_map))))).
Proof.
  pose proof json_yaml_laws.
  destruct (material_hash_agrees sample_text _ _ sample_hash) as (j & o & _ & _ & _ & _ & Hagree).
  apply Hagree. by_vm.
Defined.
