(* ===== verification/ArchivePath.v ===== *)
(** internal/git/archive_path.go: where a deleted object's file is moved to. *)
From S2P Require Import Prelude GoStrings GoPath ExportPath InventoryPath.

Definition inventoryPrefix : string := "inventory/".

Section archive.
Context `{GoUnicode}.

Definition ArchiveRelativePath (inventoryRel : string) : result string :=
  if negb (strings_HasPrefix inventoryRel inventoryPrefix)
  then Failed (Err ("path " +:+ strconv_Quote inventoryRel +:+ " must start with " +:+
                    strconv_Quote inventoryPrefix))
  else
    let rest := strings_TrimPrefix inventoryRel inventoryPrefix in
    Ok (inventoryPrefix +:+ "archive/" +:+ rest).
End archive.

Definition resourceNameFromInventoryPath (inventoryRel : string) : string :=
  let base := path_Base inventoryRel in
  strings_TrimSuffix base ".yaml".

(** ** Facts *)

Definition archive_path (plural namespace name : string) : string :=
  "inventory/archive/" +:+ plural +:+ "/" +:+ namespace +:+ "/" +:+ name +:+ ".yaml".

Section facts.
Context `{GoUnicode}.

Lemma ArchiveRelativePath_spec rel dest :
  ArchiveRelativePath rel = Ok dest ↔
  ∃ rest, rel = "inventory/" +:+ rest ∧ dest = "inventory/archive/" +:+ rest.
Proof.
  unfold ArchiveRelativePath, inventoryPrefix. split.
  - destruct (strings_HasPrefix rel "inventory/") eqn:Hp; [|done]. simpl negb. cbv iota.
    intros <-%Ok_inj. apply HasPrefix_spec in Hp as [rest ->].
    exists rest. split; [done|]. by rewrite TrimPrefix_app.
  - intros (rest & -> & ->). rewrite HasPrefix_app, TrimPrefix_app. done.
Qed.

Lemma archive_export plural ns name :
  ArchiveRelativePath (export_path plural ns name) = Ok (archive_path plural ns name).
Proof. apply ArchiveRelativePath_spec. by eexists. Qed.

Lemma resource_name_export plural ns name :
  no_char slash_char name = true → resourceNameFromInventoryPath (export_path plural ns name) = name.
Proof.
  intros Hn. unfold resourceNameFromInventoryPath.
  replace (export_path plural ns name)
    with (("inventory/" +:+ plural +:+ "/" +:+ ns) +:+ slash +:+ name +:+ ".yaml")
    by (unfold export_path, slash; by rewrite !sapp_assoc).
  rewrite path_Base_last by by apply plain_elem_file. apply TrimSuffix_app.
Qed.

Lemma repo_path_archive plural ns name :
  plain_elem plural = true → plain_elem ns = true → no_char slash_char name = true →
  repo_path (archive_path plural ns name) = archive_path plural ns name.
Proof.
  intros Hp Hns Hname.
  replace (archive_path plural ns name)
    with (("inventory/archive/" +:+ plural +:+ "/" +:+ ns +:+ "/" +:+ name) +:+ ".yaml")
    by (unfold archive_path; by rewrite !sapp_assoc).
  apply (repo_path_plain ["archive"; plural; ns; name +:+ ".yaml"]); [done| |].
  - repeat constructor; [done|done|by apply plain_elem_file].
  - simpl. unfold slash. by rewrite !sapp_assoc.
Qed.

(** The sync-operator ignores archived files. *)
Lemma parse_archive plural ns name :
  export_plural plural → plain_elem ns = true → no_char slash_char name = true →
  ParseInventoryExportPath (archive_path plural ns name) = None.
Proof.
  intros Hpl Hns Hname. destruct (ParseInventoryExportPath _) as [[pl n m]|] eqn:Hparse; [|done].
  apply parse_spec in Hparse as (Hep & _ & _ & file & _ & Heq).
  rewrite repo_path_archive in Heq by (try done; by destruct Hpl as [-> | ->]). unfold archive_path in Heq.
  apply (sapp_inv_l "inventory/") in Heq. destruct Hep as [-> | ->]; discriminate Heq.
Qed.

(** Archiving moves the file of an object to inventory/archive/ under the same
    relative path, distinct files go to distinct places and paths outside
    inventory/ are refused; and the sync-operator never acts on the archived
    file of an exported object, so that archiving in Git deletes the object in
    the cluster and applies nothing. *)
Theorem archive_path_correct kind ns name rel :
  plain_elem ns = true → no_char slash_char name = true →
  kind = "Application" ∨ kind = "ApplicationSet" →
  rel = export_path (ArgoPluralKind kind) ns name →
  ∃ dest, ArchiveRelativePath rel = Ok dest ∧
    dest = "inventory/archive/" +:+ ArgoPluralKind kind +:+ "/" +:+ ns +:+ "/" +:+ name +:+ ".yaml" ∧
    ParseInventoryExportPath dest = None ∧
    resourceNameFromInventoryPath rel = name ∧
    (∀ rel', ArchiveRelativePath rel' = Ok dest → rel' = rel) ∧
    (∀ rel', strings_HasPrefix rel' "inventory/" = false ↔ is_ok (ArchiveRelativePath rel') = false).
Proof.
  intros Hns Hname Hk ->. eexists. split; [apply archive_export|]. split; [done|].
  split; [by apply parse_archive; [apply ArgoPluralKind_export|..]|]. split; [|split].
  - by apply resource_name_export.
  - intros rel' (rest & -> & Heq)%ArchiveRelativePath_spec.
    unfold archive_path in Heq. apply (sapp_inv_l "inventory/archive/") in Heq as <-. done.
  - intros rel'. unfold ArchiveRelativePath. change inventoryPrefix with "inventory/".
    by destruct (strings_HasPrefix rel' "inventory/").
Qed.
End facts.

Lemma archive_path_correct_witness :
  let _ := ascii_tables in
  ∃ dest, ArchiveRelativePath "inventory/applications/default/test-app.yaml" = Ok dest ∧
    dest = "inventory/archive/applications/default/test-app.yaml" ∧
    ParseInventoryExportPath dest = None.
Proof.
  intros tables.
  destruct (archive_path_correct "Application" "default" "test-app"
    "inventory/applications/default/test-app.yaml" eq_refl eq_refl (or_introl eq_refl) eq_refl)
    as (dest & H1 & H2 & H3 & _).
  exists dest. split; [exact H1|]. split; [exact H2|exact H3].
Defined.
