(* ===== verification/GitBatch.v ===== *)
(** internal/git/worker.go, the data of a batch and its commit message: ExportJob,
    pendingExport, sortedKeysBatch, commitSubject, commitBody and
    commitMessageForBatch. *)
From S2P Require Import Prelude GoStrings ArchivePath.

Record ExportJob := Job { Path : string; Content : string }.

Inductive exportOpKind := opWrite | opArchive.
#[export] Instance exportOpKind_eq_dec : EqDecision exportOpKind.
Proof. solve_decision. Defined.

Record pendingExport := Pending { kind : exportOpKind; content : string }.
#[export] Instance pendingExport_eq_dec : EqDecision pendingExport.
Proof. solve_decision. Defined.

(** The map of pending exports, and the zero value a missing key reads as. *)
Abbreviation batch := (gmap string pendingExport).
Definition zero_export : pendingExport := Pending opWrite "".

Definition newline : string := String (byte_of 10) "".

(** ** Commit messages *)

Definition commitSubject (n : Z) : string :=
  "chore(inventory): sync " +:+ strconv_Itoa n +:+ " resources [skip ci]".

Definition max_paths : nat := 10.

(** The loop over the paths from index [i], of [total] paths in all. *)
Fixpoint commitBody_loop (total i : nat) (paths : list string) : string :=
  match paths with
  | [] => ""
  | p :: paths' =>
      if (max_paths <=? i)%nat
      then "... and " +:+ strconv_Itoa (Z.of_nat total - Z.of_nat max_paths) +:+ " more" +:+ newline
      else p +:+ newline +:+ commitBody_loop total (S i) paths'
  end.

Definition commitBody (paths : list string) : string :=
  strings_TrimSuffix (commitBody_loop (length paths) 0 paths) newline.

Definition sortedKeysBatch (m : batch) : list string :=
  sort_Strings (map fst (map_to_list m)).

Definition op_of (b : batch) (p : string) : exportOpKind := kind (default zero_export (b !! p)).

Definition commitMessageForBatch (b : batch) (sortedPaths : list string) : string * string :=
  let writes := filter (λ p, op_of b p = opWrite) sortedPaths in
  let archives := filter (λ p, op_of b p = opArchive) sortedPaths in
  let nw := Z.of_nat (length writes) in
  let na := Z.of_nat (length archives) in
  if ((0 <? nw) && (na =? 0))%Z then (commitSubject nw, commitBody writes)
  else if ((nw =? 0) && (0 <? na))%Z then
    match archives with
    | [a] => ("feat(archive): move deleted resource " +:+ resourceNameFromInventoryPath a +:+
              " to archive [skip ci]", commitBody archives)
    | _ => ("feat(archive): move deleted resource " +:+ strconv_Itoa na +:+
            " resources to archive [skip ci]", commitBody archives)
    end
  else
    let subj := "chore(inventory): sync " +:+ strconv_Itoa nw +:+ " and archive " +:+
                strconv_Itoa na +:+ " resources [skip ci]" in
    let b1 := commitBody writes in
    let b2 := commitBody archives in
    if decide (b1 = "") then (subj, "archive:" +:+ newline +:+ b2)
    else if decide (b2 = "") then (subj, "write:" +:+ newline +:+ b1)
    else (subj, "write:" +:+ newline +:+ b1 +:+ newline +:+ "archive:" +:+ newline +:+ b2).

(** The message of the commit: subject, blank line, body. *)
Definition fullMsg (subject body : string) : string :=
  if decide (body = "") then subject else subject +:+ newline +:+ newline +:+ body.

(** ** Facts *)

(** The lines of the body: at most ten paths, then how many were left out. *)
Definition body_lines (paths : list string) : list string :=
  take max_paths paths ++
  if decide (length paths <= max_paths) then []
  else ["... and " +:+ strconv_Itoa (Z.of_nat (length paths) - Z.of_nat max_paths) +:+ " more"].

Lemma commitBody_loop_lines total i paths :
  commitBody_loop total i paths =
  str_concat (map (λ l, l +:+ newline) (take (max_paths - i) paths ++
    if decide (length paths <= max_paths - i) then []
    else ["... and " +:+ strconv_Itoa (Z.of_nat total - Z.of_nat max_paths) +:+ " more"])).
Proof.
  revert i. induction paths as [|p paths IH]; intros i; cbn [commitBody_loop].
  { rewrite take_nil. by rewrite decide_True by (cbn; lia). }
  destruct (Nat.leb_spec max_paths i) as [Hi|Hi].
  - replace (max_paths - i) with 0 by lia. rewrite decide_False by (cbn; lia).
    cbn [take app map str_concat]. by rewrite sapp_nil_r, !sapp_assoc.
  - rewrite IH. replace (max_paths - i) with (S (max_paths - S i)) by lia.
    cbn [take app map str_concat length]. rewrite sapp_assoc. do 3 f_equal. f_equal. f_equal.
    repeat case_decide; try done; lia.
Qed.

Lemma lines_join l :
  l ≠ [] → str_concat (map (λ s, s +:+ newline) l) = strings_Join l newline +:+ newline.
Proof.
  induction l as [|s [|s' l] IH]; [done| |]; intros _.
  - cbn. by rewrite sapp_nil_r.
  - cbn [map str_concat] in *. rewrite IH by done. cbn [strings_Join]. by rewrite !sapp_assoc.
Qed.

Lemma commitBody_lines paths : commitBody paths = strings_Join (body_lines paths) newline.
Proof.
  unfold commitBody. rewrite commitBody_loop_lines. rewrite Nat.sub_0_r. fold (body_lines paths).
  destruct (body_lines paths) as [|l ls] eqn:E; [done|].
  rewrite lines_join by done. apply TrimSuffix_app.
Qed.

Lemma body_lines_length paths : length (body_lines paths) <= S max_paths.
Proof. unfold body_lines. rewrite length_app, length_take. case_decide; cbn [length]; lia. Qed.

Lemma body_lines_prefix paths i :
  (i < max_paths)%nat → body_lines paths !! i = paths !! i.
Proof.
  intros Hi. unfold body_lines. destruct (decide (i < length paths)) as [Hlt|Hge].
  - rewrite lookup_app_l by (rewrite length_take; lia). by rewrite lookup_take, decide_True by done.
  - rewrite decide_True by lia. by rewrite app_nil_r, lookup_take, decide_True by done.
Qed.

Lemma sortedKeys_elem b p : p ∈ sortedKeysBatch b ↔ is_Some (b !! p).
Proof.
  unfold sortedKeysBatch. rewrite sort_Strings_perm, list_elem_of_fmap. split.
  - intros ([p' op] & -> & Hin). apply elem_of_map_to_list in Hin. by exists op.
  - intros [op Hop]. exists (p, op). split; [done|]. by apply elem_of_map_to_list.
Qed.

Lemma sortedKeys_length b : length (sortedKeysBatch b) = size b.
Proof. unfold sortedKeysBatch. rewrite sort_Strings_perm, length_map. apply length_map_to_list. Qed.

Lemma sortedKeys_NoDup b : NoDup (sortedKeysBatch b).
Proof. unfold sortedKeysBatch. rewrite sort_Strings_perm. apply NoDup_fst_map_to_list. Qed.

Lemma ops_partition b l :
  length (filter (λ p, op_of b p = opWrite) l) + length (filter (λ p, op_of b p = opArchive) l) =
  length l.
Proof.
  induction l as [|p l IH]; [done|]. rewrite !filter_cons. cbn [length].
  destruct (op_of b p); repeat case_decide; try done; cbn [length]; lia.
Qed.

(** The message documented for written and archived paths. *)
Definition message_spec (w a : list string) : string * string :=
  let n l := strconv_Itoa (Z.of_nat (length l)) in
  let lines l := strings_Join (body_lines l) newline in
  match w, a with
  | _ :: _, [] => ("chore(inventory): sync " +:+ n w +:+ " resources [skip ci]", lines w)
  | [], [x] => ("feat(archive): move deleted resource " +:+ resourceNameFromInventoryPath x +:+
                " to archive [skip ci]", x)
  | [], _ => ("feat(archive): move deleted resource " +:+ n a +:+
              " resources to archive [skip ci]", lines a)
  | _, _ => ("chore(inventory): sync " +:+ n w +:+ " and archive " +:+ n a +:+
             " resources [skip ci]",
             "write:" +:+ newline +:+ lines w +:+ newline +:+ "archive:" +:+ newline +:+ lines a)
  end.

Lemma join_not_nil x l : x ≠ "" → strings_Join (x :: l) newline ≠ "".
Proof. intros Hx. destruct l; [done|]. cbn [strings_Join]. by intros [? _]%sapp_eq_nil. Qed.

Lemma commitBody_not_nil x l : x ≠ "" → commitBody (x :: l) ≠ "".
Proof.
  intros Hx. rewrite commitBody_lines. unfold body_lines. cbn [take max_paths app].
  by apply join_not_nil.
Qed.

Lemma Forall_kept (P : string → Prop) (Q : string → Prop) `{!∀ x, Decision (Q x)} l :
  Forall P l → Forall P (filter Q l).
Proof. rewrite !Forall_forall. intros Hl x [_ Hx]%list_elem_of_filter. by apply Hl. Qed.

Lemma commitMessage_spec b l :
  let w := filter (λ p, op_of b p = opWrite) l in
  let a := filter (λ p, op_of b p = opArchive) l in
  l ≠ [] → Forall (λ p, p ≠ "") l → commitMessageForBatch b l = message_spec w a.
Proof.
  intros w a Hl Hne. unfold commitMessageForBatch. fold w a.
  assert (Hsum : length w + length a = length l) by apply ops_partition.
  assert (Hw : Forall (λ p, p ≠ "") w) by by apply Forall_kept.
  assert (Ha : Forall (λ p, p ≠ "") a) by by apply Forall_kept.
  clearbody w a.
  assert (Hpos : ∀ x (l : list string), (0 <? Z.of_nat (length (x :: l)))%Z = true)
    by (intros; apply Z.ltb_lt; cbn [length]; lia).
  assert (Hnz : ∀ x (l : list string), (Z.of_nat (length (x :: l)) =? 0)%Z = false)
    by (intros; apply Z.eqb_neq; cbn [length]; lia).
  destruct w as [|x w], a as [|y a]; rewrite ?Hpos, ?Hnz.
  - destruct l; [done|]. cbn in Hsum. lia.
  - change (0 <? Z.of_nat (length (@nil string)))%Z with false.
    change (Z.of_nat (length (@nil string)) =? 0)%Z with true. cbn [andb].
    rewrite !commitBody_lines. by destruct a.
  - change (Z.of_nat (length (@nil string)) =? 0)%Z with true. cbn [andb].
    by rewrite commitBody_lines.
  - cbn [andb]. apply Forall_cons in Hw as [Hx _]. apply Forall_cons in Ha as [Hy _].
    rewrite (decide_False (P := commitBody (x :: w) = "")) by by apply commitBody_not_nil.
    rewrite (decide_False (P := commitBody (y :: a) = "")) by by apply commitBody_not_nil.
    by rewrite !commitBody_lines.
Qed.

Lemma HasSuffix_r s t p : strings_HasSuffix t p = true → strings_HasSuffix (s +:+ t) p = true.
Proof. rewrite !HasSuffix_spec. intros [r ->]. exists (s +:+ r). by rewrite sapp_assoc. Qed.

Lemma message_skip_ci w a : strings_HasSuffix (message_spec w a).1 " [skip ci]" = true.
Proof.
  unfold message_spec. destruct w as [|x w], a as [|y [|z a]]; cbn [fst];
    repeat (apply HasSuffix_r; try reflexivity).
Qed.

Lemma StronglySorted_kept (Q : string → Prop) `{!∀ x, Decision (Q x)} l :
  StronglySorted String.le l → StronglySorted String.le (filter Q l).
Proof.
  induction 1 as [|x l Hl IH Hx]; [constructor|]. rewrite filter_cons. case_decide; [|done].
  constructor; [done|]. by apply Forall_kept.
Qed.

(** The writes and the archives of a batch, in ascending order. *)
Definition paths_of (b : batch) (k : exportOpKind) : list string :=
  filter (λ p, op_of b p = k) (sortedKeysBatch b).

Lemma paths_of_elem b k p : p ∈ paths_of b k ↔ ∃ c, b !! p = Some (Pending k c).
Proof.
  unfold paths_of. rewrite list_elem_of_filter, sortedKeys_elem. unfold op_of. split.
  - intros [Hk [[k' c] Hop]]. rewrite Hop in Hk. cbn in Hk. subst k'. by exists c.
  - intros [c Hop]. rewrite Hop. split; [done|by eexists].
Qed.

(** The commit of a batch counts and lists exactly what it did: the written
    and the archived paths are the keys of the batch with that operation, each
    once and in ascending order; the subject has their numbers (or the name of
    the single archived resource) and always ends in [skip ci]; and the body
    lists the first ten of each kind, one per line, followed, when there are
    more, by one line with the number of the others. *)
Theorem commit_message_correct b :
  b ≠ ∅ → b !! "" = None →
  let w := paths_of b opWrite in
  let a := paths_of b opArchive in
  commitMessageForBatch b (sortedKeysBatch b) = message_spec w a ∧
  (∀ p, p ∈ w ↔ ∃ c, b !! p = Some (Pending opWrite c)) ∧
  (∀ p, p ∈ a ↔ ∃ c, b !! p = Some (Pending opArchive c)) ∧
  NoDup w ∧ NoDup a ∧ StronglySorted String.le w ∧ StronglySorted String.le a ∧
  length w + length a = size b ∧
  strings_HasSuffix (commitMessageForBatch b (sortedKeysBatch b)).1 " [skip ci]" = true ∧
  ∀ l, commitBody l = strings_Join (body_lines l) newline ∧ length (body_lines l) <= 11 ∧
       (∀ i, i < 10 → body_lines l !! i = l !! i).
Proof.
  intros Hb Hempty w a.
  assert (Hmsg : commitMessageForBatch b (sortedKeysBatch b) = message_spec w a).
  { apply commitMessage_spec.
    - intros H%(f_equal length). rewrite sortedKeys_length in H. by apply map_size_empty_inv in H.
    - apply Forall_forall. intros p Hp%sortedKeys_elem ->. rewrite Hempty in Hp. by destruct Hp. }
  split; [done|]. split; [apply paths_of_elem|]. split; [apply paths_of_elem|].
  split; [apply NoDup_filter, sortedKeys_NoDup|]. split; [apply NoDup_filter, sortedKeys_NoDup|].
  split; [apply StronglySorted_kept, sort_Strings_sorted|].
  split; [apply StronglySorted_kept, sort_Strings_sorted|].
  split; [rewrite <- sortedKeys_length; apply ops_partition|].
  split; [rewrite Hmsg; apply message_skip_ci|].
  intros l. split; [apply commitBody_lines|]. split; [apply body_lines_length|].
  intros i Hi. by apply body_lines_prefix.
Qed.

(** A batch of one write and one archive. *)
Definition sample_batch : batch :=
  <["inventory/applications/a/x.yaml" := Pending opWrite "kind: Application"]>
  (<["inventory/applications/a/y.yaml" := Pending opArchive ""]> ∅).

Lemma commit_message_correct_witness :
  (commitMessageForBatch sample_batch (sortedKeysBatch sample_batch)).1 =
    "chore(inventory): sync 1 and archive 1 resources [skip ci]" ∧
  length (paths_of sample_batch opWrite) + length (paths_of sample_batch opArchive) = 2.
Proof.
  pose proof (commit_message_correct sample_batch ltac:(discriminate) eq_refl)
    as (Hmsg & _ & _ & _ & _ & _ & _ & Hlen & _).
  split; [rewrite Hmsg; vm_compute; reflexivity|exact Hlen].
Defined.
