(* ===== verification/Fs.v ===== *)
(** The file system calls of package os that the git worker makes, on absolute
    paths: a tree of directories and regular files keyed by path elements, with
    the errors of the calls and a hook for the faults of the machine. Symbolic
    links are not modelled. *)
From S2P Require Import Prelude GoStrings GoPath.

(** ** The tree *)

Inductive node := NDir | NFile (data : string).
#[export] Instance node_eq_dec : EqDecision node.
Proof. solve_decision. Defined.

Abbreviation key := (list string).
Abbreviation fs := (gmap (list string) node).

Inductive errno := ENOENT | ENOTDIR | EISDIR | ENOTEMPTY | EBUSY | EFault (msg : string).
#[export] Instance errno_eq_dec : EqDecision errno.
Proof. solve_decision. Defined.

Definition errno_text (e : errno) : string :=
  match e with
  | ENOENT => "no such file or directory"
  | ENOTDIR => "not a directory"
  | EISDIR => "is a directory"
  | ENOTEMPTY => "directory not empty"
  | EBUSY => "device or resource busy"
  | EFault msg => msg
  end.

Definition IsNotExist (e : errno) : bool := bool_decide (e = ENOENT).

(** The text of a [*PathError]. *)
Definition path_error (op p : string) (e : errno) : error := Err (op +:+ " " +:+ p +:+ ": " +:+ errno_text e).

(** Faults the tree does not explain: no space, no permission, an I/O error. *)
Class OsFaults := { os_fault : string → string → option errno }.
Definition no_faults : OsFaults := {| os_fault _ _ := None |}.

(** The elements of an absolute path. *)
Definition fs_key (p : string) : key := path_elems (path_Clean p).

Definition node_at (d : fs) (k : key) : option node :=
  match k with [] => Some NDir | _ => d !! k end.

(** Resolution of a path, element by element. *)
Fixpoint resolve (d : fs) (pre todo : key) : node + errno :=
  match todo with
  | [] => match node_at d pre with Some n => inl n | None => inr ENOENT end
  | e :: todo' =>
      match node_at d pre with
      | Some NDir => resolve d (pre ++ [e]) todo'
      | Some (NFile _) => inr ENOTDIR
      | None => inr ENOENT
      end
  end.

Definition parent (k : key) : key := removelast k.

(** ** Calls *)

Section calls.
Context `{OsFaults}.

Definition os_Stat (d : fs) (p : string) : node + errno :=
  match os_fault "stat" p with
  | Some e => inr e
  | None => resolve d [] (fs_key p)
  end.

Fixpoint mkdir_all (d : fs) (pre todo : key) : fs + errno :=
  match todo with
  | [] => inl d
  | e :: todo' =>
      let k := pre ++ [e] in
      match d !! k with
      | Some NDir => mkdir_all d k todo'
      | Some (NFile _) => inr ENOTDIR
      | None => mkdir_all (<[k := NDir]> d) k todo'
      end
  end.

Definition os_MkdirAll (d : fs) (p : string) : result fs :=
  match os_fault "mkdir" p with
  | Some e => Failed (path_error "mkdir" p e)
  | None => match mkdir_all d [] (fs_key p) with
            | inl d' => Ok d'
            | inr e => Failed (path_error "mkdir" p e)
            end
  end.

(** Create or truncate a file, then write it. *)
Definition write_file (d : fs) (k : key) (data : string) : fs + errno :=
  match resolve d [] (parent k) with
  | inr e => inr e
  | inl (NFile _) => inr ENOTDIR
  | inl NDir => match node_at d k with
                | Some NDir => inr EISDIR
                | _ => inl (<[k := NFile data]> d)
                end
  end.

Definition os_WriteFile (d : fs) (p data : string) : result fs :=
  match os_fault "open" p with
  | Some e => Failed (path_error "open" p e)
  | None => match write_file d (fs_key p) data with
            | inl d' => Ok d'
            | inr e => Failed (path_error "open" p e)
            end
  end.

(** [k] has no entry below it. *)
Definition is_leaf (d : fs) (k : key) : bool :=
  bool_decide (Forall (λ kn, ¬ (k `prefix_of` kn.1 ∧ k ≠ kn.1)) (map_to_list d)).

(** A file or an empty directory. *)
Definition os_Remove (d : fs) (p : string) : fs + errno :=
  match os_fault "remove" p with
  | Some e => inr e
  | None =>
      let k := fs_key p in
      match resolve d [] k with
      | inr e => inr e
      | inl (NFile _) => inl (delete k d)
      | inl NDir => match k with
                    | [] => inr EBUSY
                    | _ => if is_leaf d k then inl (delete k d) else inr ENOTEMPTY
                    end
      end
  end.

(** Rename of a regular file, the only one the code makes: the source has just
    been found not to be a directory. *)
Definition rename_file (d : fs) (src dest : key) : fs + errno :=
  match resolve d [] src with
  | inr e => inr e
  | inl NDir => inr (EFault "rename of a directory")
  | inl (NFile data) =>
      match resolve d [] (parent dest) with
      | inr e => inr e
      | inl (NFile _) => inr ENOTDIR
      | inl NDir => match node_at d dest with
                    | Some NDir => inr EISDIR
                    | _ => inl (<[dest := NFile data]> (delete src d))
                    end
      end
  end.

Definition os_Rename (d : fs) (src dest : string) : result fs :=
  match os_fault "rename" src with
  | Some e => Failed (path_error "rename" src e)
  | None => match rename_file d (fs_key src) (fs_key dest) with
            | inl d' => Ok d'
            | inr e => Failed (path_error "rename" src e)
            end
  end.

(** A file or a directory with everything below it. *)
Definition os_RemoveAll (d : fs) (p : string) : fs :=
  match os_fault "unlinkat" p with
  | Some _ => d
  | None => filter (λ kn, ¬ (fs_key p `prefix_of` kn.1)) d
  end.
End calls.

(** ** Trees under a directory *)

Definition strip_prefix (d k : key) : option key :=
  if decide (d `prefix_of` k) then Some (drop (length d) k) else None.

(** The entries below [d], by their path below it. *)
Definition subtree (d : key) (m : fs) : fs :=
  list_to_map (omap (λ kn, (λ k, (k, kn.2)) <$> strip_prefix d kn.1) (map_to_list m)).

(** Put a tree at [d]. *)
Definition place (d : key) (t m : fs) : fs := kmap (app d) t ∪ m.

(** The regular files: what Git records. *)
Definition node_file (n : node) : option string := match n with NFile c => Some c | NDir => None end.
Definition tree_files (t : fs) : gmap (list string) string := omap node_file t.
Definition file_at (d : fs) (k : key) : option string := d !! k ≫= node_file.

(** ** Well-formed trees: every entry is in a directory *)

Definition fs_wf (d : fs) : Prop :=
  ∀ k e n, d !! (k ++ [e]) = Some n → node_at d k = Some NDir.

(** No regular file on the way to [k]. *)
Definition open_way (d : fs) (k : key) : Prop :=
  ∀ q r, k = q ++ r → q ≠ [] → r ≠ [] → ∀ c, d !! q ≠ Some (NFile c).

Lemma node_at_snoc d k e : node_at d (k ++ [e]) = d !! (k ++ [e]).
Proof. by destruct k. Qed.

Lemma node_at_ne d k : k ≠ [] → node_at d k = d !! k.
Proof. by destruct k. Qed.

Lemma removelast_snoc {A} (k : list A) e : removelast (k ++ [e]) = k.
Proof. apply removelast_last. Qed.

Lemma strip_prefix_app d k : strip_prefix d (d ++ k) = Some k.
Proof.
  unfold strip_prefix. rewrite decide_True by by apply prefix_app_r. by rewrite drop_app_length.
Qed.

Lemma strip_prefix_Some d k j : strip_prefix d k = Some j ↔ k = d ++ j.
Proof.
  split; [|intros ->; apply strip_prefix_app]. unfold strip_prefix. case_decide as Hp; [|done].
  destruct Hp as [r ->]. rewrite drop_app_length. congruence.
Qed.

Lemma lookup_subtree d m k : subtree d m !! k = m !! (d ++ k).
Proof.
  apply option_eq. intros n. unfold subtree. rewrite <- elem_of_list_to_map.
  - rewrite list_elem_of_omap. split.
    + intros ([k' n'] & Hin & Heq). cbn in Heq. apply elem_of_map_to_list in Hin.
      destruct (strip_prefix d k') as [j|] eqn:Hj; [|done]. injection Heq as <- <-.
      by apply strip_prefix_Some in Hj as ->.
    + intros Hn. exists (d ++ k, n). split; [by apply elem_of_map_to_list|]. cbn.
      by rewrite strip_prefix_app.
  - pose proof (NoDup_fst_map_to_list m) as Hnd. induction (map_to_list m) as [|[k' n'] l IH]; [constructor|].
    cbn in *. apply NoDup_cons in Hnd as [Hk' Hnd].
    destruct (strip_prefix d k') as [j|] eqn:Hj; cbn; [|by apply IH].
    apply NoDup_cons. split; [|by apply IH]. intros Hin. apply Hk'.
    apply list_elem_of_fmap in Hin as ([j' n2] & -> & Hin).
    apply list_elem_of_omap in Hin as ([k2 n3] & Hin & Heq). cbn in Heq.
    destruct (strip_prefix d k2) as [j2|] eqn:Hj2; [|done]. injection Heq as <- <-.
    apply strip_prefix_Some in Hj, Hj2. subst. cbn in *. apply list_elem_of_fmap. by exists (d ++ j2, n3).
Qed.

Lemma lookup_place d t m k : place d t m !! (d ++ k) = match t !! k with Some n => Some n | None => m !! (d ++ k) end.
Proof.
  unfold place. rewrite lookup_union, (lookup_kmap (app d)).
  by destruct (t !! k), (m !! (d ++ k)).
Qed.

Lemma lookup_place_other d t m k :
  ¬ (d `prefix_of` k) → place d t m !! k = m !! k.
Proof.
  intros Hk. unfold place. rewrite lookup_union.
  replace (kmap (app d) t !! k) with (@None node); [by destruct (m !! k)|].
  symmetry. apply (lookup_kmap_None (app d)). intros j ->. destruct Hk. by apply prefix_app_r.
Qed.

(** ** What the calls do when nothing is in the way *)

(** The keys strictly below [pre] on the way to [k], [k] included. *)
Definition between (pre q k : key) : Prop := pre `prefix_of` q ∧ q ≠ pre ∧ q `prefix_of` k.
#[export] Instance between_dec pre q k : Decision (between pre q k).
Proof. unfold between. apply _. Defined.

Lemma between_cons pre q e t :
  between pre q (pre ++ e :: t) ↔ q = pre ++ [e] ∨ between (pre ++ [e]) q ((pre ++ [e]) ++ t).
Proof.
  unfold between. rewrite <- app_assoc. cbn [app]. split.
  - intros ([r ->] & Hne & Hp). apply prefix_app_inv in Hp.
    destruct r as [|x r]; [by rewrite app_nil_r in Hne|].
    pose proof (prefix_cons_inv_1 _ _ _ _ Hp) as ->. apply prefix_cons_inv_2 in Hp.
    destruct r as [|y r]; [by left|right]. split; [|split].
    + exists (y :: r). by rewrite <- app_assoc.
    + intros Heq. by apply app_inv_head in Heq.
    + destruct Hp as [u ->]. exists u. by rewrite <- !app_assoc.
  - intros [->|(Hp & Hne & Hq)].
    + split; [by apply prefix_app_r|]. split.
      * intros Heq. rewrite <- (app_nil_r pre) in Heq at 2. by apply app_inv_head in Heq.
      * exists t. by rewrite <- app_assoc.
    + split; [by eapply prefix_app_l|]. split; [|done]. intros ->.
      apply prefix_length in Hp. rewrite length_app in Hp. cbn in Hp. lia.
Qed.

Lemma mkdir_all_ok d pre todo :
  (∀ q c, between pre q (pre ++ todo) → d !! q ≠ Some (NFile c)) →
  ∃ d', mkdir_all d pre todo = inl d' ∧
    ∀ q, d' !! q = if decide (between pre q (pre ++ todo)) then Some NDir else d !! q.
Proof.
  revert d pre. induction todo as [|e t IH]; intros d pre Hd; cbn [mkdir_all].
  - exists d. split; [done|]. intros q. rewrite decide_False; [done|]. rewrite app_nil_r.
    intros (H1 & H2 & H3). apply H2. by apply (anti_symm prefix).
  - setoid_rewrite between_cons in Hd. destruct (d !! (pre ++ [e])) as [[|c]|] eqn:He.
    + destruct (IH d (pre ++ [e])) as (d' & -> & Hd'); [auto|]. exists d'. split; [done|].
      intros q. rewrite Hd'. destruct (decide (between (pre ++ [e]) q _)) as [Hb|Hb].
      * rewrite decide_True; [done|]. apply between_cons. by right.
      * case_decide as Hb'; [|done]. apply between_cons in Hb' as [->|?]; [by rewrite He|done].
    + destruct (Hd (pre ++ [e]) c); auto.
    + destruct (IH (<[pre ++ [e] := NDir]> d) (pre ++ [e])) as (d' & -> & Hd').
      { intros q c Hq. rewrite lookup_insert_ne; [auto|]. intros <-. by destruct Hq as (_ & ? & _). }
      exists d'. split; [done|]. intros q. rewrite Hd'.
      destruct (decide (between (pre ++ [e]) q _)) as [Hb|Hb].
      * rewrite decide_True; [done|]. apply between_cons. by right.
      * case_decide as Hb'.
        -- apply between_cons in Hb' as [->|?]; [by rewrite lookup_insert_eq|done].
        -- rewrite lookup_insert_ne; [done|]. intros <-. apply Hb', between_cons. by left.
Qed.

Lemma resolve_ok d pre todo n :
  node_at d (pre ++ todo) = Some n →
  (∀ q r, todo = q ++ r → r ≠ [] → node_at d (pre ++ q) = Some NDir) →
  resolve d pre todo = inl n.
Proof.
  revert pre. induction todo as [|e t IH]; intros pre Hn Hd; cbn [resolve].
  - rewrite app_nil_r in Hn. by rewrite Hn.
  - rewrite <- (app_nil_r pre) at 1. rewrite (Hd [] (e :: t)) by done. apply IH.
    + by rewrite <- app_assoc.
    + intros q r -> Hr. rewrite <- app_assoc. by apply (Hd (e :: q) r).
Qed.

Lemma fs_wf_prefix d k n :
  fs_wf d → node_at d k = Some n → ∀ q r, k = q ++ r → r ≠ [] → node_at d q = Some NDir.
Proof.
  intros Hwf. revert n. induction k as [|e k IH] using rev_ind; intros n Hk q r Heq Hr.
  - symmetry in Heq. apply app_eq_nil in Heq as [_ ->]. done.
  - destruct r as [|x r _] using rev_ind; [done|]. rewrite app_assoc in Heq.
    apply app_inj_tail in Heq as [-> ->]. rewrite node_at_snoc in Hk. apply Hwf in Hk.
    destruct r as [|y r]; [by rewrite app_nil_r in Hk|]. by eapply (IH _ Hk q (y :: r)).
Qed.

Lemma resolve_wf d k n : fs_wf d → node_at d k = Some n → resolve d [] k = inl n.
Proof.
  intros Hwf Hn. apply resolve_ok; [done|]. intros q r Hq Hr. cbn. by eapply fs_wf_prefix.
Qed.

(** A missing entry with no file on the way is reported as such. *)
Lemma resolve_missing d k :
  fs_wf d → open_way d k → node_at d k = None → resolve d [] k = inr ENOENT.
Proof.
  intros Hwf Hopen Hn. cut (∀ pre todo, pre ++ todo = k → resolve d pre todo = inr ENOENT).
  { intros H. by apply H. }
  intros pre todo. revert pre. induction todo as [|e t IH]; intros pre Heq; cbn [resolve].
  - rewrite app_nil_r in Heq. subst pre. by rewrite Hn.
  - destruct (node_at d pre) as [[|c]|] eqn:Hp; [|exfalso|done].
    + apply IH. by rewrite <- app_assoc.
    + destruct pre as [|x pre]; [done|]. by eapply (Hopen (x :: pre) (e :: t)).
Qed.

(** ** Files at incomparable paths *)

(** None of the keys of [K] is on the way to another. *)
Definition antichain (K : key → Prop) : Prop :=
  ∀ k q r, K k → K q → k = q ++ r → r = [].

(** Nothing is in the way of the files of [K]. *)
Definition clear (K : key → Prop) (d : fs) : Prop :=
  fs_wf d ∧ ∀ k, K k → open_way d k ∧ d !! k ≠ Some NDir.

Lemma file_at_Some d k c : file_at d k = Some c ↔ d !! k = Some (NFile c).
Proof. unfold file_at. destruct (d !! k) as [[]|]; cbn; naive_solver. Qed.

Lemma open_way_ext d d' k :
  (∀ q, file_at d' q = file_at d q) → open_way d k → open_way d' k.
Proof.
  intros Hf Hd q r Hk Hq Hr c Hc. apply file_at_Some in Hc. rewrite Hf in Hc.
  apply file_at_Some in Hc. by eapply Hd.
Qed.

Section clear.
Context (K : key → Prop) (HK : antichain K) (Hnil : ¬ K []).

Lemma parent_snoc k : K k → ∃ e, k = parent k ++ [e].
Proof.
  intros Hk. destruct k as [|e k _] using rev_ind; [done|]. exists e. unfold parent.
  by rewrite removelast_snoc.
Qed.

Lemma mkdir_clear d k :
  clear K d → K k → ∃ d', mkdir_all d [] (parent k) = inl d' ∧ clear K d' ∧
    node_at d' (parent k) = Some NDir ∧ (∀ q, file_at d' q = file_at d q) ∧
    ∀ q, d' !! q = if decide (between [] q (parent k)) then Some NDir else d !! q.
Proof.
  intros [Hwf Hclear] Hk. destruct (parent_snoc k Hk) as [e He].
  destruct (mkdir_all_ok d [] (parent k)) as (d' & Hok & Hd').
  { intros q c (_ & Hne & [r Hr]) Hq. destruct (Hclear k Hk) as [Hopen _].
    apply (Hopen q (r ++ [e])) in Hq; [done| |done|by destruct r].
    rewrite He at 1. cbn in Hr. by rewrite Hr, <- app_assoc. }
  exists d'. split; [done|]. cbn [app] in Hd'.
  assert (Hfile : ∀ q, file_at d' q = file_at d q).
  { intros q. unfold file_at at 1. rewrite Hd'. case_decide as Hb; [|done]. destruct Hb as (_ & Hne & [r Hr]).
    unfold file_at. destruct (d !! q) as [[|c]|] eqn:Hq; try done.
    destruct (Hclear k Hk) as [Hopen _]. apply (Hopen q (r ++ [e])) in Hq; [done| |done|by destruct r].
    rewrite He at 1. by rewrite Hr, <- app_assoc. }
  assert (Hnode : ∀ q, q `prefix_of` parent k → node_at d' q = Some NDir).
  { intros q Hq. destruct q as [|x q]; [done|]. cbn [node_at]. rewrite Hd'.
    rewrite decide_True; [done|]. split; [by eexists|]. by split. }
  split; [split|split; [by apply Hnode|by split]].
  - intros q x n. rewrite Hd'. case_decide as Hb.
    + intros _. apply Hnode. destruct Hb as (_ & _ & Hb). by eapply prefix_app_l.
    + intros Hn%Hwf. destruct (decide (q `prefix_of` parent k)) as [Hq|Hq]; [by apply Hnode|].
      destruct q as [|y q]; [done|]. cbn [node_at] in *. rewrite Hd', decide_False; [done|].
      by intros (_ & _ & ?).
  - intros k' Hk'. destruct (Hclear k' Hk') as [Hopen Hdir].
    split; [by eapply open_way_ext|]. rewrite Hd'. case_decide as Hb; [|done].
    destruct Hb as (_ & _ & [r Hr]). exfalso.
    specialize (HK k k' (r ++ [e]) Hk Hk'). destruct r; discriminate HK.
    all: by rewrite He at 1; rewrite Hr, <- app_assoc.
Qed.

Lemma write_clear d k c :
  clear K d → K k → node_at d (parent k) = Some NDir →
  write_file d k c = inl (<[k := NFile c]> d) ∧ clear K (<[k := NFile c]> d) ∧
    ∀ q, file_at (<[k := NFile c]> d) q = if decide (q = k) then Some c else file_at d q.
Proof.
  intros [Hwf Hclear] Hk Hpar. destruct (parent_snoc k Hk) as [e He].
  destruct (Hclear k Hk) as [_ Hdir]. unfold write_file. rewrite (resolve_wf _ _ _ Hwf Hpar).
  assert (Hn : node_at d k = d !! k) by (rewrite He; apply node_at_snoc).
  rewrite Hn.
  split; [by destruct (d !! k) as [[]|]|]. split; [split|].
  - intros q x n. destruct (decide (k = q ++ [x])) as [Hq|Hq].
    + intros _. rewrite He in Hq. apply app_inj_tail in Hq as [<- _].
      destruct (parent k) as [|y p] eqn:Hp; [done|]. cbn [node_at] in *.
      rewrite lookup_insert_ne; [done|]. intros Hy. rewrite He in Hy.
      apply (f_equal length) in Hy. rewrite length_app in Hy. cbn in Hy. lia.
    + rewrite lookup_insert_ne by done. intros Hx%Hwf. destruct q as [|y q]; [done|].
      cbn [node_at] in *. rewrite lookup_insert_ne; [done|]. intros Hy. apply Hdir. by rewrite Hy.
  - intros k' Hk'. destruct (Hclear k' Hk') as [Hopen Hdir']. split.
    + intros q r Hq Hqn Hr c'. destruct (decide (k = q)) as [<-|Hne].
      * specialize (HK k' k r Hk' Hk Hq). done.
      * rewrite lookup_insert_ne by done. by eapply Hopen.
    + destruct (decide (k = k')) as [<-|]; [by rewrite lookup_insert_eq|by rewrite lookup_insert_ne].
  - intros q. unfold file_at. case_decide as Hq; [subst; by rewrite lookup_insert_eq|].
    by rewrite lookup_insert_ne by congruence.
Qed.

Lemma delete_clear d k c :
  clear K d → K k → d !! k = Some (NFile c) → clear K (delete k d) ∧
    ∀ q, file_at (delete k d) q = if decide (q = k) then None else file_at d q.
Proof.
  intros [Hwf Hclear] Hk Hc. split; [split|].
  - intros q x n Hn%lookup_delete_Some. destruct Hn as [Hne Hn%Hwf].
    destruct q as [|y q]; [done|]. cbn [node_at] in *. rewrite lookup_delete_ne; [done|].
    intros Hy. rewrite Hy in Hc. congruence.
  - intros k' Hk'. destruct (Hclear k' Hk') as [Hopen Hdir]. split.
    + intros q r Hq Hqn Hr c' [_ Hc']%lookup_delete_Some. by eapply Hopen.
    + intros [_ Hc']%lookup_delete_Some. by apply Hdir.
  - intros q. unfold file_at. case_decide as Hq; [subst; by rewrite lookup_delete_eq|].
    by rewrite lookup_delete_ne by congruence.
Qed.
End clear.

(** ** The key of a path *)

Lemma fs_key_abs elems : elems ≠ [] → plain elems → fs_key (abs elems) = elems.
Proof. intros Hne Hp. unfold fs_key. by rewrite path_Clean_abs, path_elems_abs. Qed.

(** ** Trees placed in a directory *)

(** [dirs] is a directory of [d], and [d] is as [d0] outside it. *)
Definition outside (dirs : key) (d0 d : fs) : Prop :=
  d !! dirs = Some NDir ∧ ∀ q, ¬ (dirs `prefix_of` q) → d !! q = d0 !! q.

Lemma outside_set dirs d0 d k n :
  outside dirs d0 d → dirs `prefix_of` k → k ≠ dirs → outside dirs d0 (<[k := n]> d).
Proof.
  intros [Hd Ho] Hk Hne. split; [by rewrite lookup_insert_ne|].
  intros q Hq. rewrite lookup_insert_ne; [by apply Ho|]. by intros ->.
Qed.

Lemma outside_delete dirs d0 d k :
  outside dirs d0 d → dirs `prefix_of` k → k ≠ dirs → outside dirs d0 (delete k d).
Proof.
  intros [Hd Ho] Hk Hne. split; [by rewrite lookup_delete_ne|].
  intros q Hq. rewrite lookup_delete_ne; [by apply Ho|]. by intros ->.
Qed.

Lemma outside_mkdir dirs d0 d d' k r :
  fs_wf d → dirs ≠ [] → outside dirs d0 d → k = dirs ++ r →
  (∀ q, d' !! q = if decide (between [] q k) then Some NDir else d !! q) → outside dirs d0 d'.
Proof.
  intros Hwf Hne [Hd Ho] -> Hd'. split.
  - rewrite Hd'. by case_decide.
  - intros q Hq. rewrite Hd'. case_decide as Hb; [|by apply Ho].
    destruct Hb as (_ & Hqn & Hqp). rewrite <- Ho by done.
    assert (Hpre : q `prefix_of` dirs).
    { destruct (prefix_weak_total q dirs (dirs ++ r)) as [?|?]; [done|by apply prefix_app_r|done|done]. }
    destruct Hpre as [u Hu].
    assert (Hn : node_at d q = Some NDir).
    { apply (fs_wf_prefix d dirs NDir Hwf) with (r := u); [by destruct dirs|done|].
      intros ->. rewrite app_nil_r in Hu. subst. by destruct Hq. }
    by destruct q.
Qed.

(** Removing the directory restores the tree it was made in. *)
Lemma remove_outside dirs d0 d :
  (∀ q, dirs `prefix_of` q → d0 !! q = None) → outside dirs d0 d →
  filter (λ kn, ¬ (dirs `prefix_of` kn.1)) d = d0.
Proof.
  intros Hfresh [_ Ho]. apply map_eq. intros q. apply option_eq. intros n.
  rewrite map_lookup_filter_Some. cbn. destruct (decide (dirs `prefix_of` q)) as [Hq|Hq].
  - rewrite Hfresh by done. naive_solver.
  - rewrite Ho by done. naive_solver.
Qed.
