(* ===== verification/TestUtils.v ===== *)
(** src/test/utils/utils.go: the helpers of the end-to-end tests, which run
    commands on the machine and edit files of the project. *)
From S2P Require Import Prelude GoStrings GoPath Fs.

Definition newline : ascii := byte_of 10.
Abbreviation nl := (String newline "").
Definition carriage_return : string := String (byte_of 13) "".

(** [strings.Index], with [None] for -1; [strings.Contains]; and
    [strings.ReplaceAll] of a non-empty text. *)
Fixpoint strings_Index (s substr : string) : option nat :=
  if String.prefix substr s then Some 0
  else match s with "" => None | String _ s' => S <$> strings_Index s' substr end.
Definition strings_Contains (s substr : string) : bool := if strings_Index s substr is Some _ then true else false.
Definition strings_ReplaceAll (s old new : string) : string := strings_Join (strings_Split s old) new.

(** ** Commands *)

(** [exec.Cmd] as [exec.Command] makes it. *)
Record Cmd := Command { Args : list string; Dir : string; Env : list string }.
Definition exec_Command (name : string) (arg : list string) : Cmd := Command (name :: arg) "" [].

(** The process and the machine: the calls of packages os and os/exec, and what
    is written to the GinkgoWriter. A call that returns a value and an error can
    return both. *)
Class Machine (W : Type) := {
  os_Getwd : W → string * option error;
  os_Chdir : string → W → option error * W;
  os_Environ : W → list string;
  os_LookupEnv : string → W → option string;
  CombinedOutput : Cmd → W → (string * option error) * W;
  GinkgoWrite : string → W → W
}.

Section commands.
Context {W : Type} `{GoUnicode} `{!Machine W}.
Implicit Types w : W.

Definition warnError (err : error) w : W := GinkgoWrite ("warning: " +:+ Error_text err +:+ nl) w.

Definition GetProjectDir w : string * option error :=
  let '(wd, err) := os_Getwd w in
  match err with
  | Some err => (wd, Some (ErrWrap "failed to get current working directory" err))
  | None => (strings_ReplaceAll wd "/test/e2e" "", None)
  end.

Definition Run (cmd : Cmd) w : (string * option error) * W :=
  let dir := (GetProjectDir w).1 in
  let '(err, w) := os_Chdir dir w in
  let w := match err with
           | Some err => GinkgoWrite ("chdir dir: " +:+ strconv_Quote (Error_text err) +:+ nl) w
           | None => w
           end in
  let cmd := Command (Args cmd) dir (os_Environ w ++ ["GO111MODULE=on"]) in
  let command := strings_Join (Args cmd) " " in
  let w := GinkgoWrite ("running: " +:+ strconv_Quote command +:+ nl) w in
  let '(output, err, w) := CombinedOutput cmd w in
  match err with
  | Some err =>
      (output, Some (ErrWrap (strconv_Quote command +:+ " failed with error " +:+ strconv_Quote output) err), w)
  | None => (output, None, w)
  end.

Definition certmanager_url : string :=
  "https://github.com/cert-manager/cert-manager/releases/download/v1.20.0/cert-manager.yaml".

Definition run_warned (cmd : Cmd) w : W :=
  let '(_, err, w) := Run cmd w in match err with Some err => warnError err w | None => w end.

Definition UninstallCertManager w : W :=
  let w := run_warned (exec_Command "kubectl" ["delete"; "-f"; certmanager_url]) w in
  fold_left (λ w lease,
      run_warned (exec_Command "kubectl" ["delete"; "lease"; lease; "-n"; "kube-system"; "--ignore-not-found";
        "--force"; "--grace-period=0"]) w)
    ["cert-manager-cainjector-leader-election"; "cert-manager-controller"] w.

Definition InstallCertManager w : option error * W :=
  let '(_, err, w) := Run (exec_Command "kubectl" ["apply"; "-f"; certmanager_url]) w in
  match err with
  | Some err => (Some err, w)
  | None =>
      let '(_, err, w) := Run (exec_Command "kubectl" ["wait"; "deployment.apps/cert-manager-webhook";
        "--for"; "condition=Available"; "--namespace"; "cert-manager"; "--timeout"; "5m"]) w in (err, w)
  end.

Definition LoadImageToKindClusterWithName (name : string) w : option error * W :=
  let cluster := default "kind" (os_LookupEnv "KIND_CLUSTER" w) in
  let kindOptions := ["load"; "docker-image"; name; "--name"; cluster] in
  let kindBinary := default "kind" (os_LookupEnv "KIND" w) in
  let '(_, err, w) := Run (exec_Command kindBinary kindOptions) w in (err, w).

Definition GetNonEmptyLines (output : string) : list string :=
  filter (λ element, element ≠ "") (strings_Split output nl).

Definition certManagerCRDs : list string :=
  ["certificates.cert-manager.io"; "issuers.cert-manager.io"; "clusterissuers.cert-manager.io";
   "certificaterequests.cert-manager.io"; "orders.acme.cert-manager.io"; "challenges.acme.cert-manager.io"].

Definition IsCertManagerCRDsInstalled w : bool * W :=
  let '(output, err, w) := Run (exec_Command "kubectl" ["get"; "crds"]) w in
  match err with
  | Some _ => (false, w)
  | None =>
      let crdList := GetNonEmptyLines output in
      (existsb (λ crd, existsb (λ line, strings_Contains line crd) crdList) certManagerCRDs, w)
  end.
End commands.

(** ** Uncommenting code *)

(** [bufio.Scanner] over a text with [ScanLines]: the lines without their line
    ends, until the end or the first line that does not fit the buffer of
    [MaxScanTokenSize] bytes, where [Scan] returns false as it does at the end. *)
Definition MaxScanTokenSize : Z := 65536.
Definition fits (line : string) : bool := (Z.of_nat (String.length line) <? MaxScanTokenSize)%Z.
Definition dropCR (line : string) : string := strings_TrimSuffix line carriage_return.
Fixpoint scan_tokens (lines : list string) : list string :=
  match lines with
  | [] => []
  | [""] => []
  | line :: lines => if fits line then dropCR line :: scan_tokens lines else []
  end.
Definition Scanner_lines (text : string) : list string := scan_tokens (strings_Split text nl).

(** The loop over the scanner: a line, and a newline when another one follows. *)
Fixpoint uncomment_loop (prefix out line : string) (more : list string) : string :=
  let out := out +:+ strings_TrimPrefix line prefix in
  match more with
  | [] => out
  | line' :: more => uncomment_loop prefix (out +:+ nl) line' more
  end.

Section files.
Context `{OsFaults} `{GoUnicode}.

Definition os_ReadFile (d : fs) (p : string) : result string :=
  match os_fault "open" p with
  | Some e => Failed (path_error "open" p e)
  | None => match resolve d [] (fs_key p) with
            | inl (NFile data) => Ok data
            | inl NDir => Failed (path_error "read" p EISDIR)
            | inr e => Failed (path_error "open" p e)
            end
  end.

Definition UncommentCode (d : fs) (filename target prefix : string) : result unit * fs :=
  match os_ReadFile d filename with
  | Failed err => (Failed (ErrWrap ("failed to read file " +:+ strconv_Quote filename) err), d)
  | Ok content =>
      match strings_Index content target with
      | None =>
          (Failed (Err ("unable to find the code " +:+ strconv_Quote target +:+ " to be uncommented")), d)
      | Some idx =>
          let out := str_take idx content in
          match Scanner_lines target with
          | [] => (Ok tt, d)
          | line :: more =>
              let out := uncomment_loop prefix out line more +:+ str_drop (idx + String.length target) content in
              match os_WriteFile d filename out with
              | Failed err => (Failed (ErrWrap ("failed to write file " +:+ strconv_Quote filename) err), d)
              | Ok d' => (Ok tt, d')
              end
          end
      end
  end.
End files.

(** ** Searching *)

Lemma Index_spec s x i :
  strings_Index s x = Some i → ∃ a b, s = a +:+ x +:+ b ∧ String.length a = i.
Proof.
  revert i. induction s as [|c s IH]; intros i; cbn [strings_Index].
  - destruct (String.prefix x "") eqn:Hp; [|done]. intros [= <-]. apply HasPrefix_spec in Hp as [b Hb]. by exists "", b.
  - destruct (String.prefix x (String c s)) eqn:Hp.
    + intros [= <-]. apply HasPrefix_spec in Hp as [b Hb]. by exists "", b.
    + destruct (strings_Index s x) as [j|]; [|done]. intros [= <-].
      destruct (IH j eq_refl) as (a & b & -> & <-). by exists (String c a), b.
Qed.

Lemma Contains_spec s x : strings_Contains s x = true ↔ ∃ a b, s = a +:+ x +:+ b.
Proof.
  unfold strings_Contains. split.
  - destruct (strings_Index s x) eqn:Hi; [|done]. intros _. apply Index_spec in Hi as (a & b & Hs & _). by exists a, b.
  - intros (a & b & ->). induction a as [|c a IH].
    + pose proof (HasPrefix_app x b) as Hp. unfold strings_HasPrefix in Hp. rewrite sapp_nil_l.
      by destruct (x +:+ b); cbn [strings_Index]; rewrite Hp.
    + rewrite sapp_cons. cbn [strings_Index]. destruct (String.prefix _ _); [done|].
      by destruct (strings_Index (a +:+ x +:+ b) x).
Qed.

(** A text without a newline is in a text if it is in one of its lines. *)
Lemma join_elem l1 l l2 : ∃ a b, strings_Join (l1 ++ l :: l2) nl = a +:+ l +:+ b.
Proof.
  induction l1 as [|y l1 (a & b & IH)].
  - exists "". destruct l2 as [|z l2]; [exists ""; cbn; by rewrite sapp_nil_r|]. by exists (nl +:+ strings_Join (z :: l2) nl).
  - exists (y +:+ nl +:+ a), b. assert (Hj : strings_Join (y :: l1 ++ l :: l2) nl = y +:+ nl +:+ strings_Join (l1 ++ l :: l2) nl).
    { by destruct l1. }
    cbn [app]. by rewrite Hj, IH, !sapp_assoc.
Qed.

Lemma prefix_line x s :
  no_char newline x = true → strings_HasPrefix s x = true →
  ∃ l, l ∈ strings_Split s nl ∧ strings_HasPrefix l x = true.
Proof.
  intros Hx (r & ->)%HasPrefix_spec. pose proof (join_split newline r) as Hr.
  destruct (strings_Split r nl) as [|l ls] eqn:Hs; [by destruct (split_not_nil newline r)|].
  exists (x +:+ l). split; [|apply HasPrefix_app].
  enough (Hxr : strings_Split (x +:+ r) nl = (x +:+ l) :: ls) by (rewrite Hxr; left).
  clear Hr. induction x as [|c x IH]; [by rewrite !sapp_nil_l|]. apply andb_true_iff in Hx as [Hc Hx].
  rewrite !sapp_cons, split_cons, IH by done. apply negb_true_iff, bool_decide_eq_false in Hc. by rewrite decide_False.
Qed.

Lemma Contains_line s x :
  no_char newline x = true → strings_Contains s x = true ↔ ∃ l, l ∈ strings_Split s nl ∧ strings_Contains l x = true.
Proof.
  intros Hx. rewrite Contains_spec. split.
  - intros (a & b & ->). induction a as [|c a (l & Hl & Hc)].
    + destruct (prefix_line x (x +:+ b) Hx (HasPrefix_app _ _)) as (l & Hl & (r & ->)%HasPrefix_spec).
      exists (x +:+ r). split; [by rewrite sapp_nil_l|]. apply Contains_spec. by exists "", r.
    + rewrite sapp_cons, split_cons. case_decide; [exists l; split; [by right|done]|].
      destruct (strings_Split _ nl) as [|y ys]; [by apply elem_of_nil in Hl|]. apply elem_of_cons in Hl as [->|Hl].
      * exists (String c y). split; [left|]. apply Contains_spec in Hc as (a' & b' & ->). apply Contains_spec.
        by exists (String c a'), b'.
      * exists l. split; [by right|done].
  - intros (l & (l1 & l2 & Hs)%list_elem_of_split & (a & b & ->)%Contains_spec).
    destruct (join_elem l1 (a +:+ x +:+ b) l2) as (a' & b' & Hj). rewrite <- Hs, (join_split newline s) in Hj.
    exists (a' +:+ a), (b +:+ b'). by rewrite Hj, !sapp_assoc.
Qed.

Lemma crd_line crd : crd ∈ certManagerCRDs → no_char newline crd = true ∧ crd ≠ "".
Proof.
  intros Hin. repeat (apply elem_of_cons in Hin as [->|Hin]; [split; [by_vm|discriminate]|]).
  by apply elem_of_nil in Hin.
Qed.

Section crds.
Context {W : Type} `{GoUnicode} `{!Machine W}.

(** Cert-manager is taken as installed if and only if [kubectl get crds]
    succeeds and the name of one of the six definitions occurs anywhere in its
    output - as the name of another definition that ends in it does; the scan line
    by line is the search in the whole output. *)
Theorem IsCertManagerCRDsInstalled_spec (w : W) :
  (IsCertManagerCRDsInstalled w).1 = true ↔
  (Run (exec_Command "kubectl" ["get"; "crds"]) w).1.2 = None ∧
  ∃ crd, crd ∈ certManagerCRDs ∧
    strings_Contains (Run (exec_Command "kubectl" ["get"; "crds"]) w).1.1 crd = true.
Proof.
  unfold IsCertManagerCRDsInstalled. destruct (Run _ w) as [[output [err|]] w']; cbn [fst snd]; [naive_solver|].
  rewrite existsb_exists. split.
  - intros (crd & Hin%list_elem_of_In & (line & Hl%list_elem_of_In & Hc)%existsb_exists). split; [done|]. exists crd.
    split; [done|]. apply list_elem_of_filter in Hl as [_ Hl].
    apply Contains_line; [by apply crd_line|by exists line].
  - intros (_ & crd & Hin & Hc). exists crd. split; [by apply list_elem_of_In|]. apply existsb_exists.
    destruct (crd_line crd Hin) as [Hno Hne]. apply (Contains_line _ _ Hno) in Hc as (line & Hl & Hc). exists line. split; [|done].
    apply list_elem_of_In, list_elem_of_filter. split; [|done]. intros ->. by destruct crd.
Qed.
End crds.

(** ** Scanning lines *)

Definition line_ok (l : string) : Prop :=
  no_char newline l = true ∧ strings_HasSuffix l carriage_return = false ∧ fits l = true.

(** A good line is scanned as it is when it is not the empty end of the text. *)
Lemma scan_line l more :
  line_ok l → l ≠ "" ∨ more ≠ [] → scan_tokens (l :: more) = l :: scan_tokens more.
Proof.
  intros (_ & Hcr & Hfit) Hl. cbn [scan_tokens]. unfold dropCR. rewrite Hfit, (TrimSuffix_other _ _ Hcr).
  destruct l; [|done]. destruct more; [|done]. by destruct Hl.
Qed.

Lemma scan_lines ls more :
  Forall line_ok ls → more ≠ [] → scan_tokens (ls ++ more) = ls ++ scan_tokens more.
Proof.
  intros Hls Hmore. induction Hls as [|l ls Hl _ IH]; [done|]. cbn [app]. rewrite scan_line, IH; [done|done|].
  right. by destruct ls.
Qed.

Lemma uncomment_loop_join prefix out l more :
  uncomment_loop prefix out l more =
  out +:+ strings_Join (map (λ x, strings_TrimPrefix x prefix) (l :: more)) nl.
Proof.
  revert out l. induction more as [|l' more IH]; intros out l; [done|].
  cbn [uncomment_loop]. rewrite IH. cbn [map]. by rewrite !sapp_assoc.
Qed.

(** A comment: the prefix before every line. *)
Definition commented (prefix : string) (lines : list string) : list string := map (λ l, prefix +:+ l) lines.
Lemma uncommented prefix lines :
  map (λ x, strings_TrimPrefix x prefix) (commented prefix lines) = lines.
Proof.
  unfold commented. rewrite map_map. rewrite <- (map_id lines) at 2. apply map_ext. intros l. apply TrimPrefix_app.
Qed.

Section uncomment.
Context `{OsFaults} `{GoUnicode}.
Context (d : fs) (filename : string).
Context (Hno : ∀ op, os_fault op filename = None) (Hwf : fs_wf d).

Lemma file_written c data :
  node_at d (fs_key filename) = Some (NFile c) → os_WriteFile d filename data = Ok (<[fs_key filename := NFile data]> d).
Proof.
  intros Hc. unfold os_WriteFile, write_file. rewrite Hno.
  destruct (exists_last (l := fs_key filename)) as (p & e & Hk); [by intros Hk; rewrite Hk in Hc|].
  rewrite Hk in *. unfold parent. rewrite removelast_snoc. rewrite node_at_snoc in *.
  rewrite (resolve_wf d p NDir Hwf); [by rewrite Hc|]. by eapply Hwf.
Qed.

(** What is written when the scanner stops after the lines [ls]. *)
Lemma uncomment_scanned pre target post prefix ls :
  node_at d (fs_key filename) = Some (NFile (pre +:+ target +:+ post)) →
  strings_Index (pre +:+ target +:+ post) target = Some (String.length pre) →
  ls ≠ [] → Scanner_lines target = commented prefix ls →
  UncommentCode d filename target prefix =
  (Ok tt, <[fs_key filename := NFile (pre +:+ strings_Join ls nl +:+ post)]> d).
Proof.
  intros Hc Hi Hls Hscan. unfold UncommentCode, os_ReadFile. rewrite Hno, (resolve_wf _ _ _ Hwf Hc), Hi, Hscan.
  destruct ls as [|l ls]; [done|]. cbn [commented map]. rewrite uncomment_loop_join.
  change (?p :: map (λ x, prefix +:+ x) ls) with (commented prefix (l :: ls)). rewrite uncommented.
  rewrite str_take_app, <- (sapp_assoc pre target post), <- slen_app, str_drop_app, (file_written _ _ Hc).
  by rewrite sapp_assoc.
Qed.

(** A commented block is uncommented. When the first occurrence of the target
    in the file is the lines of a block with the prefix before each of them, the
    file has afterwards the lines without it in the same place, with the rest of
    the file, and every other file, as before. *)
Theorem UncommentCode_uncomments pre post prefix lines :
  let target := strings_Join (commented prefix lines) nl in
  node_at d (fs_key filename) = Some (NFile (pre +:+ target +:+ post)) →
  strings_Index (pre +:+ target +:+ post) target = Some (String.length pre) →
  lines ≠ [] → Forall line_ok (commented prefix lines) → last (commented prefix lines) ≠ Some "" →
  UncommentCode d filename target prefix =
  (Ok tt, <[fs_key filename := NFile (pre +:+ strings_Join lines nl +:+ post)]> d).
Proof.
  intros target Hc Hi Hls Hok Hlast. apply uncomment_scanned; [done|done|done|].
  assert (Hne : commented prefix lines ≠ []) by by destruct lines.
  unfold Scanner_lines, target. rewrite (split_join newline); [|done|by eapply Forall_impl; [exact Hok|intros ? (? & _)]].
  destruct (exists_last Hne) as (ls & l & Heq). rewrite Heq in *. rewrite last_snoc in Hlast.
  apply Forall_app in Hok as [Hok [Hl _]%Forall_cons].
  rewrite scan_lines by done. rewrite scan_line; [done|done|]. left. congruence.
Qed.

(** A line of 64 KiB or more in the target ends it. Such a line does not fit
    the scanner, whose error is not looked at: when it is the first line nothing
    is written, and otherwise it is deleted from the file with every line of the
    target after it; both times the function reports success. *)
Theorem UncommentCode_loses_long_lines pre post prefix lines long more :
  let target := strings_Join (commented prefix lines ++ long :: more) nl in
  node_at d (fs_key filename) = Some (NFile (pre +:+ target +:+ post)) →
  strings_Index (pre +:+ target +:+ post) target = Some (String.length pre) →
  Forall line_ok (commented prefix lines) → fits long = false →
  Forall (λ l, no_char newline l = true) (long :: more) →
  UncommentCode d filename target prefix =
  (Ok tt, match lines with
          | [] => d
          | _ => <[fs_key filename := NFile (pre +:+ strings_Join lines nl +:+ post)]> d
          end).
Proof.
  intros target Hc Hi Hok Hlong Hmore.
  assert (Hscan : Scanner_lines target = commented prefix lines).
  { unfold Scanner_lines, target. rewrite (split_join newline); [|by destruct lines|].
    - rewrite scan_lines by done. cbn [scan_tokens]. rewrite Hlong.
      destruct long; [discriminate Hlong|]. apply app_nil_r.
    - apply Forall_app. split; [|done]. by eapply Forall_impl; [exact Hok|intros ? (? & _)]. }
  destruct lines as [|l ls]; [|by apply uncomment_scanned].
  unfold UncommentCode, os_ReadFile. by rewrite Hno, (resolve_wf _ _ _ Hwf Hc), Hi, Hscan.
Qed.
End uncomment.

(** ** Witnesses: a kustomization with two resources in comments *)

Module Sample.
#[local] Existing Instances no_faults ascii_tables.

Definition lines : list string := ["- ../webhook"; "- ../certmanager"].
Definition text (block : list string) : string := "resources:" +:+ nl +:+ strings_Join block nl +:+ nl +:+ "- ../rbac".
Definition disk (block : list string) : fs := {[ ["p"] := NDir; ["p"; "k.yaml"] := NFile (text block) ]}.

Lemma disk_wf block : fs_wf (disk block).
Proof.
  intros k e n Hn. unfold disk in Hn. apply lookup_insert_Some in Hn as [[Hk _]|[_ [Hk _]%lookup_singleton_Some]].
  - by apply (app_inj_tail [] k "p" e) in Hk as [<- _].
  - apply (app_inj_tail ["p"] k "k.yaml" e) in Hk as [<- _]. cbn. apply lookup_insert_eq.
Qed.
Lemma k_no_fault op : os_fault op "/p/k.yaml" = None.
Proof. reflexivity. Qed.
Lemma disk_file block : node_at (disk block) ["p"; "k.yaml"] = Some (NFile (text block)).
Proof. cbn. unfold disk. rewrite lookup_insert_ne by discriminate. apply lookup_singleton_eq. Qed.
Lemma disk_update block block' :
  <[ ["p"; "k.yaml"] := NFile (text block') ]> (disk block) = disk block'.
Proof. unfold disk. rewrite insert_insert_ne by discriminate. by rewrite insert_singleton_eq. Qed.

Lemma UncommentCode_uncomments_witness :
  UncommentCode (disk (commented "#" lines)) "/p/k.yaml" (strings_Join (commented "#" lines) nl) "#" =
  (Ok tt, disk lines).
Proof.
  rewrite <- (disk_update (commented "#" lines) lines).
  apply (UncommentCode_uncomments (disk (commented "#" lines)) "/p/k.yaml" k_no_fault (disk_wf _)
    ("resources:" +:+ nl) (nl +:+ "- ../rbac") "#" lines).
  - exact (disk_file (commented "#" lines)).
  - by_vm.
  - discriminate.
  - repeat constructor.
  - discriminate.
Defined.

(** 2^n times the text. *)
Fixpoint doubled (n : nat) (s : string) : string := match n with 0 => s | S n => doubled n (s +:+ s) end.
Definition long : string := "#" +:+ doubled 16 "-".
Definition block : list string := commented "#" ["- ../webhook"] ++ [long; "#- ../certmanager"].

(** The long line and the one after it are gone. *)
Lemma UncommentCode_loses_long_lines_witness :
  UncommentCode (disk block) "/p/k.yaml" (strings_Join block nl) "#" = (Ok tt, disk ["- ../webhook"]).
Proof.
  rewrite <- (disk_update block ["- ../webhook"]).
  apply (UncommentCode_loses_long_lines (disk block) "/p/k.yaml" k_no_fault (disk_wf _)
    ("resources:" +:+ nl) (nl +:+ "- ../rbac") "#" ["- ../webhook"] long ["#- ../certmanager"]).
  - exact (disk_file block).
  - by_vm.
  - repeat constructor.
  - by_vm.
  - constructor; [by_vm|]. repeat constructor.
Defined.
End Sample.
