(* ===== verification/BatchWorker.v ===== *)
(** internal/git/worker.go: the batch worker. Its queue is a map of pending
    exports; [exportBatch] works in a fresh clone. go-git is the class [GoGit],
    the naming of temporary directories the class [TempDirs]. *)
From S2P Require Import Prelude GoStrings GoPath Config ExportPath InventoryPath ArchivePath GitBatch Fs.

(** ** go-git *)

Record BasicAuth := Basic { Username : string; Password : string }.

Record CloneOptions := CloneOpts {
  URL : string; Depth : Z; SingleBranch : bool; ReferenceName : string; Auth : option BasicAuth }.

Record Signature := Author { AuthorName : string; AuthorEmail : string }.

Abbreviation files := (gmap (list string) string).

(** The remote repository, a local one, and the calls of the worker: a clone
    yields the checked out tree, the others look at the files of the work tree. *)
Class GoGit := {
  remote : Type;
  repo : Type;
  NewBranchReferenceName : string → string;
  git_PlainClone : remote → CloneOptions → result (repo * fs);
  git_PlainOpen : repo → result repo;
  repo_Worktree : repo → result repo;
  wt_AddAll : repo → files → result repo;
  wt_IsClean : repo → files → result bool;
  wt_CommitAll : repo → files → string → Signature → result repo;
  repo_Push : remote → repo → option BasicAuth → result unit * remote
}.

(** [os.MkdirTemp("", "accord-inventory-git-")]: the name of a new directory. *)
Class TempDirs := { os_MkdirTemp : fs → result string }.

(** ** The queue *)

(** The worker's configuration and its pending map. *)
Definition NewBatchWorker (cfg : InventoryControllerConfig) : InventoryControllerConfig * batch := (cfg, ∅).

Definition set_pending (p : batch) (rel : string) (op : pendingExport) : batch := <[rel := op]> p.

Definition Enqueue (pending : batch) (job : ExportJob) : batch :=
  set_pending pending (Path job) (Pending opWrite (Content job)).

Definition EnqueueArchive (pending : batch) (relPath : string) : batch :=
  set_pending pending relPath (Pending opArchive "").

Definition NeedLeaderElection : bool := true.

Section worker.
Context `{GoUnicode} `{OsFaults} `{TempDirs} `{GoGit}.
Implicit Types cfg : InventoryControllerConfig.

Definition auth cfg : option BasicAuth :=
  if decide (GitAccessToken cfg = "") then None
  else Some (Basic (if decide (GitUsername cfg = "") then "git" else GitUsername cfg)
                   (GitAccessToken cfg)).

(** ** One operation in the clone at [repoRoot] *)

Definition archiveInventoryFileInClone (disk : fs) (repoRoot inventoryRel : string) : result fs :=
  destRel ← ArchiveRelativePath inventoryRel;
  let src := filepath_Join repoRoot (filepath_FromSlash inventoryRel) in
  let dest := filepath_Join repoRoot (filepath_FromSlash destRel) in
  match os_Stat disk src with
  | inr e => if IsNotExist e then Ok disk else Failed (path_error "stat" src e)
  | inl NDir => Failed (Err ("expected file at " +:+ strconv_Quote inventoryRel +:+ ", got directory"))
  | inl (NFile _) =>
      disk ← wrap_err ("mkdir archive for " +:+ strconv_Quote destRel)
               (os_MkdirAll disk (filepath_Dir dest));
      let disk := match os_Remove disk dest with inl disk' => disk' | inr _ => disk end in
      wrap_err ("rename " +:+ strconv_Quote src +:+ " -> " +:+ strconv_Quote dest)
        (os_Rename disk src dest)
  end.

Definition apply_op (dir : string) (disk : fs) (rel : string) (op : pendingExport) : result fs :=
  match kind op with
  | opWrite =>
      let full := filepath_Join dir (filepath_FromSlash rel) in
      disk ← wrap_err ("mkdir for " +:+ strconv_Quote rel) (os_MkdirAll disk (filepath_Dir full));
      wrap_err ("write export file " +:+ strconv_Quote rel) (os_WriteFile disk full (content op))
  | opArchive =>
      wrap_err ("archive export file " +:+ strconv_Quote rel)
        (archiveInventoryFileInClone disk dir rel)
  end.

(** The range over the batch, in the order the map yields; the first error ends
    it, with the tree as it is then. *)
Fixpoint apply_ops (dir : string) (disk : fs) (order : list (string * pendingExport))
    : result unit * fs :=
  match order with
  | [] => (Ok tt, disk)
  | (rel, op) :: order' =>
      match apply_op dir disk rel op with
      | Ok disk' => apply_ops dir disk' order'
      | Failed e => (Failed e, disk)
      end
  end.

(** From the work tree to the remote: add, status, commit and push. [r] is the
    remote at the time of the push. *)
Definition commit_and_push cfg (b : batch) (rp : repo) (work : files) (r : remote)
    : result unit * remote :=
  let committed :=
    rp ← wrap_err "git open" (git_PlainOpen rp);
    wt ← wrap_err "git worktree" (repo_Worktree rp);
    wt ← wrap_err "git add" (wt_AddAll wt work);
    clean ← wrap_err "git status" (wt_IsClean wt work);
    if clean : bool then Ok None
    else
      let paths := sortedKeysBatch b in
      let '(subject, body) := commitMessageForBatch b paths in
      rp ← wrap_err "git commit" (wt_CommitAll wt work (fullMsg subject body)
             (Author "accord-inventory" "accord@local"));
      Ok (Some rp) in
  match committed with
  | Failed e => (Failed e, r)
  | Ok None => (Ok tt, r)
  | Ok (Some rp) =>
      let '(res, r') := repo_Push r rp (auth cfg) in (wrap_err "git push" res, r')
  end.

(** The work tree below the clone. *)
Definition work_files (disk : fs) (dir : string) : files := tree_files (subtree (fs_key dir) disk).

Definition export_in (dir : string) cfg (disk : fs) (r0 r1 : remote) (b : batch)
    (order : list (string * pendingExport)) : result unit * fs * remote :=
  let branch := if decide (GitBranch cfg = "") then "main" else GitBranch cfg in
  let cloneOpts := CloneOpts (GitRepoURL cfg) 1 true (NewBranchReferenceName branch) (auth cfg) in
  match git_PlainClone r0 cloneOpts with
  | Failed e => (Failed (ErrWrap "git clone" e), disk, r1)
  | Ok (rp, tree) =>
      let disk := place (fs_key dir) tree disk in
      match apply_ops dir disk order with
      | (Failed e, disk) => (Failed e, disk, r1)
      | (Ok _, disk) =>
          let '(res, r2) := commit_and_push cfg b rp (work_files disk dir) r1 in (res, disk, r2)
      end
  end.

(** [exportBatch]: the clone sees the remote [r0], the push meets [r1]; the
    temporary directory is removed on every return. *)
Definition exportBatch cfg (disk : fs) (r0 r1 : remote) (b : batch)
    (order : list (string * pendingExport)) : result unit * fs * remote :=
  match os_MkdirTemp disk with
  | Failed e => (Failed (ErrWrap "create temp dir" e), disk, r1)
  | Ok dir =>
      let '(res, disk', r2) := export_in dir cfg (<[fs_key dir := NDir]> disk) r0 r1 b order in
      (res, os_RemoveAll disk' dir, r2)
  end.

(** ** flush, in its three parts: what happens under the lock before and after
    the export, and the export in between *)

Definition flush_take (pending : batch) : option (batch * batch) :=
  if decide (pending = ∅) then None else Some (pending, ∅).

Definition flush_export cfg (disk : fs) (r0 r1 : remote) (b : batch)
    (order : list (string * pendingExport)) : result unit * fs * remote :=
  if decide (strings_TrimSpace (GitRepoURL cfg) = "") then (Ok tt, disk, r1)
  else exportBatch cfg disk r0 r1 b order.

Definition flush_finish (pending b : batch) (res : result unit) : batch :=
  match res with
  | Ok _ => pending
  | Failed _ => map_fold (λ p c acc, <[p := c]> acc) pending b
  end.

(** A whole flush, with the queue operations other goroutines perform while the
    export runs. *)
Definition flush cfg (disk : fs) (r0 r1 : remote) (pending : batch)
    (order : batch → list (string * pendingExport)) (during : batch → batch)
    : batch * fs * remote :=
  match flush_take pending with
  | None => (during pending, disk, r1)
  | Some (b, pending) =>
      let '(res, disk', r2) := flush_export cfg disk r0 r1 b (order b) in
      (flush_finish (during pending) b res, disk', r2)
  end.

(** [Start]: [time.NewTicker] panics on an interval that is not positive;
    otherwise every tick flushes, until the context is done. *)
Inductive wake := Done | Tick.

Fixpoint run_ticks (tick : batch * fs * remote → batch * fs * remote)
    (s : batch * fs * remote) (wakes : list wake) : batch * fs * remote :=
  match wakes with
  | Tick :: wakes' => run_ticks tick (tick s) wakes'
  | _ => s
  end.

Definition Start cfg (tick : batch * fs * remote → batch * fs * remote)
    (s : batch * fs * remote) (wakes : list wake) : option (batch * fs * remote) :=
  if (BatchInterval cfg <=? 0)%Z then None else Some (run_ticks tick s wakes).
End worker.
