(* ===== verification/BatchWorkerFacts.v ===== *)
(** The operations of a batch on the clone: when nothing is in the way they
    succeed, in every order, and publish exactly the batch. *)
From S2P Require Import Prelude GoStrings GoPath Config ExportPath InventoryPath ArchivePath GitBatch Fs BatchWorker.

(** ** Paths of a batch *)

(** A path the inventory-controller exports an object to. *)
Definition inventory_rel (rel : string) : Prop :=
  ∃ plural ns name, export_plural plural ∧ plain_elem ns = true ∧
    no_char slash_char name = true ∧ rel = export_path plural ns name.

Definition live_key (rel : string) : key := strings_Split rel slash.
Definition archive_key (rel : string) : key := "inventory" :: "archive" :: tail (live_key rel).

Lemma live_key_export plural ns name :
  plain_elem plural = true → plain_elem ns = true → no_char slash_char name = true →
  live_key (export_path plural ns name) = ["inventory"; plural; ns; name +:+ ".yaml"] ∧
  plain ["inventory"; plural; ns; name +:+ ".yaml"].
Proof.
  intros Hp Hns Hn.
  assert (Hplain : plain ["inventory"; plural; ns; name +:+ ".yaml"]).
  { repeat constructor; try done. by apply plain_elem_file. }
  split; [|done]. unfold live_key.
  change (export_path plural ns name)
    with (strings_Join ["inventory"; plural; ns; name +:+ ".yaml"] slash).
  by apply split_join_plain.
Qed.

Lemma live_key_inv rel :
  inventory_rel rel → ∃ plural ns file, export_plural plural ∧
    live_key rel = ["inventory"; plural; ns; file] ∧ plain ["inventory"; plural; ns; file] ∧
    archive_key rel = ["inventory"; "archive"; plural; ns; file] ∧
    plain ["inventory"; "archive"; plural; ns; file] ∧
    rel = strings_Join (live_key rel) slash ∧
    strings_HasPrefix rel "inventory/" = true ∧
    "inventory/archive/" +:+ strings_TrimPrefix rel "inventory/" = strings_Join (archive_key rel) slash.
Proof.
  intros (plural & ns & name & Hpl & Hns & Hn & ->).
  destruct (live_key_export plural ns name) as [Hk Hp]; [by destruct Hpl as [-> | ->]|done|done|].
  exists plural, ns, (name +:+ ".yaml"). unfold archive_key. rewrite Hk. split; [done|].
  split; [done|]. split; [done|]. split; [done|]. split; [|split; [|split]].
  - unfold plain in *. rewrite !Forall_cons in *. naive_solver.
  - unfold export_path. cbn [strings_Join]. done.
  - apply HasPrefix_app.
  - unfold export_path. by rewrite TrimPrefix_app.
Qed.

Lemma live_key_inj rel rel' : live_key rel = live_key rel' → rel = rel'.
Proof.
  unfold live_key. intros Heq. rewrite <- (join_split slash_char rel), <- (join_split slash_char rel').
  fold slash. by rewrite Heq.
Qed.

Lemma archive_key_inj rel rel' :
  inventory_rel rel → inventory_rel rel' → archive_key rel = archive_key rel' → rel = rel'.
Proof.
  intros (p & n & f & _ & H1 & _ & H2 & _)%live_key_inv (p' & n' & f' & _ & H1' & _ & H2' & _)%live_key_inv Heq.
  apply live_key_inj. rewrite H1, H1'. rewrite H2, H2' in Heq. congruence.
Qed.

Lemma live_not_archive rel rel' :
  inventory_rel rel → inventory_rel rel' → live_key rel ≠ archive_key rel'.
Proof.
  intros (p & n & f & _ & H1 & _)%live_key_inv (p' & n' & f' & _ & _ & _ & H2' & _)%live_key_inv.
  by rewrite H1, H2'.
Qed.

Lemma archive_not_live rel rel' :
  inventory_rel rel → inventory_rel rel' → archive_key rel ≠ live_key rel'.
Proof. intros Hr Hr' Heq. symmetry in Heq. revert Heq. by apply live_not_archive. Qed.

(** The keys the operations on the paths of [R] may touch, below [dirs]. *)
Definition op_keys (dirs : key) (R : string → Prop) (k : key) : Prop :=
  ∃ rel, R rel ∧ (k = dirs ++ live_key rel ∨ k = dirs ++ archive_key rel).

Section keys.
Context (dirs : key) (R : string → Prop) (HR : ∀ rel, R rel → inventory_rel rel).

Lemma op_keys_antichain : antichain (op_keys dirs R).
Proof.
  intros k q r (rel & Hr & Hk) (rel' & Hr' & Hq) Heq.
  apply HR, live_key_inv in Hr as (p & n & f & Hp & H1 & _ & H2 & _).
  apply HR, live_key_inv in Hr' as (p' & n' & f' & Hp' & H1' & _ & H2' & _).
  rewrite H1, H2 in Hk. rewrite H1', H2' in Hq.
  destruct Hk as [-> | ->], Hq as [-> | ->]; rewrite <- app_assoc in Heq;
    apply app_inv_head in Heq; try (by injection Heq); try (by destruct r).
  injection Heq as Ha _. destruct Hp' as [-> | ->]; discriminate Ha.
Qed.

Lemma op_keys_nil : ¬ op_keys dirs R [].
Proof. intros (rel & Hr & [H|H]); symmetry in H; apply app_eq_nil in H as [_ H]; [|done].
  apply HR, live_key_inv in Hr as (p & n & f & _ & H1 & _). by rewrite H1 in H. Qed.
End keys.

(** ** One operation *)

(** What an operation does to the files below [dirs]. *)
Definition op_effect (dirs : key) (rel : string) (op : pendingExport) (f : key → option string)
    (q : key) : option string :=
  let live := dirs ++ live_key rel in
  let arch := dirs ++ archive_key rel in
  match kind op with
  | opWrite => if decide (q = live) then Some (content op) else f q
  | opArchive =>
      match f live with
      | None => f q
      | Some c => if decide (q = arch) then Some c else if decide (q = live) then None else f q
      end
  end.

Section ops.
Context `{GoUnicode} `{OsFaults} (no_fault : ∀ op p, os_fault op p = None).
Context (dirs : key) (Hdirs : dirs ≠ []) (Hplain : plain dirs).
Context (R : string → Prop) (HR : ∀ rel, R rel → inventory_rel rel).
Abbreviation K := (op_keys dirs R).

Lemma live_full rel : R rel →
  filepath_Join (abs dirs) (filepath_FromSlash rel) = abs (dirs ++ live_key rel) ∧
  fs_key (abs (dirs ++ live_key rel)) = dirs ++ live_key rel ∧
  fs_key (filepath_Dir (abs (dirs ++ live_key rel))) = parent (dirs ++ live_key rel).
Proof.
  intros Hr. apply HR, live_key_inv in Hr as (p & n & f & _ & H1 & H2 & _ & _ & Hrel & _).
  unfold filepath_FromSlash. rewrite Hrel at 1. rewrite H1 in *. split; [by apply filepath_Join_abs|].
  assert (Hp : plain (dirs ++ ["inventory"; p; n; f])) by by apply Forall_app.
  split; [apply fs_key_abs; [by destruct dirs|done]|].
  change (["inventory"; p; n; f]) with (["inventory"; p; n] ++ [f]) in *.
  rewrite app_assoc in *. apply plain_snoc in Hp as [Hp1 Hp2].
  assert (Hne : dirs ++ ["inventory"; p; n] ≠ []) by by destruct dirs.
  rewrite filepath_Dir_abs, fs_key_abs by done. unfold parent. by rewrite removelast_snoc.
Qed.

Lemma archive_full rel : R rel →
  ∃ dest, ArchiveRelativePath rel = Ok dest ∧
  filepath_Join (abs dirs) (filepath_FromSlash dest) = abs (dirs ++ archive_key rel) ∧
  fs_key (abs (dirs ++ archive_key rel)) = dirs ++ archive_key rel ∧
  fs_key (filepath_Dir (abs (dirs ++ archive_key rel))) = parent (dirs ++ archive_key rel).
Proof.
  intros Hr. apply HR, live_key_inv in Hr as (p & n & f & _ & H1 & _ & H2 & H3 & _ & Hpre & Htrim).
  eexists. unfold ArchiveRelativePath, inventoryPrefix. rewrite Hpre. cbn [negb]. cbv iota.
  split; [done|]. unfold filepath_FromSlash.
  change ("inventory/" +:+ "archive/" +:+ strings_TrimPrefix rel "inventory/")
    with ("inventory/archive/" +:+ strings_TrimPrefix rel "inventory/").
  rewrite Htrim, H2 in *. split; [by apply filepath_Join_abs|].
  assert (Hp : plain (dirs ++ ["inventory"; "archive"; p; n; f])) by by apply Forall_app.
  split; [apply fs_key_abs; [by destruct dirs|done]|].
  change (["inventory"; "archive"; p; n; f]) with (["inventory"; "archive"; p; n] ++ [f]) in *.
  rewrite app_assoc in *. apply plain_snoc in Hp as [Hp1 Hp2].
  assert (Hne : dirs ++ ["inventory"; "archive"; p; n] ≠ []) by by destruct dirs.
  rewrite filepath_Dir_abs, fs_key_abs by done. unfold parent. by rewrite removelast_snoc.
Qed.

Lemma K_live rel : R rel → K (dirs ++ live_key rel).
Proof. intros Hr. exists rel. auto. Qed.
Lemma K_archive rel : R rel → K (dirs ++ archive_key rel).
Proof. intros Hr. exists rel. auto. Qed.

(** The parts of a step: the invariant, and the tree outside the clone. *)
Definition good (d0 d : fs) : Prop := clear K d ∧ outside dirs d0 d.

Lemma parent_below x : x ≠ [] → parent (dirs ++ x) = dirs ++ parent x.
Proof. intros Hx. unfold parent. by rewrite removelast_app. Qed.

Lemma key_below x : x ≠ [] → dirs `prefix_of` dirs ++ x ∧ dirs ++ x ≠ dirs.
Proof.
  intros Hx. split; [by apply prefix_app_r|]. intros Heq. apply Hx.
  rewrite <- (app_nil_r dirs) in Heq at 2. by apply app_inv_head in Heq.
Qed.

Lemma good_mkdir d0 d x :
  good d0 d → K (dirs ++ x) → x ≠ [] →
  ∃ d', mkdir_all d [] (parent (dirs ++ x)) = inl d' ∧ good d0 d' ∧
    node_at d' (parent (dirs ++ x)) = Some NDir ∧ (∀ q, file_at d' q = file_at d q).
Proof.
  intros [Hc Ho] Hk Hx.
  destruct (mkdir_clear K (op_keys_antichain dirs R HR) (op_keys_nil dirs R HR) d _ Hc Hk)
    as (d' & Hok & Hc' & Hpar & Hf & Hl).
  exists d'. split; [done|]. split; [|done]. split; [done|].
  eapply outside_mkdir; [apply Hc|done|done|by apply parent_below|done].
Qed.

Lemma good_write d0 d x c :
  good d0 d → K (dirs ++ x) → x ≠ [] → node_at d (parent (dirs ++ x)) = Some NDir →
  write_file d (dirs ++ x) c = inl (<[dirs ++ x := NFile c]> d) ∧
  good d0 (<[dirs ++ x := NFile c]> d) ∧
  ∀ q, file_at (<[dirs ++ x := NFile c]> d) q = if decide (q = dirs ++ x) then Some c else file_at d q.
Proof.
  intros [Hc Ho] Hk Hx Hpar.
  destruct (write_clear K (op_keys_antichain dirs R HR) (op_keys_nil dirs R HR) d _ c Hc Hk Hpar)
    as (Hw & Hc' & Hf).
  split; [done|]. split; [|done]. split; [done|]. destruct (key_below x Hx). by apply outside_set.
Qed.

Lemma good_delete d0 d x c :
  good d0 d → K (dirs ++ x) → x ≠ [] → d !! (dirs ++ x) = Some (NFile c) →
  good d0 (delete (dirs ++ x) d) ∧
  ∀ q, file_at (delete (dirs ++ x) d) q = if decide (q = dirs ++ x) then None else file_at d q.
Proof.
  intros [Hc Ho] Hk Hx Hd. destruct (delete_clear K d _ c Hc Hk Hd) as [Hc' Hf].
  split; [|done]. split; [done|]. destruct (key_below x Hx). by apply outside_delete.
Qed.

Lemma live_key_nil rel : R rel → live_key rel ≠ [].
Proof. intros _. apply split_not_nil. Qed.
Lemma archive_key_nil rel : archive_key rel ≠ [].
Proof. done. Qed.

Lemma node_at_below d x : node_at d (dirs ++ x) = d !! (dirs ++ x).
Proof. by destruct dirs. Qed.

Lemma parent_not_file d rel c :
  clear K d → R rel → node_at d (parent (dirs ++ archive_key rel)) = Some NDir →
  d !! (dirs ++ live_key rel) = Some (NFile c) →
  node_at (delete (dirs ++ live_key rel) d) (parent (dirs ++ archive_key rel)) = Some NDir.
Proof.
  intros _ _ Hpar Hc. rewrite parent_below by done. rewrite parent_below in Hpar by done.
  rewrite node_at_below in *. rewrite lookup_delete_ne; [done|]. congruence.
Qed.

(** The destination of an archive: removed if it is there. *)
Lemma good_remove d0 d rel :
  good d0 d → R rel → node_at d (parent (dirs ++ archive_key rel)) = Some NDir →
  let d' := match os_Remove d (abs (dirs ++ archive_key rel)) with
            | inl disk' => disk' | inr _ => d end in
  good d0 d' ∧ node_at d' (parent (dirs ++ archive_key rel)) = Some NDir ∧
  ∀ q, q ≠ dirs ++ archive_key rel → d' !! q = d !! q.
Proof.
  intros Hg Hr Hpar. unfold os_Remove. rewrite no_fault.
  destruct (archive_full rel Hr) as (_ & _ & _ & -> & _).
  set (k := dirs ++ archive_key rel) in *. pose proof (K_archive rel Hr) as Hk. fold k in Hk.
  pose proof Hg as [[Hwf Hclear] Ho]. destruct (Hclear k Hk) as [Hopen Hdir].
  destruct (d !! k) as [[|c]|] eqn:Hd; [done| |].
  - rewrite (resolve_wf d k (NFile c)); [|done|by unfold k; rewrite node_at_below].
    destruct (good_delete d0 d (archive_key rel) c) as [Hgood Hf]; try done.
    split; [done|]. split; [|intros q Hq; by rewrite lookup_delete_ne].
    unfold k in Hpar |- *. rewrite parent_below in * by done. rewrite node_at_below in *.
    rewrite lookup_delete_ne; [done|]. intros Heq. unfold k in Hd. congruence.
  - rewrite resolve_missing; [done|done|done|]. unfold k. by rewrite node_at_below.
Qed.

Lemma good_rename d0 d rel c :
  good d0 d → R rel → node_at d (parent (dirs ++ archive_key rel)) = Some NDir →
  d !! (dirs ++ live_key rel) = Some (NFile c) →
  ∃ d', rename_file d (dirs ++ live_key rel) (dirs ++ archive_key rel) = inl d' ∧ good d0 d' ∧
    ∀ q, file_at d' q = if decide (q = dirs ++ archive_key rel) then Some c
                        else if decide (q = dirs ++ live_key rel) then None else file_at d q.
Proof.
  intros Hg Hr Hpar Hc. pose proof Hg as [[Hwf Hclear] Ho].
  pose proof (K_live rel Hr) as Hk. pose proof (K_archive rel Hr) as Hka.
  destruct (good_delete d0 d _ c Hg Hk (live_key_nil rel Hr) Hc) as [Hg1 Hf1].
  destruct (good_write d0 _ _ c Hg1 Hka (archive_key_nil rel)) as (_ & Hg2 & Hf2);
    [by eapply parent_not_file; [apply Hg|..]|].
  exists (<[dirs ++ archive_key rel := NFile c]> (delete (dirs ++ live_key rel) d)).
  split; [|split; [done|]].
  - unfold rename_file. rewrite (resolve_wf d _ (NFile c)) by (done || by rewrite node_at_below).
    rewrite (resolve_wf d _ NDir) by done. rewrite node_at_below.
    destruct (Hclear _ Hka) as [_ Hnd]. by destruct (d !! (dirs ++ archive_key rel)) as [[]|].
  - intros q. rewrite Hf2. case_decide; [done|]. apply Hf1.
Qed.

Lemma apply_op_ok d0 d rel op :
  good d0 d → R rel →
  ∃ d', apply_op (abs dirs) d rel op = Ok d' ∧ good d0 d' ∧
    ∀ q, file_at d' q = op_effect dirs rel op (file_at d) q.
Proof.
  intros Hg Hr. unfold apply_op, op_effect. destruct (live_full rel Hr) as (Hfull & Hkey & Hdir).
  pose proof (K_live rel Hr) as Hk. pose proof (live_key_nil rel Hr) as Hx.
  destruct (kind op).
  - rewrite Hfull. unfold os_MkdirAll. rewrite no_fault, Hdir.
    destruct (good_mkdir d0 d _ Hg Hk Hx) as (d1 & -> & Hg1 & Hpar & Hf1).
    cbn [wrap_err mbind result_bind]. unfold os_WriteFile. rewrite no_fault, Hkey.
    destruct (good_write d0 d1 _ (content op) Hg1 Hk Hx Hpar) as (-> & Hg2 & Hf2).
    eexists. split; [done|]. split; [done|]. intros q. rewrite Hf2, Hf1. done.
  - destruct (archive_full rel Hr) as (dest & Hdest & Hfulla & Hkeya & Hdira).
    pose proof (K_archive rel Hr) as Hka. pose proof (archive_key_nil rel) as Hxa.
    unfold archiveInventoryFileInClone. rewrite Hdest. cbn [mbind result_bind].
    rewrite Hfull, Hfulla. unfold os_Stat. rewrite no_fault, Hkey.
    pose proof Hg as [[Hwf Hclear] Ho]. destruct (Hclear _ Hk) as [Hopen Hnd].
    destruct (file_at d (dirs ++ live_key rel)) as [c|] eqn:Hlive.
    + apply file_at_Some in Hlive. rewrite (resolve_wf d _ (NFile c)); [|done|by destruct dirs].
      unfold os_MkdirAll. rewrite no_fault, Hdira.
      destruct (good_mkdir d0 d _ Hg Hka Hxa) as (d1 & -> & Hg1 & Hpar & Hf1).
      cbn [wrap_err mbind result_bind].
      destruct (good_remove d0 d1 rel Hg1 Hr Hpar) as (Hg2 & Hpar2 & Hl2).
      set (d2 := match os_Remove d1 _ with inl _ => _ | inr _ => _ end) in *.
      assert (Hne : dirs ++ live_key rel ≠ dirs ++ archive_key rel).
      { intros Heq%app_inv_head. eapply live_not_archive; [| |exact Heq]; auto. }
      assert (Hc2 : d2 !! (dirs ++ live_key rel) = Some (NFile c)).
      { rewrite Hl2 by done. apply file_at_Some. rewrite Hf1. by apply file_at_Some. }
      unfold os_Rename. rewrite no_fault, Hkey, Hkeya.
      destruct (good_rename d0 d2 rel c Hg2 Hr Hpar2 Hc2) as (d3 & -> & Hg3 & Hf3).
      eexists. split; [done|]. split; [done|]. intros q. rewrite Hf3. case_decide as Hq; [done|].
      case_decide; [done|]. unfold file_at at 1. rewrite Hl2 by done. apply Hf1.
    + rewrite resolve_missing; [|done|done|].
      * cbn. exists d. split; [done|]. by split.
      * rewrite node_at_below. unfold file_at in Hlive.
        destruct (d !! (dirs ++ live_key rel)) as [[]|] eqn:Hd; try done.
Qed.
End ops.

(** ** A whole batch *)

Definition effects (dirs : key) (order : list (string * pendingExport)) (f : key → option string)
    : key → option string :=
  foldl (λ f ro, op_effect dirs ro.1 ro.2 f) f order.

Lemma op_effect_ext dirs rel op f g :
  (∀ q, f q = g q) → ∀ q, op_effect dirs rel op f q = op_effect dirs rel op g q.
Proof. intros Hfg q. unfold op_effect. destruct (kind op); rewrite !Hfg; [done|]. by repeat case_match. Qed.

Lemma effects_ext dirs order f g :
  (∀ q, f q = g q) → ∀ q, effects dirs order f q = effects dirs order g q.
Proof.
  revert f g. induction order as [|[rel op] order IH]; intros f g Hfg q; [apply Hfg|].
  apply IH. by apply op_effect_ext.
Qed.

Lemma op_effect_below dirs rel op f x :
  op_effect dirs rel op f (dirs ++ x) = op_effect [] rel op (λ y, f (dirs ++ y)) x.
Proof.
  unfold op_effect. cbn [app].
  assert (Hif : ∀ A (y z : key) (a b : A),
    (if decide (dirs ++ y = dirs ++ z) then a else b) = if decide (y = z) then a else b).
  { intros A y z a b. destruct (decide (y = z)) as [->|Hne]; [by rewrite decide_True|].
    rewrite decide_False; [done|]. by intros ?%app_inv_head. }
  rewrite !Hif. destruct (kind op); [done|]. by destruct (f (dirs ++ live_key rel)).
Qed.

Lemma effects_below dirs order f x :
  effects dirs order f (dirs ++ x) = effects [] order (λ y, f (dirs ++ y)) x.
Proof.
  revert f x. induction order as [|[rel op] order IH]; intros f x; [done|].
  cbn. unfold effects in IH |- *. cbn [foldl fst snd]. rewrite IH. apply effects_ext.
  intros y. apply op_effect_below.
Qed.

Section batch.
Context `{GoUnicode} `{OsFaults} (no_fault : ∀ op p, os_fault op p = None).
Context (dirs : key) (Hdirs : dirs ≠ []) (Hplain : plain dirs).
Context (R : string → Prop) (HR : ∀ rel, R rel → inventory_rel rel).

Lemma apply_ops_ok d0 d order :
  good dirs R d0 d → Forall (λ ro, R ro.1) order →
  ∃ d', apply_ops (abs dirs) d order = (Ok tt, d') ∧ good dirs R d0 d' ∧
    ∀ q, file_at d' q = effects dirs order (file_at d) q.
Proof.
  intros Hg Hall. revert d Hg. induction Hall as [|[rel op] order Hr Hall IH]; intros d Hg.
  - by exists d.
  - destruct (apply_op_ok no_fault dirs Hdirs Hplain R HR d0 d rel op Hg Hr) as (d1 & Hop & Hg1 & Hf1).
    destruct (IH d1 Hg1) as (d' & Hops & Hg' & Hf'). exists d'. cbn [apply_ops]. rewrite Hop.
    split; [done|]. split; [done|]. intros q. rewrite Hf'. unfold effects. cbn [foldl fst snd].
    by apply effects_ext.
Qed.
End batch.

(** ** The specification of a batch *)

(** What a batch publishes, from the files [f] of the repository: the content of
    every written path; no file at an archived path, which is moved to the
    archive when there is one; and nothing else changes. *)
Record published (b : batch) (f f' : key → option string) : Prop := {
  pub_write rel c : b !! rel = Some (Pending opWrite c) → f' (live_key rel) = Some c;
  pub_archived rel c : b !! rel = Some (Pending opArchive c) → f' (live_key rel) = None;
  pub_archive rel c : b !! rel = Some (Pending opArchive c) →
    f' (archive_key rel) = match f (live_key rel) with
                           | Some old => Some old
                           | None => f (archive_key rel)
                           end;
  pub_other q : (∀ rel op, b !! rel = Some op →
      q ≠ live_key rel ∧ (kind op = opArchive → q ≠ archive_key rel)) → f' q = f q
}.

Lemma published_ext b f f1 f2 : (∀ q, f2 q = f1 q) → published b f f1 → published b f f2.
Proof. intros Heq [Hw Ha1 Ha2 Ho]. split; intros; rewrite Heq; eauto. Qed.

Definition inventory_batch (b : batch) : Prop := ∀ rel op, b !! rel = Some op → inventory_rel rel.

Lemma published_step b rel op f f' :
  b !! rel = None → inventory_rel rel → inventory_batch b →
  published b (op_effect [] rel op f) f' → published (<[rel := op]> b) f f'.
Proof.
  intros Hfresh Hrel Hb Hpub.
  assert (Hold : ∀ rel' op', b !! rel' = Some op' →
    op_effect [] rel op f (live_key rel') = f (live_key rel') ∧
    op_effect [] rel op f (archive_key rel') = f (archive_key rel')).
  { intros rel' op' Hr'. pose proof (Hb _ _ Hr') as Hi'. assert (Hne : rel ≠ rel') by congruence.
    assert (H1 : live_key rel' ≠ live_key rel) by (intros ?%live_key_inj; congruence).
    assert (H2 : archive_key rel' ≠ archive_key rel)
      by (intros ?; by apply Hne, archive_key_inj).
    assert (H3 : live_key rel' ≠ archive_key rel) by by apply live_not_archive.
    assert (H4 : archive_key rel' ≠ live_key rel) by by apply archive_not_live.
    unfold op_effect. cbn [app]. destruct (kind op); rewrite ?decide_False by done; [done|].
    destruct (f (live_key rel)); rewrite ?decide_False by done; done. }
  assert (Hothers : ∀ q, q = live_key rel ∨ q = archive_key rel →
    ∀ rel' op', b !! rel' = Some op' → q ≠ live_key rel' ∧ (kind op' = opArchive → q ≠ archive_key rel')).
  { intros q Hq rel' op' Hr'. pose proof (Hb _ _ Hr') as Hi'. assert (Hne : rel ≠ rel') by congruence.
    destruct Hq as [-> | ->]; (split; [|intros _]).
    - intros ?%live_key_inj. done.
    - by apply live_not_archive.
    - by apply archive_not_live.
    - intros ?. by apply Hne, archive_key_inj. }
  assert (Hla : live_key rel ≠ archive_key rel) by by apply live_not_archive.
  destruct Hpub as [Hw Ha1 Ha2 Ho]. split.
  - intros rel' c [(<- & ->)|(Hne & Hr')]%lookup_insert_Some; [|by eapply Hw].
    rewrite (Ho (live_key rel)); [|by apply Hothers; left]. unfold op_effect. cbn.
    by rewrite decide_True.
  - intros rel' c [(<- & ->)|(Hne & Hr')]%lookup_insert_Some; [|by eapply Ha1].
    rewrite (Ho (live_key rel)); [|by apply Hothers; left]. unfold op_effect. cbn.
    destruct (f (live_key rel)) eqn:Hf; [|done]. by rewrite decide_False, decide_True.
  - intros rel' c [(<- & ->)|(Hne & Hr')]%lookup_insert_Some.
    + rewrite (Ho (archive_key rel)); [|by apply Hothers; right]. unfold op_effect. cbn -[archive_key].
      destruct (f (live_key rel)) eqn:Hf; [|done]. by rewrite decide_True.
    + rewrite (Ha2 _ _ Hr'). destruct (Hold _ _ Hr') as [-> ->]. done.
  - intros q Hq. rewrite Ho.
    + destruct (Hq rel op) as [Hq1 Hq2]; [by rewrite lookup_insert_eq|].
      unfold op_effect. cbn -[archive_key]. destruct (kind op); [by rewrite decide_False|].
      destruct (f (live_key rel)); [|done]. by rewrite !decide_False by auto.
    + intros rel' op' Hr'. apply Hq. rewrite lookup_insert_ne; [done|]. congruence.
Qed.

(** Any order of the operations publishes the batch. *)
Lemma effects_published order f :
  NoDup order.*1 → Forall (λ ro, inventory_rel ro.1) order →
  published (list_to_map order) f (effects [] order f).
Proof.
  revert f. induction order as [|[rel op] order IH]; intros f Hnd Hall.
  { by split. }
  cbn in Hnd. apply NoDup_cons in Hnd as [Hrel Hnd]. apply Forall_cons in Hall as [Hr Hall].
  cbn [list_to_map foldr uncurry fst snd]. apply published_step; [|done| |].
  - by apply not_elem_of_list_to_map.
  - intros rel' op' Hr'%elem_of_list_to_map_2. rewrite Forall_forall in Hall.
    by apply (Hall (rel', op')).
  - apply IH; done.
Qed.

Lemma published_unique b f f1 f2 :
  inventory_batch b → published b f f1 → published b f f2 → ∀ q, f1 q = f2 q.
Proof.
  intros Hb [Hw1 Ha1 Hb1 Ho1] [Hw2 Ha2 Hb2 Ho2] q.
  (* the paths whose live or archived file [q] is *)
  set (p1 := strings_Join q slash). set (p2 := strings_Join ("inventory" :: drop 2 q) slash).
  assert (Hlive : ∀ rel op, b !! rel = Some op → q = live_key rel → rel = p1).
  { intros rel op Hr Hq. unfold p1. rewrite Hq. unfold live_key. symmetry. apply join_split. }
  assert (Harch : ∀ rel op, b !! rel = Some op → q = archive_key rel → rel = p2).
  { intros rel op Hr Hq. pose proof (Hb _ _ Hr) as Hi.
    apply live_key_inv in Hi as (p & n & f' & _ & Hl & _ & Ha & _ & Hj & _).
    unfold p2. rewrite Hq, Ha. cbn [drop]. by rewrite Hj, Hl. }
  destruct (decide (is_Some (b !! p1) ∧ q = live_key p1)) as [[[[[] c] Hop] Hq]|H1].
  { rewrite Hq. erewrite Hw1, Hw2 by done. done. }
  { rewrite Hq. erewrite Ha1, Ha2 by done. done. }
  assert (Hnl : ∀ rel op, b !! rel = Some op → q ≠ live_key rel).
  { intros rel op Hr Hq. apply H1. pose proof (Hlive _ _ Hr Hq) as <-. by split. }
  destruct (decide (kind <$> b !! p2 = Some opArchive ∧ q = archive_key p2)) as [[Hk Hq]|H2].
  { destruct (b !! p2) as [[k c]|] eqn:Hop; [|done]. injection Hk as ->.
    rewrite Hq. erewrite Hb1, Hb2 by done. done. }
  assert (Hna : ∀ rel op, b !! rel = Some op → q ≠ live_key rel ∧ (kind op = opArchive → q ≠ archive_key rel)).
  { intros rel [k c] Hr. split; [by eapply Hnl|]. cbn. intros -> Hq. apply H2.
    pose proof (Harch _ _ Hr Hq) as <-. by rewrite Hr. }
  by rewrite Ho1, Ho2.
Qed.
