(* ===== verification/ExportBatch.v ===== *)
(** What a flush publishes: [exportBatch] against an abstract specification of
    the remote repository. *)
From S2P Require Import Prelude GoStrings GoPath Config ExportPath InventoryPath ArchivePath GitBatch Fs BatchWorker BatchWorkerFacts.

(** ** What go-git and the operating system promise *)

(** [os.MkdirTemp] makes a new directory in an existing one. *)
Class TempDirsLaws `{TempDirs} : Prop := {
  temp_dir_fresh d dir : os_MkdirTemp d = Ok dir →
    ∃ dirs, dir = abs dirs ∧ dirs ≠ [] ∧ plain dirs ∧ node_at d (parent dirs) = Some NDir ∧
      ∀ k, dirs `prefix_of` k → d !! k = None
}.

(** The work tree [wt] with the files [w] added, from a clone of [r]. *)
Definition added `{GoGit} (r : remote) (o : CloneOptions) (w : files) (wt : repo) : Prop :=
  ∃ rp tree rp' wt0, git_PlainClone r o = Ok (rp, tree) ∧ git_PlainOpen rp = Ok rp' ∧
    repo_Worktree rp' = Ok wt0 ∧ wt_AddAll wt0 w = Ok wt.

(** A remote has files and a history per branch. A clone checks out the files of
    its branch; the status is clean when the work tree is what was checked out;
    an accepted push is a fast-forward that makes the committed files the files
    of the branch and its message the head of the history; a push that fails was
    refused, or only its answer was lost: the update of a branch is not halved. *)
Class GoGitSpec `{GoGit} := {
  branch_files : remote → string → option files;
  branch_log : remote → string → list string;
  clone_spec r o rp tree : git_PlainClone r o = Ok (rp, tree) →
    fs_wf tree ∧ tree !! [] = None ∧ branch_files r (ReferenceName o) = Some (tree_files tree);
  clean_spec r o w wt : added r o w wt → wt_IsClean wt w = Ok true →
    branch_files r (ReferenceName o) = Some w;
  push_spec r r1 r2 o w wt msg sig rp : added r o w wt → wt_CommitAll wt w msg sig = Ok rp →
    repo_Push r1 rp (Auth o) = (Ok tt, r2) →
    branch_files r1 (ReferenceName o) = branch_files r (ReferenceName o) ∧
    branch_files r2 (ReferenceName o) = Some w ∧
    branch_log r2 (ReferenceName o) = msg :: branch_log r1 (ReferenceName o) ∧
    ∀ ref, ref ≠ ReferenceName o → branch_files r2 ref = branch_files r1 ref;
  push_failed r r1 r2 o w wt msg sig rp e : added r o w wt → wt_CommitAll wt w msg sig = Ok rp →
    repo_Push r1 rp (Auth o) = (Failed e, r2) →
    (∀ ref, branch_files r2 ref = branch_files r1 ref ∧ branch_log r2 ref = branch_log r1 ref) ∨
    (branch_files r1 (ReferenceName o) = branch_files r (ReferenceName o) ∧
     branch_files r2 (ReferenceName o) = Some w ∧
     branch_log r2 (ReferenceName o) = msg :: branch_log r1 (ReferenceName o) ∧
     ∀ ref, ref ≠ ReferenceName o → branch_files r2 ref = branch_files r1 ref)
}.

(** The remote is as it was, or one commit further. *)
Definition unmoved `{GoGitSpec} (r1 r2 : remote) : Prop :=
  ∀ ref, branch_files r2 ref = branch_files r1 ref ∧ branch_log r2 ref = branch_log r1 ref.
Definition advanced `{GoGitSpec} (ref : string) (base : option files) (w : files) (msg : string)
    (r1 r2 : remote) : Prop :=
  branch_files r1 ref = base ∧ branch_files r2 ref = Some w ∧ branch_log r2 ref = msg :: branch_log r1 ref ∧
  ∀ ref', ref' ≠ ref → branch_files r2 ref' = branch_files r1 ref'.

(** ** The clone in its temporary directory *)

(** Nothing of the repository is in the way of the files of the batch. *)
Definition unobstructed (b : batch) (tree : fs) : Prop :=
  ∀ rel op, b !! rel = Some op →
    (open_way tree (live_key rel) ∧ tree !! live_key rel ≠ Some NDir) ∧
    (open_way tree (archive_key rel) ∧ tree !! archive_key rel ≠ Some NDir).

Section placed.
Context (dirs : key) (disk tree : fs) (b : batch).
Context (Hdirs : dirs ≠ []) (Hfresh : ∀ k, dirs `prefix_of` k → disk !! k = None).
Context (Hpar : node_at disk (parent dirs) = Some NDir) (Hwf : fs_wf disk).
Context (Htree : fs_wf tree) (Hroot : tree !! [] = None).

Definition clone_disk : fs := place dirs tree (<[dirs := NDir]> disk).

Lemma clone_disk_below k : k ≠ [] → clone_disk !! (dirs ++ k) = tree !! k.
Proof.
  intros Hk. unfold clone_disk. rewrite lookup_place. destruct (tree !! k); [done|].
  rewrite lookup_insert_ne; [apply Hfresh; by apply prefix_app_r|].
  intros Heq. apply Hk. rewrite <- (app_nil_r dirs) in Heq at 1. by apply app_inv_head in Heq.
Qed.

Lemma clone_disk_root : clone_disk !! dirs = Some NDir.
Proof.
  pose proof (lookup_place dirs tree (<[dirs := NDir]> disk) []) as Hp.
  rewrite app_nil_r, Hroot, lookup_insert_eq in Hp. exact Hp.
Qed.

Lemma clone_disk_outside : outside dirs disk clone_disk.
Proof.
  split; [apply clone_disk_root|]. intros q Hq. unfold clone_disk.
  rewrite lookup_place_other by done. rewrite lookup_insert_ne; [done|]. by intros <-.
Qed.

Lemma clone_node_outside q : ¬ dirs `prefix_of` q → node_at clone_disk q = node_at disk q.
Proof.
  intros Hq. destruct clone_disk_outside as [_ Ho]. destruct q; [done|]. by apply Ho.
Qed.

Lemma clone_node_below k n : node_at tree k = Some n → k ≠ [] → node_at clone_disk (dirs ++ k) = Some n.
Proof.
  intros Hn Hk. destruct k as [|e k]; [done|]. cbn in Hn. rewrite <- (clone_disk_below (e :: k)) in Hn by done.
  by destruct dirs.
Qed.

Lemma clone_disk_wf : fs_wf clone_disk.
Proof.
  intros k e n Hn. destruct (decide (dirs `prefix_of` k ++ [e])) as [[j Hj]|Hno].
  - destruct j as [|x j _] using rev_ind.
    + rewrite app_nil_r in Hj. assert (Hk : parent dirs = k).
      { rewrite <- Hj. unfold parent. by rewrite removelast_snoc. }
      rewrite Hk in Hpar. rewrite clone_node_outside; [done|]. rewrite <- Hj.
      intros Hp%prefix_length. rewrite length_app in Hp. cbn in Hp. lia.
    + rewrite app_assoc in Hj. apply app_inj_tail in Hj as [-> ->].
      destruct j as [|y j]; [rewrite app_nil_r, node_at_ne by done; apply clone_disk_root|].
      apply clone_node_below; [|done].
      rewrite <- app_assoc, clone_disk_below in Hn by by destruct j. by apply Htree in Hn.
  - destruct clone_disk_outside as [_ Ho]. rewrite Ho in Hn by done. apply Hwf in Hn.
    rewrite clone_node_outside; [done|]. intros Hp. apply Hno. by apply prefix_app_r.
Qed.

Lemma clone_open_way k :
  k ≠ [] → open_way tree k → open_way clone_disk (dirs ++ k).
Proof.
  intros Hk Hopen q r Hq Hqn Hr c Hc.
  destruct (decide (dirs `prefix_of` q)) as [[j ->]|Hno].
  - rewrite <- app_assoc in Hq. apply app_inv_head in Hq. destruct j as [|e j].
    + rewrite app_nil_r, clone_disk_root in Hc. done.
    + rewrite clone_disk_below in Hc by done. by eapply Hopen.
  - assert (Hpre : q `prefix_of` dirs).
    { destruct (prefix_weak_total q dirs (dirs ++ k)) as [?|?]; [by exists r|by apply prefix_app_r|done|done]. }
    destruct Hpre as [u Hu].
    assert (Hn : node_at clone_disk q = Some NDir).
    { apply (fs_wf_prefix clone_disk dirs NDir clone_disk_wf) with (r := u); [|done|].
      - rewrite node_at_ne by done. apply clone_disk_root.
      - intros ->. apply Hno. by rewrite Hu, app_nil_r. }
    destruct q; [done|]. cbn in Hn. congruence.
Qed.
End placed.

(** ** exportBatch *)

Definition branch_of (cfg : InventoryControllerConfig) : string :=
  if decide (GitBranch cfg = "") then "main" else GitBranch cfg.

Section export.
Context `{GoUnicode} `{OsFaults} `{TempDirs} `{GoGit} `{!TempDirsLaws}.

Definition clone_options (cfg : InventoryControllerConfig) : CloneOptions :=
  CloneOpts (GitRepoURL cfg) 1 true (NewBranchReferenceName (branch_of cfg)) (auth cfg).

(** The situation of an export: the disk is a tree, the clone succeeds, the batch
    has only paths of the inventory, and nothing is in the way of its files. *)
Record export_ready (cfg : InventoryControllerConfig) (disk : fs) (dir : string) (r0 : remote)
    (rp : repo) (tree : fs) (b : batch) : Prop := {
  no_fault op p : os_fault op p = None;
  disk_wf : fs_wf disk;
  temp_made : os_MkdirTemp disk = Ok dir;
  cloned : git_PlainClone r0 (clone_options cfg) = Ok (rp, tree);
  tree_wf : fs_wf tree;
  tree_root : tree !! [] = None;
  batch_paths : inventory_batch b;
  way_clear : unobstructed b tree
}.

Lemma ready_good cfg disk dir r0 rp tree b :
  export_ready cfg disk dir r0 rp tree b →
  ∃ dirs, dir = abs dirs ∧ dirs ≠ [] ∧ plain dirs ∧ (∀ k, dirs `prefix_of` k → disk !! k = None) ∧
    good dirs (λ rel, is_Some (b !! rel)) disk (clone_disk dirs disk tree).
Proof.
  intros [Hno Hwf Htemp Hclone Htree Hroot Hb Hway].
  apply temp_dir_fresh in Htemp as (dirs & -> & Hne & Hplain & Hpar & Hfresh).
  exists dirs. do 4 (split; [done|]). split.
  - split; [by apply clone_disk_wf|].
    intros k (rel & [op Hop] & Hk). destruct (Hway _ _ Hop) as [[Ho1 Hn1] [Ho2 Hn2]].
    assert (Hlive : live_key rel ≠ []) by apply split_not_nil.
    destruct Hk as [-> | ->].
    + split; [by apply clone_open_way|]. by rewrite clone_disk_below.
    + split; [by apply clone_open_way|]. by rewrite clone_disk_below.
  - by apply clone_disk_outside.
Qed.

Lemma work_files_lookup d dirs k :
  dirs ≠ [] → plain dirs → work_files d (abs dirs) !! k = file_at d (dirs ++ k).
Proof.
  intros Hne Hp. unfold work_files, tree_files, file_at.
  rewrite lookup_omap, lookup_subtree, fs_key_abs by done. done.
Qed.

(** The operations of a batch succeed in every order, leave the disk outside the
    clone as it was, and make the work tree what the batch publishes. *)
Lemma ops_publish cfg disk dir r0 rp tree b order :
  export_ready cfg disk dir r0 rp tree b → order ≡ₚ map_to_list b →
  ∃ d', apply_ops dir (place (fs_key dir) tree (<[fs_key dir := NDir]> disk)) order = (Ok tt, d') ∧
    os_RemoveAll d' dir = disk ∧
    published b (λ k, tree_files tree !! k) (λ k, work_files d' dir !! k).
Proof.
  intros Hready Hperm. destruct (ready_good _ _ _ _ _ _ _ Hready) as (dirs & -> & Hne & Hplain & Hfresh & Hgood).
  pose proof Hready as [Hno Hwf Htemp Hclone Htree Hroot Hb Hway].
  rewrite fs_key_abs by done. fold (clone_disk dirs disk tree).
  assert (HR : ∀ rel, is_Some (b !! rel) → inventory_rel rel) by (intros rel [op Hop]; by eapply Hb).
  assert (Horder : Forall (λ ro, is_Some (b !! ro.1)) order).
  { apply Forall_forall. intros [rel op] Hin. rewrite Hperm in Hin.
    apply elem_of_map_to_list in Hin. by exists op. }
  destruct (apply_ops_ok Hno dirs Hne Hplain _ HR disk _ order Hgood Horder) as (d' & Hops & [Hc' Ho'] & Hf').
  exists d'. split; [done|]. split.
  - unfold os_RemoveAll. rewrite Hno, fs_key_abs by done. by apply remove_outside.
  - assert (Hb' : list_to_map order = b).
    { rewrite <- (list_to_map_to_list b). apply list_to_map_proper; [|done].
      rewrite Hperm. apply NoDup_fst_map_to_list. }
    assert (Hpub : published b (λ k, tree_files tree !! k) (effects [] order (λ k, tree_files tree !! k))).
    { rewrite <- Hb' at 1. apply effects_published.
      - rewrite Hperm. apply NoDup_fst_map_to_list.
      - eapply Forall_impl; [exact Horder|]. intros ro. apply HR. }
    assert (Hfiles : ∀ k, file_at (clone_disk dirs disk tree) (dirs ++ k) = tree_files tree !! k).
    { intros k. unfold file_at, tree_files. rewrite lookup_omap. destruct k as [|e k].
      - by rewrite app_nil_r, clone_disk_root, Hroot.
      - by rewrite clone_disk_below. }
    eapply published_ext; [|exact Hpub]. intros k. cbn.
    rewrite work_files_lookup, Hf', effects_below by done. by apply effects_ext.
Qed.

(** [exportBatch] once its operations are known. *)
Lemma exportBatch_steps cfg disk dir r0 r1 rp tree b order :
  export_ready cfg disk dir r0 rp tree b → order ≡ₚ map_to_list b →
  ∃ w, published b (λ k, tree_files tree !! k) (λ k, w !! k) ∧
    exportBatch cfg disk r0 r1 b order =
    (let '(res, r2) := commit_and_push cfg b rp w r1 in (res, disk, r2)).
Proof.
  intros Hready Hperm. destruct (ops_publish _ _ _ _ _ _ _ _ Hready Hperm) as (d' & Hops & Hrm & Hpub).
  exists (work_files d' dir). split; [done|].
  destruct Hready as [Hno Hwf Htemp Hclone Htree Hroot Hb Hway].
  unfold exportBatch, export_in. rewrite Htemp.
  fold (branch_of cfg). unfold clone_options in Hclone. rewrite Hclone, Hops.
  destruct (commit_and_push _ _ _ _ _) as [res r2]. by rewrite Hrm.
Qed.

Definition batch_message (b : batch) : string :=
  let '(subject, body) := commitMessageForBatch b (sortedKeysBatch b) in fullMsg subject body.

Definition inventory_author : Signature := Author "accord-inventory" "accord@local".

Definition git_steps : list string :=
  ["git open"; "git worktree"; "git add"; "git status"; "git commit"].

Lemma commit_and_push_cases cfg b rp w r1 res r2 :
  commit_and_push cfg b rp w r1 = (res, r2) →
  (∃ c e, res = Failed (ErrWrap c e) ∧ c ∈ git_steps ∧ r2 = r1) ∨
  ∃ rp' wt0 wt, git_PlainOpen rp = Ok rp' ∧ repo_Worktree rp' = Ok wt0 ∧ wt_AddAll wt0 w = Ok wt ∧
    ((wt_IsClean wt w = Ok true ∧ res = Ok tt ∧ r2 = r1) ∨
     ∃ rp2 pres, wt_CommitAll wt w (batch_message b) inventory_author = Ok rp2 ∧
       repo_Push r1 rp2 (auth cfg) = (pres, r2) ∧ res = wrap_err "git push" pres).
Proof.
  assert (Hstep : ∀ c e (rr : result unit * remote), c ∈ git_steps → rr = (res, r2) →
    rr = (Failed (ErrWrap c e), r1) → ∃ c e, res = Failed (ErrWrap c e) ∧ c ∈ git_steps ∧ r2 = r1).
  { intros c e rr Hc -> [= -> ->]. by exists c, e. }
  assert (Hmem : ∀ i c, git_steps !! i = Some c → c ∈ git_steps) by (intros; by eapply list_elem_of_lookup_2).
  unfold commit_and_push, batch_message.
  destruct (git_PlainOpen rp) as [rp'|e] eqn:E1; cbn [wrap_err mbind result_bind];
    [|intros Heq; left; by eapply (Hstep "git open"); [apply (Hmem 0)|exact Heq|]].
  destruct (repo_Worktree rp') as [wt0|e] eqn:E2; cbn [wrap_err mbind result_bind];
    [|intros Heq; left; by eapply (Hstep "git worktree"); [apply (Hmem 1)|exact Heq|]].
  destruct (wt_AddAll wt0 w) as [wt|e] eqn:E3; cbn [wrap_err mbind result_bind];
    [|intros Heq; left; by eapply (Hstep "git add"); [apply (Hmem 2)|exact Heq|]].
  destruct (wt_IsClean wt w) as [[]|e] eqn:E4; cbn [wrap_err mbind result_bind];
    [| |intros Heq; left; by eapply (Hstep "git status"); [apply (Hmem 3)|exact Heq|]].
  { intros [= <- <-]. right. exists rp', wt0, wt. do 3 (split; [done|]). by left. }
  destruct (commitMessageForBatch b (sortedKeysBatch b)) as [subject body].
  fold inventory_author.
  destruct (wt_CommitAll wt w (fullMsg subject body) inventory_author) as [rp2|e] eqn:E5;
    cbn [wrap_err mbind result_bind];
    [|intros Heq; left; by eapply (Hstep "git commit"); [apply (Hmem 4)|exact Heq|]].
  destruct (repo_Push r1 rp2 (auth cfg)) as [pres r'] eqn:E6. intros [= <- <-].
  right. exists rp', wt0, wt. do 3 (split; [done|]). right. by exists rp2, pres.
Qed.

(** What comes of the git steps of an export, from a clone of [r0]. *)
Lemma commit_and_push_outcome `{!GoGitSpec} cfg b r0 rp tree w r1 res r2 :
  git_PlainClone r0 (clone_options cfg) = Ok (rp, tree) → commit_and_push cfg b rp w r1 = (res, r2) →
  let ref := NewBranchReferenceName (branch_of cfg) in
  let moved := advanced ref (branch_files r0 ref) w (batch_message b) r1 r2 in
  match res with
  | Ok _ => branch_files r0 ref = Some w ∧ r2 = r1 ∨ moved
  | Failed e =>
      (∃ c e', e = ErrWrap c e' ∧ c ∈ git_steps ∧ r2 = r1) ∨
      ∃ e', e = ErrWrap "git push" e' ∧ (unmoved r1 r2 ∨ moved)
  end.
Proof.
  intros Hclone Hcp ref moved.
  apply commit_and_push_cases in Hcp as [(c & e & -> & Hc & ->)|(rp' & wt0 & wt & Hop & Hwt & Hadd & Hrest)].
  { left. by exists c, e. }
  assert (Hadded : added r0 (clone_options cfg) w wt) by (by exists rp, tree, rp', wt0).
  destruct Hrest as [(Hclean & -> & ->)|(rp2 & pres & Hcommit & Hpush & ->)].
  { left. split; [|done]. by apply (clean_spec _ _ _ _ Hadded). }
  destruct pres as [[]|e].
  - right. exact (push_spec _ _ _ _ _ _ _ _ _ Hadded Hcommit Hpush).
  - right. exists e. split; [done|]. exact (push_failed _ _ _ _ _ _ _ _ _ _ Hadded Hcommit Hpush).
Qed.

Lemma exportBatch_outcome `{!GoGitSpec} cfg disk dir r0 r1 rp tree b order res disk' r2 :
  export_ready cfg disk dir r0 rp tree b → order ≡ₚ map_to_list b →
  exportBatch cfg disk r0 r1 b order = (res, disk', r2) →
  let ref := NewBranchReferenceName (branch_of cfg) in
  disk' = disk ∧
  ∃ old w, branch_files r0 ref = Some old ∧ published b (λ k, old !! k) (λ k, w !! k) ∧
  match res with
  | Ok _ => w = old ∧ r2 = r1 ∨ advanced ref (Some old) w (batch_message b) r1 r2
  | Failed e =>
      (∃ c e', e = ErrWrap c e' ∧ c ∈ git_steps ∧ r2 = r1) ∨
      ∃ e', e = ErrWrap "git push" e' ∧ (unmoved r1 r2 ∨ advanced ref (Some old) w (batch_message b) r1 r2)
  end.
Proof.
  intros Hready Hperm Hexp ref.
  destruct (exportBatch_steps _ _ _ _ r1 _ _ _ _ Hready Hperm) as (w & Hpub & Heq).
  rewrite Heq in Hexp. clear Heq. destruct Hready as [_ _ _ Hclone _ _ _ _].
  destruct (clone_spec _ _ _ _ Hclone) as (_ & _ & Hfiles).
  destruct (commit_and_push cfg b rp w r1) as [res' r2'] eqn:Hcp. injection Hexp as -> <- ->.
  split; [done|]. exists (tree_files tree), w. split; [exact Hfiles|]. split; [done|].
  pose proof (commit_and_push_outcome _ _ _ _ _ _ _ _ _ Hclone Hcp) as Hout. cbv zeta in Hout.
  change (ReferenceName (clone_options cfg)) with ref in Hfiles. fold ref in Hout. rewrite Hfiles in Hout.
  destruct res as [u|e]; [|exact Hout]. destruct Hout as [[[= ->] ->]|Hmoved]; [by left|by right].
Qed.

(** C13: exportBatch publishes the batch. In the situation of an export - the disk
    works, the clone succeeds, the batch has only inventory paths and nothing in
    the clone is in the way of its files - the file operations succeed whatever
    the order in which the map yields them, and the machine's disk is left as it
    was. When it returns nil, the branch has exactly the files of the batch:
    written paths have their content, archived ones have moved to
    inventory/archive/, all others are as before; the history gained one commit
    with the batch's message, by a fast-forward of the content cloned, or none
    when the batch makes no difference to it. When it fails, it is in a git step,
    and the remote is as it was; only a failed push whose answer was lost may have
    moved the branch, to that one commit. *)
Theorem exportBatch_publishes `{!GoGitSpec} cfg disk dir r0 r1 rp tree b order res disk' r2 :
  export_ready cfg disk dir r0 rp tree b → order ≡ₚ map_to_list b →
  exportBatch cfg disk r0 r1 b order = (res, disk', r2) →
  let ref := NewBranchReferenceName (branch_of cfg) in
  disk' = disk ∧
  ∃ old w, branch_files r0 ref = Some old ∧ published b (λ k, old !! k) (λ k, w !! k) ∧
  match res with
  | Ok _ => w = old ∧ r2 = r1 ∨ advanced ref (Some old) w (batch_message b) r1 r2
  | Failed e =>
      (∃ c e', e = ErrWrap c e' ∧ c ∈ git_steps ∧ r2 = r1) ∨
      ∃ e', e = ErrWrap "git push" e' ∧ (unmoved r1 r2 ∨ advanced ref (Some old) w (batch_message b) r1 r2)
  end.
Proof. apply exportBatch_outcome. Qed.

(** C20: a failed export publishes nothing, in whatever situation: no temporary
    directory, a clone that fails, any fault of the disk or any path in any
    operation, a git step that fails - the remote is as it was. The exception is a
    push that is reported as failed though it arrived: then the branch is one
    commit further, with the message of the batch, and the batch, put back into
    the queue, is exported once more. *)
Theorem failed_export_publishes_nothing `{!GoGitSpec} cfg disk r0 r1 b order e disk' r2 :
  exportBatch cfg disk r0 r1 b order = (Failed e, disk', r2) →
  r2 = r1 ∨
  ∃ e' w, e = ErrWrap "git push" e' ∧
    let ref := NewBranchReferenceName (branch_of cfg) in
    (unmoved r1 r2 ∨ advanced ref (branch_files r0 ref) w (batch_message b) r1 r2).
Proof.
  unfold exportBatch, export_in. destruct (os_MkdirTemp disk) as [dir|e0]; [|intros [= _ _ ->]; by left].
  fold (branch_of cfg). change (CloneOpts _ _ _ _ _) with (clone_options cfg).
  destruct (git_PlainClone r0 (clone_options cfg)) as [[rp tree]|e0] eqn:Hclone; [|intros [= _ _ ->]; by left].
  destruct (apply_ops dir _ order) as [[u|e0] d]; [|intros [= _ _ ->]; by left].
  destruct (commit_and_push cfg b rp (work_files d dir) r1) as [res r2'] eqn:Hcp. intros [= -> _ ->].
  apply (commit_and_push_outcome _ _ _ _ _ _ _ _ _ Hclone) in Hcp as [(_ & _ & _ & _ & ->)|(e' & -> & Hpush)]; [by left|].
  right. by exists e', (work_files d dir).
Qed.

(** C32: the outcome of an export does not depend on the order in which Go's map
    iteration visits the batch. *)
Theorem exportBatch_order_independent cfg disk dir r0 r1 rp tree b order order' :
  export_ready cfg disk dir r0 rp tree b →
  order ≡ₚ map_to_list b → order' ≡ₚ map_to_list b →
  exportBatch cfg disk r0 r1 b order = exportBatch cfg disk r0 r1 b order'.
Proof.
  intros Hready Hperm Hperm'.
  destruct (exportBatch_steps _ _ _ _ r1 _ _ _ _ Hready Hperm) as (w & Hpub & ->).
  destruct (exportBatch_steps _ _ _ _ r1 _ _ _ _ Hready Hperm') as (w' & Hpub' & ->).
  replace w' with w; [done|]. apply map_eq. intros k.
  apply (published_unique b _ _ _ (batch_paths _ _ _ _ _ _ _ Hready) Hpub Hpub').
Qed.
End export.

(** ** A concrete remote: per branch, the commits with their files, newest first *)

Record local_repo := LocalRepo {
  l_ref : string; l_base : files; l_commit : option (string * files) }.

Abbreviation history := (gmap string (list (string * files))).

(** The tree with the given files and their directories. *)
Definition tree_of (f : files) : fs :=
  (NFile <$> f) ∪ list_to_map (concat (map (λ kc, map (λ n, (take n kc.1, NDir))
    (seq 1 (length kc.1 - 1))) (map_to_list f))).

Definition wf_entry (d : fs) (k : key) : Prop := k ≠ [] ∧ node_at d (parent k) = Some NDir.
#[export] Instance wf_entry_dec d k : Decision (wf_entry d k).
Proof. unfold wf_entry. apply _. Defined.

Definition wf_check (d : fs) : bool := bool_decide (map_Forall (λ k _, wf_entry d k) d).

Lemma wf_check_spec d : wf_check d = true → fs_wf d ∧ d !! [] = None.
Proof.
  unfold wf_check. rewrite bool_decide_eq_true. intros Hd. split.
  - intros k e n Hn. apply Hd in Hn as [_ Hn]. unfold parent in Hn. by rewrite removelast_snoc in Hn.
  - destruct (d !! []) as [n|] eqn:Hn; [|done]. by apply Hd in Hn as [? _].
Qed.

Definition history_clone (r : history) (o : CloneOptions) : result (local_repo * fs) :=
  match r !! ReferenceName o with
  | Some ((_, f) :: _) =>
      let t := tree_of f in
      if wf_check t && bool_decide (tree_files t = f)
      then Ok (LocalRepo (ReferenceName o) f None, t) else Failed (Err "not a tree")
  | _ => Failed (Err "reference not found")
  end.

Definition history_push (r : history) (rp : local_repo) : result unit * history :=
  match l_commit rp, r !! l_ref rp with
  | Some c, Some ((m, f) :: h) =>
      if decide (f = l_base rp) then (Ok tt, <[l_ref rp := c :: (m, f) :: h]> r)
      else (Failed (Err "non-fast-forward update"), r)
  | _, _ => (Failed (Err "nothing to push"), r)
  end.

Definition history_git : GoGit := {|
  remote := history;
  repo := local_repo;
  NewBranchReferenceName b := "refs/heads/" +:+ b;
  git_PlainClone := history_clone;
  git_PlainOpen := Ok;
  repo_Worktree := Ok;
  wt_AddAll rp _ := Ok rp;
  wt_IsClean rp w := Ok (bool_decide (w = l_base rp));
  wt_CommitAll rp w msg _ := Ok (LocalRepo (l_ref rp) (l_base rp) (Some (msg, w)));
  repo_Push r rp _ := history_push r rp
|}.

Lemma history_clone_inv r o rp t :
  history_clone r o = Ok (rp, t) →
  ∃ m f h, r !! ReferenceName o = Some ((m, f) :: h) ∧ rp = LocalRepo (ReferenceName o) f None ∧
    fs_wf t ∧ t !! [] = None ∧ tree_files t = f.
Proof.
  unfold history_clone. destruct (r !! ReferenceName o) as [[|[m f] h]|]; try done.
  destruct (wf_check (tree_of f)) eqn:Hwf; [|done]. case_bool_decide as Hf; [|done].
  intros Heq%Ok_inj. injection Heq as <- <-. apply wf_check_spec in Hwf as [? ?]. by exists m, f, h.
Qed.

Lemma history_added (r : history) o w (wt : local_repo) :
  @added history_git r o w wt → ∃ m f h, r !! ReferenceName o = Some ((m, f) :: h) ∧
    wt = LocalRepo (ReferenceName o) f None.
Proof.
  intros (rp & t & rp' & wt0 & Hc & H1 & H2 & H3). apply Ok_inj in H1 as <-, H2 as <-, H3 as <-.
  apply history_clone_inv in Hc as (m & f & h & Hr & -> & _). by exists m, f, h.
Qed.

#[local] Existing Instance history_git.

Definition head_files (r : history) (ref : string) : option files :=
  match r !! ref with Some ((_, f) :: _) => Some f | _ => None end.
Definition head_log (r : history) (ref : string) : list string :=
  match r !! ref with Some h => map fst h | None => [] end.

Lemma history_push_spec (r1 r2 : history) ref f m w :
  history_push r1 (LocalRepo ref f (Some (m, w))) = (Ok tt, r2) →
  head_files r1 ref = Some f ∧ head_files r2 ref = Some w ∧ head_log r2 ref = m :: head_log r1 ref ∧
  ∀ ref', ref' ≠ ref → head_files r2 ref' = head_files r1 ref'.
Proof.
  unfold history_push, head_files, head_log. cbn [l_commit l_ref l_base].
  destruct (r1 !! ref) as [[|[m1 f1] h1]|] eqn:Hr1; try done. case_decide as Hf; [|done].
  intros [= <-]. subst f1. rewrite lookup_insert_eq. do 3 (split; [done|]).
  intros ref' Href. by rewrite lookup_insert_ne.
Qed.

Definition history_spec : GoGitSpec.
Proof.
  refine {| branch_files := head_files : remote → string → option files;
            branch_log := head_log : remote → string → list string |}.
  - intros r o rp t (m & f & h & Hr & _ & Hwf & Hroot & <-)%history_clone_inv.
    unfold head_files. by rewrite Hr.
  - intros r o w wt (m & f & h & Hr & ->)%history_added [= Hclean]. unfold head_files. rewrite Hr.
    apply bool_decide_eq_true in Hclean. cbn in Hclean. by subst.
  - intros r r1 r2 o w wt msg sig rp (m & f & h & Hr & ->)%history_added Hc%Ok_inj.
    subst rp. intros (H1 & H2 & H3 & H4)%history_push_spec.
    split; [|done]. etransitivity; [exact H1|]. unfold head_files. by rewrite Hr.
  - intros r r1 r2 o w wt msg sig rp e _ _ Hpush. left. intros ref.
    assert (Hr : r2 = r1); [|by rewrite Hr].
    unfold repo_Push, history_git, history_push in Hpush. repeat case_match; naive_solver.
Defined.

(** A temporary directory under /tmp. *)
Definition one_temp : TempDirs := {|
  os_MkdirTemp d :=
    if decide (node_at d ["tmp"] = Some NDir ∧ map_Forall (λ k _, ¬ ["tmp"; "x"] `prefix_of` k) d)
    then Ok "/tmp/x" else Failed (Err "mkdir /tmp/x: file exists")
|}.
#[local] Existing Instances one_temp no_faults ascii_tables.

Lemma one_temp_laws : TempDirsLaws.
Proof.
  split. intros d dir. unfold os_MkdirTemp, one_temp. case_decide as Hd; [|done].
  intros <-%Ok_inj. destruct Hd as [Hpar Hfresh]. exists ["tmp"; "x"].
  split; [done|]. split; [done|]. split; [by repeat constructor|]. split; [done|].
  intros k Hk. destruct (d !! k) eqn:Hn; [|done]. by apply Hfresh in Hn.
Qed.

Definition sample_cfg : InventoryControllerConfig :=
  InvConfig "https://git.example.com/inventory.git" "main" 10000000000 defaultExportPathTemplate "" "t".
Definition sample_disk : fs := {[ ["tmp"] := NDir ]}.
Definition sample_remote : history := {[ "refs/heads/main" := [("init", {[ ["README"] := "x" ]})] ]}.
Definition sample_tree : fs := tree_of {[ ["README"] := "x" ]}.
Definition sample_clone : local_repo := LocalRepo "refs/heads/main" {[ ["README"] := "x" ]} None.

Lemma sample_cloned :
  history_clone sample_remote (clone_options sample_cfg) = Ok (sample_clone, sample_tree).
Proof. by_vm. Qed.

Lemma sample_tree_files k c : sample_tree !! k = Some c → k = ["README"].
Proof.
  assert (Heq : sample_tree = {[ ["README"] := NFile "x" ]}) by by_vm.
  rewrite Heq. by intros [<- _]%lookup_singleton_Some.
Qed.

Lemma sample_rels : inventory_batch sample_batch.
Proof.
  unfold sample_batch.
  intros rel op [[<- _]|[_ [[<- _]|[_ Hr]]%lookup_insert_Some]]%lookup_insert_Some; [| |done].
  - exists "applications", "a", "x". by split; [left|].
  - exists "applications", "a", "y". by split; [left|].
Qed.

Lemma sample_ready :
  export_ready sample_cfg sample_disk "/tmp/x" sample_remote sample_clone sample_tree sample_batch.
Proof.
  destruct (history_clone_inv _ _ _ _ sample_cloned) as (m & f & h & _ & _ & Hwf & Hroot & _).
  split.
  - intros op p. reflexivity.
  - apply (wf_check_spec sample_disk). by_vm.
  - by_vm.
  - exact sample_cloned.
  - exact Hwf.
  - exact Hroot.
  - exact sample_rels.
  - intros rel op Hr. apply sample_rels, live_key_inv in Hr as (p & n & f' & _ & Hl & _ & Ha & _).
    rewrite Hl, Ha. split; (split; [|by intros Hx%sample_tree_files]);
      intros q r Hq Hqn Hrn c Hc%sample_tree_files; subst q; discriminate Hq.
Qed.

Definition sample_run (order : list (string * pendingExport)) : result unit * fs * history :=
  exportBatch (H2 := history_git) sample_cfg sample_disk sample_remote sample_remote sample_batch order.

Lemma sample_published : (sample_run (map_to_list sample_batch)).1.1 = Ok tt.
Proof. by_vm. Qed.

Lemma exportBatch_publishes_witness :
  ∃ r2, sample_run (map_to_list sample_batch) = (Ok tt, sample_disk, r2) ∧
  ∃ w : files, head_files r2 "refs/heads/main" = Some w ∧
    w !! ["inventory"; "applications"; "a"; "x.yaml"] = Some "kind: Application".
Proof.
  pose proof one_temp_laws. pose proof sample_published as Hok.
  destruct (sample_run (map_to_list sample_batch)) as [[res d'] r2] eqn:Hrun.
  cbn in Hok. subst res.
  pose proof (@exportBatch_publishes _ _ _ _ _ history_spec _ _ _ _ _ _ _ _ _ _ _ _ sample_ready
    (Permutation_refl _) Hrun) as [-> (old & w & Hold & Hpub & Hcases)].
  pose proof (pub_write _ _ _ Hpub "inventory/applications/a/x.yaml" "kind: Application" eq_refl) as Hw.
  exists r2. split; [reflexivity|]. exists w. split; [|exact Hw].
  destruct Hcases as [[-> ->]|(_ & Hfiles & _)]; [exact Hold|exact Hfiles].
Defined.

(** There is no branch to clone. *)
Lemma failed_export_publishes_nothing_witness :
  ∃ e, exportBatch (H2 := history_git) sample_cfg sample_disk (∅ : history) sample_remote sample_batch
         (map_to_list sample_batch) = (Failed e, sample_disk, sample_remote) ∧
    e = ErrWrap "git clone" (Err "reference not found").
Proof.
  assert (Hrun : (exportBatch (H2 := history_git) sample_cfg sample_disk (∅ : history) sample_remote sample_batch
    (map_to_list sample_batch)).1 = (Failed (ErrWrap "git clone" (Err "reference not found")), sample_disk)) by by_vm.
  destruct (exportBatch _ _ _ _ _ _) as [rd r2] eqn:Heq. cbn in Hrun. subst rd.
  destruct (@failed_export_publishes_nothing _ _ _ _ history_spec _ _ _ _ _ _ _ _ _ Heq) as [Hr|(e' & w & He & _)];
    [|discriminate He].
  eexists. split; [|reflexivity]. by rewrite Hr.
Defined.

Lemma exportBatch_order_independent_witness :
  sample_run (map_to_list sample_batch) = sample_run (rev (map_to_list sample_batch)).
Proof.
  pose proof one_temp_laws.
  apply (exportBatch_order_independent _ _ _ _ _ _ _ _ _ _ sample_ready); [reflexivity|].
  symmetry. apply Permutation_rev.
Defined.
