(* ===== verification/WorkerQueue.v ===== *)
(** The queue of the batch worker over time: enqueueing goroutines and the flush
    loop as a step relation, what a flush does to the queue, and the ticker. *)
From S2P Require Import Prelude GoStrings GoPath Config ArchivePath GitBatch Fs BatchWorker BatchWorkerFacts ExportBatch.

(** ** The step relation *)

(** The queue, and the batch the flush in progress has taken. *)
Record qstate := QState { queue : batch; inflight : option batch }.

Inductive event :=
| EvEnqueue (rel : string) (op : pendingExport)
| EvTake (b : batch)
| EvPublished (b : batch)
| EvDropped (b : batch)
| EvRequeued (b : batch).

Section queue.
Context `{GoUnicode} `{OsFaults} `{TempDirs} `{GoGit}.
Implicit Types cfg : InventoryControllerConfig.

(** Some export of the batch, in some state of the disk and of the remote. *)
Definition export_result cfg (b : batch) (res : result unit) : Prop :=
  ∃ disk disk' r0 r1 r2 order, order ≡ₚ map_to_list b ∧
    exportBatch cfg disk r0 r1 b order = (res, disk', r2).

Inductive qstep cfg : qstate → event → qstate → Prop :=
| step_write s job :
    qstep cfg s (EvEnqueue (Path job) (Pending opWrite (Content job)))
      (QState (Enqueue (queue s) job) (inflight s))
| step_archive s rel :
    qstep cfg s (EvEnqueue rel (Pending opArchive "")) (QState (EnqueueArchive (queue s) rel) (inflight s))
| step_take q b q' :
    flush_take q = Some (b, q') → qstep cfg (QState q None) (EvTake b) (QState q' (Some b))
| step_drop q b :
    strings_TrimSpace (GitRepoURL cfg) = "" →
    qstep cfg (QState q (Some b)) (EvDropped b) (QState (flush_finish q b (Ok tt)) None)
| step_done q b :
    strings_TrimSpace (GitRepoURL cfg) ≠ "" → export_result cfg b (Ok tt) →
    qstep cfg (QState q (Some b)) (EvPublished b) (QState (flush_finish q b (Ok tt)) None)
| step_fail q b e :
    strings_TrimSpace (GitRepoURL cfg) ≠ "" → export_result cfg b (Failed e) →
    qstep cfg (QState q (Some b)) (EvRequeued b) (QState (flush_finish q b (Failed e)) None).

(** Executions from the empty queue; the trace lists the latest event first. *)
Inductive reachable cfg : list event → qstate → Prop :=
| reach_init : reachable cfg [] (QState ∅ None)
| reach_step tr s ev s' : reachable cfg tr s → qstep cfg s ev s' → reachable cfg (ev :: tr) s'.

(** ** Facts *)

Lemma flush_finish_failed q b e : flush_finish q b (Failed e) = b ∪ q.
Proof.
  unfold flush_finish. apply map_eq. intros k.
  apply (map_fold_weak_ind (λ r m, r !! k = (m ∪ q) !! k)).
  - by rewrite map_empty_union.
  - intros i x m r Hi IH. rewrite <- insert_union_l.
    destruct (decide (i = k)) as [->|Hne]; [by rewrite !lookup_insert_eq|].
    by rewrite !lookup_insert_ne.
Qed.

Lemma union_lookup_left (b q : batch) rel op : b !! rel = Some op → (b ∪ q) !! rel = Some op.
Proof. intros Hr. by apply lookup_union_Some_l. Qed.

Lemma union_is_Some (b q : batch) rel :
  is_Some (b !! rel) ∨ is_Some (q !! rel) → is_Some ((b ∪ q) !! rel).
Proof. rewrite lookup_union. intros [[? ->]|[? ->]]; [by destruct (q !! rel); eexists|by destruct (b !! rel); eexists]. Qed.

Definition enqueued (tr : list event) (rel : string) (op : pendingExport) : Prop :=
  EvEnqueue rel op ∈ tr.

(** The path is queued or in the batch in progress. *)
Definition held (s : qstate) (rel : string) : Prop :=
  is_Some (queue s !! rel) ∨ ∃ b, inflight s = Some b ∧ is_Some (b !! rel).

(** The event settles the path: a batch with it was published or dropped. *)
Definition settles (ev : event) (rel : string) : Prop :=
  ∃ b, (ev = EvPublished b ∨ ev = EvDropped b) ∧ is_Some (b !! rel).

Lemma step_held cfg s ev s' rel :
  qstep cfg s ev s' → held s rel → settles ev rel ∨ held s' rel.
Proof.
  intros Hstep. unfold held. destruct Hstep as [s job|s rel'|q b q' Ht|q b Hu|q b Hu Hx|q b e Hu Hx];
    cbn [queue inflight].
  - intros [Hq|Hb]; right; [left|by right]. unfold Enqueue, set_pending.
    destruct (decide (Path job = rel)) as [->|]; [by rewrite lookup_insert_eq; eexists|].
    by rewrite lookup_insert_ne.
  - intros [Hq|Hb]; right; [left|by right]. unfold EnqueueArchive, set_pending.
    destruct (decide (rel' = rel)) as [->|]; [by rewrite lookup_insert_eq; eexists|].
    by rewrite lookup_insert_ne.
  - intros [Hq|(b' & [=] & _)]. right. right. unfold flush_take in Ht. case_decide; [done|].
    injection Ht as <- <-. by exists q.
  - intros [Hq|(b' & [= <-] & Hb)]; [by right; left|]. left. exists b. by split; [right|].
  - intros [Hq|(b' & [= <-] & Hb)]; [by right; left|]. left. exists b. by split; [left|].
  - rewrite flush_finish_failed. intros [Hq|(b' & [= <-] & Hb)]; right; left; apply union_is_Some; auto.
Qed.

Lemma reach_held cfg tr s rel op :
  reachable cfg tr s → ∀ post pre, tr = post ++ EvEnqueue rel op :: pre →
  (∃ ev, ev ∈ post ∧ settles ev rel) ∨ held s rel.
Proof.
  induction 1 as [|tr s ev s' Hr IH Hstep]; intros post pre Htr; [by destruct post|].
  destruct post as [|ev' post]; injection Htr as -> ->.
  - right. left. inversion Hstep; subst; cbn; unfold Enqueue, EnqueueArchive, set_pending;
      rewrite lookup_insert_eq; by eexists.
  - destruct (IH post pre eq_refl) as [(ev & Hin & Hs)|Hheld].
    + left. exists ev. split; [by right|done].
    + destruct (step_held cfg s ev' s' rel Hstep Hheld); [|by right].
      left. exists ev'. split; [by left|done].
Qed.

(** Every operation in the queue or in a batch was enqueued. *)
Definition sound (tr : list event) (b : batch) : Prop := ∀ rel op, b !! rel = Some op → enqueued tr rel op.

Lemma sound_cons tr ev b : sound tr b → sound (ev :: tr) b.
Proof. intros Hb rel op Hr. right. by apply Hb. Qed.

Lemma sound_insert tr b rel op :
  sound tr b → sound (EvEnqueue rel op :: tr) (<[rel := op]> b).
Proof.
  intros Hb rel' op' [[<- <-]|[_ Hr]]%lookup_insert_Some; [by left|]. right. by apply Hb.
Qed.

Lemma reach_sound cfg tr s :
  reachable cfg tr s → sound tr (queue s) ∧ (∀ b, inflight s = Some b → sound tr b).
Proof.
  induction 1 as [|tr s ev s' Hr [IHq IHb] Hstep]; [by split|].
  destruct Hstep as [s job|s rel|q b q' Ht|q b Hu|q b Hu Hx|q b e Hu Hx]; cbn [queue inflight] in *.
  - split; [by apply sound_insert|]. intros b Hb. by apply sound_cons, IHb.
  - split; [by apply sound_insert|]. intros b Hb. by apply sound_cons, IHb.
  - unfold flush_take in Ht. case_decide; [done|]. injection Ht as <- <-.
    split; [done|]. intros b [= <-]. by apply sound_cons.
  - split; [by apply sound_cons|done].
  - split; [by apply sound_cons|done].
  - rewrite flush_finish_failed. split; [|done]. intros rel op Hr'.
    apply sound_cons with (b := b ∪ q); [|done]. clear rel op Hr'. intros rel op Hr'.
    apply lookup_union_Some_raw in Hr' as [Hb|[_ Hq]]; [by apply (IHb b)|by apply IHq].
Qed.

(** The last operation per path since the last take. *)
Fixpoint latest (tr : list event) : batch :=
  match tr with
  | [] => ∅
  | EvEnqueue rel op :: tr' => <[rel := op]> (latest tr')
  | EvTake _ :: _ => ∅
  | _ :: tr' => latest tr'
  end.

Definition no_failure (tr : list event) : Prop := ∀ b, EvRequeued b ∉ tr.

Lemma reach_latest cfg tr s : reachable cfg tr s → no_failure tr → queue s = latest tr.
Proof.
  induction 1 as [|tr s ev s' Hr IH Hstep]; [done|]. intros Hno.
  assert (Hno' : no_failure tr) by (intros b Hb; apply (Hno b); by right).
  specialize (IH Hno').
  destruct Hstep as [s job|s rel|q b q' Ht|q b Hu|q b Hu Hx|q b e Hu Hx]; cbn [queue inflight latest] in *.
  - unfold Enqueue, set_pending. by rewrite IH.
  - unfold EnqueueArchive, set_pending. by rewrite IH.
  - unfold flush_take in Ht. case_decide; [done|]. by injection Ht as _ <-.
  - done.
  - done.
  - destruct (Hno b). by left.
Qed.
End queue.

Section claims.
Context `{GoUnicode} `{OsFaults} `{TempDirs} `{GoGit}.
Implicit Types cfg : InventoryControllerConfig.

(** C23: no export is forgotten. At any time of any interleaving of enqueues with
    the steps of the flush loop, an operation enqueued earlier has either been
    settled since, by a batch with its path that was published (or dropped
    because no repository is configured), or its path is still queued or in the
    batch in progress; and whatever is queued or in progress was enqueued. *)
Theorem enqueued_never_forgotten cfg post pre rel op s :
  reachable cfg (post ++ EvEnqueue rel op :: pre) s →
  ((∃ ev, ev ∈ post ∧ settles ev rel) ∨ held s rel) ∧
  (∀ rel' op', queue s !! rel' = Some op' ∨ (∃ b, inflight s = Some b ∧ b !! rel' = Some op') →
     enqueued (post ++ EvEnqueue rel op :: pre) rel' op').
Proof.
  intros Hr. split; [by eapply reach_held|].
  destruct (reach_sound _ _ _ Hr) as [Hq Hb].
  intros rel' op' [Hl|(b & Hin & Hl)]; [by apply Hq|by eapply Hb].
Qed.

(** Last write wins, as long as no flush fails: in every execution without a
    failed flush the queue holds, for each path, the latest operation enqueued
    since the flush loop last took the queue. *)
Theorem last_write_wins cfg tr s :
  reachable cfg tr s → no_failure tr → queue s = latest tr.
Proof. apply reach_latest. Qed.

(** C39: a failed flush loses the operations enqueued while it ran: when an export
    of a path fails after a newer operation on the path was enqueued, the queue
    goes back to the older operation. *)
Theorem failed_flush_restores_stale cfg rel old new :
  strings_TrimSpace (GitRepoURL cfg) ≠ "" →
  (∃ e, export_result cfg {[ rel := Pending opWrite old ]} (Failed e)) →
  ∃ s, reachable cfg
      [EvRequeued {[ rel := Pending opWrite old ]}; EvEnqueue rel (Pending opWrite new);
       EvTake {[ rel := Pending opWrite old ]}; EvEnqueue rel (Pending opWrite old)] s ∧
    queue s !! rel = Some (Pending opWrite old) ∧ inflight s = None ∧
    latest [EvRequeued {[ rel := Pending opWrite old ]}; EvEnqueue rel (Pending opWrite new);
       EvTake {[ rel := Pending opWrite old ]}; EvEnqueue rel (Pending opWrite old)] !! rel
      = Some (Pending opWrite new).
Proof.
  intros Hurl [e He]. set (b := {[ rel := Pending opWrite old ]} : batch).
  exists (QState (flush_finish (Enqueue ∅ (Job rel new)) b (Failed e)) None).
  split; [|split; [|split; [done|cbn; by rewrite lookup_insert_eq]]].
  - eapply reach_step; [|by apply (step_fail _ _ b e)].
    eapply reach_step; [|apply (step_write _ (QState ∅ (Some b)) (Job rel new))].
    eapply reach_step; [|apply (step_take _ b b ∅)].
    + eapply reach_step; [apply reach_init|apply (step_write _ (QState ∅ None) (Job rel old))].
    + unfold flush_take. rewrite decide_False; [done|]. apply map_non_empty_singleton.
  - cbn [queue]. rewrite flush_finish_failed. apply union_lookup_left. apply lookup_singleton_eq.
Qed.

(** ** One flush *)

(** C31: what a flush does to the queue and to the outside, in each of its cases:
    an empty queue is left alone; without a repository URL the batch is dropped
    and nothing else happens; after a successful export the queue has what was
    enqueued meanwhile; after a failed one every operation of the batch is queued
    again, in place of any newer one on its path that was enqueued meanwhile, and
    together with those enqueued meanwhile on other paths. *)
Theorem flush_correct cfg disk r0 r1 pending order during pending' disk' r2 :
  flush cfg disk r0 r1 pending order during = (pending', disk', r2) →
  if decide (pending = ∅) then pending' = during pending ∧ disk' = disk ∧ r2 = r1
  else if decide (strings_TrimSpace (GitRepoURL cfg) = "")
  then pending' = during ∅ ∧ disk' = disk ∧ r2 = r1
  else ∃ res, exportBatch cfg disk r0 r1 pending (order pending) = (res, disk', r2) ∧
    if is_ok res then pending' = during ∅
    else ∀ rel, pending' !! rel = match pending !! rel with
                                  | Some op => Some op
                                  | None => during ∅ !! rel
                                  end.
Proof.
  unfold flush, flush_take, flush_export. destruct (decide (pending = ∅)) as [Hp|Hp].
  { by intros [= <- <- <-]. }
  destruct (decide (strings_TrimSpace (GitRepoURL cfg) = "")) as [Hu|Hu].
  { by intros [= <- <- <-]. }
  destruct (exportBatch _ _ _ _ _ _) as [[res d] r] eqn:Hexp. intros [= <- <- <-].
  exists res. split; [done|]. destruct res as [[]|e]; [done|]. cbn [is_ok]. intros rel.
  rewrite flush_finish_failed, lookup_union. by destruct (pending !! rel), (during ∅ !! rel).
Qed.

(** ** An operation that can never succeed *)

Lemma apply_ops_poison dir d order rel op :
  (rel, op) ∈ order → (∀ d, is_ok (apply_op dir d rel op) = false) →
  ∃ e d', apply_ops dir d order = (Failed e, d').
Proof.
  intros Hin Hbad. revert d. induction order as [|[rel' op'] order IH]; intros d; [by inversion Hin|].
  cbn [apply_ops]. apply elem_of_cons in Hin as [Heq|Hin].
  - injection Heq as <- <-. specialize (Hbad d). destruct (apply_op dir d rel op); [done|by do 2 eexists].
  - destruct (apply_op dir d rel' op'); [by apply IH|by do 2 eexists].
Qed.

Lemma archive_poison dir d rel c :
  strings_HasPrefix rel "inventory/" = false →
  is_ok (apply_op dir d rel (Pending opArchive c)) = false.
Proof.
  intros Hp. unfold apply_op, archiveInventoryFileInClone, ArchiveRelativePath, inventoryPrefix.
  cbn [kind]. by rewrite Hp.
Qed.

Lemma export_poison cfg disk r0 r1 b order rel op :
  b !! rel = Some op → order ≡ₚ map_to_list b → (∀ dir d, is_ok (apply_op dir d rel op) = false) →
  ∃ e disk', exportBatch cfg disk r0 r1 b order = (Failed e, disk', r1).
Proof.
  intros Hb Hperm Hbad. unfold exportBatch, export_in.
  destruct (os_MkdirTemp disk) as [dir|e]; [|by do 2 eexists].
  destruct (git_PlainClone _ _) as [[rp tree]|e]; [|by do 2 eexists].
  assert (Hin : (rel, op) ∈ order) by (rewrite Hperm; by apply elem_of_map_to_list).
  destruct (apply_ops_poison dir (place (fs_key dir) tree (<[fs_key dir := NDir]> disk)) order rel op
    Hin (Hbad dir)) as (e & d' & ->). by do 2 eexists.
Qed.

(** One operation that cannot succeed blocks the worker for good: once the
    archive of a path outside inventory/ is queued (a template may well render
    such paths), no flush ever publishes anything again: after any number of
    ticks the remote is what it was, and every operation queued at the start is
    still queued. *)
Theorem archive_outside_inventory_blocks cfg rel c order during wakes q0 q disk disk' r r' :
  strings_TrimSpace (GitRepoURL cfg) ≠ "" →
  q0 !! rel = Some (Pending opArchive c) → strings_HasPrefix rel "inventory/" = false →
  (∀ b, order b ≡ₚ map_to_list b) →
  run_ticks (λ s, flush cfg s.1.2 s.2 s.2 s.1.1 order during) (q0, disk, r) wakes = (q, disk', r') →
  r' = r ∧ ∀ rel' op, q0 !! rel' = Some op → q !! rel' = Some op.
Proof.
  intros Hurl Hq0 Hpre Hord. revert q0 disk Hq0.
  induction wakes as [|[] wakes IH]; intros q0 disk Hq0; cbn [run_ticks].
  - by intros [= -> -> ->].
  - by intros [= -> -> ->].
  - cbn [fst snd]. destruct (flush cfg disk r r q0 order during) as [[q1 d1] r1] eqn:Hf.
    apply flush_correct in Hf. rewrite decide_False in Hf by (intros ->; done).
    rewrite decide_False in Hf by done. destruct Hf as (res & Hexp & Hq1).
    destruct (export_poison cfg disk r r q0 (order q0) rel _ Hq0 (Hord q0)) as (e & d2 & Hbad).
    { intros dir d. by apply archive_poison. }
    rewrite Hbad in Hexp. injection Hexp as <- <- <-. cbn [is_ok] in Hq1.
    intros Hrun. destruct (IH q1 d2) as [-> Hkeep]; [by rewrite Hq1, Hq0|done|].
    split; [done|]. intros rel' op Hr. apply Hkeep. by rewrite Hq1, Hr.
Qed.

(** C40: a worker started with a setting that LoadInventoryControllerConfig accepts
    can panic: BATCH_INTERVAL_SECONDS=9223372037 is at least 1, but its product
    by a second wraps to a negative interval, which time.NewTicker refuses;
    settings from 1 to 9223372036 never panic. *)
Theorem accepted_interval_can_panic tick s wakes :
  (∃ cfg, LoadInventoryControllerConfig {[ envBatchIntervalSeconds := "9223372037" ]} = Ok cfg ∧
     Start cfg tick s wakes = None) ∧
  (∀ env cfg sec, LoadInventoryControllerConfig env = Ok cfg →
     atoi (os_Getenv env envBatchIntervalSeconds) = inl sec → (sec <= 9223372036)%Z →
     Start cfg tick s wakes = Some (run_ticks tick s wakes)).
Proof.
  split.
  - eexists. split; [by vm_compute|]. done.
  - intros env cfg sec Hload Hsec Hmax. unfold Start. rewrite (proj2 (Z.leb_gt _ _)); [done|].
    revert Hload. unfold LoadInventoryControllerConfig, load_BatchInterval, strconv_Atoi. rewrite Hsec.
    destruct (decide (os_Getenv env envBatchIntervalSeconds ≠ "")) as [Hv|Hv];
      cbn [mbind result_bind wrap_err]; [|by intros <-%Ok_inj].
    destruct (Z.ltb_spec sec 1); cbn [mbind result_bind]; [done|]. intros <-%Ok_inj. cbn [BatchInterval].
    rewrite (proj2 (mul_second_exact sec ltac:(lia)) Hmax). lia.
Qed.

(** Exporting an object again after its deletion was archived does not touch
    the archived file: when the branch has the archived copy and a batch with the
    object's new document is exported with success, the branch then has the new
    document at the live path and still the stale copy under inventory/archive/. *)
Theorem recreated_object_keeps_archive `{!TempDirsLaws} `{!GoGitSpec}
    cfg disk dir r0 r1 rp tree b order disk' r2 old rel c stale :
  export_ready cfg disk dir r0 rp tree b → order ≡ₚ map_to_list b →
  exportBatch cfg disk r0 r1 b order = (Ok tt, disk', r2) →
  b !! rel = Some (Pending opWrite c) →
  let ref := NewBranchReferenceName (branch_of cfg) in
  branch_files r0 ref = Some old → old !! archive_key rel = Some stale →
  ∃ w, (branch_files r2 ref = Some w ∨ branch_files r0 ref = Some w ∧ r2 = r1) ∧
    w !! live_key rel = Some c ∧ w !! archive_key rel = Some stale.
Proof.
  intros Hready Hperm Hexp Hr ref Hold Hstale. pose proof (batch_paths _ _ _ _ _ _ _ Hready) as Hb.
  destruct (exportBatch_outcome _ _ _ _ _ _ _ _ _ _ _ _ Hready Hperm Hexp) as (_ & old' & w & Hold' & Hpub & Hcase).
  fold ref in Hold', Hcase. rewrite Hold in Hold'. injection Hold' as <-.
  exists w. split; [destruct Hcase as [[-> ->]|(_ & Hw & _)]; auto|].
  split; [by apply (pub_write _ _ _ Hpub)|].
  rewrite (pub_other _ _ _ Hpub); [done|]. intros rel' op' Hr'.
  pose proof (Hb _ _ Hr) as Hi. pose proof (Hb _ _ Hr') as Hi'.
  split; [by apply archive_not_live|]. intros Hk Heq%archive_key_inj; [|done|done].
  subst rel'. rewrite Hr in Hr'. injection Hr' as <-. done.
Qed.
End claims.

(** ** Witnesses *)

#[local] Existing Instances history_git one_temp no_faults ascii_tables.

Definition no_branches : remote := (∅ : history).
Definition one_branch : remote := sample_remote.

Definition one_write (c : string) : batch := {[ "inventory/applications/a/x.yaml" := Pending opWrite c ]}.

(** An export from an empty remote fails at the clone. *)
Lemma sample_failure b : export_result sample_cfg b (Failed (ErrWrap "git clone" (Err "reference not found"))).
Proof.
  exists sample_disk, sample_disk, no_branches, no_branches, no_branches, (map_to_list b).
  split; [done|]. unfold exportBatch.
  assert (Ht : os_MkdirTemp sample_disk = Ok "/tmp/x") by by_vm. rewrite Ht.
  assert (Hrm : os_RemoveAll (<[fs_key "/tmp/x" := NDir]> sample_disk) "/tmp/x" = sample_disk) by by_vm.
  change (export_in "/tmp/x" sample_cfg (<[fs_key "/tmp/x":=NDir]> sample_disk) no_branches no_branches b
    (map_to_list b)) with
    (Failed (A := unit) (ErrWrap "git clone" (Err "reference not found")),
     (<[fs_key "/tmp/x":=NDir]> sample_disk), no_branches).
  cbv beta iota. rewrite Hrm. reflexivity.
Qed.

Lemma sample_trace : reachable sample_cfg
  ([EvTake (one_write "new")] ++ EvEnqueue "inventory/applications/a/x.yaml" (Pending opWrite "new") ::
   [EvEnqueue "inventory/applications/a/x.yaml" (Pending opWrite "old")])
  (QState ∅ (Some (one_write "new"))).
Proof.
  eapply reach_step; [|apply (step_take _ (one_write "new") (one_write "new") ∅)].
  - eapply reach_step; [|apply (step_write _ (QState (one_write "old") None)
      (Job "inventory/applications/a/x.yaml" "new"))].
    eapply reach_step; [apply reach_init|].
    apply (step_write _ (QState ∅ None) (Job "inventory/applications/a/x.yaml" "old")).
  - by_vm.
Qed.

Lemma enqueued_never_forgotten_witness :
  held (QState ∅ (Some (one_write "new"))) "inventory/applications/a/x.yaml".
Proof.
  destruct (enqueued_never_forgotten _ _ _ _ _ _ sample_trace) as [[(ev & Hin & b & Hev & _)|Hheld] _];
    [|exact Hheld].
  apply list_elem_of_singleton in Hin. subst ev. destruct Hev; discriminate.
Defined.

Lemma last_write_wins_witness :
  queue (QState ∅ (Some (one_write "new"))) = latest [EvTake (one_write "new");
    EvEnqueue "inventory/applications/a/x.yaml" (Pending opWrite "new");
    EvEnqueue "inventory/applications/a/x.yaml" (Pending opWrite "old")].
Proof.
  refine (last_write_wins _ _ _ sample_trace _).
  intros b Hb. apply list_elem_of_In in Hb. destruct Hb as [H|[H|[H|[]]]]; discriminate H.
Defined.

Lemma failed_flush_restores_stale_witness :
  ∃ tr s, reachable sample_cfg tr s ∧
    queue s !! "inventory/applications/a/x.yaml" = Some (Pending opWrite "old") ∧
    latest tr !! "inventory/applications/a/x.yaml" = Some (Pending opWrite "new").
Proof.
  destruct (failed_flush_restores_stale sample_cfg "inventory/applications/a/x.yaml" "old" "new")
    as (s & Hr & Hq & _ & Hl); [discriminate|eexists; apply sample_failure|].
  do 2 eexists. split; [exact Hr|]. split; [exact Hq|exact Hl].
Defined.

(** While the export of an old document fails, a newer one is queued for its path
    and another for another path: the old one and the latter are in the queue. *)
Lemma flush_correct_witness :
  let during q := Enqueue (Enqueue q (Job "inventory/applications/a/x.yaml" "new"))
                    (Job "inventory/applications/a/y.yaml" "y") in
  let f := flush sample_cfg sample_disk no_branches no_branches (one_write "old") map_to_list during in
  f.1.1 !! "inventory/applications/a/x.yaml" = Some (Pending opWrite "old") ∧
  f.1.1 !! "inventory/applications/a/y.yaml" = Some (Pending opWrite "y") ∧ f.2 = no_branches.
Proof.
  intros during f. subst f.
  destruct (flush sample_cfg sample_disk no_branches no_branches (one_write "old") map_to_list during)
    as [[q d] r2] eqn:Hrun0. pose proof (flush_correct _ _ _ _ _ _ _ _ _ _ Hrun0) as Hf. cbn [fst snd].
  rewrite decide_False in Hf by apply map_non_empty_singleton. rewrite decide_False in Hf by discriminate.
  destruct Hf as (res & Hexp & Hq).
  assert (Hrun : (exportBatch sample_cfg sample_disk no_branches no_branches (one_write "old")
    (map_to_list (one_write "old"))).1.1 = Failed (ErrWrap "git clone" (Err "reference not found")) ∧
    (exportBatch sample_cfg sample_disk no_branches no_branches (one_write "old")
    (map_to_list (one_write "old"))).2 = no_branches) by (split; by_vm).
  rewrite Hexp in Hrun. destruct Hrun as [Hres Hr]. cbn [fst snd] in Hres, Hr. rewrite Hres in Hq. cbn [is_ok] in Hq.
  rewrite !Hq. split; [reflexivity|]. split; [reflexivity|exact Hr].
Defined.

Lemma archive_outside_inventory_blocks_witness :
  (run_ticks (λ s, flush sample_cfg s.1.2 s.2 s.2 s.1.1 map_to_list id)
    ({[ "apps/x.yaml" := Pending opArchive "" ]}, sample_disk, one_branch) [Tick; Tick]).2
  = one_branch.
Proof.
  destruct (run_ticks (λ s, flush sample_cfg s.1.2 s.2 s.2 s.1.1 map_to_list id)
    ({[ "apps/x.yaml" := Pending opArchive "" ]}, sample_disk, one_branch) [Tick; Tick])
    as [[q d] r] eqn:Hrun.
  refine (proj1 (archive_outside_inventory_blocks sample_cfg "apps/x.yaml" "" _ _ _ _ _ _ _ _ _ _ _ _ _ Hrun));
    [discriminate|reflexivity|reflexivity|reflexivity].
Defined.

Lemma accepted_interval_can_panic_witness :
  Start sample_cfg id (∅, sample_disk, one_branch) [Tick] = Some (∅, sample_disk, one_branch).
Proof.
  exact (proj2 (accepted_interval_can_panic id (∅, sample_disk, one_branch) [Tick])
    (<[envBatchIntervalSeconds := "10"]> (<[envGitRepoURL := GitRepoURL sample_cfg]>
      (<[envGitAccessToken := "t"]> ∅))) sample_cfg 10%Z eq_refl eq_refl ltac:(discriminate)).
Defined.

(** A branch that has the archived copy of an object, and a batch that exports it. *)
Definition x_rel : string := "inventory/applications/a/x.yaml".
Definition archived_files : files := {[ archive_key x_rel := "old" ]}.
Definition archived_remote : history := {[ "refs/heads/main" := [("init", archived_files)] ]}.
Definition archived_tree : fs := tree_of archived_files.
Definition archived_clone : local_repo := LocalRepo "refs/heads/main" archived_files None.

Lemma archived_cloned : history_clone archived_remote (clone_options sample_cfg) = Ok (archived_clone, archived_tree).
Proof. by_vm. Qed.

Lemma archived_tree_files k c : archived_tree !! k = Some (NFile c) → k = archive_key x_rel.
Proof.
  assert (Hall : bool_decide (map_Forall (λ k n, n = NDir ∨ k = archive_key x_rel) archived_tree) = true) by by_vm.
  apply bool_decide_eq_true in Hall. intros Hk. by destruct (Hall _ _ Hk).
Qed.

Lemma archived_live : archived_tree !! live_key x_rel = None.
Proof. by_vm. Qed.
Lemma archived_copy : archived_tree !! archive_key x_rel = Some (NFile "old").
Proof. by_vm. Qed.

Lemma one_write_rels c : inventory_batch (one_write c).
Proof.
  unfold one_write. intros rel op [<- _]%lookup_singleton_Some. exists "applications", "a", "x".
  by split; [left|].
Qed.

Lemma archived_ready :
  export_ready sample_cfg sample_disk "/tmp/x" archived_remote archived_clone archived_tree (one_write "new").
Proof.
  destruct (history_clone_inv _ _ _ _ archived_cloned) as (m & f & h & _ & _ & Hwf & Hroot & _).
  split.
  - intros op p. reflexivity.
  - apply (wf_check_spec sample_disk). by_vm.
  - by_vm.
  - exact archived_cloned.
  - exact Hwf.
  - exact Hroot.
  - apply one_write_rels.
  - unfold one_write. intros rel op [<- _]%lookup_singleton_Some. fold x_rel. split.
    + split; [|intros Hx; pose proof (eq_trans (eq_sym archived_live) Hx) as Heq; discriminate Heq].
      intros q r Hq Hqn Hrn c Hc%archived_tree_files. subst q. discriminate Hq.
    + split; [|intros Hx; pose proof (eq_trans (eq_sym archived_copy) Hx) as Heq; discriminate Heq].
      intros q r Hq Hqn Hrn c Hc%archived_tree_files. subst q.
      apply Hrn. by apply (app_inv_head (archive_key x_rel)); rewrite app_nil_r.
Qed.

Lemma recreated_object_keeps_archive_witness :
  ∃ r2 (w : files), exportBatch (H2 := history_git) sample_cfg sample_disk archived_remote archived_remote
      (one_write "new") (map_to_list (one_write "new")) = (Ok tt, sample_disk, r2) ∧
    w !! live_key x_rel = Some "new" ∧ w !! archive_key x_rel = Some "old".
Proof.
  pose proof one_temp_laws as laws.
  assert (Hok : (exportBatch (H2 := history_git) sample_cfg sample_disk archived_remote archived_remote
      (one_write "new") (map_to_list (one_write "new"))).1 = (Ok tt, sample_disk)) by by_vm.
  destruct (exportBatch (H2 := history_git) sample_cfg sample_disk archived_remote archived_remote
      (one_write "new") (map_to_list (one_write "new"))) as [[res d'] r2] eqn:Hrun.
  injection Hok as -> ->. exists r2.
  destruct (@recreated_object_keeps_archive _ _ _ _ _ history_spec _ _ _ _ _ _ _ _ _ _ _ archived_files
    x_rel "new" "old" archived_ready (Permutation_refl _) Hrun eq_refl eq_refl eq_refl) as (w & _ & Hl & Ha).
  exists w. split; [reflexivity|]. split; [exact Hl|exact Ha].
Defined.
