(* ===== verification/HashCache.v ===== *)
(** internal/inventory/hashcache.go: the hash last exported per object. Every
    method holds the lock for its whole body, so each is one atomic step on the
    map. *)
From S2P Require Import Prelude GoStrings GoPath ExportPath InventoryPath.

Abbreviation HashCache := (gmap string string).

Definition NewHashCache : HashCache := ∅.

Definition Get (c : HashCache) (k : string) : option string := c !! k.

Definition Set_ (c : HashCache) (k hash : string) : HashCache := <[k := hash]> c.

Definition Delete (c : HashCache) (k : string) : HashCache := delete k c.

Definition ExportObjectCacheKey `{GoUnicode} (kind namespace name : string) : string :=
  ArgoPluralKind kind +:+ "/" +:+ namespace +:+ "/" +:+ name.

Definition argo_kind (kind : string) : Prop := kind = "Application" ∨ kind = "ApplicationSet".

(** The shape of an object's name and namespace: no slash. *)
Definition k8s_segment (s : string) : Prop := no_char slash_char s = true.

Lemma ArgoPluralKind_inj `{GoUnicode} kind kind' :
  argo_kind kind → argo_kind kind' → ArgoPluralKind kind = ArgoPluralKind kind' → kind = kind'.
Proof. intros [-> | ->] [-> | ->]; done. Qed.

Lemma plural_no_slash `{GoUnicode} kind : argo_kind kind → k8s_segment (ArgoPluralKind kind).
Proof. by intros [-> | ->]. Qed.

Lemma segments_inj a b c a' b' c' :
  k8s_segment a → k8s_segment b → k8s_segment c → k8s_segment a' → k8s_segment b' → k8s_segment c' →
  a +:+ "/" +:+ b +:+ "/" +:+ c = a' +:+ "/" +:+ b' +:+ "/" +:+ c' → a = a' ∧ b = b' ∧ c = c'.
Proof.
  intros Ha Hb Hc Ha' Hb' Hc' Heq.
  change (strings_Join [a; b; c] slash = strings_Join [a'; b'; c'] slash) in Heq.
  apply (f_equal (λ s, strings_Split s slash)) in Heq.
  rewrite !(split_join slash_char) in Heq by (done || by repeat constructor). by injection Heq.
Qed.

Lemma cache_key_inj `{GoUnicode} kind ns name kind' ns' name' :
  argo_kind kind → argo_kind kind' →
  k8s_segment ns → k8s_segment name → k8s_segment ns' → k8s_segment name' →
  ExportObjectCacheKey kind ns name = ExportObjectCacheKey kind' ns' name' →
  kind = kind' ∧ ns = ns' ∧ name = name'.
Proof.
  intros Hk Hk' Hns Hn Hns' Hn' Heq.
  apply segments_inj in Heq as (Hp & -> & ->); try done; try by apply plural_no_slash.
  by apply ArgoPluralKind_inj in Hp as ->.
Qed.

Lemma export_path_inj plural ns name plural' ns' name' :
  k8s_segment plural → k8s_segment ns → k8s_segment name →
  k8s_segment plural' → k8s_segment ns' → k8s_segment name' →
  export_path plural ns name = export_path plural' ns' name' →
  plural = plural' ∧ ns = ns' ∧ name = name'.
Proof.
  intros Hp Hns Hn Hp' Hns' Hn'. unfold export_path. intros Heq%(sapp_inv_l "inventory/").
  apply (segments_inj plural ns (name +:+ ".yaml") plural' ns' (name' +:+ ".yaml")) in Heq
    as (-> & -> & Heq%sapp_inv_r); try done; unfold k8s_segment; rewrite no_char_app; by rewrite ?Hn, ?Hn'.
Qed.

(** Distinct objects never share a slot of the cache nor a file of the
    repository: on objects of the two Argo kinds, whose names and namespaces have
    no slash, both the cache key and the default export path are injective. *)
Theorem objects_do_not_collide `{GoUnicode} `{TextTemplate} kind ns name kind' ns' name' :
  argo_kind kind → argo_kind kind' →
  k8s_segment ns → k8s_segment name → k8s_segment ns' → k8s_segment name' →
  (kind, ns, name) ≠ (kind', ns', name') →
  ExportObjectCacheKey kind ns name ≠ ExportObjectCacheKey kind' ns' name' ∧
  RenderExportPath Config.defaultExportPathTemplate kind ns name ≠
  RenderExportPath Config.defaultExportPathTemplate kind' ns' name'.
Proof.
  intros Hk Hk' Hns Hn Hns' Hn' Hne. split.
  - intros Heq%cache_key_inj; try done. naive_solver.
  - rewrite !render_default. intros Heq%Ok_inj%export_path_inj; try done; try by apply plural_no_slash.
    destruct Heq as (Hp & -> & ->). apply ArgoPluralKind_inj in Hp as ->; done.
Qed.

Lemma objects_do_not_collide_witness :
  let _ := ascii_tables in let _ := fragment_engine in
  ExportObjectCacheKey "Application" "a" "x" ≠ ExportObjectCacheKey "ApplicationSet" "a" "x".
Proof.
  intros tables engine.
  refine (proj1 (objects_do_not_collide "Application" "a" "x" "ApplicationSet" "a" "x"
    (or_introl eq_refl) (or_intror eq_refl) eq_refl eq_refl eq_refl eq_refl _)).
  discriminate.
Defined.
