(* ===== verification/Reconciler.v ===== *)
(** internal/inventory/reconciler.go: the reconcilers of Applications and
    ApplicationSets, on the hash cache and the queue of the batch worker. *)
From S2P Require Import Prelude GoStrings GoPath GoCrypto GoMap GoJson GoJsonFacts Config ExportPath InventoryPath ConfigMapMaterial Normalize HashCache GitBatch BatchWorker.

(** ** Interfaces *)

(** [obj.GetAnnotations()]: [None] is the nil map. *)
Class ClientObject (O : Type) := { GetAnnotations : O → option (list (string * string)) }.

(** [client.Client.Get] into an unstructured object of the kind, on the cluster as
    it is at the time of the call. *)
Definition client_reader (O : Type) : Type := GroupVersionKind → string → string → result O.

(** The state behind [ReconcileDeps]: its Cache, and the pending map of its GitQueue. *)
Record rstate := RState { Cache : HashCache; GitQueue : batch }.

Section reconcile.
Context `{GoUnicode} `{TextTemplate} `{Float64} `{JsonMessages} `{SigsYaml}.
Context {O : Type} `{!RuntimeObject O} `{!ClientObject O}.

(** The annotation on the object equals the hash. *)
Definition annotation_matches (obj : O) (currentHash : string) : bool :=
  match GetAnnotations obj with
  | Some ann => bool_decide (amap_get SyncContentHashAnnotationKey ann = Some currentHash)
  | None => false
  end.

Definition handle (ExportPathTmpl : string) (s : rstate) (namespace name : string) (obj : O)
    (kind : string) : result unit * rstate :=
  match NormalizedYAMLAndMaterialHash obj with
  | Failed e => (Failed (ErrWrap "normalize and hash object" e), s)
  | Ok (yamlBytes, currentHash) =>
      let cacheKey := ExportObjectCacheKey kind namespace name in
      if annotation_matches obj currentHash then (Ok tt, s)
      else if bool_decide (Get (Cache s) cacheKey = Some currentHash) then (Ok tt, s)
      else
        let s := RState (Set_ (Cache s) cacheKey currentHash) (GitQueue s) in
        match RenderExportPath ExportPathTmpl kind namespace name with
        | Failed e => (Failed (ErrWrap "render export path" e), s)
        | Ok relPath => (Ok tt, RState (Cache s) (Enqueue (GitQueue s) (Job relPath yamlBytes)))
        end
  end.

(** [ApplicationReconciler.Reconcile] *)
Definition Reconcile_Application (client_Get : client_reader O) (ExportPathTmpl : string) (s : rstate)
    (namespace name : string) : result unit * rstate :=
  match client_Get ApplicationGVK namespace name with
  | Failed err =>
      if IsNotFound err then
        let s := RState (Delete (Cache s) (ExportObjectCacheKey "Application" namespace name))
                   (GitQueue s) in
        match RenderExportPath ExportPathTmpl "Application" namespace name with
        | Failed pathErr => (Failed (ErrWrap "render export path for delete" pathErr), s)
        | Ok relPath => (Ok tt, RState (Cache s) (EnqueueArchive (GitQueue s) relPath))
        end
      else (Failed (ErrWrap "failed to get Application" err), s)
  | Ok u => handle ExportPathTmpl s namespace name u "Application"
  end.

(** [ApplicationSetReconciler.Reconcile] *)
Definition Reconcile_ApplicationSet (client_Get : client_reader O) (ExportPathTmpl : string) (s : rstate)
    (namespace name : string) : result unit * rstate :=
  match client_Get ApplicationSetGVK namespace name with
  | Failed err =>
      if IsNotFound err then
        let s := RState (Delete (Cache s) (ExportObjectCacheKey "ApplicationSet" namespace name))
                   (GitQueue s) in
        match RenderExportPath ExportPathTmpl "ApplicationSet" namespace name with
        | Failed pathErr => (Failed (ErrWrap "render export path for delete" pathErr), s)
        | Ok relPath => (Ok tt, RState (Cache s) (EnqueueArchive (GitQueue s) relPath))
        end
      else (Failed (ErrWrap "failed to get ApplicationSet" err), s)
  | Ok u => handle ExportPathTmpl s namespace name u "ApplicationSet"
  end.
End reconcile.

(** ** Facts *)

Section facts.
Context `{GoUnicode} `{TextTemplate} `{Float64} `{JsonMessages} `{SigsYaml}.
Context {O : Type} `{!RuntimeObject O} `{!ClientObject O}.
Implicit Types s : rstate.

(** The controller a request goes to, and what it reads. *)
Definition Reconcile (kind : string) : client_reader O → string → rstate → string → string → result unit * rstate :=
  if decide (kind = "Application") then Reconcile_Application else Reconcile_ApplicationSet.
Definition kind_gvk (kind : string) : GroupVersionKind :=
  if decide (kind = "Application") then ApplicationGVK else ApplicationSetGVK.

(** Both controllers at once. *)
Ltac by_kind :=
  intros [-> | ->]; unfold Reconcile, kind_gvk; [rewrite !decide_True by done|rewrite !decide_False by done].

Definition default_path (kind ns name : string) : string := export_path (ArgoPluralKind kind) ns name.

Lemma reconcile_found kind get tmpl s ns name obj :
  argo_kind kind → get (kind_gvk kind) ns name = Ok obj →
  Reconcile kind get tmpl s ns name = handle tmpl s ns name obj kind.
Proof.
  by_kind; intros Hget.
  - unfold Reconcile_Application. by rewrite Hget.
  - unfold Reconcile_ApplicationSet. by rewrite Hget.
Qed.

Lemma reconcile_gone_any kind get tmpl s ns name e :
  argo_kind kind → get (kind_gvk kind) ns name = Failed e → IsNotFound e = true →
  Reconcile kind get tmpl s ns name =
  let s := RState (Delete (Cache s) (ExportObjectCacheKey kind ns name)) (GitQueue s) in
  match RenderExportPath tmpl kind ns name with
  | Failed pathErr => (Failed (ErrWrap "render export path for delete" pathErr), s)
  | Ok relPath => (Ok tt, RState (Cache s) (EnqueueArchive (GitQueue s) relPath))
  end.
Proof.
  by_kind; intros Hget He.
  - unfold Reconcile_Application. by rewrite Hget, He.
  - unfold Reconcile_ApplicationSet. by rewrite Hget, He.
Qed.

Lemma reconcile_gone kind get s ns name e :
  argo_kind kind → get (kind_gvk kind) ns name = Failed e → IsNotFound e = true →
  Reconcile kind get defaultExportPathTemplate s ns name =
  (Ok tt, RState (Delete (Cache s) (ExportObjectCacheKey kind ns name))
            (EnqueueArchive (GitQueue s) (default_path kind ns name))).
Proof. intros Hk Hget He. by rewrite (reconcile_gone_any _ _ _ _ _ _ e Hk Hget He), render_default. Qed.

Lemma reconcile_failed kind get tmpl s ns name e :
  argo_kind kind → get (kind_gvk kind) ns name = Failed e → IsNotFound e = false →
  Reconcile kind get tmpl s ns name = (Failed (ErrWrap ("failed to get " +:+ kind) e), s).
Proof.
  by_kind; intros Hget He.
  - unfold Reconcile_Application. by rewrite Hget, He.
  - unfold Reconcile_ApplicationSet. by rewrite Hget, He.
Qed.

Lemma same_object kind ns name kind' ns' name' :
  argo_kind kind → argo_kind kind' →
  k8s_segment ns → k8s_segment name → k8s_segment ns' → k8s_segment name' →
  (ExportObjectCacheKey kind ns name = ExportObjectCacheKey kind' ns' name' ↔
   default_path kind ns name = default_path kind' ns' name').
Proof.
  intros Hk Hk' Hns Hn Hns' Hn'. split.
  - intros (-> & -> & ->)%cache_key_inj; done.
  - unfold default_path. intros (Hp & -> & ->)%export_path_inj; try done; try by apply plural_no_slash.
    by apply ArgoPluralKind_inj in Hp as ->.
Qed.

End facts.

Section claims.
Context `{GoUnicode} `{TextTemplate} `{Float64} `{JsonMessages} `{SigsYaml}.
Context {O : Type} `{!RuntimeObject O} `{!ClientObject O}.
Implicit Types s : rstate.

Lemma annotation_matches_true (obj : O) h :
  annotation_matches obj h = true ↔
  ∃ ann, GetAnnotations obj = Some ann ∧ amap_get SyncContentHashAnnotationKey ann = Some h.
Proof.
  unfold annotation_matches. destruct (GetAnnotations obj) as [ann|]; [|naive_solver].
  rewrite bool_decide_eq_true. naive_solver.
Qed.

(** C17: what a reconcile does, with any template and on every branch. On an object
    that exists and normalizes, nothing when its sync-content-hash annotation or
    the cached hash is the hash of its material; otherwise its hash is cached, and
    its document queued for the path the template renders, or, when it renders
    none, the error returned and nothing queued. On a deleted object the cache
    slot is cleared, and the archive of the path queued, or the error of the
    template returned. Any other error of the read, or of the normalization, is
    returned and changes nothing. No other slot or path changes. *)
Theorem Reconcile_correct kind (get : client_reader O) tmpl s ns name res s' :
  argo_kind kind → Reconcile kind get tmpl s ns name = (res, s') →
  let key := ExportObjectCacheKey kind ns name in
  match get (kind_gvk kind) ns name with
  | Ok obj =>
      match NormalizedYAMLAndMaterialHash obj with
      | Ok (y, h) =>
          ((annotation_matches obj h = true ∨ Cache s !! key = Some h) ∧ res = Ok tt ∧ s' = s) ∨
          (annotation_matches obj h = false ∧ Cache s !! key ≠ Some h ∧ Cache s' = <[key := h]> (Cache s) ∧
           match RenderExportPath tmpl kind ns name with
           | Ok path => res = Ok tt ∧ GitQueue s' = <[path := Pending opWrite y]> (GitQueue s)
           | Failed e => res = Failed (ErrWrap "render export path" e) ∧ GitQueue s' = GitQueue s
           end)
      | Failed e => res = Failed (ErrWrap "normalize and hash object" e) ∧ s' = s
      end
  | Failed e =>
      if IsNotFound e
      then Cache s' = delete key (Cache s) ∧
           match RenderExportPath tmpl kind ns name with
           | Ok path => res = Ok tt ∧ GitQueue s' = <[path := Pending opArchive ""]> (GitQueue s)
           | Failed e' => res = Failed (ErrWrap "render export path for delete" e') ∧ GitQueue s' = GitQueue s
           end
      else res = Failed (ErrWrap ("failed to get " +:+ kind) e) ∧ s' = s
  end.
Proof.
  intros Hk Hrun key. destruct (get (kind_gvk kind) ns name) as [obj|e] eqn:Hget.
  - rewrite (reconcile_found _ _ _ _ _ _ obj Hk Hget) in Hrun. unfold handle in Hrun.
    destruct (NormalizedYAMLAndMaterialHash obj) as [[y h]|e]; [|by injection Hrun as <- <-].
    destruct (annotation_matches obj h) eqn:Hann; [injection Hrun as <- <-; by auto|].
    case_bool_decide as Hc; [injection Hrun as <- <-; by auto|].
    right. by destruct (RenderExportPath tmpl kind ns name); injection Hrun as <- <-.
  - destruct (IsNotFound e) eqn:He.
    + rewrite (reconcile_gone_any _ _ _ _ _ _ e Hk Hget He) in Hrun.
      by destruct (RenderExportPath tmpl kind ns name); injection Hrun as <- <-.
    + rewrite (reconcile_failed _ _ _ _ _ _ e Hk Hget He) in Hrun. by injection Hrun as <- <-.
Qed.

(** A successful reconcile is idempotent: reconciling the same object again,
    unchanged in the cluster, succeeds and changes neither cache nor queue,
    whatever the template. *)
Theorem Reconcile_idempotent kind (get : client_reader O) tmpl s ns name s' :
  argo_kind kind → Reconcile kind get tmpl s ns name = (Ok tt, s') →
  Reconcile kind get tmpl s' ns name = (Ok tt, s').
Proof.
  intros Hk. destruct (get (kind_gvk kind) ns name) as [obj|e] eqn:Hget.
  - rewrite !(reconcile_found _ _ _ _ _ _ obj Hk Hget). unfold handle.
    destruct (NormalizedYAMLAndMaterialHash obj) as [[y h]|e]; [|done].
    destruct (annotation_matches obj h); [done|]. case_bool_decide as Hc.
    + intros [= <-]. by rewrite bool_decide_true.
    + destruct (RenderExportPath tmpl kind ns name) as [rel|e]; [|done]. intros [= <-].
      cbn [Cache]. rewrite bool_decide_true; [done|]. unfold Get, Set_. by rewrite lookup_insert_eq.
  - destruct (IsNotFound e) eqn:He.
    2:{ rewrite (reconcile_failed _ _ _ _ _ _ e Hk Hget He). done. }
    rewrite !(reconcile_gone_any _ _ _ _ _ _ e Hk Hget He). cbn zeta.
    destruct (RenderExportPath _ _ _ _) as [rel|pe]; [|done]. intros [= <-].
    cbn [Cache GitQueue]. unfold Delete, EnqueueArchive, set_pending.
    by rewrite delete_delete_eq, insert_insert_eq.
Qed.

(** A failing template loses the export silently: the hash is cached before
    the path is rendered, so the first reconcile returns the error and queues
    nothing, and the retry of the unchanged object finds the cached hash and
    succeeds without ever exporting it. *)
Theorem render_failure_is_swallowed kind (get : client_reader O) tmpl s ns name obj y h e :
  argo_kind kind → get (kind_gvk kind) ns name = Ok obj →
  NormalizedYAMLAndMaterialHash obj = Ok (y, h) → annotation_matches obj h = false →
  Cache s !! ExportObjectCacheKey kind ns name ≠ Some h →
  RenderExportPath tmpl kind ns name = Failed e →
  ∃ s', Reconcile kind get tmpl s ns name = (Failed (ErrWrap "render export path" e), s') ∧
    GitQueue s' = GitQueue s ∧
    Reconcile kind get tmpl s' ns name = (Ok tt, s').
Proof.
  intros Hk Hget Hy Hann Hc Hr. rewrite (reconcile_found _ _ _ _ _ _ obj Hk Hget).
  unfold handle. rewrite Hy, Hann, bool_decide_false, Hr by done. eexists. split; [done|].
  split; [done|]. rewrite (reconcile_found _ _ _ _ _ _ obj Hk Hget). unfold handle. rewrite Hy, Hann.
  cbn [Cache]. rewrite bool_decide_true; [done|]. unfold Get, Set_. by rewrite lookup_insert_eq.
Qed.

(** A revert in the cluster can go unnoticed: when version 1 of an object was
    exported, version 2 then arrived from Git (annotated with its hash, so that
    it is ignored and the cache keeps the hash of version 1), and the object is
    set back to version 1, the reconcile ignores it, so Git keeps version 2. *)
Theorem annotated_update_hides_revert kind (get1 get2 : client_reader O) tmpl s ns name obj1 obj2 y1 h1 y2 h2 :
  argo_kind kind →
  get1 (kind_gvk kind) ns name = Ok obj1 → NormalizedYAMLAndMaterialHash obj1 = Ok (y1, h1) →
  get2 (kind_gvk kind) ns name = Ok obj2 → NormalizedYAMLAndMaterialHash obj2 = Ok (y2, h2) →
  Cache s !! ExportObjectCacheKey kind ns name = Some h1 →
  annotation_matches obj2 h2 = true →
  Reconcile kind get2 tmpl s ns name = (Ok tt, s) ∧ Reconcile kind get1 tmpl s ns name = (Ok tt, s).
Proof.
  intros Hk Hget1 Hy1 Hget2 Hy2 Hc Hann. split.
  - rewrite (reconcile_found _ _ _ _ _ _ obj2 Hk Hget2). unfold handle. by rewrite Hy2, Hann.
  - rewrite (reconcile_found _ _ _ _ _ _ obj1 Hk Hget1). unfold handle. rewrite Hy1.
    destruct (annotation_matches obj1 h1); [done|]. by rewrite bool_decide_true.
Qed.
End claims.

(** ** Witnesses: objects as JSON text *)

#[local] Existing Instances ascii_tables fragment_engine literal_f64 text_object json_yaml plain_messages.

Definition string_members (l : list (string * json f64)) : list (string * string) :=
  omap (λ kv, match kv.2 with JStr v => Some (kv.1, v) | _ => None end) l.

(** The annotations of the JSON text. *)
Definition text_annotations : ClientObject string := {|
  GetAnnotations s :=
    match unmarshal_map s with
    | Ok (Some m) => match path_get ["metadata"; "annotations"] (JObj m) with
                     | Some (JObj ann) => Some (string_members ann)
                     | _ => None
                     end
    | _ => None
    end
|}.
#[local] Existing Instance text_annotations.

Definition sample_hash1 : string :=
  hex_EncodeToString (sha256_Sum256 (marshal_map (normalizeKubernetesObject (Some sample_map)))).

(** Version 2 of the object, annotated with the hash of its material. *)
Definition sample_map2 : list (string * json f64) :=
  amap_set "metadata" (JObj [("name", JStr "b")]) sample_map.
Definition sample_hash2 : string :=
  hex_EncodeToString (sha256_Sum256 (marshal_map (normalizeKubernetesObject (Some sample_map2)))).
Definition sample_text2 : string := marshal_map (Some (amap_set "metadata"
  (JObj [("annotations", JObj [(SyncContentHashAnnotationKey, JStr sample_hash2)]); ("name", JStr "b")])
  sample_map)).

Definition sample_reader (text : string) : client_reader string := λ _ _ _, Ok text.
Definition sample_state : rstate := RState {[ "applications/argocd/a" := sample_hash1 ]} ∅.
Definition empty_state : rstate := RState ∅ ∅.

Lemma sample_hashed1 : NormalizedYAMLAndMaterialHash sample_text =
  Ok (marshal_map (normalizeKubernetesObject (Some sample_map)), sample_hash1).
Proof. exact sample_hash. Qed.
Lemma sample_annotated : annotation_matches sample_text2 sample_hash2 = true.
Proof. by_vm. Qed.
Lemma sample_hashed2 : NormalizedYAMLAndMaterialHash sample_text2 =
  Ok (marshal_map (normalizeKubernetesObject (Some sample_map2)), sample_hash2).
Proof. by_vm. Qed.
Lemma sample_unannotated : annotation_matches sample_text sample_hash1 = false.
Proof. by_vm. Qed.

Lemma annotated_update_hides_revert_witness :
  Reconcile "Application" (sample_reader sample_text2) defaultExportPathTemplate sample_state "argocd" "a"
    = (Ok tt, sample_state) ∧
  Reconcile "Application" (sample_reader sample_text) defaultExportPathTemplate sample_state "argocd" "a"
    = (Ok tt, sample_state).
Proof.
  exact (annotated_update_hides_revert "Application" (sample_reader sample_text) (sample_reader sample_text2)
    defaultExportPathTemplate sample_state "argocd" "a" sample_text sample_text2 _ _ _ _
    (or_introl eq_refl) eq_refl sample_hashed1 eq_refl sample_hashed2 eq_refl sample_annotated).
Defined.

Lemma render_failure_is_swallowed_witness :
  ∃ s', Reconcile "Application" (sample_reader sample_text) "inventory/{{.Kind}}.yaml" empty_state "argocd" "a"
          = (Failed (ErrWrap "render export path" (ErrWrap "execute export path template"
              (Err "can't evaluate field Kind"))), s') ∧
        GitQueue s' = ∅ ∧
        Reconcile "Application" (sample_reader sample_text) "inventory/{{.Kind}}.yaml" s' "argocd" "a"
          = (Ok tt, s').
Proof.
  exact (render_failure_is_swallowed "Application" (sample_reader sample_text) "inventory/{{.Kind}}.yaml"
    empty_state "argocd" "a" sample_text _ _ _ (or_introl eq_refl) eq_refl sample_hashed1 sample_unannotated
    ltac:(discriminate) eq_refl).
Defined.

Lemma Reconcile_idempotent_witness :
  Reconcile "Application" (sample_reader sample_text2) defaultExportPathTemplate empty_state "argocd" "a"
    = (Ok tt, empty_state).
Proof.
  assert (Hrun : Reconcile "Application" (sample_reader sample_text2) defaultExportPathTemplate
    empty_state "argocd" "a" = (Ok tt, empty_state)).
  { rewrite (reconcile_found _ _ _ _ _ _ sample_text2) by (done || by left). unfold handle.
    by rewrite sample_hashed2, sample_annotated. }
  exact (Reconcile_idempotent "Application" (sample_reader sample_text2) defaultExportPathTemplate
    empty_state "argocd" "a" _ (or_introl eq_refl) Hrun).
Defined.

Lemma sample_export :
  Reconcile "Application" (sample_reader sample_text) defaultExportPathTemplate empty_state "argocd" "a"
  = (Ok tt, RState (<["applications/argocd/a" := sample_hash1]> ∅)
      (<["inventory/applications/argocd/a.yaml" := Pending opWrite
           (marshal_map (normalizeKubernetesObject (Some sample_map)))]> ∅)).
Proof.
  rewrite (reconcile_found _ _ _ _ _ _ sample_text) by (done || by left). unfold handle.
  by rewrite sample_hashed1, sample_unannotated, render_default.
Qed.

Lemma Reconcile_correct_witness :
  ∃ s', Reconcile "Application" (sample_reader sample_text) defaultExportPathTemplate empty_state "argocd" "a"
          = (Ok tt, s') ∧ Cache s' !! "applications/argocd/a" = Some sample_hash1.
Proof.
  eexists. split; [exact sample_export|].
  pose proof (Reconcile_correct "Application" _ _ _ _ _ _ _ (or_introl eq_refl) sample_export) as Hc.
  cbv zeta in Hc. unfold sample_reader in Hc. rewrite sample_hashed1 in Hc.
  destruct Hc as [[[Ha|Ha] _]|(_ & _ & -> & _)].
  - rewrite sample_unannotated in Ha. discriminate Ha.
  - discriminate Ha.
  - reflexivity.
Defined.
