(* ===== verification/Hmac.v ===== *)
(** internal/sync/hmac.go: authentication of a push payload. *)
From S2P Require Import Prelude GoStrings GoCrypto Config.

Definition SignatureHeader : string := "X-Hub-Signature-256".
Definition signaturePrefix : string := "sha256=".

(** [nil] is [Ok tt]. *)
Definition VerifyHMACSignature (secret headerValue body : string) : result unit :=
  if decide (secret = "") then Failed (Err "hmac secret not configured")
  else if decide (headerValue = "") then Failed (Err ("missing " +:+ SignatureHeader +:+ " header"))
  else if negb (strings_HasPrefix headerValue signaturePrefix)
  then Failed (Err "invalid signature format")
  else
    received ← wrap_err "decode signature"
      (hex_DecodeString (strings_TrimPrefix headerValue signaturePrefix));
    let expected := hmac_sha256 secret body in
    if hmac_Equal received expected then Ok tt else Failed (Err "hmac mismatch").

(** The header value a sender with the secret computes. *)
Definition sign (secret body : string) : string :=
  signaturePrefix +:+ hex_EncodeToString (hmac_sha256 secret body).

Section facts.
Implicit Types secret header body : string.

Lemma verify_spec secret header body :
  VerifyHMACSignature secret header body = Ok tt ↔
  secret ≠ "" ∧ ∃ digits, header = signaturePrefix +:+ digits ∧
    hex_DecodeString digits = Ok (hmac_sha256 secret body).
Proof.
  unfold VerifyHMACSignature. case_decide as Hs; [naive_solver|].
  case_decide as Hh.
  { split; [done|]. intros (_ & d & -> & _). done. }
  destruct (strings_HasPrefix header signaturePrefix) eqn:Hp; cbn [negb]; cbv iota.
  - apply HasPrefix_spec in Hp as [d ->]. rewrite TrimPrefix_app. split.
    + destruct (hex_DecodeString d) as [r|e] eqn:Hd; [|done]. cbn [wrap_err mbind result_bind].
      destruct (hmac_Equal r (hmac_sha256 secret body)) eqn:He; [|done].
      apply hmac_Equal_spec in He as ->. intros _. split; [done|]. by exists d.
    + intros (_ & d' & Heq & Hd). apply sapp_inv_l in Heq as <-. rewrite Hd.
      cbn [wrap_err mbind result_bind]. by rewrite (proj2 (hmac_Equal_spec _ _)).
  - split; [done|]. intros (_ & d & -> & _). by rewrite HasPrefix_app in Hp.
Qed.

(** C16: a payload is authentic exactly when the secret is configured and the
    header is "sha256=" followed by a hexadecimal text that decodes to the
    HMAC-SHA256 of the body under the secret; in particular the signature a
    sender with the secret computes is accepted, and a header accepted for two
    bodies means that the bodies have the same MAC. *)
Theorem VerifyHMACSignature_correct secret header body :
  (VerifyHMACSignature secret header body = Ok tt ↔
   secret ≠ "" ∧ ∃ digits, header = signaturePrefix +:+ digits ∧
     hex_DecodeString digits = Ok (hmac_sha256 secret body)) ∧
  (secret ≠ "" → VerifyHMACSignature secret (sign secret body) body = Ok tt) ∧
  (∀ body', VerifyHMACSignature secret header body = Ok tt →
     VerifyHMACSignature secret header body' = Ok tt →
     hmac_sha256 secret body = hmac_sha256 secret body').
Proof.
  split; [apply verify_spec|split].
  - intros Hs. apply verify_spec. split; [done|]. eexists. split; [done|]. apply hex_decode_encode.
  - intros body' (_ & d & -> & Hd)%verify_spec (_ & d' & Heq & Hd')%verify_spec.
    apply sapp_inv_l in Heq as <-. rewrite Hd in Hd'. by apply Ok_inj in Hd'.
Qed.

(** Every way a signature can be wrong has its own error: no secret, no
    header, no "sha256=" prefix, bad hexadecimal, wrong digest - in this order,
    and never acceptance. *)
Lemma VerifyHMACSignature_errors secret header body :
  match VerifyHMACSignature secret header body with
  | Ok _ => secret ≠ "" ∧ header ≠ "" ∧ strings_HasPrefix header "sha256=" = true
  | Failed e =>
      secret = "" ∧ e = Err "hmac secret not configured" ∨
      secret ≠ "" ∧ header = "" ∧ e = Err "missing X-Hub-Signature-256 header" ∨
      secret ≠ "" ∧ header ≠ "" ∧ strings_HasPrefix header "sha256=" = false ∧
        e = Err "invalid signature format" ∨
      (∃ digits e', header = "sha256=" +:+ digits ∧ hex_DecodeString digits = Failed e' ∧
        e = ErrWrap "decode signature" e') ∨
      (∃ digits mac, header = "sha256=" +:+ digits ∧ hex_DecodeString digits = Ok mac ∧
        mac ≠ hmac_sha256 secret body ∧ e = Err "hmac mismatch")
  end.
Proof.
  unfold VerifyHMACSignature. case_decide as Hs; [by left|]. case_decide as Hh; [by right; left|].
  change signaturePrefix with "sha256=".
  destruct (strings_HasPrefix header "sha256=") eqn:Hp; cbn [negb]; cbv iota.
  2:{ by right; right; left. }
  apply HasPrefix_spec in Hp as [d ->]. rewrite TrimPrefix_app.
  destruct (hex_DecodeString d) as [mac|e] eqn:Hd; cbn [wrap_err mbind result_bind].
  2:{ right; right; right; left. by exists d, e. }
  destruct (hmac_Equal mac (hmac_sha256 secret body)) eqn:He; [done|].
  apply hmac_Equal_false in He. right; right; right; right. by exists d, mac.
Qed.
End facts.

(** The signature of the example in RFC 4231, test case 2. *)
Lemma VerifyHMACSignature_correct_witness :
  VerifyHMACSignature "Jefe" (sign "Jefe" "what do ya want for nothing?") "what do ya want for nothing?" = Ok tt.
Proof.
  apply (VerifyHMACSignature_correct "Jefe" "" "what do ya want for nothing?"). discriminate.
Defined.
