(* ===== verification/GitHubPush.v ===== *)
(** internal/sync/github.go: decoding of a push payload into [githubPushEvent] by
    encoding/json, and the paths it adds and removes. *)
From S2P Require Import Prelude GoStrings GoUtf8 GoMap GoJson GoJsonFacts.

(** ** encoding/json into a struct *)

(** A slice with the elements its backing array still holds beyond its length:
    decoding into a slice again decodes into them. *)
Record slice (A : Type) := Slice { slen : nat; backing : list A }.
Arguments Slice {A} slen backing.
Arguments slen {A} s.
Arguments backing {A} s.
Definition nil_slice {A} : slice A := Slice 0 [].
Definition elements {A} (s : slice A) : list A := take (slen s) (backing s).

(** Keys match a field up to the folding of encoding/json: ASCII case, the long s
    and the Kelvin sign. *)
Definition ascii_upper (c : ascii) : ascii :=
  let b := byte_val c in if ((97 <=? b) && (b <=? 122))%Z then byte_of (b - 32) else c.
Definition fold_rune (r : string) : string :=
  match r with
  | String c EmptyString => String (ascii_upper c) ""
  | _ => if decide (r = String (byte_of 0xC5) (String (byte_of 0xBF) "")) then "S"
         else if decide (r = String (byte_of 0xE2) (String (byte_of 0x84) (String (byte_of 0xAA) "")))
         then "K" else r
  end.
Definition foldName : string → string :=
  utf8_fold (λ r a, fold_rune r +:+ a) (λ _ a, rune_error +:+ a) "".
Definition is_field (name key : string) : bool := bool_decide (foldName key = foldName name).

(** Decoding of one value into an existing one; [None] is an UnmarshalTypeError. *)
Definition decode_string (old : string) (v : json string) : option string :=
  match v with JNull => Some old | JStr s => Some s | _ => None end.

Section decode.
Context {S : Type}.

Fixpoint decode_members (field : string → json string → S → option S)
    (l : list (string * json string)) (s : S) : option S :=
  match l with
  | [] => Some s
  | (k, v) :: l' => s' ← field k v s; decode_members field l' s'
  end.

Definition decode_struct (field : string → json string → S → option S) (old : S) (v : json string)
    : option S :=
  match v with JNull => Some old | JObj l => decode_members field l old | _ => None end.

(** The elements of an array, each into what the backing array has at its place. *)
Fixpoint decode_elements (elem : S → json string → option S) (zero : S) (l : list (json string))
    (old : list S) : option (list S) :=
  match l with
  | [] => Some old
  | v :: l' =>
      x ← elem (hd zero old) v;
      xs ← decode_elements elem zero l' (tl old);
      Some (x :: xs)
  end.

Definition decode_slice (elem : S → json string → option S) (zero : S) (old : slice S)
    (v : json string) : option (slice S) :=
  match v with
  | JNull => Some nil_slice
  | JArr [] => Some nil_slice
  | JArr l => b ← decode_elements elem zero l (backing old); Some (Slice (length l) b)
  | _ => None
  end.

Definition decode_pointer (dec : S → json string → option S) (zero : S) (old : option S)
    (v : json string) : option (option S) :=
  match v with
  | JNull => Some None
  | _ => Some <$> dec (default zero old) v
  end.
End decode.

(** ** githubPushEvent *)

Record commit := Commit { Added : slice string; Modified : slice string; Removed : slice string }.
Record githubPushEvent := PushEvent {
  FullName : string;
  HeadCommitID : option string;
  After : string;
  Commits : slice commit
}.

Definition zero_commit : commit := Commit nil_slice nil_slice nil_slice.
Definition zero_event : githubPushEvent := PushEvent "" None "" nil_slice.

Definition decode_strings : slice string → json string → option (slice string) :=
  decode_slice decode_string "".

Definition commit_field (k : string) (v : json string) (c : commit) : option commit :=
  if is_field "added" k then a ← decode_strings (Added c) v; Some (Commit a (Modified c) (Removed c))
  else if is_field "modified" k
  then m ← decode_strings (Modified c) v; Some (Commit (Added c) m (Removed c))
  else if is_field "removed" k
  then r ← decode_strings (Removed c) v; Some (Commit (Added c) (Modified c) r)
  else Some c.

Definition single_field (name k : string) (v : json string) (s : string) : option string :=
  if is_field name k then decode_string s v else Some s.

Definition event_field (k : string) (v : json string) (ev : githubPushEvent) : option githubPushEvent :=
  if is_field "repository" k then
    n ← decode_struct (single_field "full_name") (FullName ev) v;
    Some (PushEvent n (HeadCommitID ev) (After ev) (Commits ev))
  else if is_field "head_commit" k then
    h ← decode_pointer (decode_struct (single_field "id")) "" (HeadCommitID ev) v;
    Some (PushEvent (FullName ev) h (After ev) (Commits ev))
  else if is_field "after" k then
    a ← decode_string (After ev) v;
    Some (PushEvent (FullName ev) (HeadCommitID ev) a (Commits ev))
  else if is_field "commits" k then
    c ← decode_slice (decode_struct commit_field) zero_commit (Commits ev) v;
    Some (PushEvent (FullName ev) (HeadCommitID ev) (After ev) c)
  else Some ev.

(** [json.Unmarshal(body, &ev)] *)
Definition unmarshal_event (body : string) : option githubPushEvent :=
  v ← parse_json body; decode_struct event_field zero_event v.

(** ** ParseGitHubPushPaths *)

Definition zero_sha : string := "0000000000000000000000000000000000000000".

(** [for _, p := range l { if p != "" { seen[p] = struct{}{} } }] *)
Definition add_paths (seen : gset string) (l : list string) : gset string :=
  foldl (λ seen p, if decide (p ≠ "") then {[p]} ∪ seen else seen) seen l.

Definition collect (cs : list commit) : gset string * gset string :=
  foldl (λ acc c,
    (add_paths (add_paths acc.1 (elements (Added c))) (elements (Modified c)),
     add_paths acc.2 (elements (Removed c)))) (∅, ∅) cs.

Record push := Push { fullName : string; headSHA : string; addedModified : list string; removed : list string }.

Definition push_paths (ev : githubPushEvent) : result push :=
  if decide (FullName ev = "") then Failed (Err "missing repository.full_name")
  else
    let sha := default "" (HeadCommitID ev) in
    let sha := if decide (sha = "") then After ev else sha in
    if decide (sha = "" ∨ sha = zero_sha)
    then Failed (Err "missing commit SHA (head_commit.id or after)")
    else
      let '(seenAdded, seenRemoved) := collect (elements (Commits ev)) in
      let seenRemoved := seenRemoved ∖ seenAdded in
      Ok (Push (FullName ev) sha (sort_Strings (base.elements seenAdded))
            (sort_Strings (base.elements seenRemoved))).

Class EventMessages := { event_error_message : string → string }.

Definition ParseGitHubPushPaths `{EventMessages} (body : string) : result push :=
  match unmarshal_event body with
  | None => Failed (ErrWrap "decode GitHub push JSON" (Err (event_error_message body)))
  | Some ev => push_paths ev
  end.

(** ** Facts *)

Lemma elem_of_add_paths seen l p : p ∈ add_paths seen l ↔ p ∈ seen ∨ (p ∈ l ∧ p ≠ "").
Proof.
  revert seen. induction l as [|q l IH]; intros seen; [set_solver|].
  cbn. unfold add_paths in IH. rewrite IH, elem_of_cons. case_decide; set_solver.
Qed.

(** The commits add or modify the path; they remove it. *)
Definition adds (cs : list commit) (p : string) : Prop :=
  p ≠ "" ∧ ∃ c, c ∈ cs ∧ (p ∈ elements (Added c) ∨ p ∈ elements (Modified c)).
Definition removes (cs : list commit) (p : string) : Prop :=
  p ≠ "" ∧ ∃ c, c ∈ cs ∧ p ∈ elements (Removed c).

Lemma collect_spec cs p :
  (p ∈ (collect cs).1 ↔ adds cs p) ∧ (p ∈ (collect cs).2 ↔ removes cs p).
Proof.
  unfold collect. set (step := λ acc c, _).
  assert (Hacc : ∀ acc : gset string * gset string,
    (p ∈ (foldl step acc cs).1 ↔ p ∈ acc.1 ∨ adds cs p) ∧
    (p ∈ (foldl step acc cs).2 ↔ p ∈ acc.2 ∨ removes cs p)).
  { unfold adds, removes. induction cs as [|c cs IH]; intros acc; [set_solver|].
    cbn [foldl]. destruct (IH (step acc c)) as [-> ->]. unfold step. cbn [fst snd].
    rewrite !elem_of_add_paths. setoid_rewrite elem_of_cons. split; naive_solver. }
  destruct (Hacc (∅, ∅)) as [-> ->]. set_solver.
Qed.

Lemma push_paths_ok ev pu :
  push_paths ev = Ok pu ↔
  FullName ev ≠ "" ∧ fullName pu = FullName ev ∧
  headSHA pu = (if decide (default "" (HeadCommitID ev) = "") then After ev
                else default "" (HeadCommitID ev)) ∧
  headSHA pu ≠ "" ∧ headSHA pu ≠ zero_sha ∧
  addedModified pu = sort_Strings (base.elements (collect (elements (Commits ev))).1) ∧
  removed pu = sort_Strings (base.elements
    ((collect (elements (Commits ev))).2 ∖ (collect (elements (Commits ev))).1)).
Proof.
  unfold push_paths. case_decide as Hn; [split; [done|by intros [? _]]|]. cbv zeta.
  set (sha := if decide (default "" (HeadCommitID ev) = "") then After ev else _).
  case_decide as Hs.
  { split; [done|]. intros (_ & _ & -> & H1 & H2 & _). by destruct Hs. }
  destruct (collect _) as [sa sr]. cbn [fst snd]. split.
  - intros <-%Ok_inj. cbn. split; [done|]. split; [done|]. split; [done|].
    split; [intros Hx; apply Hs; by left|]. split; [intros Hx; apply Hs; by right|done].
  - destruct pu as [n s a r]. cbn. intros (_ & -> & -> & _ & _ & -> & ->). done.
Qed.

(** C33: what the paths of a payload are: from a decoded event the parser takes the
    repository name and the head commit (head_commit.id, else after), and refuses
    a missing one or the zero id of a deleted branch; the added paths are those
    some commit adds or modifies, the removed ones those some commit removes and
    none adds or modifies; both lists are sorted, without duplicates or empty
    paths, and have no path in common. *)
Theorem push_paths_correct ev :
  match push_paths ev with
  | Ok pu =>
      fullName pu = FullName ev ∧ fullName pu ≠ "" ∧
      (HeadCommitID ev = Some (headSHA pu) ∨
       (HeadCommitID ev = None ∨ HeadCommitID ev = Some "") ∧ After ev = headSHA pu) ∧
      headSHA pu ≠ "" ∧ headSHA pu ≠ zero_sha ∧
      (∀ p, p ∈ addedModified pu ↔ adds (elements (Commits ev)) p) ∧
      (∀ p, p ∈ removed pu ↔ removes (elements (Commits ev)) p ∧ ¬ adds (elements (Commits ev)) p) ∧
      StronglySorted String.le (addedModified pu) ∧ StronglySorted String.le (removed pu) ∧
      NoDup (addedModified pu ++ removed pu)
  | Failed _ =>
      FullName ev = "" ∨
      ∃ sha, (sha = "" ∨ sha = zero_sha) ∧
        sha = if decide (default "" (HeadCommitID ev) = "") then After ev
              else default "" (HeadCommitID ev)
  end.
Proof.
  destruct (push_paths ev) as [pu|e] eqn:Hok.
  - apply push_paths_ok in Hok as (Hn & -> & Hsha & Hs1 & Hs2 & Ha & Hr).
    assert (Hadd : ∀ p, p ∈ addedModified pu ↔ adds (elements (Commits ev)) p).
    { intros p. rewrite Ha, sort_Strings_perm, elem_of_elements. apply collect_spec. }
    assert (Hrem : ∀ p, p ∈ removed pu ↔
      removes (elements (Commits ev)) p ∧ ¬ adds (elements (Commits ev)) p).
    { intros p. rewrite Hr, sort_Strings_perm, elem_of_elements, elem_of_difference.
      destruct (collect_spec (elements (Commits ev)) p) as [-> ->]. done. }
    split; [done|]. split; [done|]. split.
    { case_decide as Hh; [right; split; [|done]|left];
        destruct (HeadCommitID ev) as [i|]; cbn in *; subst; auto. by rewrite Hsha. }
    do 4 (split; [done|]). split; [rewrite Ha; apply sort_Strings_sorted|].
    split; [rewrite Hr; apply sort_Strings_sorted|].
    apply NoDup_app. split; [|split].
    + rewrite Ha, sort_Strings_perm. apply NoDup_elements.
    + intros p Hp Hp'. apply Hrem in Hp' as [_ Hp']. by apply Hp', Hadd.
    + rewrite Hr, sort_Strings_perm. apply NoDup_elements.
  - unfold push_paths in Hok. case_decide as Hn; [by left|]. cbv zeta in Hok.
    right. eexists. split; [|reflexivity].
    match type of Hok with (if decide ?P then _ else _) = _ => destruct (decide P) as [Hs|Hs] end;
      [exact Hs|by destruct (collect _)].
Qed.

(** Only what the commits add and remove counts, not their order: permuting
    the commits of a push changes nothing, so a path that a commit adds and a
    later one removes is still reported as added and not as removed. *)
Lemma push_order_is_ignored ev cs :
  cs ≡ₚ elements (Commits ev) →
  push_paths (PushEvent (FullName ev) (HeadCommitID ev) (After ev) (Slice (length cs) cs)) =
    push_paths ev ∧
  (∀ pu p, push_paths ev = Ok pu → adds cs p → p ∈ addedModified pu ∧ p ∉ removed pu).
Proof.
  intros Hcs. assert (Hel : elements (Slice (length cs) cs) = cs) by (unfold elements; cbn; apply firstn_all).
  assert (Hadds : ∀ p, adds cs p ↔ adds (elements (Commits ev)) p)
    by (intros p; unfold adds; by setoid_rewrite Hcs).
  assert (Hremoves : ∀ p, removes cs p ↔ removes (elements (Commits ev)) p)
    by (intros p; unfold removes; by setoid_rewrite Hcs).
  assert (Hc : collect cs = collect (elements (Commits ev))).
  { destruct (collect cs) as [a r] eqn:H1, (collect (elements (Commits ev))) as [a' r'] eqn:H2.
    f_equal; apply set_eq; intros p.
    - change (p ∈ (a, r).1 ↔ p ∈ (a', r').1). rewrite <- H1, <- H2.
      rewrite (proj1 (collect_spec cs p)), (proj1 (collect_spec _ p)). apply Hadds.
    - change (p ∈ (a, r).2 ↔ p ∈ (a', r').2). rewrite <- H1, <- H2.
      rewrite (proj2 (collect_spec cs p)), (proj2 (collect_spec _ p)). apply Hremoves. }
  split.
  - unfold push_paths. cbn [FullName HeadCommitID After Commits]. by rewrite Hel, Hc.
  - intros pu p Hok Hp. apply push_paths_ok in Hok as (_ & _ & _ & _ & _ & -> & ->).
    rewrite !sort_Strings_perm, !elem_of_elements, elem_of_difference.
    rewrite !(proj1 (collect_spec (elements (Commits ev)) p)). rewrite <- Hadds. tauto.
Qed.

(** ** Payloads *)

(** A push as GitHub sends it: [extra] are the members of the payload the struct
    does not have. *)
Record payload := Payload {
  p_name : string;
  p_head : option string;
  p_after : string;
  p_commits : list (list string * list string * list string);
  p_extra : list (string * json string)
}.

Definition strings_json (l : list string) : json string := JArr (map JStr l).
Definition commit_json (c : list string * list string * list string) : json string :=
  JObj [("added", strings_json c.1.1); ("removed", strings_json c.2); ("modified", strings_json c.1.2)].
Definition payload_json (p : payload) : json string :=
  JObj (p_extra p ++
    [("after", JStr (p_after p));
     ("repository", JObj [("full_name", JStr (p_name p))]);
     ("head_commit", match p_head p with Some id => JObj [("id", JStr id)] | None => JNull end);
     ("commits", JArr (map commit_json (p_commits p)))]).

Definition full_slice {A} (l : list A) : slice A := Slice (length l) l.
Definition payload_event (p : payload) : githubPushEvent :=
  PushEvent (p_name p) (p_head p) (p_after p)
    (full_slice (map (λ c, Commit (full_slice c.1.1) (full_slice c.1.2) (full_slice c.2)) (p_commits p))).

Definition no_field (k : string) : bool :=
  negb (is_field "repository" k || is_field "head_commit" k || is_field "after" k || is_field "commits" k).

Lemma decode_strings_json l : decode_strings nil_slice (strings_json l) = Some (full_slice l).
Proof.
  unfold decode_strings, decode_slice, strings_json. destruct l as [|s l]; [done|].
  cbn [map backing nil_slice].
  assert (Hel : ∀ l, decode_elements decode_string "" (map JStr l) [] = Some l).
  { clear. induction l as [|s l IH]; [done|]. cbn in *. by rewrite IH. }
  change (JStr s :: map JStr l) with (map (@JStr string) (s :: l)). rewrite Hel, length_map. done.
Qed.

Lemma commit_field_added v c :
  commit_field "added" v c = (a ← decode_strings (Added c) v; Some (Commit a (Modified c) (Removed c))).
Proof. done. Qed.
Lemma commit_field_modified v c :
  commit_field "modified" v c = (m ← decode_strings (Modified c) v; Some (Commit (Added c) m (Removed c))).
Proof. done. Qed.
Lemma commit_field_removed v c :
  commit_field "removed" v c = (r ← decode_strings (Removed c) v; Some (Commit (Added c) (Modified c) r)).
Proof. done. Qed.

Lemma decode_commit_json c :
  decode_struct commit_field zero_commit (commit_json c) =
  Some (Commit (full_slice c.1.1) (full_slice c.1.2) (full_slice c.2)).
Proof.
  unfold commit_json, decode_struct. cbn [decode_members].
  rewrite commit_field_added. cbn [zero_commit Added Modified Removed]. rewrite decode_strings_json.
  cbn [mbind option_bind]. rewrite commit_field_removed. cbn [Added Modified Removed].
  rewrite decode_strings_json. cbn [mbind option_bind]. rewrite commit_field_modified.
  cbn [Added Modified Removed]. by rewrite decode_strings_json.
Qed.

Lemma decode_commits_json l :
  decode_slice (decode_struct commit_field) zero_commit nil_slice (JArr (map commit_json l)) =
  Some (full_slice (map (λ c, Commit (full_slice c.1.1) (full_slice c.1.2) (full_slice c.2)) l)).
Proof.
  unfold decode_slice. destruct l as [|c l]; [done|].
  assert (Hel : ∀ l, decode_elements (decode_struct commit_field) zero_commit (map commit_json l) [] =
    Some (map (λ c, Commit (full_slice c.1.1) (full_slice c.1.2) (full_slice c.2)) l)).
  { clear. induction l as [|c l IH]; [done|]. cbn [map decode_elements hd tl].
    rewrite decode_commit_json. cbn [mbind option_bind]. by rewrite IH. }
  change (map commit_json (c :: l)) with (commit_json c :: map commit_json l) at 1. cbv iota.
  cbn [backing nil_slice]. change (commit_json c :: map commit_json l) with (map commit_json (c :: l)).
  rewrite Hel, length_map. cbn [mbind option_bind]. unfold full_slice at 4. by rewrite length_map.
Qed.

Lemma event_field_other k v ev : no_field k = true → event_field k v ev = Some ev.
Proof.
  unfold no_field, event_field. rewrite negb_true_iff, !orb_false_iff. by intros [[[-> ->] ->] ->].
Qed.

Lemma decode_extra l rest ev :
  forallb (λ kv, no_field kv.1) l = true →
  decode_members event_field (l ++ rest) ev = decode_members event_field rest ev.
Proof.
  induction l as [|[k v] l IH]; [done|]. cbn [forallb fst]. intros [Hk Hl]%andb_true_iff.
  cbn [app decode_members]. rewrite event_field_other by done. cbn [mbind option_bind]. by apply IH.
Qed.

Lemma event_field_after v ev :
  event_field "after" v ev =
  (a ← decode_string (After ev) v; Some (PushEvent (FullName ev) (HeadCommitID ev) a (Commits ev))).
Proof. done. Qed.
Lemma event_field_repository v ev :
  event_field "repository" v ev =
  (n ← decode_struct (single_field "full_name") (FullName ev) v;
   Some (PushEvent n (HeadCommitID ev) (After ev) (Commits ev))).
Proof. done. Qed.
Lemma event_field_head_commit v ev :
  event_field "head_commit" v ev =
  (h ← decode_pointer (decode_struct (single_field "id")) "" (HeadCommitID ev) v;
   Some (PushEvent (FullName ev) h (After ev) (Commits ev))).
Proof. done. Qed.
Lemma event_field_commits v ev :
  event_field "commits" v ev =
  (c ← decode_slice (decode_struct commit_field) zero_commit (Commits ev) v;
   Some (PushEvent (FullName ev) (HeadCommitID ev) (After ev) c)).
Proof. done. Qed.

Lemma decode_payload p :
  forallb (λ kv, no_field kv.1) (p_extra p) = true →
  decode_struct event_field zero_event (payload_json p) = Some (payload_event p).
Proof.
  intros Hx. unfold payload_json, decode_struct. rewrite decode_extra by done.
  cbn [decode_members]. rewrite event_field_after. cbn [decode_string mbind option_bind].
  rewrite event_field_repository.
  assert (Hn : ∀ old, decode_struct (single_field "full_name") old
    (JObj [("full_name", JStr (p_name p))]) = Some (p_name p)) by done.
  rewrite Hn. cbn [mbind option_bind]. rewrite event_field_head_commit. cbn [HeadCommitID zero_event].
  assert (Hh : decode_pointer (decode_struct (single_field "id")) "" None
    (match p_head p with Some id => JObj [("id", JStr id)] | None => JNull end) = Some (p_head p))
    by by destruct (p_head p).
  rewrite Hh. cbn [mbind option_bind]. rewrite event_field_commits. cbn [Commits zero_event].
  rewrite decode_commits_json. done.
Qed.

(** Payloads are read as they were written: the JSON text of a push event -
    with any further members GitHub adds, under keys the struct does not have -
    decodes to that event, so the parser's result is that of its commits. *)
Theorem payload_roundtrip `{EventMessages} p :
  json_wf 0 (payload_json p) = true → forallb (λ kv, no_field kv.1) (p_extra p) = true →
  ParseGitHubPushPaths (print_json (payload_json p)) = push_paths (payload_event p).
Proof.
  intros Hwf Hx. unfold ParseGitHubPushPaths, unmarshal_event. rewrite parse_json_print by done.
  cbn [mbind option_bind]. by rewrite decode_payload.
Qed.

(** ** Witnesses *)

Definition plain_event_messages : EventMessages := {| event_error_message _ := "invalid JSON" |}.
Definition sample_payload : payload :=
  Payload "o/r" (Some "c0ffee") "c0ffee"
    [(["inventory/applications/a/x.yaml"], [], []); ([], [], ["inventory/applications/a/x.yaml"; "old"])]
    [("ref", JStr "refs/heads/main")].

Lemma payload_roundtrip_witness :
  let _ := plain_event_messages in
  ParseGitHubPushPaths (print_json (payload_json sample_payload)) =
  Ok (Push "o/r" "c0ffee" ["inventory/applications/a/x.yaml"] ["old"]).
Proof.
  intros msgs. rewrite (payload_roundtrip sample_payload eq_refl eq_refl). by_vm.
Defined.

Lemma push_order_is_ignored_witness :
  push_paths (PushEvent "o/r" (Some "c0ffee") "c0ffee" (full_slice
    (rev (elements (Commits (payload_event sample_payload)))))) = push_paths (payload_event sample_payload).
Proof.
  exact (proj1 (push_order_is_ignored (payload_event sample_payload)
    (rev (elements (Commits (payload_event sample_payload)))) (Permutation_sym (Permutation_rev _)))).
Defined.
