(* ===== verification/Fetch.v ===== *)
(** internal/sync/fetch.go: the contents of a file at a commit, from
    raw.githubusercontent.com. The HTTP client is the class [HttpClient], a step
    on the state of the world. *)
From S2P Require Import Prelude GoStrings GoPath.

(** ** HTTP bodies *)

(** What reading a body yields: its bytes, then the error that ends it, [None]
    for the end of the stream; [fail_with_data] says that the error is returned
    by the read that returns the last bytes. *)
Record http_body := Body { data : string; fail : option error; fail_with_data : bool }.

(** [io.ReadAll(io.LimitReader(body, n))]: after [n] bytes the reader reports the
    end of the stream without looking at the body again. *)
Definition read_limited (n : Z) (b : http_body) : result string :=
  let len := Z.of_nat (String.length (data b)) in
  if (n <? len)%Z || ((n =? len)%Z && negb (fail_with_data b)) then Ok (str_take (Z.to_nat n) (data b))
  else match fail b with Some e => Failed e | None => Ok (data b) end.

(** ** HTTP client *)

Record http_request := Request { Method : string; URL : string; Authorization : option string }.
Record http_response := Response { StatusCode : Z; RespBody : http_body }.

(** [C] are the clients and [W] the states of the world: [http_NewRequest] is the
    error of http.NewRequestWithContext for a URL it cannot parse, [http_Do] the
    exchange, which sees the context's deadline through the world. *)
Class HttpClient (C W : Type) := {
  http_NewRequest : string → option error;
  http_DefaultClient : C;
  http_Do : C → http_request → W → result http_response * W
}.

Definition max_raw_file : Z := Z.shiftl 8 20.

Definition raw_url (fullName sha filePath : string) : string :=
  let p := strings_TrimPrefix (strings_TrimSpace filePath) "/" in
  "https://raw.githubusercontent.com/" +:+ fullName +:+ "/" +:+ sha +:+ "/" +:+ p.

Section fetch.
Context {C W : Type} `{!HttpClient C W}.

Definition raw_request (token u : string) : http_request :=
  Request "GET" u (if decide (strings_TrimSpace token ≠ "") then Some ("Bearer " +:+ token) else None).

Definition FetchGitHubRawFile (httpClient : option C) (token fullName sha filePath : string) (w : W)
    : result string * W :=
  let httpClient := default http_DefaultClient httpClient in
  let u := raw_url fullName sha filePath in
  match http_NewRequest u with
  | Some err => (Failed (ErrWrap "build raw request" err), w)
  | None =>
      let '(resp, w) := http_Do httpClient (raw_request token u) w in
      match resp with
      | Failed err => (Failed (ErrWrap "http get" err), w)
      | Ok resp =>
          match read_limited max_raw_file (RespBody resp) with
          | Failed err => (Failed (ErrWrap "read body" err), w)
          | Ok body =>
              if negb (StatusCode resp =? 200)%Z
              then (Failed (Err ("raw fetch status " +:+ strconv_Itoa (StatusCode resp) +:+ " for " +:+ u)), w)
              else (Ok body, w)
          end
      end
  end.
End fetch.

(** ** Facts *)

Lemma read_limited_prefix n b s :
  read_limited n b = Ok s → s = str_take (Z.to_nat n) (data b).
Proof.
  unfold read_limited. destruct (_ || _) eqn:Hlen; [by intros <-%Ok_inj|].
  apply orb_false_iff in Hlen as [Hlen%Z.ltb_ge _]. destruct (fail b); [done|]. intros <-%Ok_inj.
  assert (Htake : ∀ k t, String.length t <= k → str_take k t = t).
  { clear. induction k as [|k IH]; intros [|c t]; simpl; intros; try done; [lia|]. f_equal. apply IH. lia. }
  rewrite Htake; [done|lia].
Qed.

Lemma read_limited_whole n b :
  (Z.of_nat (String.length (data b)) <= n)%Z → fail b = None → read_limited n b = Ok (data b).
Proof.
  intros Hlen Hf. unfold read_limited. rewrite Hf. destruct (_ || _) eqn:H; [|done].
  assert (n = Z.of_nat (String.length (data b))) as -> by lia.
  rewrite Nat2Z.id. f_equal. rewrite <- (sapp_nil_r (data b)) at 2. apply str_take_app.
Qed.

Lemma read_limited_long n b :
  (n < Z.of_nat (String.length (data b)))%Z → read_limited n b = Ok (str_take (Z.to_nat n) (data b)).
Proof. intros Hlen. unfold read_limited. by rewrite (proj2 (Z.ltb_lt _ _) Hlen). Qed.

Section claims.
Context {C W : Type} `{!HttpClient C W}.

(** C38: a fetch that succeeds made exactly one exchange, a GET of the file at the
    commit with the token as bearer if there is one, was answered with status
    200, and returns the first 8 MiB of the answer; conversely such an exchange
    with a body of at most 8 MiB read to its end returns the whole body. A URL
    that cannot be parsed sends nothing, and any other status is an error that
    names it. *)
Theorem FetchGitHubRawFile_correct (client : option C) token fullName sha p (w w' : W) res :
  FetchGitHubRawFile client token fullName sha p w = (res, w') →
  let u := raw_url fullName sha p in
  let exchange := http_Do (default http_DefaultClient client) (raw_request token u) w in
  w' = match http_NewRequest u with Some _ => w | None => exchange.2 end ∧
  (∀ s, res = Ok s → http_NewRequest u = None ∧ ∃ b, exchange.1 = Ok (Response 200 b) ∧
     s = str_take (Z.to_nat (8 * 1024 * 1024)) (data b)) ∧
  (∀ b, http_NewRequest u = None → exchange.1 = Ok (Response 200 b) →
     (Z.of_nat (String.length (data b)) <= 8 * 1024 * 1024)%Z → fail b = None → res = Ok (data b)) ∧
  (∀ code b, http_NewRequest u = None → exchange.1 = Ok (Response code b) → code ≠ 200%Z → is_ok res = false).
Proof.
  unfold FetchGitHubRawFile. change max_raw_file with (8 * 1024 * 1024)%Z. cbv zeta.
  destruct (http_NewRequest _) as [e|]; [by intros [= <- <-]|].
  destruct (http_Do _ _ w) as [[[code b]|e] w1] eqn:Hdo; cbn [fst snd]; cbn [RespBody StatusCode];
    [|by intros [= <- <-]].
  destruct (read_limited _ b) as [s|e] eqn:Hr.
  - destruct (Z.eqb_spec code 200) as [->|Hne]; cbn [negb]; intros [= <- <-]; (split; [done|]).
    + split; [|split].
      * intros s' <-%Ok_inj. split; [done|]. exists b. split; [done|]. by apply read_limited_prefix.
      * intros b' _ [= <-] Hlen Hf. by rewrite <- Hr, read_limited_whole.
      * by intros code b' _ [= <- <-] ?.
    + split; [done|]. split; [|done]. by intros b' _ [= ? ?].
  - intros [= <- <-]. split; [done|]. split; [done|]. split; [|done].
    intros b' _ [= -> <-] Hlen Hf. by rewrite read_limited_whole in Hr.
Qed.

(** A file of more than 8 MiB is not refused: its first 8 MiB are returned as
    if they were the file. *)
Lemma large_file_is_truncated (client : option C) token fullName sha p (w w' : W) b :
  let u := raw_url fullName sha p in
  http_NewRequest u = None →
  http_Do (default http_DefaultClient client) (raw_request token u) w = (Ok (Response 200 b), w') →
  (8 * 1024 * 1024 < Z.of_nat (String.length (data b)))%Z →
  ∃ s, FetchGitHubRawFile client token fullName sha p w = (Ok s, w') ∧ s ≠ data b ∧
       Z.of_nat (String.length s) = (8 * 1024 * 1024)%Z.
Proof.
  intros u Hu Hdo Hlen. exists (str_take (Z.to_nat (8 * 1024 * 1024)) (data b)).
  unfold FetchGitHubRawFile. fold u. rewrite Hu, Hdo. cbn [RespBody StatusCode].
  change max_raw_file with (8 * 1024 * 1024)%Z. rewrite read_limited_long by done.
  split; [done|]. pose proof (length_str_take (Z.to_nat (8 * 1024 * 1024)) (data b)) as Htake.
  split; [|lia]. intros Heq. rewrite Heq in Htake. lia.
Qed.
End claims.

(** ** Witnesses: a server with one file *)

Definition one_file_server (status : Z) (content : string) : HttpClient unit nat := {|
  http_NewRequest _ := None;
  http_DefaultClient := tt;
  http_Do _ _ w := (Ok (Response status (Body content None false)), S w)
|}.

Lemma FetchGitHubRawFile_correct_witness :
  let _ := one_file_server 200 "kind: Application" in
  FetchGitHubRawFile (W := nat) None "" "o/r" "c0ffee" "/inventory/applications/a/x.yaml" 0
  = (Ok "kind: Application", 1).
Proof.
  intros server. destruct (FetchGitHubRawFile _ _ _ _ _ _) as [res w] eqn:Hrun.
  pose proof (FetchGitHubRawFile_correct _ _ _ _ _ _ _ _ Hrun) as (-> & _ & Hok & _).
  by rewrite (Hok _ eq_refl eq_refl ltac:(by vm_compute) eq_refl).
Defined.

Fixpoint str_repeat (n : nat) (c : ascii) : string :=
  match n with O => "" | S n => String c (str_repeat n c) end.
Lemma length_str_repeat n c : String.length (str_repeat n c) = n.
Proof. induction n; simpl; congruence. Qed.
Definition large_file : string := str_repeat (Z.to_nat (8 * 1024 * 1024 + 1)) "a"%char.

Lemma large_file_is_truncated_witness :
  ∃ s, FetchGitHubRawFile (HttpClient0 := one_file_server 200 large_file) None "" "o/r" "c0ffee" "x" 0
       = (Ok s, 1) ∧ s ≠ large_file ∧ Z.of_nat (String.length s) = (8 * 1024 * 1024)%Z.
Proof.
  apply (large_file_is_truncated (HttpClient0 := one_file_server 200 large_file) None "" "o/r" "c0ffee" "x"
    0 1 (Body large_file None false)).
  - reflexivity.
  - reflexivity.
  - cbn [data]. unfold large_file. rewrite length_str_repeat. lia.
Defined.
