(* ===== verification/Apply.v ===== *)
(** internal/sync/apply.go: server-side apply of a manifest read from Git, behind
    the identity check of its path. An object of apimachinery's unstructured
    package is the class [Unstructured], the API server the class [KubeClient]. *)
From S2P Require Import Prelude GoStrings GoCrypto GoUtf8 GoMap GoJson GoJsonFacts ExportPath InventoryPath ConfigMapMaterial Normalize Reconciler.

Definition fieldOwner : string := "accord-sync-operator".
Definition argoExpectedAPIVersion : string := "argoproj.io/v1alpha1".

Abbreviation PathManifestMismatchError := ErrMismatch (only parsing).

(** [errors.As(err, &m)] for a [*PathManifestMismatchError]. *)
Fixpoint IsPathManifestMismatch (err : error) : bool :=
  match err with
  | ErrMismatch _ _ _ => true
  | ErrWrap _ inner => IsPathManifestMismatch inner
  | Err _ | ErrAPI _ _ => false
  end.

(** ** Interfaces *)

(** [unstructured.Unstructured]; its annotations are those of [ClientObject]. *)
Class Unstructured (U : Type) := {
  new_Unstructured : U;
  UnmarshalJSON : string → result U;
  GetAPIVersion : U → string;
  GetKind : U → string;
  GetNamespace : U → string;
  GetName : U → string;
  SetAnnotations : list (string * string) → U → U;
  SetGroupVersionKind : GroupVersionKind → U → U;
  SetNamespace : string → U → U;
  SetName : string → U → U
}.

(** [client.Client] as far as the sync-operator calls it: a server-side apply for
    a field owner, forcing ownership or not, and a delete. *)
Class KubeClient (U W : Type) := {
  k8s_Apply : U → string → bool → W → result unit * W;
  k8s_Delete : U → W → result unit * W
}.

Section apply.
Context `{GoUnicode} `{Float64} `{JsonMessages} `{SigsYaml}.
Context {U W : Type} `{!ClientObject U} `{!Unstructured U} `{!KubeClient U W}.

Definition validatePathManifestIdentity (parsed : ParsedInventoryPath) (obj : U) : option error :=
  if decide (GetAPIVersion obj ≠ argoExpectedAPIVersion)
  then Some (PathManifestMismatchError "apiVersion" argoExpectedAPIVersion (GetAPIVersion obj))
  else match ArgoKindFromPlural (InventoryPath.PluralKind parsed) with
  | Failed err =>
      Some (ErrWrap ("resolve kind for plural " +:+ strconv_Quote (InventoryPath.PluralKind parsed)) err)
  | Ok expectedKind =>
      if decide (GetKind obj ≠ expectedKind)
      then Some (PathManifestMismatchError "kind" expectedKind (GetKind obj))
      else if decide (GetNamespace obj ≠ InventoryPath.Namespace parsed)
      then Some (PathManifestMismatchError "namespace" (InventoryPath.Namespace parsed) (GetNamespace obj))
      else if decide (GetName obj ≠ InventoryPath.Name parsed)
      then Some (PathManifestMismatchError "name" (InventoryPath.Name parsed) (GetName obj))
      else None
  end.

(** The annotations copied to a new map, with the hash. *)
Definition annotate (incomingHash : string) (obj : U) : U :=
  let ann := default [] (GetAnnotations obj) in
  let next := foldl (λ m kv, amap_set kv.1 kv.2 m) [] ann in
  SetAnnotations (amap_set SyncContentHashAnnotationKey incomingHash next) obj.

Definition ApplyInventoryYAML (parsed : ParsedInventoryPath) (gitYAML : string) (w : W) : result unit * W :=
  match MaterialHashFromNormalizedYAML gitYAML with
  | Failed err => (Failed (ErrWrap "compute material hash from Git YAML" err), w)
  | Ok incomingHash =>
      let doc := FirstYAMLDocument gitYAML in
      match YAMLToJSON doc with
      | Failed err => (Failed (ErrWrap "convert yaml to json" err), w)
      | Ok jsonBytes =>
          match UnmarshalJSON jsonBytes with
          | Failed err => (Failed (ErrWrap "parse unstructured" err), w)
          | Ok obj =>
              match validatePathManifestIdentity parsed obj with
              | Some err => (Failed err, w)
              | None =>
                  let '(res, w) := k8s_Apply (annotate incomingHash obj) fieldOwner true w in
                  (wrap_err "server-side apply" res, w)
              end
          end
      end
  end.
End apply.

(** ** Facts *)

Section facts.
Context `{GoUnicode} `{Float64} `{JsonMessages} `{SigsYaml}.
Context {U W : Type} `{!ClientObject U} `{!Unstructured U} `{!KubeClient U W}.
Implicit Types (parsed : ParsedInventoryPath) (obj : U).

(** The object is the one the path names. *)
Record identity parsed obj : Prop := {
  id_version : GetAPIVersion obj = "argoproj.io/v1alpha1";
  id_kind : ArgoKindFromPlural (InventoryPath.PluralKind parsed) = Ok (GetKind obj);
  id_namespace : GetNamespace obj = InventoryPath.Namespace parsed;
  id_name : GetName obj = InventoryPath.Name parsed
}.

Lemma kind_of_plural plural : export_plural plural → is_ok (ArgoKindFromPlural plural) = true.
Proof. by intros [-> | ->]. Qed.

Lemma validate_None parsed obj : validatePathManifestIdentity parsed obj = None ↔ identity parsed obj.
Proof.
  unfold validatePathManifestIdentity. case_decide as Hv.
  { split; [done|]. by intros [? _ _ _]. }
  destruct (ArgoKindFromPlural _) as [k|e] eqn:Hk.
  2:{ split; [done|]. intros [_ Hk' _ _]. by rewrite Hk in Hk'. }
  case_decide as Hkind.
  { split; [done|]. intros [_ Hk' _ _]. rewrite Hk in Hk'. by apply Ok_inj in Hk' as ->. }
  case_decide as Hns; [split; [done|]; by intros [_ _ ? _]|].
  case_decide as Hname; [split; [done|]; by intros [_ _ _ ?]|].
  split; [|done]. intros _. split; [exact Hv|congruence..].
Qed.

(** The cases of an apply. *)
Inductive apply_case parsed (yaml : string) (w : W) : result unit → W → Prop :=
| apply_refused e :
    (∀ h j obj, MaterialHashFromNormalizedYAML yaml = Ok h → YAMLToJSON (FirstYAMLDocument yaml) = Ok j →
       UnmarshalJSON j = Ok obj → ¬ identity parsed obj ∧ validatePathManifestIdentity parsed obj = Some e) →
    apply_case parsed yaml w (Failed e) w
| apply_sent h j obj :
    MaterialHashFromNormalizedYAML yaml = Ok h → YAMLToJSON (FirstYAMLDocument yaml) = Ok j →
    UnmarshalJSON j = Ok obj → identity parsed obj →
    apply_case parsed yaml w
      (wrap_err "server-side apply" (k8s_Apply (annotate h obj) fieldOwner true w).1)
      (k8s_Apply (annotate h obj) fieldOwner true w).2.

Lemma apply_cases parsed yaml w :
  apply_case parsed yaml w (ApplyInventoryYAML parsed yaml w).1 (ApplyInventoryYAML parsed yaml w).2.
Proof.
  unfold ApplyInventoryYAML. destruct (MaterialHashFromNormalizedYAML yaml) as [h|e] eqn:Hh; cbn [fst snd];
    [|constructor; congruence].
  destruct (YAMLToJSON _) as [j|e] eqn:Hj; cbn [fst snd]; [|constructor; congruence].
  destruct (UnmarshalJSON j) as [obj|e] eqn:Ho; cbn [fst snd]; [|constructor; congruence].
  destruct (validatePathManifestIdentity parsed obj) as [e|] eqn:Hv; cbn [fst snd].
  - constructor. intros h' j' obj' _ Hj'%(eq_trans (eq_sym Hj))%Ok_inj Ho'. subst j'.
    rewrite Ho in Ho'. apply Ok_inj in Ho' as <-. split; [|done]. rewrite <- validate_None. congruence.
  - apply validate_None in Hv. pose proof (apply_sent parsed yaml w h j obj Hh Hj Ho Hv) as Hs.
    by destruct (k8s_Apply _ _ _ w) as [res w'].
Qed.

(** The fields of an identity, in the order they are compared. *)
Definition identity_fields parsed obj : list (string * string * string) :=
  [("apiVersion", argoExpectedAPIVersion, GetAPIVersion obj);
   ("kind", match ArgoKindFromPlural (InventoryPath.PluralKind parsed) with Ok k => k | Failed _ => "" end, GetKind obj);
   ("namespace", InventoryPath.Namespace parsed, GetNamespace obj);
   ("name", InventoryPath.Name parsed, GetName obj)].

Lemma validate_first parsed obj :
  export_plural (InventoryPath.PluralKind parsed) →
  validatePathManifestIdentity parsed obj =
  (λ f, ErrMismatch f.1.1 f.1.2 f.2) <$> head (filter (λ f, f.1.2 ≠ f.2) (identity_fields parsed obj)).
Proof.
  intros Hp%kind_of_plural. unfold validatePathManifestIdentity, identity_fields.
  destruct (ArgoKindFromPlural _) as [k|]; [|done].
  rewrite !filter_cons, filter_nil. cbn [fst snd].
  repeat (case_decide; try congruence); try done.
Qed.
End facts.

(** ** What apimachinery documents of the accessors *)

(** [SetAnnotations] changes nothing but the annotations, and writes them to any
    object that has a name, whose metadata is therefore a map; an object built
    with the three setters has what they set. *)
Class UnstructuredLaws {U} `{ClientObject U} `{!Unstructured U} : Prop := {
  set_annotations_version a (u : U) : GetAPIVersion (SetAnnotations a u) = GetAPIVersion u;
  set_annotations_kind a (u : U) : GetKind (SetAnnotations a u) = GetKind u;
  set_annotations_namespace a (u : U) : GetNamespace (SetAnnotations a u) = GetNamespace u;
  set_annotations_name a (u : U) : GetName (SetAnnotations a u) = GetName u;
  set_annotations_get a (u : U) :
    GetName u ≠ "" → a ≠ [] → GetAnnotations (SetAnnotations a u) = Some a;
  built_object g ns name :
    let u : U := SetName name (SetNamespace ns (SetGroupVersionKind g new_Unstructured)) in
    GetAPIVersion u = ExportPath.Group g +:+ "/" +:+ ExportPath.Version g ∧
    GetKind u = ExportPath.Kind g ∧ GetNamespace u = ns ∧ GetName u = name
}.

Section annotate.
Context `{GoUnicode} `{UnstructuredLaws}.

(** The annotations of the copy: those of the manifest, and the hash. *)
Definition annotations_with (h : string) (obj : U) : list (string * string) :=
  amap_set SyncContentHashAnnotationKey h (amap_of_list (default [] (GetAnnotations obj))).

Lemma annotate_eq h obj : annotate h obj = SetAnnotations (annotations_with h obj) obj.
Proof. done. Qed.

Lemma annotate_identity parsed h obj : identity parsed obj → identity parsed (annotate h obj).
Proof.
  intros [Hv Hk Hns Hn]. rewrite annotate_eq. split.
  - by rewrite set_annotations_version.
  - by rewrite set_annotations_kind.
  - by rewrite set_annotations_namespace.
  - by rewrite set_annotations_name.
Qed.

Lemma annotate_get h obj :
  GetName obj ≠ "" → GetAnnotations (annotate h obj) = Some (annotations_with h obj).
Proof.
  intros Hn. rewrite annotate_eq. apply set_annotations_get; [done|]. unfold annotations_with.
  intros Heq. pose proof (get_set SyncContentHashAnnotationKey SyncContentHashAnnotationKey h
    (amap_of_list (default [] (GetAnnotations obj)))) as Hg. by rewrite Heq, decide_True in Hg.
Qed.
End annotate.

Section claims.
Context `{GoUnicode} `{Float64} `{JsonMessages} `{SigsYaml}.
Context {U W : Type} `{!ClientObject U} `{!Unstructured U} `{!UnstructuredLaws} `{!KubeClient U W}.

(** C15: an apply makes at most one call to the API server. For a path of the
    inventory it makes it exactly when the document hashes, converts and parses
    to an object whose apiVersion, kind, namespace and name are those of the
    path; the object sent has that identity, carries the material hash of the
    document in its sync-content-hash annotation, keeps the other annotations of
    the manifest, and is applied by the accord-sync-operator with forced
    ownership, and the answer of the server is returned. Otherwise nothing is
    sent and the apply fails; an object of another identity is reported as a
    path/manifest mismatch on the first field that differs. *)
Theorem ApplyInventoryYAML_correct gitPath parsed yaml (w w' : W) res :
  ParseInventoryExportPath gitPath = Some parsed →
  ApplyInventoryYAML parsed yaml w = (res, w') →
  match MaterialHashFromNormalizedYAML yaml,
        j ← YAMLToJSON (FirstYAMLDocument yaml); UnmarshalJSON j with
  | Ok h, Ok obj =>
      identity parsed obj ∧
      (∃ sent, identity parsed sent ∧
        (res, w') = (let '(r, w1) := k8s_Apply sent "accord-sync-operator" true w in
                     (wrap_err "server-side apply" r, w1)) ∧
        ∃ ann, GetAnnotations sent = Some ann ∧ ∀ k,
          amap_get k ann = if decide (k = SyncContentHashAnnotationKey) then Some h
                           else amap_get k (amap_of_list (default [] (GetAnnotations obj))))
      ∨ ¬ identity parsed obj ∧ w' = w ∧
        ∃ field expect seen rest, res = Failed (ErrMismatch field expect seen) ∧
          filter (λ f, f.1.2 ≠ f.2) (identity_fields parsed obj) = (field, expect, seen) :: rest
  | _, _ => w' = w ∧ is_ok res = false
  end.
Proof.
  destruct parsed as [plural ns name]. intros Hparse Hrun. apply parse_spec in Hparse as (Hpl & _ & (Hname & _) & _).
  pose proof (validate_first (U := U) (Parsed plural ns name)) as Hfirst.
  unfold ApplyInventoryYAML in Hrun. destruct (MaterialHashFromNormalizedYAML yaml) as [h|e];
    [|by injection Hrun as <- <-].
  destruct (YAMLToJSON _) as [j|e]; cbn [mbind result_bind]; [|by injection Hrun as <- <-].
  destruct (UnmarshalJSON j) as [obj|e]; [|by injection Hrun as <- <-].
  destruct (validatePathManifestIdentity _ obj) as [e|] eqn:Hv.
  - injection Hrun as <- <-. right. split; [rewrite <- validate_None; congruence|]. split; [done|].
    rewrite Hfirst in Hv by done. destruct (filter _ _) as [|[[f p] m] rest]; [done|].
    injection Hv as <-. by exists f, p, m, rest.
  - apply validate_None in Hv as Hid. left. split; [done|].
    exists (annotate h obj). split; [by apply annotate_identity|]. split; [by rewrite <- Hrun|].
    eexists. split; [apply annotate_get; by rewrite (id_name _ _ Hid)|].
    intros k. apply get_set.
Qed.
End claims.
