(* ===== verification/UnstructuredMap.v ===== *)
(** A concrete unstructured object, the decoded JSON map itself: an instance of
    the interfaces of Apply and Reconciler that satisfies their laws, on which
    the witnesses evaluate. *)
From S2P Require Import Prelude GoStrings GoUtf8 GoMap GoJson GoJsonFacts ExportPath Normalize Reconciler Apply.

(** Strings as a JSON object, and back. *)
Definition string_json {F} (l : list (string * string)) : list (string * json F) :=
  map (λ kv, (kv.1, JStr kv.2)) l.
Fixpoint string_map {F} (m : list (string * json F)) : option (list (string * string)) :=
  match m with
  | [] => Some []
  | (k, JStr s) :: m' => cons (k, s) <$> string_map m'
  | _ => None
  end.

Lemma string_map_json {F} l : string_map (string_json (F := F) l) = Some l.
Proof.
  induction l as [|[k s] l IH]; [done|].
  change (string_json ((k, s) :: l)) with ((k, @JStr F s) :: string_json l). cbn [string_map]. by rewrite IH.
Qed.

Lemma string_json_inj {F} l l' : string_json (F := F) l = string_json l' → l = l'.
Proof. intros Heq%(f_equal string_map). rewrite !string_map_json in Heq. congruence. Qed.

Lemma string_json_set {F} k v l :
  amap_set k (JStr v) (string_json (F := F) l) = string_json (amap_set k v l).
Proof.
  induction l as [|[k' v'] l IH]; [done|]. cbn [string_json map fst snd amap_set].
  destruct (String.compare k k'); [done..|]. cbn [map fst snd]. f_equal. exact IH.
Qed.

Lemma string_json_ascending {F} l : ascending (string_json (F := F) l) = ascending l.
Proof.
  induction l as [|[k v] l IH]; [done|]. cbn [ascending string_json map fst snd] in *.
  rewrite <- IH. by destruct l as [|[k' v'] l].
Qed.

Section maps.
Context `{Float64} `{JsonMessages}.
Abbreviation gomap := (list (string * json f64)).

Definition str_at (p : list string) (m : gomap) : string :=
  match path_get p (JObj m) with Some (JStr s) => s | _ => "" end.

(** [SetNestedField(m, v, "metadata", k)], its error ignored. *)
Definition set_metadata (k : string) (v : json f64) (m : gomap) : gomap :=
  match amap_get "metadata" m with
  | Some (JObj meta) => amap_set "metadata" (JObj (amap_set k v meta)) m
  | None => amap_set "metadata" (JObj [(k, v)]) m
  | _ => m
  end.

Definition map_object : ClientObject gomap := {|
  GetAnnotations m :=
    match path_get ["metadata"; "annotations"] (JObj m) with
    | Some (JObj ann) => string_map ann
    | _ => None
    end
|}.

Definition map_runtime : RuntimeObject gomap := {|
  json_Marshal_object m :=
    if decodable (JObj m) then Ok (marshal_map (Some m)) else Failed (Err "unsupported value")
|}.

Definition map_unstructured : Unstructured gomap := {|
  new_Unstructured := [];
  UnmarshalJSON j :=
    match unmarshal_map j with
    | Ok (Some m) => Ok m
    | _ => Failed (Err "invalid object")
    end;
  GetAPIVersion := str_at ["apiVersion"];
  GetKind := str_at ["kind"];
  GetNamespace := str_at ["metadata"; "namespace"];
  GetName := str_at ["metadata"; "name"];
  SetAnnotations a := set_metadata "annotations" (JObj (string_json a));
  SetGroupVersionKind g m :=
    amap_set "apiVersion" (JStr (Group g +:+ "/" +:+ Version g)) (amap_set "kind" (JStr (Kind g)) m);
  SetNamespace ns := set_metadata "namespace" (JStr ns);
  SetName name := set_metadata "name" (JStr name)
|}.

Lemma str_at_top k v k' m : k' ≠ "metadata" → str_at [k'] (set_metadata k v m) = str_at [k'] m.
Proof.
  intros Hk. unfold str_at, set_metadata. rewrite !path_get_cons.
  destruct (amap_get "metadata" m) as [[]|]; rewrite ?get_set, ?decide_False; done.
Qed.

Lemma str_at_other k v k' m :
  k' ≠ k → str_at ["metadata"; k'] (set_metadata k v m) = str_at ["metadata"; k'] m.
Proof.
  intros Hk. unfold str_at, set_metadata. rewrite !path_get_cons.
  destruct (amap_get "metadata" m) as [[| | | | |meta]|] eqn:Hm; rewrite ?Hm; try done;
    rewrite get_set, decide_True by done; cbn [path_of]; rewrite path_get_cons.
  - by rewrite get_set, decide_False.
  - cbn [amap_get]. by rewrite decide_False.
Qed.

#[local] Existing Instances map_object map_unstructured.
Lemma map_unstructured_laws : UnstructuredLaws (U := gomap).
Proof.
  split.
  - intros a u. by apply (str_at_top "annotations").
  - intros a u. by apply (str_at_top "annotations").
  - intros a u. by apply (str_at_other "annotations").
  - intros a u. by apply (str_at_other "annotations").
  - intros a u Hname _. change (str_at ["metadata"; "name"] u ≠ "") in Hname.
    change (match path_get ["metadata"; "annotations"] (JObj (set_metadata "annotations" (JObj (string_json a)) u))
            with Some (JObj ann) => string_map ann | _ => None end = Some a).
    unfold set_metadata, str_at in *. rewrite path_get_cons in *.
    destruct (amap_get "metadata" u) as [[| | | | |meta]|]; try done.
    rewrite get_set, decide_True by done. cbn [path_of]. rewrite path_get_cons, get_set, decide_True by done.
    apply string_map_json.
  - intros g ns name u. by repeat split.
Qed.
End maps.
