(* ===== verification/MirrorTypes.v ===== *)
(** api/v1alpha1: the types of MirrorUpgradeRequest, their JSON form by the struct
    tags, and the schema the validation markers stand for. *)
From S2P Require Import Prelude GoStrings GoUtf8 GoMap GoJson GoJsonFacts.

(** ** The types

    [P] is what a [*metav1.Time] that is not nil holds: an address in memory, the
    time itself in a value read out of it. [M] and [L] are the object and list
    metadata, [I] the slice of items. *)

Record TypeMeta := TypeMeta_ { tm_Kind : string; tm_APIVersion : string }.

Record MirrorUpgradeRequestSpec := Spec_ {
  TargetCluster : string;
  TargetNamespace : string;
  CurrentVersion : string;
  DesiredVersion : string;
  ApprovalMode : string;
  AutoCollectLogs : bool;
  LogArchivePath : string }.

Record MirrorUpgradeRequestStatus (P : Type) := Status_ {
  Phase : string;
  Message : string;
  StartedAt : option P;
  CompletedAt : option P;
  JobRef : string }.
Arguments Status_ {P}.
Arguments Phase {P}.
Arguments Message {P}.
Arguments StartedAt {P}.
Arguments CompletedAt {P}.
Arguments JobRef {P}.

Record MirrorUpgradeRequest (M P : Type) := Request_ {
  req_TypeMeta : TypeMeta;
  ObjectMeta : M;
  Spec : MirrorUpgradeRequestSpec;
  Status : MirrorUpgradeRequestStatus P }.
Arguments Request_ {M P}.
Arguments req_TypeMeta {M P}.
Arguments ObjectMeta {M P}.
Arguments Spec {M P}.
Arguments Status {M P}.

Record MirrorUpgradeRequestList (L I : Type) := List_ {
  list_TypeMeta : TypeMeta;
  ListMeta : L;
  Items : I }.
Arguments List_ {L I}.
Arguments list_TypeMeta {L I}.
Arguments ListMeta {L I}.
Arguments Items {L I}.

(** The zero values of Go. *)
Definition zero_TypeMeta : TypeMeta := TypeMeta_ "" "".
Definition zero_Spec : MirrorUpgradeRequestSpec := Spec_ "" "" "" "" "" false "".
Definition zero_Status {P} : MirrorUpgradeRequestStatus P := Status_ "" "" None None "".
Definition zero_Request {M P} (m : M) : MirrorUpgradeRequest M P :=
  Request_ zero_TypeMeta m zero_Spec zero_Status.

Definition status_is_zero {P} (s : MirrorUpgradeRequestStatus P) : bool :=
  match s with
  | Status_ "" "" None None "" => true
  | _ => false
  end.

(** ** The validation markers *)

(** The part of an OpenAPI schema the markers give: [SEnum] a string among some,
    [STime] a date-time, [SObject] a list of required members and the schemas of
    the members it names. *)
Local Unset Elimination Schemes.
Inductive schema :=
| SString
| SEnum (choices : list string)
| SBool
| STime
| SAnyObject
| SObject (required : list string) (properties : list (string * schema)).
Local Set Elimination Schemes.

Definition spec_schema : schema :=
  SObject ["targetCluster"; "targetNamespace"; "currentVersion"; "desiredVersion"; "approvalMode"]
    [("targetCluster", SString); ("targetNamespace", SString); ("currentVersion", SString);
     ("desiredVersion", SString); ("approvalMode", SEnum ["Manual"; "Auto"]);
     ("autoCollectLogs", SBool); ("logArchivePath", SString)].

Definition phases : list string := ["Pending"; "Approved"; "Running"; "Succeeded"; "Failed"; "RolledBack"].

Definition status_schema : schema :=
  SObject []
    [("phase", SEnum phases); ("message", SString); ("startedAt", STime); ("completedAt", STime);
     ("jobRef", SString)].

Definition request_schema : schema :=
  SObject ["spec"]
    [("kind", SString); ("apiVersion", SString); ("metadata", SAnyObject); ("spec", spec_schema);
     ("status", status_schema)].

Section json.
(** metav1.Time and metav1.ObjectMeta, their zero values and JSON forms: a time is
    null when it is zero and a string otherwise; metadata are left out when they
    are zero ([None]) and an object otherwise; [meta_ok] is what the API server
    accepts as metadata. *)
Context {T M : Type}.
Class MetaJson := {
  time_text : T → option string;
  time_parse : string → option T;
  meta_zero : M;
  meta_members : M → option (list (string * json string));
  meta_ok : list (string * json string) → bool;
  meta_parse : list (string * json string) → M → option M
}.
Context `{!MetaJson}.
Implicit Types (s : MirrorUpgradeRequestStatus T) (r : MirrorUpgradeRequest M T) (t : T) (j : json string).

(** ** Encoding *)

(** One member of a struct, and the tags [omitempty] and [omitzero]. *)
Definition field (k : string) (v : json string) : list (string * json string) := [(k, v)].
Definition omitempty_string (k v : string) : list (string * json string) :=
  if decide (v = "") then [] else [(k, JStr v)].
Definition omitempty_bool (k : string) (b : bool) : list (string * json string) :=
  if b then [(k, JBool true)] else [].
Definition time_json (t : T) : json string :=
  match time_text t with Some s => JStr s | None => JNull end.
Definition omitempty_time (k : string) (p : option T) : list (string * json string) :=
  match p with Some t => [(k, time_json t)] | None => [] end.

Definition spec_json (s : MirrorUpgradeRequestSpec) : json string :=
  JObj (field "targetCluster" (JStr (TargetCluster s)) ++
        field "targetNamespace" (JStr (TargetNamespace s)) ++
        field "currentVersion" (JStr (CurrentVersion s)) ++
        field "desiredVersion" (JStr (DesiredVersion s)) ++
        field "approvalMode" (JStr (ApprovalMode s)) ++
        omitempty_bool "autoCollectLogs" (AutoCollectLogs s) ++
        omitempty_string "logArchivePath" (LogArchivePath s)).

Definition status_json s : json string :=
  JObj (omitempty_string "phase" (Phase s) ++
        omitempty_string "message" (Message s) ++
        omitempty_time "startedAt" (StartedAt s) ++
        omitempty_time "completedAt" (CompletedAt s) ++
        omitempty_string "jobRef" (JobRef s)).

Definition request_json r : json string :=
  JObj (omitempty_string "kind" (tm_Kind (req_TypeMeta r)) ++
        omitempty_string "apiVersion" (tm_APIVersion (req_TypeMeta r)) ++
        match meta_members (ObjectMeta r) with Some l => field "metadata" (JObj l) | None => [] end ++
        field "spec" (spec_json (Spec r)) ++
        (if status_is_zero (Status r) then [] else field "status" (status_json (Status r)))).

Definition Marshal_request r : string := print_json (request_json r).

(** ** Decoding *)

(** A member is assigned to the field of its tag, in the order of the text;
    [null] leaves strings, bools and structs as they are and empties a pointer;
    members without a field are ignored. *)
Definition set_string {S} (put : string → S → S) (v : json string) (x : S) : option S :=
  match v with JNull => Some x | JStr s => Some (put s x) | _ => None end.
Definition set_bool {S} (put : bool → S → S) (v : json string) (x : S) : option S :=
  match v with JNull => Some x | JBool b => Some (put b x) | _ => None end.
Definition set_time {S} (put : option T → S → S) (v : json string) (x : S) : option S :=
  match v with
  | JNull => Some (put None x)
  | JStr s => t ← time_parse s; Some (put (Some t) x)
  | _ => None
  end.

Definition assigner (S : Type) : Type := list (string * (json string → S → option S)).

Fixpoint assign_all {S} (fields : assigner S) (l : list (string * json string)) (x : S) : option S :=
  match l with
  | [] => Some x
  | (k, v) :: l =>
      match amap_get k fields with
      | Some set => y ← set v x; assign_all fields l y
      | None => assign_all fields l x
      end
  end.

Definition set_struct {A S} (fields : assigner A) (get : S → A) (put : A → S → S)
    (v : json string) (x : S) : option S :=
  match v with
  | JNull => Some x
  | JObj l => a ← assign_all fields l (get x); Some (put a x)
  | _ => None
  end.

Definition spec_fields : assigner MirrorUpgradeRequestSpec :=
  [("targetCluster", set_string (λ v '(Spec_ a b c d e f g), Spec_ v b c d e f g));
   ("targetNamespace", set_string (λ v '(Spec_ a b c d e f g), Spec_ a v c d e f g));
   ("currentVersion", set_string (λ v '(Spec_ a b c d e f g), Spec_ a b v d e f g));
   ("desiredVersion", set_string (λ v '(Spec_ a b c d e f g), Spec_ a b c v e f g));
   ("approvalMode", set_string (λ v '(Spec_ a b c d e f g), Spec_ a b c d v f g));
   ("autoCollectLogs", set_bool (λ v '(Spec_ a b c d e f g), Spec_ a b c d e v g));
   ("logArchivePath", set_string (λ v '(Spec_ a b c d e f g), Spec_ a b c d e f v))].

Definition status_fields : assigner (MirrorUpgradeRequestStatus T) :=
  [("phase", set_string (λ v '(Status_ a b c d e), Status_ v b c d e));
   ("message", set_string (λ v '(Status_ a b c d e), Status_ a v c d e));
   ("startedAt", set_time (λ v '(Status_ a b c d e), Status_ a b v d e));
   ("completedAt", set_time (λ v '(Status_ a b c d e), Status_ a b c v e));
   ("jobRef", set_string (λ v '(Status_ a b c d e), Status_ a b c d v))].

Definition set_meta (v : json string) r : option (MirrorUpgradeRequest M T) :=
  match v with
  | JNull => Some r
  | JObj l => m ← meta_parse l (ObjectMeta r); Some (Request_ (req_TypeMeta r) m (Spec r) (Status r))
  | _ => None
  end.

Definition request_fields : assigner (MirrorUpgradeRequest M T) :=
  [("kind", set_string (λ v '(Request_ (TypeMeta_ a b) m s t), Request_ (TypeMeta_ v b) m s t));
   ("apiVersion", set_string (λ v '(Request_ (TypeMeta_ a b) m s t), Request_ (TypeMeta_ a v) m s t));
   ("metadata", set_meta);
   ("spec", set_struct spec_fields Spec (λ v '(Request_ a m s t), Request_ a m v t));
   ("status", set_struct status_fields Status (λ v '(Request_ a m s t), Request_ a m s v))].

Definition request_of_json j : option (MirrorUpgradeRequest M T) :=
  match j with
  | JObj l => assign_all request_fields l (zero_Request meta_zero)
  | _ => None
  end.

Definition Unmarshal_request (text : string) : option (MirrorUpgradeRequest M T) :=
  j ← parse_json text; request_of_json j.

(** ** Typing *)

(** A member without a schema is allowed; it is pruned when the object is stored. *)
Fixpoint has_type (sc : schema) (j : json string) {struct sc} : bool :=
  match sc, j with
  | SString, JStr _ => true
  | SEnum choices, JStr s => bool_decide (s ∈ choices)
  | SBool, JBool _ => true
  | STime, JStr s => bool_decide (is_Some (time_parse s))
  | SAnyObject, JObj l => meta_ok l
  | SObject required properties, JObj l =>
      forallb (λ k, bool_decide (k ∈ l.*1)) required &&
      forallb (λ kv : string * json string,
        (fix member ps := match ps with
           | [] => true
           | (k, sc') :: ps => if decide (kv.1 = k) then has_type sc' kv.2 else member ps
           end) properties) l
  | _, _ => false
  end.

(** ** Facts *)

(** What apimachinery documents: metadata that are not zero are an object that is read
    back, and what the API server accepts can be read. It does not accept all: names
    and labels, for example, have to be valid. *)
Class MetaJsonLaws : Prop := {
  meta_members_None m : meta_members m = None → m = meta_zero;
  meta_members_Some m l : meta_members m = Some l →
    meta_parse l meta_zero = Some m ∧ json_wf 1 (JObj l) = true;
  meta_ok_parse l m : meta_ok l = true → is_Some (meta_parse l m)
}.

Definition member_ok (ps : list (string * schema)) (kv : string * json string) : bool :=
  match amap_get kv.1 ps with Some sc => has_type sc kv.2 | None => true end.

Lemma has_type_object required ps l :
  has_type (SObject required ps) (JObj l) =
  forallb (λ k, bool_decide (k ∈ l.*1)) required && forallb (member_ok ps) l.
Proof.
  cbn [has_type]. f_equal. induction l as [|kv l IH]; [done|]. cbn [forallb]. rewrite IH. f_equal.
  clear IH. unfold member_ok. induction ps as [|[k sc] ps IHps]; [done|]. cbn [amap_get].
  destruct (decide (kv.1 = k)); [done|exact IHps].
Qed.

Lemma forallb_Forall {A} (f : A → bool) l : forallb f l = true ↔ Forall (λ x, f x = true) l.
Proof. rewrite forallb_forall, Forall_forall. by setoid_rewrite <- list_elem_of_In. Qed.

Lemma object_typed required ps l :
  has_type (SObject required ps) (JObj l) = true ↔
  Forall (λ k, k ∈ l.*1) required ∧ Forall (λ kv, member_ok ps kv = true) l.
Proof.
  rewrite has_type_object, andb_true_iff, !forallb_Forall.
  by setoid_rewrite bool_decide_eq_true.
Qed.

(** ** What the types let a program write *)

Definition modes : list string := ["Manual"; "Auto"].
Definition storable (p : option T) : Prop :=
  ∀ t, p = Some t → ∃ x, time_text t = Some x ∧ is_Some (time_parse x).

Definition valid_metadata r : Prop := ∀ l, meta_members (ObjectMeta r) = Some l → meta_ok l = true.
Definition valid_request r : Prop :=
  ApprovalMode (Spec r) ∈ modes ∧ (Phase (Status r) = "" ∨ Phase (Status r) ∈ phases).

Lemma string_member_ok ps k v :
  amap_get k ps = Some SString → Forall (λ kv, member_ok ps kv = true) (omitempty_string k v).
Proof.
  intros Hk. unfold omitempty_string. case_decide; [constructor|]. constructor; [|done].
  unfold member_ok. cbn [fst snd]. by rewrite Hk.
Qed.

Lemma enum_member_ok ps k v choices :
  amap_get k ps = Some (SEnum choices) →
  Forall (λ kv, member_ok ps kv = true) (omitempty_string k v) ↔ (v = "" ∨ v ∈ choices).
Proof.
  intros Hk. unfold omitempty_string. case_decide as Hv; [by split; [left|]|].
  rewrite Forall_singleton. unfold member_ok. cbn [fst snd]. rewrite Hk. cbn [has_type].
  rewrite bool_decide_eq_true. split; [by right|by intros [|]].
Qed.

Lemma time_member_ok ps k p :
  amap_get k ps = Some STime → Forall (λ kv, member_ok ps kv = true) (omitempty_time k p) ↔ storable p.
Proof.
  intros Hk. unfold omitempty_time, storable. destruct p as [t|]; [|by split].
  rewrite Forall_singleton. unfold member_ok, time_json. cbn [fst snd]. rewrite Hk.
  destruct (time_text t) as [x|] eqn:Ht; cbn [has_type].
  - rewrite bool_decide_eq_true. split; [|intros Hs; by destruct (Hs t eq_refl) as (y & ? & ?); simplify_eq].
    intros Hs t' [= <-]. by exists x.
  - split; [done|]. intros Hs. by destruct (Hs t eq_refl) as (y & ? & _); simplify_eq.
Qed.

Lemma bool_member_ok ps k b :
  amap_get k ps = Some SBool → Forall (λ kv, member_ok ps kv = true) (omitempty_bool k b).
Proof.
  intros Hk. destruct b; constructor; [|done]. unfold member_ok. cbn [fst snd]. by rewrite Hk.
Qed.

Lemma plain_member_ok ps k v sc :
  amap_get k ps = Some sc → Forall (λ kv, member_ok ps kv = true) (field k v) ↔ has_type sc v = true.
Proof. intros Hk. unfold field. rewrite Forall_singleton. unfold member_ok. cbn [fst snd]. by rewrite Hk. Qed.

Lemma spec_typed (s : MirrorUpgradeRequestSpec) :
  has_type spec_schema (spec_json s) = true ↔ ApprovalMode s ∈ modes.
Proof.
  unfold spec_schema, spec_json. set (ps := [("targetCluster", SString); _; _; _; _; _; _]).
  rewrite object_typed, !Forall_app. repeat (rewrite (plain_member_ok ps _ _ SString) by reflexivity).
  rewrite (plain_member_ok ps _ _ (SEnum modes)) by reflexivity. cbn [has_type]. rewrite bool_decide_eq_true.
  pose proof (bool_member_ok ps "autoCollectLogs" (AutoCollectLogs s) eq_refl).
  pose proof (string_member_ok ps "logArchivePath" (LogArchivePath s) eq_refl).
  split; [tauto|]. intros Hm. split; [|tauto].
  rewrite !fmap_app. cbn [field fmap list_fmap fst app]. repeat constructor; set_solver.
Qed.

Lemma status_typed s :
  has_type status_schema (status_json s) = true ↔
  (Phase s = "" ∨ Phase s ∈ phases) ∧ storable (StartedAt s) ∧ storable (CompletedAt s).
Proof.
  unfold status_schema, status_json. set (ps := [("phase", _); _; _; _; _]).
  rewrite object_typed, Forall_nil, !Forall_app. rewrite (enum_member_ok ps _ _ phases) by reflexivity.
  rewrite !time_member_ok by reflexivity.
  pose proof (string_member_ok ps "message" (Message s) eq_refl).
  pose proof (string_member_ok ps "jobRef" (JobRef s) eq_refl). tauto.
Qed.

Lemma status_zero_spec s : status_is_zero s = true ↔ s = zero_Status.
Proof.
  split; [|by intros ->]. destruct s as [a b c d e]. unfold status_is_zero.
  destruct a; [|done]. destruct b; [|done]. destruct c; [done|]. destruct d; [done|]. by destruct e.
Qed.

(** C37: the Go types and the schema agree as far as they can. What a program
    encodes as a MirrorUpgradeRequest is accepted by the schema exactly when its
    approval mode is Manual or Auto, its phase is empty - the member is left out -
    or one of the six, the times it points to are not zero and have a text that is
    read back, and its metadata, unless they are zero and left out, are some the API
    server accepts: Go's strings let a program write other modes and phases, and a
    pointer to the zero time is encoded as null. *)
Theorem request_json_typed r :
  has_type request_schema (request_json r) = true ↔
  valid_metadata r ∧ (ApprovalMode (Spec r) ∈ modes) ∧ (Phase (Status r) = "" ∨ Phase (Status r) ∈ phases) ∧
  storable (StartedAt (Status r)) ∧ storable (CompletedAt (Status r)).
Proof.
  unfold request_schema, request_json. set (ps := [("kind", _); _; _; _; _]).
  rewrite object_typed, !Forall_app, (plain_member_ok ps _ _ spec_schema), spec_typed by reflexivity.
  pose proof (string_member_ok ps "kind" (tm_Kind (req_TypeMeta r)) eq_refl) as Hkind.
  pose proof (string_member_ok ps "apiVersion" (tm_APIVersion (req_TypeMeta r)) eq_refl) as Hver.
  assert (Hmeta : Forall (λ kv, member_ok ps kv = true)
    (match meta_members (ObjectMeta r) with Some l => field "metadata" (JObj l) | None => [] end) ↔ valid_metadata r).
  { unfold valid_metadata. destruct (meta_members (ObjectMeta r)) as [l|] eqn:Hl; [|by split].
    rewrite (plain_member_ok ps _ _ SAnyObject) by reflexivity. split; [by intros Hok l' [= <-]|intros Hall; exact (Hall l eq_refl)]. }
  assert (Hst : Forall (λ kv, member_ok ps kv = true)
      (if status_is_zero (Status r) then [] else field "status" (status_json (Status r))) ↔
    (Phase (Status r) = "" ∨ Phase (Status r) ∈ phases) ∧ storable (StartedAt (Status r)) ∧
    storable (CompletedAt (Status r))).
  { destruct (status_is_zero (Status r)) eqn:Hz.
    - apply status_zero_spec in Hz as ->. split; [|done]. intros _. by split; [left|].
    - by rewrite (plain_member_ok ps _ _ status_schema), status_typed. }
  rewrite Hst, Hmeta. split; [by intros (_ & _ & _ & ?)|].
  intros Hr. split; [|exact (conj Hkind (conj Hver Hr))].
  constructor; [|done]. rewrite !fmap_app. cbn [field fmap list_fmap fst]. clear. set_solver.
Qed.

(** ** What the schema accepts is read *)

(** Running the assignments of a list of well-typed members keeps what every
    well-typed assignment keeps. *)
Definition keeps {S} (fields : assigner S) (ps : list (string * schema)) (I : S → Prop) : Prop :=
  ∀ k set v x, amap_get k fields = Some set → member_ok ps (k, v) = true → I x → ∃ y, set v x = Some y ∧ I y.

Lemma assign_all_app {S} (fields : assigner S) l l' x :
  assign_all fields (l ++ l') x = (y ← assign_all fields l x; assign_all fields l' y).
Proof.
  revert x. induction l as [|[k v] l IH]; intros x; [done|]. cbn [assign_all app].
  destruct (amap_get k fields) as [set|]; [|apply IH]. destruct (set v x); [apply IH|done].
Qed.

Lemma assign_all_keeps {S} (fields : assigner S) ps (I : S → Prop) l x :
  keeps fields ps I → Forall (λ kv, member_ok ps kv = true) l → I x →
  ∃ y, assign_all fields l x = Some y ∧ I y.
Proof.
  intros Hk Hl. revert x. induction Hl as [|[k v] l Hkv Hl IH]; intros x Hx; [by exists x|].
  cbn [assign_all]. destruct (amap_get k fields) as [set|] eqn:Hset; [|by apply IH].
  destruct (Hk k set v x Hset Hkv Hx) as (y & -> & Hy). by apply IH.
Qed.

(** A member that is present and establishes more does so for the whole list. *)
Lemma assign_all_establishes {S} (fields : assigner S) ps (I E : S → Prop) k set l x :
  keeps fields ps I → keeps fields ps E → amap_get k fields = Some set →
  (∀ v y, member_ok ps (k, v) = true → I y → ∃ z, set v y = Some z ∧ E z) →
  k ∈ l.*1 → Forall (λ kv, member_ok ps kv = true) l → I x →
  ∃ y, assign_all fields l x = Some y ∧ E y.
Proof.
  intros HI HE Hset Hk ([k' v] & -> & Hin)%list_elem_of_fmap Hl Hx. cbn [fst] in *.
  apply list_elem_of_split in Hin as (l1 & l2 & ->). rewrite assign_all_app.
  apply Forall_app in Hl as [Hl1 [Hv Hl2]%Forall_cons].
  destruct (assign_all_keeps fields ps I l1 x HI Hl1 Hx) as (y & -> & Hy). cbn [mbind option_bind assign_all].
  rewrite Hset. destruct (Hk v y Hv Hy) as (z & -> & Hz). cbn [mbind option_bind].
  by apply (assign_all_keeps fields ps E).
Qed.

(** Case analysis on the field a key names. *)
Ltac by_field Hset :=
  cbn [amap_get] in Hset;
  repeat (case_decide; [subst; injection Hset as <-|]); [..|discriminate Hset].

Definition properties (sc : schema) : list (string * schema) :=
  match sc with SObject _ ps => ps | _ => [] end.

Lemma spec_keeps (E : Prop) :
  keeps spec_fields (properties spec_schema) (λ sp, E ∨ ApprovalMode sp ∈ modes).
Proof.
  intros k set v x Hset Hv Hx. unfold spec_fields in Hset.
  by_field Hset; destruct x, v; try discriminate Hv; (eexists; split; [reflexivity|]); cbn in *; try exact Hx.
  right. by apply bool_decide_eq_true in Hv.
Qed.

Lemma spec_read v x :
  has_type spec_schema v = true →
  ∃ y, set_struct (S := MirrorUpgradeRequest M T) spec_fields Spec (λ v '(Request_ a m s t), Request_ a m v t) v x = Some y ∧
       ApprovalMode (Spec y) ∈ modes ∧ Status y = Status x.
Proof.
  destruct v as [|b|n|t|l|l]; try done. intros [Hreq Hl]%object_typed.
  destruct (assign_all_establishes spec_fields _ (λ sp, True ∨ ApprovalMode sp ∈ modes)
    (λ sp, False ∨ ApprovalMode sp ∈ modes) "approvalMode" (set_string (λ v '(Spec_ a b c d e f g), Spec_ a b c d v f g))
    l (Spec x) (spec_keeps True) (spec_keeps False) eq_refl) as (sp & Hs & Hm); [..|exact Hl|by left|].
  - intros v [] Hv _. destruct v; try discriminate Hv. eexists. split; [reflexivity|]. right. 
    by apply bool_decide_eq_true in Hv.
  - repeat (apply Forall_cons in Hreq as [? Hreq]). done.
  - cbn [set_struct]. rewrite Hs. destruct x. eexists. split; [reflexivity|]. split; [by destruct Hm|done].
Qed.

Definition phase_ok s : Prop := Phase s = "" ∨ Phase s ∈ phases.

Lemma status_keeps : keeps status_fields (properties status_schema) phase_ok.
Proof.
  intros k set v x Hset Hv Hx. unfold status_fields in Hset.
  by_field Hset; destruct x, v; try discriminate Hv; cbn -[member_ok] in *;
    try (eexists; split; [reflexivity|]; exact Hx).
  - eexists; split; [reflexivity|]. right. by apply bool_decide_eq_true in Hv.
  - apply bool_decide_eq_true in Hv as [t ->]. eexists; split; [reflexivity|]. exact Hx.
  - apply bool_decide_eq_true in Hv as [t ->]. eexists; split; [reflexivity|]. exact Hx.
Qed.

Lemma status_read v x :
  has_type status_schema v = true → phase_ok (Status x) →
  ∃ y, set_struct (S := MirrorUpgradeRequest M T) status_fields Status
         (λ v '(Request_ a m s t), Request_ a m s v) v x = Some y ∧
       phase_ok (Status y) ∧ Spec y = Spec x.
Proof.
  destruct v as [|b|n|t|l|l]; try done. intros [_ Hl]%object_typed Hp.
  destruct (assign_all_keeps status_fields _ phase_ok l (Status x) status_keeps Hl Hp) as (s & Hs & Hm).
  cbn [set_struct]. rewrite Hs. destruct x. by eexists.
Qed.

Lemma request_keeps `{!MetaJsonLaws} (E : Prop) :
  keeps request_fields (properties request_schema)
    (λ r, phase_ok (Status r) ∧ (E ∨ ApprovalMode (Spec r) ∈ modes)).
Proof.
  intros k set v x Hset Hv [Hp Hm]. unfold request_fields in Hset. by_field Hset.
  - destruct x as [[] ???], v; try discriminate Hv. by eexists.
  - destruct x as [[] ???], v; try discriminate Hv. by eexists.
  - destruct v; try discriminate Hv. destruct (meta_ok_parse l (ObjectMeta x) Hv) as [m Hm'].
    cbn [set_meta]. rewrite Hm'. by eexists.
  - destruct (spec_read v x Hv) as (y & -> & Hy & Hs). eexists. split; [done|]. rewrite Hs. by split; [|right].
  - destruct (status_read v x Hv Hp) as (y & -> & Hy & Hs). eexists. split; [done|]. by rewrite Hs.
Qed.

(** A document the schema accepts is read without an error, whatever members it
    repeats or adds, and the request that results has an approval mode and a
    phase among those the markers list. *)
Theorem typed_request_is_read `{!MetaJsonLaws} j :
  has_type request_schema j = true → ∃ r, request_of_json j = Some r ∧ valid_request r.
Proof.
  destruct j as [|b|n|t|l|l]; try done. intros [Hreq Hl]%object_typed.
  apply Forall_cons in Hreq as [Hreq _].
  destruct (assign_all_establishes request_fields (properties request_schema) _ _ "spec"
    (set_struct spec_fields Spec (λ v '(Request_ a m s t), Request_ a m v t)) l (zero_Request meta_zero)
    (request_keeps True) (request_keeps False) eq_refl) as (r & Hr & Hp & Hm); [|exact Hreq|exact Hl|by split; left|].
  - intros v y Hv [Hy _]. destruct (spec_read v y Hv) as (z & -> & Hz & Hs).
    eexists. split; [done|]. rewrite Hs. by split; [|right].
  - exists r. split; [exact Hr|]. split; [by destruct Hm|exact Hp].
Qed.

(** ** Round trip *)

Definition exact (p : option T) : Prop :=
  ∀ t, p = Some t → ∃ x, time_text t = Some x ∧ time_parse x = Some t ∧ utf8_valid x = true.

Lemma read_string {S} (fields : assigner S) k (put : string → S → S) v x :
  amap_get k fields = Some (set_string put) → (v = "" → put v x = x) →
  assign_all fields (omitempty_string k v) x = Some (put v x).
Proof.
  intros Hk Hv. unfold omitempty_string. case_decide as H0v; [by rewrite Hv|].
  cbn [assign_all]. by rewrite Hk.
Qed.

Lemma read_time {S} (fields : assigner S) k (put : option T → S → S) p x :
  amap_get k fields = Some (set_time put) → (p = None → put p x = x) → exact p →
  assign_all fields (omitempty_time k p) x = Some (put p x).
Proof.
  intros Hk Hp He. destruct p as [t|]; cbn [omitempty_time assign_all]; [|by rewrite Hp].
  destruct (He t eq_refl) as (y & Hy & Hpy & _). rewrite Hk. unfold time_json. rewrite Hy.
  cbn [set_time]. by rewrite Hpy.
Qed.

Lemma spec_round_trip (sp : MirrorUpgradeRequestSpec) (x : MirrorUpgradeRequest M T) :
  Spec x = zero_Spec →
  set_struct spec_fields Spec (λ v '(Request_ a m s t), Request_ a m v t) (spec_json sp) x =
  Some (Request_ (req_TypeMeta x) (ObjectMeta x) sp (Status x)).
Proof.
  intros Hx. unfold set_struct, spec_json. rewrite Hx. destruct sp as [a b c d e f g].
  assert (Hs : assign_all spec_fields
    (omitempty_bool "autoCollectLogs" f ++ omitempty_string "logArchivePath" g) (Spec_ a b c d e false "") =
    Some (Spec_ a b c d e f g)).
  { rewrite assign_all_app. replace (assign_all spec_fields (omitempty_bool "autoCollectLogs" f)
      (Spec_ a b c d e false "")) with (Some (Spec_ a b c d e f "")) by (by destruct f).
    cbn [mbind option_bind]. by erewrite read_string; [|reflexivity|intros ->]. }
  match goal with |- mbind _ ?r = _ => change r with (assign_all spec_fields
    (omitempty_bool "autoCollectLogs" f ++ omitempty_string "logArchivePath" g) (Spec_ a b c d e false "")) end.
  rewrite Hs. by destruct x.
Qed.

(** The next group of members of a concatenation. *)
Tactic Notation "read_next" uconstr(H) :=
  rewrite assign_all_app; erewrite H; [|reflexivity|by intros ->|try done..]; cbn [mbind option_bind zero_Request zero_Status].

Lemma status_round_trip s (x : MirrorUpgradeRequest M T) :
  Status x = zero_Status → exact (StartedAt s) → exact (CompletedAt s) →
  set_struct status_fields Status (λ v '(Request_ a m s t), Request_ a m s v) (status_json s) x =
  Some (Request_ (req_TypeMeta x) (ObjectMeta x) (Spec x) s).
Proof.
  intros Hx Ha Hb. unfold set_struct, status_json. rewrite Hx. destruct s as [a b c d e].
  cbn [Phase Message StartedAt CompletedAt JobRef] in *.
  read_next (read_string _ "phase").
  read_next (read_string _ "message").
  read_next (read_time _ "startedAt").
  read_next (read_time _ "completedAt").
  erewrite (read_string _ "jobRef"); [|reflexivity|by intros ->]. by destruct x.
Qed.

Lemma request_round_trip `{!MetaJsonLaws} r :
  exact (StartedAt (Status r)) → exact (CompletedAt (Status r)) → request_of_json (request_json r) = Some r.
Proof.
  intros Ha Hb. unfold request_of_json, request_json. destruct r as [[k v] m sp st].
  cbn [req_TypeMeta tm_Kind tm_APIVersion ObjectMeta Spec Status] in *.
  read_next (read_string _ "kind").
  read_next (read_string _ "apiVersion").
  match goal with |- assign_all _ _ ?st = _ =>
    change st with (Request_ (P := T) (TypeMeta_ k v) meta_zero zero_Spec zero_Status) end.
  rewrite assign_all_app. replace (assign_all _ (match meta_members m with Some l => _ | None => _ end) _)
    with (Some (Request_ (TypeMeta_ k v) m zero_Spec (zero_Status (P := T)))).
  2: { destruct (meta_members m) as [l|] eqn:Hm.
       - apply meta_members_Some in Hm as [Hm _].
         change (assign_all request_fields (field "metadata" (JObj l)) ?x) with
           (y ← set_meta (JObj l) x; Some y). cbn [set_meta ObjectMeta]. by rewrite Hm.
       - apply meta_members_None in Hm as ->. reflexivity. }
  cbn [mbind option_bind]. rewrite assign_all_app. cbn [mbind option_bind field].
  change (assign_all request_fields (field "spec" (spec_json sp)) ?x) with
    (y ← set_struct spec_fields Spec (λ v '(Request_ a m s t), Request_ a m v t) (spec_json sp) x; Some y).
  rewrite spec_round_trip by done. cbn [mbind option_bind].
  destruct (status_is_zero st) eqn:Hz.
  - apply status_zero_spec in Hz as ->. reflexivity.
  - change (assign_all request_fields (field "status" (status_json st)) ?x) with
      (y ← set_struct status_fields Status (λ v '(Request_ a m s t), Request_ a m s v) (status_json st) x; Some y).
    by rewrite status_round_trip.
Qed.

Definition utf8_request r : Prop :=
  Forall (λ x, utf8_valid x = true)
    [tm_Kind (req_TypeMeta r); tm_APIVersion (req_TypeMeta r); TargetCluster (Spec r); TargetNamespace (Spec r);
     CurrentVersion (Spec r); DesiredVersion (Spec r); ApprovalMode (Spec r); LogArchivePath (Spec r);
     Phase (Status r); Message (Status r); JobRef (Status r)].

Definition member_wf (d : Z) (kv : string * json string) : Prop := utf8_valid kv.1 = true ∧ json_wf d kv.2 = true.

Lemma object_wf d l :
  (d < maxNestingDepth)%Z → Forall (member_wf (d + 1)) l → json_wf d (JObj l) = true.
Proof.
  intros Hd Hl. cbn [json_wf]. apply andb_true_iff. split; [by apply Z.ltb_lt|].
  apply forallb_Forall. eapply Forall_impl; [exact Hl|]. intros kv [Hk Hv]. by rewrite Hk, Hv.
Qed.

Lemma string_wf d k x :
  utf8_valid k = true → utf8_valid x = true → Forall (member_wf d) (omitempty_string k x).
Proof. intros Hk Hx. unfold omitempty_string. case_decide; [done|]. by constructor. Qed.

Lemma time_wf d k p : utf8_valid k = true → exact p → Forall (member_wf d) (omitempty_time k p).
Proof.
  intros Hk Hp. destruct p as [t|]; [|done]. destruct (Hp t eq_refl) as (x & Hx & _ & Hv).
  constructor; [|done]. split; [exact Hk|]. unfold time_json. cbn [snd]. by rewrite Hx.
Qed.

Lemma field_wf d k v : utf8_valid k = true → json_wf d v = true → Forall (member_wf d) (field k v).
Proof. intros Hk Hv. by constructor. Qed.

Lemma bool_wf d k b : utf8_valid k = true → Forall (member_wf d) (omitempty_bool k b).
Proof. intros Hk. destruct b; [|done]. by constructor. Qed.

Lemma request_wf `{!MetaJsonLaws} r :
  utf8_request r → exact (StartedAt (Status r)) → exact (CompletedAt (Status r)) →
  json_wf 0 (request_json r) = true.
Proof.
  intros Hr Ha Hb. unfold utf8_request in Hr. rewrite !Forall_cons in Hr.
  destruct Hr as (Hkind & Hver & Hc & Hn & Hcur & Hdes & Hmode & Hlog & Hph & Hmsg & Hjob & _).
  apply object_wf; [done|]. rewrite !Forall_app. split; [by apply string_wf|].
  split; [by apply string_wf|]. split.
  { destruct (meta_members (ObjectMeta r)) as [l|] eqn:Hm; [|done].
    apply meta_members_Some in Hm as [_ Hm]. by apply field_wf. }
  split.
  - apply field_wf; [done|]. apply object_wf; [done|]. rewrite !Forall_app.
    repeat (split; [first [apply field_wf; done|apply bool_wf; done]|]). by apply string_wf.
  - destruct (status_is_zero (Status r)); [done|]. apply field_wf; [done|]. apply object_wf; [done|].
    rewrite !Forall_app. repeat (split; [first [apply string_wf; done|apply time_wf; done]|]). by apply string_wf.
Qed.

(** A MirrorUpgradeRequest survives the API server: the text it is encoded to
    decodes to the same request - type and object metadata, spec and status - when
    its strings are valid UTF-8 and the times it points to are ones their text
    determines (not zero, whole seconds). *)
Theorem request_text_round_trip `{!MetaJsonLaws} r :
  utf8_request r → exact (StartedAt (Status r)) → exact (CompletedAt (Status r)) →
  Unmarshal_request (Marshal_request r) = Some r.
Proof.
  intros Hr Ha Hb. unfold Unmarshal_request, Marshal_request.
  rewrite parse_json_print by (by apply request_wf). by apply request_round_trip.
Qed.
End json.

(** ** Witnesses: times as their texts, metadata with a name *)

Module Sample.
Definition named : Type := { s : string | utf8_valid s = true }.
Definition no_name : named := exist _ "" eq_refl.

Definition name_of (l : list (string * json string)) (m : named) : option named :=
  match amap_get "name" l with
  | None => Some m
  | Some (JStr s) => match bool_dec (utf8_valid s) true with left H => Some (exist _ s H) | right _ => None end
  | Some _ => None
  end.

Definition name_ok (l : list (string * json string)) : bool :=
  match amap_get "name" l with Some (JStr s) => bool_decide (s ≠ "not a name") | _ => true end.

Definition text_meta : MetaJson (T := string) (M := named) := {|
  time_text t := if decide (t = "") then None else Some t;
  time_parse x := if decide (x = "") then None else Some x;
  meta_zero := no_name;
  meta_members m := if decide (`m = "") then None else Some [("name", JStr (`m))];
  meta_ok l := bool_decide (is_Some (name_of l no_name)) && name_ok l;
  meta_parse := name_of
|}.
#[local] Existing Instance text_meta.

Lemma name_of_any l m m' : is_Some (name_of l m) → is_Some (name_of l m').
Proof. unfold name_of. destruct (amap_get "name" l); done. Qed.

Lemma named_eq (m m' : named) : `m = `m' → m = m'.
Proof. by apply (sig_eq_pi _). Qed.

#[export] Instance text_meta_laws : MetaJsonLaws.
Proof.
  split.
  - intros m. unfold meta_members, text_meta. case_decide as Hm; [|done]. intros _. by apply named_eq.
  - intros m l. unfold meta_members, text_meta. case_decide as Hm; [done|]. intros [= <-].
    assert (Hn : name_of [("name", JStr (`m))] no_name = Some m).
    { unfold name_of. cbn [amap_get]. rewrite decide_True by done. destruct m as [s Hs]. cbn [proj1_sig].
      destruct (bool_dec (utf8_valid s) true) as [H|H]; [|done]. f_equal. by apply named_eq. }
    split; [exact Hn|]. apply object_wf; [done|]. constructor; [|done]. split; [done|]. exact (proj2_sig m).
  - intros l m Hl. unfold meta_ok, text_meta in Hl. apply andb_true_iff in Hl as [Hl%bool_decide_eq_true _]. by eapply name_of_any.
Qed.

Definition upgrade : MirrorUpgradeRequest named string :=
  Request_ (TypeMeta_ "MirrorUpgradeRequest" "ops.accord.io/v1alpha1") (exist _ "up" eq_refl)
    (Spec_ "prod" "argocd" "2.9" "2.10" "Manual" true "")
    (Status_ "Running" "" (Some "2026-01-02T03:04:05Z") None "job-1").

Lemma upgrade_started : exact (StartedAt (Status upgrade)).
Proof. intros t [= <-]. exists "2026-01-02T03:04:05Z". by split. Qed.
Lemma upgrade_running : exact (CompletedAt (Status upgrade)).
Proof. by intros t. Qed.

(** The same under a name the API server refuses. *)
Definition misnamed : MirrorUpgradeRequest named string :=
  Request_ (req_TypeMeta upgrade) (exist _ "not a name" eq_refl) (Spec upgrade) (Status upgrade).

Lemma request_json_typed_witness :
  has_type request_schema (request_json upgrade) = true ∧
  has_type request_schema (request_json misnamed) = false ∧
  has_type request_schema (request_json (zero_Request (M := named) (P := string) no_name)) = false.
Proof.
  split; [|split].
  - apply (request_json_typed upgrade). split; [intros l [= <-]; reflexivity|]. split; [by left|].
    split; [by right; do 2 right; left|]. split; intros t [= <-]. exists "2026-01-02T03:04:05Z". split; [done|by eexists].
  - destruct (has_type request_schema (request_json misnamed)) eqn:H; [|done].
    apply (request_json_typed misnamed) in H as [H _]. by specialize (H _ eq_refl).
  - destruct (has_type request_schema (request_json (zero_Request (M := named) (P := string) no_name))) eqn:H; [|done].
    apply (request_json_typed (zero_Request (M := named) (P := string) no_name)) in H as (_ & H & _).
    set_solver.
Defined.

Lemma typed_request_is_read_witness :
  let doc := JObj [("extra", JNull); ("spec", spec_json (Spec upgrade)); ("status", JObj []);
                   ("spec", spec_json (Spec upgrade))] in
  has_type request_schema doc = true ∧ ∃ r, request_of_json doc = Some r ∧ valid_request r.
Proof.
  assert (Ht : has_type request_schema (JObj [("extra", JNull); ("spec", spec_json (Spec upgrade));
    ("status", JObj []); ("spec", spec_json (Spec upgrade))]) = true) by by_vm.
  split; [exact Ht|]. exact (typed_request_is_read _ Ht).
Defined.

Lemma request_text_round_trip_witness : Unmarshal_request (Marshal_request upgrade) = Some upgrade.
Proof.
  apply (request_text_round_trip upgrade); [|exact upgrade_started|exact upgrade_running].
  repeat constructor.
Defined.
End Sample.
