(* ===== verification/DeepCopy.v ===== *)
(** api/v1alpha1/zz_generated.deepcopy.go: the generated copies of
    MirrorUpgradeRequest, on a heap in which pointers can alias. *)
From S2P Require Import Prelude MirrorTypes.

(** ** Memory *)

Abbreviation loc := positive.

(** A slice that is not nil: a window into an array. *)
Record slice := Slice { arr : loc; off : nat; len : nat }.

Section memory.
(** Times, the object and list metadata, and the cells the metadata point to. *)
Context {T M L X : Type}.

(** A request and a list as they are in memory, and what they denote. *)
Abbreviation request := (MirrorUpgradeRequest M loc).
Abbreviation request_list := (MirrorUpgradeRequestList L (option slice)).

Inductive cell :=
| CTime (t : T)
| CSpec (s : MirrorUpgradeRequestSpec)
| CStatus (s : MirrorUpgradeRequestStatus loc)
| CRequest (r : request)
| CArray (l : list request)
| CList (l : request_list)
| COther (x : X).

Abbreviation heap := (gmap loc cell).

(** What allocates and copies: [None] is a panic. *)
Definition copier (A : Type) : Type := A → heap → option (A * heap).

Definition new (c : cell) (h : heap) : loc * heap := let p := fresh (dom h) in (p, <[p := c]> h).

(** ** Pointers

    A pointer to a variable, a field or an element: the cell it lies in, and how
    it is read and written there. *)
Record ref (A : Type) := Ref { base : loc; get_in : cell → option A; put_in : A → cell → option cell }.
Arguments Ref {A}.
Arguments base {A}.
Arguments get_in {A}.
Arguments put_in {A}.

Definition rd {A} (p : ref A) (h : heap) : option A := c ← h !! base p; get_in p c.
Definition wr {A} (p : ref A) (a : A) (h : heap) : option heap :=
  c ← h !! base p; c' ← put_in p a c; Some (<[base p := c']> h).

Definition ref_spec (p : loc) : ref MirrorUpgradeRequestSpec :=
  Ref p (λ c, match c with CSpec s => Some s | _ => None end)
        (λ s c, match c with CSpec _ => Some (CSpec s) | _ => None end).
Definition ref_status (p : loc) : ref (MirrorUpgradeRequestStatus loc) :=
  Ref p (λ c, match c with CStatus s => Some s | _ => None end)
        (λ s c, match c with CStatus _ => Some (CStatus s) | _ => None end).
Definition ref_request (p : loc) : ref request :=
  Ref p (λ c, match c with CRequest r => Some r | _ => None end)
        (λ r c, match c with CRequest _ => Some (CRequest r) | _ => None end).
Definition ref_list (p : loc) : ref request_list :=
  Ref p (λ c, match c with CList l => Some l | _ => None end)
        (λ l c, match c with CList _ => Some (CList l) | _ => None end).
(** [&s[i]]; a panic when [i] is out of range. *)
Definition ref_elem (s : slice) (i : nat) : ref request :=
  Ref (arr s)
    (λ c, match c with CArray l => if decide (i < len s) then l !! (off s + i) else None | _ => None end)
    (λ r c, match c with
            | CArray l => if decide (i < len s ∧ off s + i < length l) then Some (CArray (<[off s + i := r]> l)) else None
            | _ => None end).
(** [&p.f] *)
Definition ref_field {S A} (get : S → A) (put : A → S → S) (p : ref S) : ref A :=
  Ref (base p) (λ c, get <$> get_in p c) (λ a c, s ← get_in p c; put_in p (put a s) c).

Definition at_StartedAt := ref_field (@StartedAt loc) (λ v '(Status_ a b c d e), Status_ a b v d e).
Definition at_CompletedAt := ref_field (@CompletedAt loc) (λ v '(Status_ a b c d e), Status_ a b c v e).
Definition at_TypeMeta := ref_field (@req_TypeMeta M loc) (λ v '(Request_ a m s t), Request_ v m s t).
Definition at_ObjectMeta := ref_field (@ObjectMeta M loc) (λ v '(Request_ a m s t), Request_ a v s t).
Definition at_Spec := ref_field (@Spec M loc) (λ v '(Request_ a m s t), Request_ a m v t).
Definition at_Status := ref_field (@Status M loc) (λ v '(Request_ a m s t), Request_ a m s v).
Definition at_ListTypeMeta := ref_field (@list_TypeMeta L (option slice)) (λ v '(List_ a m i), List_ v m i).
Definition at_ListMeta := ref_field (@ListMeta L (option slice)) (λ v '(List_ a m i), List_ a v i).
Definition at_Items := ref_field (@Items L (option slice)) (λ v '(List_ a m i), List_ a m v).

(** ** The generated functions *)

(** Copies apimachinery provides: of the times pointers point to, and of what
    metadata point to. *)
Class ApiMachinery := {
  Time_DeepCopy : copier loc;
  ObjectMeta_DeepCopy : copier M;
  ListMeta_DeepCopy : copier L;
  zero_ObjectMeta : M;
  zero_ListMeta : L
}.
Context `{!ApiMachinery}.

(** [*out = *in] *)
Definition assign {A} (i o : ref A) (h : heap) : option heap := a ← rd i h; wr o a h.

(** [in.DeepCopyInto(out)] of the metadata. *)
Definition copy_into {A} (copy : copier A) (i o : ref A) (h : heap) : option heap :=
  a ← rd i h; '(a', h) ← copy a h; wr o a' h.

(** [if *in != nil { *out = ( *in).DeepCopy() }] *)
Definition copy_time (i o : ref (option loc)) (h : heap) : option heap :=
  v ← rd i h;
  match v with
  | None => Some h
  | Some p => '(q, h) ← Time_DeepCopy p h; wr o (Some q) h
  end.

Definition MirrorUpgradeRequestSpec_DeepCopyInto (i o : ref MirrorUpgradeRequestSpec) (h : heap) : option heap :=
  assign i o h.

Definition MirrorUpgradeRequestStatus_DeepCopyInto (i o : ref (MirrorUpgradeRequestStatus loc)) (h : heap)
    : option heap :=
  h ← assign i o h;
  h ← copy_time (at_StartedAt i) (at_StartedAt o) h;
  copy_time (at_CompletedAt i) (at_CompletedAt o) h.

Definition MirrorUpgradeRequest_DeepCopyInto (i o : ref request) (h : heap) : option heap :=
  h ← assign i o h;
  h ← assign (at_TypeMeta i) (at_TypeMeta o) h;
  h ← copy_into ObjectMeta_DeepCopy (at_ObjectMeta i) (at_ObjectMeta o) h;
  h ← assign (at_Spec i) (at_Spec o) h;
  MirrorUpgradeRequestStatus_DeepCopyInto (at_Status i) (at_Status o) h.

(** [for i := range *in { ( *in)[i].DeepCopyInto(&( *out)[i]) }], [n] elements
    from [k] on; the slices are read from their variables at every element. *)
Fixpoint copy_items (i o : ref (option slice)) (k n : nat) (h : heap) : option heap :=
  match n with
  | O => Some h
  | S n =>
      si ← rd i h; so ← rd o h;
      si ← si; so ← so;
      h ← MirrorUpgradeRequest_DeepCopyInto (ref_elem si k) (ref_elem so k) h;
      copy_items i o (S k) n h
  end.

Definition MirrorUpgradeRequestList_DeepCopyInto (i o : ref request_list) (h : heap) : option heap :=
  h ← assign i o h;
  h ← assign (at_ListTypeMeta i) (at_ListTypeMeta o) h;
  h ← copy_into ListMeta_DeepCopy (at_ListMeta i) (at_ListMeta o) h;
  s ← rd (at_Items i) h;
  match s with
  | None => Some h
  | Some s =>
      let '(a, h) := new (CArray (replicate (len s) (zero_Request zero_ObjectMeta))) h in
      h ← wr (at_Items o) (Some (Slice a 0 (len s))) h;
      n ← rd (at_Items i) h;
      copy_items (at_Items i) (at_Items o) 0 (from_option len 0 n) h
  end.

(** [func (in *T) DeepCopy() *T] *)
Definition deep_copy {A} (c : cell) (at_loc : loc → ref A) (into : ref A → ref A → heap → option heap)
    (p : option loc) (h : heap) : option (option loc * heap) :=
  match p with
  | None => Some (None, h)
  | Some p =>
      let '(q, h) := new c h in
      h ← into (at_loc p) (at_loc q) h; Some (Some q, h)
  end.

Definition MirrorUpgradeRequestSpec_DeepCopy : option loc → heap → option (option loc * heap) :=
  deep_copy (CSpec zero_Spec) ref_spec MirrorUpgradeRequestSpec_DeepCopyInto.
Definition MirrorUpgradeRequestStatus_DeepCopy : option loc → heap → option (option loc * heap) :=
  deep_copy (CStatus zero_Status) ref_status MirrorUpgradeRequestStatus_DeepCopyInto.
Definition MirrorUpgradeRequest_DeepCopy : option loc → heap → option (option loc * heap) :=
  deep_copy (CRequest (zero_Request zero_ObjectMeta)) ref_request MirrorUpgradeRequest_DeepCopyInto.
Definition MirrorUpgradeRequestList_DeepCopy : option loc → heap → option (option loc * heap) :=
  deep_copy (CList (List_ zero_TypeMeta zero_ListMeta None)) ref_list MirrorUpgradeRequestList_DeepCopyInto.

(** A [runtime.Object]: the nil interface, or a pointer under its type. *)
Inductive runtime_Object := NilObject | ObjRequest (p : option loc) | ObjList (p : option loc).

Definition MirrorUpgradeRequest_DeepCopyObject (p : option loc) (h : heap) : option (runtime_Object * heap) :=
  '(c, h) ← MirrorUpgradeRequest_DeepCopy p h;
  match c with Some _ => Some (ObjRequest c, h) | None => Some (NilObject, h) end.
Definition MirrorUpgradeRequestList_DeepCopyObject (p : option loc) (h : heap) : option (runtime_Object * heap) :=
  '(c, h) ← MirrorUpgradeRequestList_DeepCopy p h;
  match c with Some _ => Some (ObjList c, h) | None => Some (NilObject, h) end.

(** ** What a value in memory denotes *)

(** How values of a type are read out of memory, and the cells they reach. *)
Record reading (A V : Type) := Reading { view : heap → A → option V; cells : heap → A → gset loc }.
Arguments Reading {A V}.
Arguments view {A V}.
Arguments cells {A V}.

(** A reading depends on the cells it reaches only, and those exist. *)
Record reading_ok {A V} (R : reading A V) : Prop := {
  view_frame h h' a : (∀ l, l ∈ cells R h a → h' !! l = h !! l) →
    view R h' a = view R h a ∧ cells R h' a = cells R h a;
  view_dom h a v : view R h a = Some v → cells R h a ⊆ dom h
}.

(** [copy] is a deep copy: it succeeds, changes no cell there was, and the copy
    denotes the same and reaches new cells only. *)
Record deep {A V} (R : reading A V) (copy : copier A) : Prop := {
  deep_ok : reading_ok R;
  deep_copies h a v : view R h a = Some v →
    ∃ a' h', copy a h = Some (a', h') ∧ h ⊆ h' ∧ view R h' a' = Some v ∧ cells R h' a' ## dom h
}.

(** ** Laws of pointers *)

Record good {A} (p : ref A) : Prop := {
  get_put a c c' : put_in p a c = Some c' → get_in p c' = Some a;
  put_get a c : get_in p c = Some a → put_in p a c = Some c;
  put_put a b c c' : put_in p a c = Some c' → put_in p b c' = put_in p b c;
  put_some a b c : get_in p c = Some a → is_Some (put_in p b c)
}.

Ltac good_variable :=
  split; intros *; cbn; match goal with |- context [match ?c with _ => _ end] => destruct c end; try done; intros [= <-];
  solve [done|by eexists].

Lemma good_request p : good (ref_request p).
Proof. good_variable. Qed.
Lemma good_list p : good (ref_list p).
Proof. good_variable. Qed.
Lemma good_status p : good (ref_status p).
Proof. good_variable. Qed.
Lemma good_spec p : good (ref_spec p).
Proof. good_variable. Qed.

Lemma good_elem s i : good (ref_elem s i).
Proof.
  split; intros *; cbn; destruct c as [| | | |l| |]; try done.
  - case_decide as Hi; [|done]. intros [= <-]. rewrite decide_True by tauto. apply list_lookup_insert_eq. tauto.
  - case_decide as Hi; [|done]. intros Hl. pose proof (lookup_lt_Some _ _ _ Hl).
    rewrite decide_True by tauto. by rewrite list_insert_id.
  - case_decide as Hi; [|done]. intros [= <-]. rewrite length_insert, decide_True by done.
    by rewrite list_insert_insert_eq.
  - case_decide as Hi; [|done]. intros Hl. pose proof (lookup_lt_Some _ _ _ Hl).
    rewrite decide_True by tauto. by eexists.
Qed.

(** A field: reading it after writing it, and so on. *)
Record lens {S A} (get : S → A) (put : A → S → S) : Prop := {
  lens_get_put a s : get (put a s) = a;
  lens_put_get s : put (get s) s = s;
  lens_put_put a b s : put b (put a s) = put b s
}.

Lemma good_field {S A} (get : S → A) put (p : ref S) : lens get put → good p → good (ref_field get put p).
Proof.
  intros [Hgp Hpg Hpp] [Gp Pg Pp Ps]. split; intros *; cbn.
  - intros (s & Hs & Hp)%bind_Some. rewrite (Gp _ _ _ Hp). cbn. by rewrite Hgp.
  - intros (s & Hs & ->)%fmap_Some. rewrite Hs. cbn. rewrite Hpg. by apply Pg.
  - intros (s & Hs & Hp)%bind_Some. rewrite (Gp _ _ _ Hp), Hs. cbn. rewrite Hpp. by apply Pp with (1 := Hp).
  - intros (s & Hs & ->)%fmap_Some. rewrite Hs. cbn. by apply Ps with (1 := Hs).
Qed.

(** ** Writing through a pointer *)

(** [h'] is [h] with [a] written through [p] and cells added. *)
Record upd {A} (p : ref A) (a : A) (h h' : heap) : Prop := {
  upd_dom : dom h ⊆ dom h';
  upd_other l : l ∈ dom h → l ≠ base p → h' !! l = h !! l;
  upd_base : ∃ c c', h !! base p = Some c ∧ put_in p a c = Some c' ∧ h' !! base p = Some c'
}.

Lemma upd_rd {A} (p : ref A) a h h' : good p → upd p a h h' → rd p h' = Some a.
Proof.
  intros G [_ _ (c & c' & _ & Hp & Hc')]. unfold rd. rewrite Hc'. cbn. by eapply get_put.
Qed.

Lemma upd_trans {A} (p : ref A) a b h h1 h2 : good p → upd p a h h1 → upd p b h1 h2 → upd p b h h2.
Proof.
  intros G [Hd Ho (c & c1 & Hc & Hp & Hc1)] [Hd' Ho' (c1' & c2 & Hc1' & Hp' & Hc2)]. simplify_eq.
  split; [set_solver| |].
  - intros l Hl Hne. rewrite Ho' by set_solver. by apply Ho.
  - exists c, c2. split; [done|]. split; [|done]. by rewrite <- (put_put _ G a b c c1).
Qed.

Lemma upd_field {S A} (get : S → A) put (p : ref S) a s h h' :
  rd p h = Some s → upd (ref_field get put p) a h h' → upd p (put a s) h h'.
Proof.
  unfold rd. intros (c & Hc & Hs)%bind_Some [Hd Ho (c0 & c' & Hc0 & Hp & Hc')]. cbn in *. simplify_eq.
  rewrite Hs in Hp. by split; [| |exists c, c'].
Qed.

(** Adding cells only. *)
Lemma upd_grow {A} (p : ref A) a h h' : good p → rd p h = Some a → h ⊆ h' → upd p a h h'.
Proof.
  unfold rd. intros G (c & Hc & Ha)%bind_Some Hsub. split.
  - by apply subseteq_dom.
  - intros l [c' Hl]%elem_of_dom _. rewrite Hl. by eapply lookup_weaken.
  - exists c, c. split; [done|]. split; [by apply put_get|by eapply lookup_weaken].
Qed.

Lemma wr_upd {A} (p : ref A) a b h : good p → rd p h = Some b → ∃ h', wr p a h = Some h' ∧ upd p a h h'.
Proof.
  unfold rd, wr. intros G (c & Hc & Hb)%bind_Some. destruct (put_some _ G b a c Hb) as [c' Hc'].
  rewrite Hc. cbn. rewrite Hc'. cbn. eexists. split; [done|]. split.
  - set_solver.
  - intros l _ Hne. by apply lookup_insert_ne.
  - exists c, c'. by rewrite lookup_insert_eq.
Qed.

Lemma upd_grow_l {A} (p : ref A) a h h1 h2 : h ⊆ h1 → is_Some (h !! base p) → upd p a h1 h2 → upd p a h h2.
Proof.
  intros Hsub [c Hc] [Hd Ho (c1 & c' & Hc1 & Hp & Hc')]. pose proof (lookup_weaken _ _ _ _ Hc Hsub). simplify_eq.
  split; [pose proof (subseteq_dom _ _ Hsub); set_solver| |by exists c1, c'].
  intros l Hl Hne. rewrite Ho; [|by apply (subseteq_dom _ _ Hsub)|done].
  apply elem_of_dom in Hl as [x Hx]. rewrite Hx. by eapply lookup_weaken.
Qed.

(** What is not written is read as before. *)
Lemma upd_rd_other {A B} (p : ref A) (q : ref B) a b h h' :
  upd p a h h' → base q ≠ base p → rd q h = Some b → rd q h' = Some b.
Proof.
  intros Hu Hne Hb. unfold rd in *. apply bind_Some in Hb as (c & Hc & Hb).
  rewrite (upd_other _ _ _ _ Hu), Hc; [done|by apply elem_of_dom|done].
Qed.

Lemma upd_view {A B V} (p : ref A) (R : reading B V) a b v h h' :
  reading_ok R → upd p a h h' → base p ∉ cells R h b → view R h b = Some v →
  view R h' b = Some v ∧ cells R h' b = cells R h b.
Proof.
  intros HR Hu Hp Hv. rewrite <- Hv. apply (view_frame _ HR). intros l Hl.
  apply (upd_other _ _ _ _ Hu); [by apply (view_dom _ HR _ _ _ Hv)|set_solver].
Qed.

(** ** The readings of the types *)

Definition time_reading : reading loc T :=
  Reading (λ h p, match h !! p with Some (CTime t) => Some t | _ => None end) (λ _ p, {[p]}).

Definition pointer_reading {A V} (R : reading A V) : reading (option A) (option V) :=
  Reading (λ h p, match p with None => Some None | Some a => Some <$> view R h a end)
          (λ h p, match p with None => ∅ | Some a => cells R h a end).

Definition status_reading : reading (MirrorUpgradeRequestStatus loc) (MirrorUpgradeRequestStatus T) :=
  Reading (λ h s, a ← view (pointer_reading time_reading) h (StartedAt s);
                  b ← view (pointer_reading time_reading) h (CompletedAt s);
                  Some (Status_ (Phase s) (Message s) a b (JobRef s)))
          (λ h s, cells (pointer_reading time_reading) h (StartedAt s) ∪
                  cells (pointer_reading time_reading) h (CompletedAt s)).

Definition request_reading {VM} (RM : reading M VM) : reading request (MirrorUpgradeRequest VM T) :=
  Reading (λ h r, m ← view RM h (ObjectMeta r); s ← view status_reading h (Status r);
                  Some (Request_ (req_TypeMeta r) m (Spec r) s))
          (λ h r, cells RM h (ObjectMeta r) ∪ cells status_reading h (Status r)).

(** Lists of values side by side. *)
Definition items_reading {A V} (R : reading A V) : reading (list A) (list V) :=
  Reading (λ h l, mapM (view R h) l) (λ h l, ⋃ (cells R h <$> l)).

(** The elements of a slice, when they are all in its array. *)
Definition window (h : heap) (s : slice) : option (list request) :=
  match h !! arr s with
  | Some (CArray l) => if decide (off s + len s ≤ length l) then Some (take (len s) (drop (off s) l)) else None
  | _ => None
  end.

Definition slice_reading {VM} (RM : reading M VM) : reading slice (list (MirrorUpgradeRequest VM T)) :=
  Reading (λ h s, w ← window h s; view (items_reading (request_reading RM)) h w)
          (λ h s, {[arr s]} ∪ from_option (cells (items_reading (request_reading RM)) h) ∅ (window h s)).

Definition list_reading {VM VL} (RM : reading M VM) (RL : reading L VL) :
    reading request_list (MirrorUpgradeRequestList VL (option (list (MirrorUpgradeRequest VM T)))) :=
  Reading (λ h l, m ← view RL h (ListMeta l); i ← view (pointer_reading (slice_reading RM)) h (Items l);
                  Some (List_ (list_TypeMeta l) m i))
          (λ h l, cells RL h (ListMeta l) ∪ cells (pointer_reading (slice_reading RM)) h (Items l)).

Lemma time_ok : reading_ok time_reading.
Proof.
  split; cbn.
  - intros h h' p Hp. by rewrite Hp by set_solver.
  - intros h p v Hv. destruct (h !! p) as [c|] eqn:Hp; [|done]. apply elem_of_dom_2 in Hp. set_solver.
Qed.

Lemma pointer_ok {A V} (R : reading A V) : reading_ok R → reading_ok (pointer_reading R).
Proof.
  intros [Hf Hd]. split; cbn.
  - intros h h' [a|] Hp; [|done]. by destruct (Hf h h' a Hp) as [-> ->].
  - intros h [a|] v Hv; [|set_solver]. apply fmap_Some in Hv as (x & Hx & _). by eapply Hd.
Qed.

Lemma status_ok : reading_ok status_reading.
Proof.
  destruct (pointer_ok _ time_ok) as [Hf Hd]. split.
  - intros h h' s Hs. cbn [status_reading view cells] in *.
    destruct (Hf h h' (StartedAt s)) as [-> ->]; [set_solver|].
    by destruct (Hf h h' (CompletedAt s)) as [-> ->]; [set_solver|].
  - intros h s v. cbn [status_reading view cells]. intros (a & Ha & (b & Hb & _)%bind_Some)%bind_Some.
    apply Hd in Ha, Hb. set_solver.
Qed.

Lemma request_ok {VM} (RM : reading M VM) : reading_ok RM → reading_ok (request_reading RM).
Proof.
  intros [Mf Md]. destruct status_ok as [Sf Sd]. split.
  - intros h h' r Hr. cbn [request_reading view cells] in *.
    destruct (Mf h h' (ObjectMeta r)) as [-> ->]; [set_solver|].
    by destruct (Sf h h' (Status r)) as [-> ->]; [set_solver|].
  - intros h r v. cbn [request_reading view cells]. intros (a & Ha & (b & Hb & _)%bind_Some)%bind_Some.
    apply Md in Ha. apply Sd in Hb. set_solver.
Qed.

Lemma items_ok {A V} (R : reading A V) : reading_ok R → reading_ok (items_reading R).
Proof.
  intros [Hf Hd]. split; cbn.
  - intros h h' l. induction l as [|a l IH]; [done|]. cbn. intros Hl.
    destruct (Hf h h' a) as [-> ->]; [set_solver|]. destruct IH as [-> IH]; [set_solver|]. split; [done|].
    apply (f_equal (λ x, cells R h a ∪ x)). exact IH.
  - intros h l. induction l as [|a l IH]; cbn; [set_solver|].
    intros v (x & Hx & (y & Hy & _)%bind_Some)%bind_Some. apply Hd in Hx. apply IH in Hy. set_solver.
Qed.

Lemma slice_ok {VM} (RM : reading M VM) : reading_ok RM → reading_ok (slice_reading RM).
Proof.
  intros [Hf Hd]%request_ok%items_ok. split.
  - intros h h' s Hs. cbn [slice_reading view cells] in *.
    assert (Hw : window h' s = window h s) by (unfold window; by rewrite Hs by set_solver).
    rewrite Hw. destruct (window h s) as [w|]; [|done]. cbn in *.
    destruct (Hf h h' w) as [-> ->]; [|done]. intros l Hl. apply Hs. set_solver.
  - intros h s v. cbn [slice_reading view cells]. intros (w & Hw & Hv)%bind_Some. rewrite Hw.
    apply Hd in Hv. cbn in *. unfold window in Hw. destruct (h !! arr s) as [c|] eqn:Ha; [|done].
    apply elem_of_dom_2 in Ha. set_solver.
Qed.

Lemma list_ok {VM VL} (RM : reading M VM) (RL : reading L VL) :
  reading_ok RM → reading_ok RL → reading_ok (list_reading RM RL).
Proof.
  intros [Sf Sd]%slice_ok%pointer_ok [Lf Ld]. split.
  - intros h h' l Hl. cbn [list_reading view cells] in *.
    destruct (Lf h h' (ListMeta l)) as [-> ->]; [set_solver|].
    by destruct (Sf h h' (Items l)) as [-> ->]; [set_solver|].
  - intros h l v. cbn [list_reading view cells]. intros (a & Ha & (b & Hb & _)%bind_Some)%bind_Some.
    apply Ld in Ha. apply Sd in Hb. set_solver.
Qed.

(** ** What a copy into another variable does *)

Section steps.
Context {A V : Type} (R : reading A V).

(** [o] ends with a value that denotes what [i] denotes and reaches new cells
    only; nothing else changes. *)
Definition copied (o : ref A) (v : V) (h h' : heap) (a' : A) : Prop :=
  upd o a' h h' ∧ view R h' a' = Some v ∧ cells R h' a' ## dom h.

Definition copies_into (into : ref A → ref A → heap → option heap) : Prop :=
  ∀ i o h a b v, good i → good o → base i ≠ base o → rd i h = Some a → rd o h = Some b →
    view R h a = Some v → base o ∉ cells R h a → ∃ h' a', into i o h = Some h' ∧ copied o v h h' a'.

(** The same when both variables hold the same value already. *)
Definition separates (into : ref A → ref A → heap → option heap) : Prop :=
  ∀ i o h a v, good i → good o → base i ≠ base o → rd i h = Some a → rd o h = Some a →
    view R h a = Some v → base o ∉ cells R h a → ∃ h' a', into i o h = Some h' ∧ copied o v h h' a'.

Lemma copies_separates into : copies_into into → separates into.
Proof. intros Hc i o h a v ??????. by apply (Hc i o h a a v). Qed.

Lemma copy_into_spec copy : deep R copy → copies_into (copy_into copy).
Proof.
  intros [HR Hdeep] i o h a b v Gi Go Hne Hi Ho Hv Hout. unfold copy_into. rewrite Hi. cbn.
  destruct (Hdeep h a v Hv) as (a' & h1 & Hcopy & Hsub & Hv' & Hfresh). rewrite Hcopy. cbn.
  assert (Ho1 : rd o h1 = Some b).
  { unfold rd in *. apply bind_Some in Ho as (c & Hc & Hb). by rewrite (lookup_weaken _ _ _ _ Hc Hsub). }
  destruct (wr_upd o a' b h1 Go Ho1) as (h' & -> & Hu). exists h', a'. split; [done|].
  assert (Hbase : is_Some (h !! base o)) by (unfold rd in Ho; apply bind_Some in Ho as (c & Hc & _); by eexists).
  assert (Hin : base o ∈ dom h) by (by apply elem_of_dom).
  destruct (upd_view o R a' a' v h1 h' HR Hu) as [Hw Hcells]; [set_solver|done|].
  split; [by apply (upd_grow_l _ _ _ h1)|]. split; [done|]. by rewrite Hcells.
Qed.
End steps.

(** A field of a struct, of which the copy is to become independent. *)
Lemma separate_field {S A V} (R : reading A V) (get : S → A) put into (i o : ref S) h s t v :
  lens get put → separates R into → good i → good o → base i ≠ base o →
  rd i h = Some s → rd o h = Some t → get t = get s → view R h (get s) = Some v → base o ∉ cells R h (get s) →
  ∃ h' a', into (ref_field get put i) (ref_field get put o) h = Some h' ∧
    upd o (put a' t) h h' ∧ view R h' a' = Some v ∧ cells R h' a' ## dom h.
Proof.
  intros HL Hsep Gi Go Hne Hi Ho Heq Hv Hout.
  assert (Hrd : ∀ (p : ref S) x, rd p h = Some x → rd (ref_field get put p) h = Some (get x)).
  { intros p x. unfold rd. intros (c & Hc & Hx)%bind_Some. cbn. rewrite Hc. cbn. by rewrite Hx. }
  destruct (Hsep (ref_field get put i) (ref_field get put o) h (get s) v) as (h' & a' & Hrun & Hu & Hv' & Hf);
    [by apply good_field|by apply good_field|done|by apply Hrd|rewrite <- Heq; by apply Hrd|done|done|].
  exists h', a'. split; [done|]. split; [by apply (upd_field get)|done].
Qed.

Lemma assign_spec {A} (i o : ref A) h a b :
  good o → rd i h = Some a → rd o h = Some b → ∃ h', assign i o h = Some h' ∧ upd o a h h'.
Proof. intros Go Hi Ho. unfold assign. rewrite Hi. by apply (wr_upd o a b). Qed.

(** Assigning a field that is already equal changes nothing. *)
Lemma assign_field {S A} (get : S → A) put (i o : ref S) h s t :
  lens get put → good o → rd i h = Some s → rd o h = Some t → get t = get s →
  assign (ref_field get put i) (ref_field get put o) h = Some h.
Proof.
  intros [Hgp Hpg _] Go. unfold assign, rd, wr. intros (c & Hc & Hs)%bind_Some (d & Hd & Ht)%bind_Some Heq.
  cbn. rewrite Hc. cbn. rewrite Hs. cbn. rewrite Hd. cbn. rewrite Ht. cbn.
  rewrite <- Heq, Hpg, (put_get _ Go _ _ Ht). cbn. by rewrite insert_id.
Qed.

(** ** The copies are deep *)

Lemma rd_some {A} (p : ref A) a h : rd p h = Some a → base p ∈ dom h.
Proof. unfold rd. intros (c & Hc & _)%bind_Some. by eapply elem_of_dom_2. Qed.

Lemma rd_weaken {A} (p : ref A) a h h' : rd p h = Some a → h ⊆ h' → rd p h' = Some a.
Proof. unfold rd. intros (c & Hc & Ha)%bind_Some Hsub. by rewrite (lookup_weaken _ _ _ _ Hc Hsub). Qed.

Section deep.
Context {VM : Type} (RM : reading M VM).
Context (Htime : deep time_reading Time_DeepCopy) (HM : deep RM ObjectMeta_DeepCopy).

Lemma copy_time_separates : separates (pointer_reading time_reading) copy_time.
Proof.
  intros i o h a v Gi Go Hne Hi Ho Hv Hout. unfold copy_time. rewrite Hi. cbn. destruct a as [p|].
  - apply fmap_Some in Hv as (t & Ht & ->).
    destruct (deep_copies _ _ Htime h p t Ht) as (q & h1 & Hcopy & Hsub & Hq & Hfresh). rewrite Hcopy. cbn.
    destruct (wr_upd o (Some q) (Some p) h1 Go (rd_weaken _ _ _ _ Ho Hsub)) as (h' & -> & Hu).
    pose proof (rd_some _ _ _ Ho) as Hin. exists h', (Some q). split; [done|].
    destruct (upd_view o time_reading (Some q) q t h1 h' time_ok Hu) as [Hw Hcells];
      [cbn in *; set_solver|done|].
    split; [apply (upd_grow_l _ _ _ h1); [done|by apply elem_of_dom|done]|].
    cbn in *. split; [by rewrite Hw|set_solver].
  - exists h, None. split; [done|]. split; [by apply upd_grow|]. split; [done|]. cbn. set_solver.
Qed.

Lemma lens_StartedAt : lens (@StartedAt loc) (λ v '(Status_ a b c d e), Status_ a b v d e).
Proof. split; by intros *; destruct s. Qed.
Lemma lens_CompletedAt : lens (@CompletedAt loc) (λ v '(Status_ a b c d e), Status_ a b c v e).
Proof. split; by intros *; destruct s. Qed.

Lemma status_copies : copies_into status_reading MirrorUpgradeRequestStatus_DeepCopyInto.
Proof.
  intros i o h a b v Gi Go Hne Hi Ho Hv Hout. cbn [status_reading view cells] in Hv, Hout.
  apply bind_Some in Hv as (ts & Hts & (tc & Htc & Hv)%bind_Some). injection Hv as <-.
  unfold MirrorUpgradeRequestStatus_DeepCopyInto.
  destruct (assign_spec i o h a b Go Hi Ho) as (h0 & -> & U0). cbn [mbind option_bind].
  pose proof (upd_rd _ _ _ _ Go U0) as Ho0. pose proof (upd_rd_other _ i _ _ _ _ U0 Hne Hi) as Hi0.
  destruct (upd_view o _ _ (StartedAt a) ts h h0 (pointer_ok _ time_ok) U0) as [Hts0 Cs]; [set_solver|done|].
  destruct (upd_view o _ _ (CompletedAt a) tc h h0 (pointer_ok _ time_ok) U0) as [Htc0 Cc]; [set_solver|done|].
  destruct (separate_field _ _ _ _ i o h0 a a ts lens_StartedAt copy_time_separates Gi Go Hne Hi0 Ho0 eq_refl Hts0)
    as (h1 & p & Hrun1 & U1 & Hts1 & F1); [set_solver|]. unfold at_StartedAt. rewrite Hrun1. cbn [mbind option_bind].
  pose proof (upd_rd _ _ _ _ Go U1) as Ho1. pose proof (upd_rd_other _ i _ _ _ _ U1 Hne Hi0) as Hi1.
  destruct (upd_view o _ _ (CompletedAt a) tc h0 h1 (pointer_ok _ time_ok) U1) as [Htc1 Cc1]; [set_solver|done|].
  destruct (separate_field _ _ _ _ i o h1 a _ tc lens_CompletedAt copy_time_separates Gi Go Hne Hi1 Ho1)
    as (h2 & q & Hrun2 & U2 & Htc2 & F2); [by destruct a|done|set_solver|].
  unfold at_CompletedAt. rewrite Hrun2. eexists h2, _. split; [done|].
  pose proof (rd_some _ _ _ Ho) as Hin. pose proof (upd_dom _ _ _ _ U0) as D0. pose proof (upd_dom _ _ _ _ U1) as D1.
  destruct (upd_view o _ _ p ts h1 h2 (pointer_ok _ time_ok) U2) as [Hts2 Cs2]; [set_solver|done|].
  split; [by eapply upd_trans, U2; [|eapply upd_trans, U1]|].
  destruct a as [ph msg sa ca jr]. cbn [status_reading view cells StartedAt CompletedAt Phase Message JobRef] in *.
  rewrite Hts2, Htc2. split; [done|]. rewrite Cs2. set_solver.
Qed.

Lemma lens_TypeMeta : lens (@req_TypeMeta M loc) (λ v '(Request_ a m s t), Request_ v m s t).
Proof. split; by intros *; destruct s. Qed.
Lemma lens_ObjectMeta : lens (@ObjectMeta M loc) (λ v '(Request_ a m s t), Request_ a v s t).
Proof. split; by intros *; destruct s. Qed.
Lemma lens_Spec : lens (@Spec M loc) (λ v '(Request_ a m s t), Request_ a m v t).
Proof. split; by intros *; destruct s. Qed.
Lemma lens_Status : lens (@Status M loc) (λ v '(Request_ a m s t), Request_ a m s v).
Proof. split; by intros *; destruct s. Qed.

Lemma request_copies : copies_into (request_reading RM) MirrorUpgradeRequest_DeepCopyInto.
Proof.
  intros i o h a b v Gi Go Hne Hi Ho Hv Hout. cbn [request_reading view cells] in Hv, Hout.
  apply bind_Some in Hv as (m & Hm & (st & Hst & Hv)%bind_Some). injection Hv as <-.
  pose proof (deep_ok _ _ HM) as Mok. unfold MirrorUpgradeRequest_DeepCopyInto.
  destruct (assign_spec i o h a b Go Hi Ho) as (h0 & -> & U0). cbn [mbind option_bind].
  pose proof (upd_rd _ _ _ _ Go U0) as Ho0. pose proof (upd_rd_other _ i _ _ _ _ U0 Hne Hi) as Hi0.
  destruct (upd_view o _ _ (ObjectMeta a) m h h0 Mok U0) as [Hm0 Cm]; [set_solver|done|].
  destruct (upd_view o _ _ (Status a) st h h0 status_ok U0) as [Hs0 Cs]; [set_solver|done|].
  unfold at_TypeMeta. rewrite (assign_field _ _ i o h0 a a lens_TypeMeta Go Hi0 Ho0 eq_refl). cbn [mbind option_bind].
  destruct (separate_field _ _ _ _ i o h0 a a m lens_ObjectMeta
    (copies_separates _ _ (copy_into_spec _ _ HM)) Gi Go Hne Hi0 Ho0 eq_refl Hm0)
    as (h1 & m' & Hrun1 & U1 & Hm1 & F1); [set_solver|]. unfold at_ObjectMeta. rewrite Hrun1. cbn [mbind option_bind].
  pose proof (upd_rd _ _ _ _ Go U1) as Ho1. pose proof (upd_rd_other _ i _ _ _ _ U1 Hne Hi0) as Hi1.
  destruct (upd_view o _ _ (Status a) st h0 h1 status_ok U1) as [Hs1 Cs1]; [set_solver|done|].
  unfold at_Spec. rewrite (assign_field _ _ i o h1 a _ lens_Spec Go Hi1 Ho1) by (by destruct a). cbn [mbind option_bind].
  destruct (separate_field _ _ _ _ i o h1 a _ st lens_Status (copies_separates _ _ status_copies) Gi Go Hne Hi1 Ho1)
    as (h2 & s' & Hrun2 & U2 & Hs2 & F2); [by destruct a|done|set_solver|].
  unfold at_Status. rewrite Hrun2. eexists h2, _. split; [done|].
  pose proof (rd_some _ _ _ Ho) as Hin. pose proof (upd_dom _ _ _ _ U0) as D0. pose proof (upd_dom _ _ _ _ U1) as D1.
  destruct (upd_view o _ _ m' m h1 h2 Mok U2) as [Hm2 Cm2]; [set_solver|done|].
  split; [by eapply upd_trans, U2; [|eapply upd_trans, U1]|].
  destruct a as [tm om sp s0]. cbn [request_reading view cells req_TypeMeta ObjectMeta Spec Status] in *.
  rewrite Hm2, Hs2. split; [done|]. rewrite Cm2. set_solver.
Qed.

(** The loop over the items: [a] is the array of the copy, of [N] elements. *)
Abbreviation item_reading := (request_reading RM).

Lemma window_elem h s w k r : window h s = Some w → w !! k = Some r → rd (ref_elem s k) h = Some r.
Proof.
  unfold window, rd. cbn. destruct (h !! arr s) as [c|]; [|done]. destruct c; try done.
  case_decide as Hlen; [|done]. intros [= <-]. intros [Hk Hd]%lookup_take_Some.
  rewrite lookup_drop in Hk. cbn. by rewrite decide_True.
Qed.

Lemma elem_rd h a N l k z :
  h !! a = Some (CArray l) → length l = N → l !! k = Some z → rd (ref_elem (Slice a 0 N) k) h = Some z.
Proof.
  intros Ha Hl Hz. unfold rd. cbn. rewrite Ha. cbn. pose proof (lookup_lt_Some _ _ _ Hz).
  by rewrite decide_True by lia.
Qed.

Lemma elem_upd h h' a N l k r :
  h !! a = Some (CArray l) → upd (ref_elem (Slice a 0 N) k) r h h' → h' !! a = Some (CArray (<[k := r]> l)).
Proof.
  intros Ha [_ _ (c & c' & Hc & Hp & Hc')]. cbn in *. simplify_eq. case_decide; [|done]. by injection Hp as <-.
Qed.

(** Element [j] of the copy. *)
Definition item_copied (h h' : heap) (l' : list request) (vs : list (MirrorUpgradeRequest VM T)) (j : nat) : Prop :=
  ∃ r v, l' !! j = Some r ∧ vs !! j = Some v ∧ view item_reading h' r = Some v ∧ cells item_reading h' r ## dom h.

Record loop_done (a : loc) (h h' : heap) (l l' : list request) (vs : list (MirrorUpgradeRequest VM T)) (k n : nat) : Prop := {
  loop_dom : dom h ⊆ dom h';
  loop_other x : x ∈ dom h → x ≠ a → h' !! x = h !! x;
  loop_array : h' !! a = Some (CArray l');
  loop_length : length l' = length l;
  loop_before j : j < k → l' !! j = l !! j;
  loop_items j : k ≤ j < k + n → item_copied h h' l' vs j
}.

Lemma copy_items_spec (i o : ref (option slice)) si a N w vs :
  base i ≠ a → base o ≠ a → arr si ≠ a →
  ∀ n k h l, rd i h = Some (Some si) → rd o h = Some (Some (Slice a 0 N)) → h !! a = Some (CArray l) →
    length l = N → window h si = Some w → view (items_reading item_reading) h w = Some vs →
    a ∉ cells (items_reading item_reading) h w → k + n = N → length w = N →
    ∃ h' l', copy_items i o k n h = Some h' ∧ loop_done a h h' l l' vs k n.
Proof.
  intros Hia Hoa Hsa n. induction n as [|n IH]; intros k h l Hi Ho Ha Hl Hw Hv Hout HN Hlw.
  { exists h, l. split; [done|]. split; try done. intros j Hj. lia. }
  cbn [copy_items]. rewrite Hi. cbn [mbind option_bind]. rewrite Ho. cbn [mbind option_bind].
  pose proof (request_ok RM (deep_ok _ _ HM)) as Rok. pose proof (items_ok _ Rok) as Iok.
  destruct (lookup_lt_is_Some_2 w k) as [r Hr]; [lia|]. destruct (lookup_lt_is_Some_2 l k) as [z Hz]; [lia|].
  pose proof (proj1 (mapM_Some _ _ _) Hv) as HF.
  destruct (Forall2_lookup_l _ _ _ _ _ HF Hr) as (v & Hvk & Hrv).
  assert (Hcr : a ∉ cells item_reading h r).
  { intros Hin. apply Hout. cbn. apply elem_of_union_list. exists (cells item_reading h r). split; [|done].
    apply list_elem_of_fmap. exists r. split; [done|]. by eapply list_elem_of_lookup_2. }
  destruct (request_copies (ref_elem si k) (ref_elem (Slice a 0 N) k) h r z v (good_elem _ _) (good_elem _ _))
    as (h1 & r' & -> & U & Hv1 & F1); [done|by eapply window_elem|by eapply elem_rd|done|done|].
  cbn [mbind option_bind]. pose proof (elem_upd _ _ _ _ _ _ _ Ha U) as Ha1. pose proof (elem_of_dom_2 _ _ _ Ha) as Had.
  destruct (upd_view _ _ r' w vs h h1 Iok U Hout Hv) as [Hv1' Hc1].
  assert (Hw1 : window h1 si = Some w).
  { rewrite <- Hw. unfold window. rewrite (upd_other _ _ _ _ U); [done| |done].
    unfold window in Hw. destruct (h !! arr si) as [c|] eqn:Hc; [|done]. by eapply elem_of_dom_2. }
  destruct (IH (S k) h1 (<[k := r']> l)) as (h' & l' & -> & Hdone);
    [by eapply upd_rd_other|by eapply upd_rd_other|done|by rewrite length_insert|done|done|by rewrite Hc1|lia|done|].
  exists h', l'. split; [done|]. destruct Hdone as [D O A Len B I].
  pose proof (upd_dom _ _ _ _ U) as D1. assert (Hk : l' !! k = Some r').
  { rewrite B by lia. apply list_lookup_insert_eq. by eapply lookup_lt_Some. }
  split; [set_solver| |done|by rewrite Len, length_insert| |].
  - intros x Hx Hxa. rewrite O by set_solver. by apply (upd_other _ _ _ _ U).
  - intros j Hj. rewrite B by lia. apply list_lookup_insert_ne. lia.
  - intros j Hj. destruct (decide (j = k)) as [->|Hjk].
    + destruct (view_frame _ Rok h1 h' r') as [Hv' Hc'].
      { intros x Hx. pose proof (view_dom _ Rok _ _ _ Hv1 _ Hx). apply O; [done|]. set_solver. }
      exists r', v. split; [done|]. split; [done|]. by rewrite Hv', Hc'.
    + destruct (I j) as (r2 & v2 & ? & ? & ? & ?); [lia|]. exists r2, v2. repeat split; try done. set_solver.
Qed.

(** ** DeepCopy *)

(** The result of copying the variable at [p], which holds [a] and denotes [v]: a
    new variable, that denotes the same and, with all it reaches, was not there
    before; nothing there was has changed. So whatever is written to the copy and
    to what it reaches leaves the original as it is, and the other way round. *)
Definition isolated {A V} (R : reading A V) (var : loc → ref A) (p : loc) (a : A) (v : V) (h : heap)
    (run : option (option loc * heap)) : Prop :=
  ∃ q a' h', run = Some (Some q, h') ∧ h !! q = None ∧ h ⊆ h' ∧
    rd (var q) h' = Some a' ∧ view R h' a' = Some v ∧
    (∀ h2, (∀ l, l ∉ {[q]} ∪ cells R h' a' → h2 !! l = h' !! l) → rd (var p) h2 = Some a ∧ view R h2 a = Some v) ∧
    (∀ h2, (∀ l, l ∉ {[p]} ∪ cells R h a → h2 !! l = h' !! l) → rd (var q) h2 = Some a' ∧ view R h2 a' = Some v).

Lemma rd_same {A} (p : ref A) h h' : h' !! base p = h !! base p → rd p h' = rd p h.
Proof. unfold rd. by intros ->. Qed.

Lemma deep_copy_isolated {A V} (R : reading A V) c (var : loc → ref A) into p a v h :
  reading_ok R → copies_into R into → (∀ p, good (var p)) → (∀ p, base (var p) = p) →
  (∀ p, is_Some (get_in (var p) c)) → rd (var p) h = Some a → view R h a = Some v →
  isolated R var p a v h (deep_copy c var into (Some p) h).
Proof.
  intros HR Hinto Hgood Hbase Hzero Hp Hv. unfold deep_copy, new. cbn.
  set (q := fresh (dom h)). assert (Hq : q ∉ dom h) by apply is_fresh. clearbody q.
  pose proof (rd_some _ _ _ Hp) as Hpd. rewrite Hbase in Hpd. pose proof (view_dom _ HR _ _ _ Hv) as Had.
  assert (Hsub : h ⊆ <[q := c]> h) by (apply insert_subseteq; by apply not_elem_of_dom).
  set (h1 := <[q := c]> h) in *. destruct (Hzero q) as [z Hz].
  assert (Hz1 : rd (var q) h1 = Some z) by (unfold rd, h1; by rewrite Hbase, lookup_insert_eq).
  destruct (view_frame _ HR h h1 a) as [Hv1 Hc1].
  { intros l Hl. unfold h1. apply lookup_insert_ne. intros ->. by apply Hq, Had. }
  destruct (Hinto (var p) (var q) h1 a z v) as (h' & a' & -> & U & Hv' & Hf); try done;
    [rewrite !Hbase; by intros ->|by eapply rd_weaken|by rewrite Hv1|rewrite Hbase, Hc1; by intros ?%Had|].
  cbn. pose proof (upd_rd _ _ _ _ (Hgood q) U) as Hq'. pose proof (view_dom _ HR _ _ _ Hv') as Had'.
  assert (Hd1 : dom h ⊆ dom h1) by (by apply subseteq_dom).
  assert (Hh' : ∀ l, l ∈ dom h → h' !! l = h !! l).
  { intros l Hl. assert (l ≠ q) by (by intros ->). rewrite (upd_other _ _ _ _ U); [by apply lookup_insert_ne|by apply Hd1|].
    by rewrite Hbase. }
  exists q, a', h'. split; [done|]. split; [by apply not_elem_of_dom|]. split.
  { apply map_subseteq_spec. intros l x Hl. rewrite Hh'; [done|by eapply elem_of_dom_2]. }
  split; [done|]. split; [done|].
  assert (Hold : ∀ l, l ∈ dom h → l ∉ {[q]} ∪ cells R h' a').
  { intros l Hl [->%elem_of_singleton|Hc]%elem_of_union; [done|]. by apply (Hf l Hc), Hd1. }
  split; intros h2 Hh2.
  - split.
    + rewrite <- Hp. apply rd_same. rewrite Hbase, Hh2, Hh'; [done|done|by apply Hold].
    + rewrite <- Hv. apply (view_frame _ HR). intros l Hl%Had. rewrite Hh2, Hh'; [done|done|by apply Hold].
  - assert (Hnew : ∀ l, l ∈ {[q]} ∪ cells R h' a' → l ∉ {[p]} ∪ cells R h a).
    { intros l Hl [->%elem_of_singleton|Hc]%elem_of_union; [by apply (Hold p)|by apply (Hold l); [apply Had|]]. }
    split.
    + rewrite <- Hq'. apply rd_same. rewrite Hbase. apply Hh2, Hnew. by apply elem_of_union_l, elem_of_singleton.
    + rewrite <- Hv'. apply (view_frame _ HR). intros l Hl. apply Hh2, Hnew. by apply elem_of_union_r.
Qed.

(** A deep copy of a MirrorUpgradeRequest is a copy and is deep. Copying a
    request that is not nil always succeeds and gives a new request that denotes
    the same value (type and object metadata, spec, and a status with the times it
    points to); writing to one, or through its pointers, never shows in the other.
    The copy of nil is nil, and the object of it the nil interface. *)
Theorem MirrorUpgradeRequest_DeepCopy_isolated p r v h :
  rd (ref_request p) h = Some r → view (request_reading RM) h r = Some v →
  isolated (request_reading RM) ref_request p r v h (MirrorUpgradeRequest_DeepCopy (Some p) h) ∧
  (∀ q h', MirrorUpgradeRequest_DeepCopy (Some p) h = Some (q, h') →
    MirrorUpgradeRequest_DeepCopyObject (Some p) h = Some (ObjRequest q, h')) ∧
  MirrorUpgradeRequest_DeepCopy None h = Some (None, h) ∧
  MirrorUpgradeRequest_DeepCopyObject None h = Some (NilObject, h).
Proof.
  intros Hr Hv. assert (Hiso : isolated (request_reading RM) ref_request p r v h (MirrorUpgradeRequest_DeepCopy (Some p) h)).
  { apply deep_copy_isolated; try done; [apply request_ok, HM|apply request_copies|apply good_request]. }
  split; [exact Hiso|]. split; [|done]. intros q h' Hq. unfold MirrorUpgradeRequest_DeepCopyObject. rewrite Hq.
  destruct Hiso as (q' & a' & h2 & Hq2 & _). rewrite Hq in Hq2. injection Hq2 as -> ->. done.
Qed.

(** ** Lists *)

Context {VL : Type} (RL : reading L VL) (HL : deep RL ListMeta_DeepCopy).

Lemma lens_ListTypeMeta : lens (@list_TypeMeta L (option slice)) (λ v '(List_ a m i), List_ v m i).
Proof. split; by intros *; destruct s. Qed.
Lemma lens_ListMeta : lens (@ListMeta L (option slice)) (λ v '(List_ a m i), List_ a v i).
Proof. split; by intros *; destruct s. Qed.
Lemma lens_Items : lens (@Items L (option slice)) (λ v '(List_ a m i), List_ a m v).
Proof. split; by intros *; destruct s. Qed.

(** The copied array, read as a whole. *)
Lemma loop_done_view a h h' l l' vs N :
  loop_done a h h' l l' vs 0 N → length l = N → length vs = N →
  view (slice_reading RM) h' (Slice a 0 N) = Some vs ∧
  ∀ x, x ∈ cells (slice_reading RM) h' (Slice a 0 N) → x = a ∨ x ∉ dom h.
Proof.
  intros [D O A Len B I] Hl Hvs. cbn [slice_reading view cells].
  assert (Hw : window h' (Slice a 0 N) = Some l').
  { unfold window. cbn. rewrite A, decide_True by lia. by rewrite drop_0, take_ge by lia. }
  rewrite Hw. cbn [mbind option_bind from_option]. split.
  - apply mapM_Some. apply Forall2_same_length_lookup. split; [lia|]. intros j r v Hr Hv.
    pose proof (lookup_lt_Some _ _ _ Hr). destruct (I j) as (r0 & v0 & ? & ? & ? & _); [lia|]. by simplify_eq.
  - intros x [Hx|Hx]%elem_of_union; [left; set_solver|right].
    cbn in Hx. apply elem_of_union_list in Hx as (cs & Hcs & Hx). apply list_elem_of_fmap in Hcs as (r & -> & Hr).
    apply list_elem_of_lookup in Hr as [j Hj]. pose proof (lookup_lt_Some _ _ _ Hj).
    destruct (I j) as (r0 & v0 & ? & ? & ? & ?); [lia|]. simplify_eq. set_solver.
Qed.

Lemma rd_field {S A} (get : S → A) put (p : ref S) s h : rd p h = Some s → rd (ref_field get put p) h = Some (get s).
Proof. unfold rd. intros (c & Hc & Hs)%bind_Some. cbn. rewrite Hc. cbn. by rewrite Hs. Qed.

Lemma window_length h s w : window h s = Some w → length w = len s ∧ arr s ∈ dom h.
Proof.
  unfold window. destruct (h !! arr s) as [[]|] eqn:Ha; try done. case_decide; [|done]. intros [= <-].
  rewrite length_take, length_drop. split; [lia|]. by eapply elem_of_dom_2.
Qed.

(** The items, once the list itself has been assigned. *)
Definition copy_list_items (i o : ref request_list) (h : heap) : option heap :=
  s ← rd (at_Items i) h;
  match s with
  | None => Some h
  | Some s =>
      let '(a, h) := new (CArray (replicate (len s) (zero_Request zero_ObjectMeta))) h in
      h ← wr (at_Items o) (Some (Slice a 0 (len s))) h;
      n ← rd (at_Items i) h;
      copy_items (at_Items i) (at_Items o) 0 (from_option len 0 n) h
  end.

(** A write between the allocation of [a] and steps that change [a] only. *)
Lemma upd_around {A} {o : ref A} {v h h2 h3 a c} :
  upd o v (<[a := c]> h) h2 → a ∉ dom h → base o ∈ dom h → dom h2 ⊆ dom h3 →
  (∀ x, x ∈ dom h2 → x ≠ a → h3 !! x = h2 !! x) → upd o v h h3.
Proof.
  intros U Ha Hb Hd Hother. pose proof (upd_dom _ _ _ _ U) as D. rewrite dom_insert_L in D.
  assert (Hh : ∀ x, x ∈ dom h → <[a := c]> h !! x = h !! x ∧ h3 !! x = h2 !! x).
  { intros x Hx. assert (x ≠ a) by (intros ->; by apply Ha). split; [by apply lookup_insert_ne|].
    apply Hother; [|done]. apply D. by apply elem_of_union_r. }
  destruct U as [_ Uo (c0 & c1 & Hc & Hp & Hc1)]. split.
  - etrans; [|exact Hd]. etrans; [|exact D]. apply union_subseteq_r.
  - intros x Hx Hxo. destruct (Hh x Hx) as [<- ->]. apply Uo; [|exact Hxo].
    rewrite dom_insert_L. by apply elem_of_union_r.
  - exists c0, c1. destruct (Hh _ Hb) as [<- ->]. split; [exact Hc|]. split; [exact Hp|exact Hc1].
Qed.

Lemma list_items_copied i o h a b v :
  good o → base i ≠ base o → rd i h = Some a → rd o h = Some b → Items b = Items a →
  view (pointer_reading (slice_reading RM)) h (Items a) = Some v →
  base o ∉ cells (pointer_reading (slice_reading RM)) h (Items a) →
  ∃ h' s, copy_list_items i o h = Some h' ∧ upd o (List_ (list_TypeMeta b) (ListMeta b) s) h h' ∧
    view (pointer_reading (slice_reading RM)) h' s = Some v ∧
    cells (pointer_reading (slice_reading RM)) h' s ## dom h.
Proof.
  intros Go Hne Hi Ho Heq Hv Hout. unfold copy_list_items, at_Items.
  rewrite (rd_field _ _ _ _ _ Hi). cbn [mbind option_bind]. destruct (Items a) as [s|] eqn:Hs.
  2: { exists h, None. split; [done|]. split; [|split; [done|cbn; set_solver]].
       destruct b. cbn in *. subst. by apply upd_grow. }
  cbn [new]. set (N := len s). set (arr' := fresh (dom h)). set (l := replicate N (zero_Request zero_ObjectMeta)).
  assert (Hfresh : arr' ∉ dom h) by apply is_fresh.
  assert (Hl : length l = N) by apply length_replicate. clearbody arr' l.
  assert (Hsub : h ⊆ <[arr' := CArray l]> h) by (apply insert_subseteq; by apply not_elem_of_dom).
  set (h1 := <[arr' := CArray l]> h) in *. assert (Hd1 : dom h1 = {[arr']} ∪ dom h) by apply dom_insert_L.
  pose proof (rd_some _ _ _ Hi) as Hbi. pose proof (rd_some _ _ _ Ho) as Hbo.
  pose proof (rd_weaken _ _ _ _ Hi Hsub) as Hi1. pose proof (rd_weaken _ _ _ _ Ho Hsub) as Ho1.
  destruct (wr_upd (ref_field (@Items L (option slice)) (λ v '(List_ a m i), List_ a m v) o)
    (Some (Slice arr' 0 N)) (Items b) h1) as (h2 & Hwr & U);
    [by apply good_field; [apply lens_Items|]|by apply rd_field|].
  assert (Hao : arr' ≠ base o) by (by intros ->). assert (Hai : arr' ≠ base i) by (by intros ->).
  rewrite Hwr. cbn [mbind option_bind]. apply (upd_field (@Items L (option slice))) with (s := b) in U; [|done].
  pose proof (upd_rd _ _ _ _ Go U) as Ho2. pose proof (upd_rd_other _ i _ _ _ _ U Hne Hi1) as Hi2.
  rewrite (rd_field _ _ _ _ _ Hi2), Hs. cbn [mbind option_bind from_option]. fold N.
  apply fmap_Some in Hv as (vs & Hv & ->). cbn [pointer_reading view cells] in Hout.
  pose proof (slice_ok RM (deep_ok _ _ HM)) as Sok. pose proof (view_dom _ Sok _ _ _ Hv) as Hdom.
  assert (Hv2 : view (slice_reading RM) h2 s = Some vs ∧ cells (slice_reading RM) h2 s = cells (slice_reading RM) h s).
  { rewrite <- Hv. apply (view_frame _ Sok). intros x Hx.
    assert (x ≠ base o) by set_solver. rewrite (upd_other _ _ _ _ U); [|rewrite Hd1; set_solver|done].
    apply lookup_insert_ne. set_solver. }
  destruct Hv2 as [Hv2 Hc2]. cbn [slice_reading view] in Hv2. apply bind_Some in Hv2 as (w & Hw & Hvs).
  destruct (window_length _ _ _ Hw) as [Hlw Harr]. assert (Hva : h2 !! arr' = Some (CArray l)).
  { rewrite (upd_other _ _ _ _ U); [apply lookup_insert_eq|rewrite Hd1; clear; set_solver|exact Hao]. }
  cbn [slice_reading cells] in Hc2, Hdom, Hout. rewrite Hw in Hc2. cbn [from_option] in Hc2.
  destruct (copy_items_spec (ref_field (@Items L (option slice)) (λ v '(List_ a m i), List_ a m v) i)
    (ref_field (@Items L (option slice)) (λ v '(List_ a m i), List_ a m v) o) s arr' N w vs) with (n := N) (k := 0) (h := h2) (l := l)
    as (h3 & l' & Hrun & Hdone);
    [by apply not_eq_sym|by apply not_eq_sym|set_solver|by rewrite (rd_field _ _ _ _ _ Hi2), Hs|
     rewrite (rd_field _ _ _ _ _ Ho2); by destruct b|done|done|done|done|set_solver|done|done|].
  rewrite Hrun. eexists h3, (Some (Slice arr' 0 N)). split; [done|].
  destruct (loop_done_view _ _ _ _ _ _ N Hdone) as [Hres Hcells];
    [done|change N with (len s); rewrite <- Hlw; symmetry; by eapply Forall2_length, mapM_Some, Hvs|].
  pose proof (upd_dom _ _ _ _ U) as D. pose proof (subseteq_dom _ _ Hsub) as D0.
  split; [|split; [cbn [pointer_reading view]; by rewrite Hres|]].
  - destruct b. apply (upd_around (c := CArray l) (a := arr') U Hfresh Hbo); [exact (loop_dom _ _ _ _ _ _ _ _ Hdone)|].
    intros x. apply (loop_other _ _ _ _ _ _ _ _ Hdone).
  - cbn [pointer_reading cells]. intros x Hx Hxh. destruct (Hcells x Hx) as [->|Hn]; [done|]. set_solver.
Qed.

Lemma list_copies : copies_into (list_reading RM RL) MirrorUpgradeRequestList_DeepCopyInto.
Proof.
  intros i o h a b v Gi Go Hne Hi Ho Hv Hout. cbn [list_reading view cells] in Hv, Hout.
  apply bind_Some in Hv as (m & Hm & (vs & Hvs & Hv)%bind_Some). injection Hv as <-.
  pose proof (deep_ok _ _ HL) as Lok. pose proof (pointer_ok _ (slice_ok RM (deep_ok _ _ HM))) as Iok.
  unfold MirrorUpgradeRequestList_DeepCopyInto.
  destruct (assign_spec i o h a b Go Hi Ho) as (h0 & -> & U0). cbn [mbind option_bind].
  pose proof (upd_rd _ _ _ _ Go U0) as Ho0. pose proof (upd_rd_other _ i _ _ _ _ U0 Hne Hi) as Hi0.
  destruct (upd_view o _ _ (ListMeta a) m h h0 Lok U0) as [Hm0 Cm]; [set_solver|done|].
  destruct (upd_view o _ _ (Items a) vs h h0 Iok U0) as [Hs0 Cs]; [set_solver|done|].
  unfold at_ListTypeMeta. rewrite (assign_field _ _ i o h0 a a lens_ListTypeMeta Go Hi0 Ho0 eq_refl). cbn [mbind option_bind].
  destruct (separate_field _ _ _ _ i o h0 a a m lens_ListMeta
    (copies_separates _ _ (copy_into_spec _ _ HL)) Gi Go Hne Hi0 Ho0 eq_refl Hm0)
    as (h1 & m' & Hrun1 & U1 & Hm1 & F1); [set_solver|]. unfold at_ListMeta. rewrite Hrun1. cbn [mbind option_bind].
  pose proof (upd_rd _ _ _ _ Go U1) as Ho1. pose proof (upd_rd_other _ i _ _ _ _ U1 Hne Hi0) as Hi1.
  destruct (upd_view o _ _ (Items a) vs h0 h1 Iok U1) as [Hs1 Cs1]; [set_solver|done|].
  destruct (list_items_copied i o h1 a _ vs Go Hne Hi1 Ho1) as (h2 & s' & Hrun2 & U2 & Hs2 & F2);
    [by destruct a|done|set_solver|].
  unfold copy_list_items in Hrun2. rewrite Hrun2. eexists h2, _. split; [done|].
  pose proof (rd_some _ _ _ Ho) as Hin. pose proof (upd_dom _ _ _ _ U0) as D0. pose proof (upd_dom _ _ _ _ U1) as D1.
  destruct (upd_view o _ _ m' m h1 h2 Lok U2) as [Hm2 Cm2]; [set_solver|done|].
  split; [by eapply upd_trans, U2; [|eapply upd_trans, U1]|].
  destruct a as [tm lm it]. cbn [list_reading view cells list_TypeMeta ListMeta Items] in *.
  rewrite Hm2, Hs2. split; [done|]. rewrite Cm2. set_solver.
Qed.

(** C36: a deep copy of a list of requests, however long, is a value of its own:
    the call succeeds, the copy denotes the list the original denotes, in the same
    order, it is made of cells that did not exist before - its own array, whose
    elements share no time and no metadata with the elements of the original - and
    no cell that existed has changed. A nil slice stays nil and an empty one empty;
    a nil list is copied to nil, and DeepCopyObject gives the same copy as an
    object. *)
Theorem MirrorUpgradeRequestList_DeepCopy_isolated p l v h :
  rd (ref_list p) h = Some l → view (list_reading RM RL) h l = Some v →
  isolated (list_reading RM RL) ref_list p l v h (MirrorUpgradeRequestList_DeepCopy (Some p) h) ∧
  (∀ q h', MirrorUpgradeRequestList_DeepCopy (Some p) h = Some (q, h') →
    MirrorUpgradeRequestList_DeepCopyObject (Some p) h = Some (ObjList q, h')) ∧
  MirrorUpgradeRequestList_DeepCopy None h = Some (None, h) ∧
  MirrorUpgradeRequestList_DeepCopyObject None h = Some (NilObject, h).
Proof.
  intros Hr Hv. assert (Hiso : isolated (list_reading RM RL) ref_list p l v h (MirrorUpgradeRequestList_DeepCopy (Some p) h)).
  { apply deep_copy_isolated; try done; [apply list_ok; [apply HM|apply HL]|apply list_copies|apply good_list]. }
  split; [exact Hiso|]. split; [|done]. intros q h' Hq. unfold MirrorUpgradeRequestList_DeepCopyObject. rewrite Hq.
  destruct Hiso as (q' & a' & h2 & Hq2 & _). rewrite Hq in Hq2. injection Hq2 as -> ->. done.
Qed.

(** Status and spec, used on their own. *)
Lemma MirrorUpgradeRequestStatus_DeepCopy_isolated p s v h :
  rd (ref_status p) h = Some s → view status_reading h s = Some v →
  isolated status_reading ref_status p s v h (MirrorUpgradeRequestStatus_DeepCopy (Some p) h).
Proof.
  intros. apply deep_copy_isolated; try done; [apply status_ok|apply status_copies|apply good_status].
Qed.
End deep.
End memory.

(** ** Witnesses: times as seconds, metadata with a pointer to a map of labels *)

Module Sample.
Abbreviation labels := (gmap string string).
Abbreviation cell := (cell (T := Z) (M := option loc) (L := string) (X := labels)).
Abbreviation heap := (gmap loc cell).

Definition label_reading : reading (T := Z) (M := option loc) (L := string) (X := labels) loc labels :=
  Reading _ _ (λ h p, match h !! p with Some (COther x) => Some x | _ => None end) (λ _ p, {[p]}).

(** A new cell with the contents of an old one. *)
Definition clone : copier (T := Z) (M := option loc) (L := string) (X := labels) loc :=
  λ p h, c ← h !! p; Some (new c h).
Definition clone_opt : copier (T := Z) (M := option loc) (L := string) (X := labels) (option loc) :=
  λ p h, match p with None => Some (None, h) | Some p => '(q, h) ← clone p h; Some (Some q, h) end.

Lemma clone_fresh p h c : h !! p = Some c →
  ∃ q, clone p h = Some (q, <[q := c]> h) ∧ q ∉ dom h ∧ h ⊆ (<[q := c]> h).
Proof.
  intros Hp. unfold clone, new. rewrite Hp. cbn. assert (Hq : fresh (dom h) ∉ dom h) by apply is_fresh.
  eexists. split; [done|]. split; [done|]. apply insert_subseteq. by apply not_elem_of_dom.
Qed.

Lemma label_ok : reading_ok label_reading.
Proof.
  split; cbn.
  - intros h h' p Hp. by rewrite Hp by set_solver.
  - intros h p v Hv. destruct (h !! p) as [c|] eqn:Hp; [|done]. apply elem_of_dom_2 in Hp. set_solver.
Qed.

Definition sample_machinery : ApiMachinery (T := Z) (M := option loc) (L := string) (X := labels) := {|
  Time_DeepCopy := clone; ObjectMeta_DeepCopy := clone_opt; ListMeta_DeepCopy l h := Some (l, h);
  zero_ObjectMeta := None; zero_ListMeta := ""
|}.
#[local] Existing Instance sample_machinery.

Lemma time_deep : deep time_reading Time_DeepCopy.
Proof.
  split; [apply time_ok|]. intros h p t Ht. cbn in Ht. destruct (h !! p) as [c|] eqn:Hp; [|done].
  destruct c; try done. destruct (clone_fresh p h _ Hp) as (q & Hq & Hn & Hs).
  eexists q, _. split; [exact Hq|]. split; [done|]. cbn. rewrite lookup_insert_eq. split; [done|set_solver].
Qed.

Lemma labels_deep : deep (pointer_reading label_reading) ObjectMeta_DeepCopy.
Proof.
  split; [apply pointer_ok, label_ok|]. intros h [p|] v Hv; cbn in Hv.
  - apply fmap_Some in Hv as (x & Hx & ->). destruct (h !! p) as [c|] eqn:Hp; [|done].
    destruct c; try done. destruct (clone_fresh p h _ Hp) as (q & Hq & Hn & Hs).
    eexists (Some q), _. split; [cbn; rewrite Hq; reflexivity|]. split; [done|]. cbn. rewrite lookup_insert_eq.
    split; [by injection Hx as ->|set_solver].
  - injection Hv as <-. exists None, h. split; [done|]. split; [done|]. split; [done|]. cbn. set_solver.
Qed.

Definition version_reading : reading (T := Z) (M := option loc) (L := string) (X := labels) string string :=
  Reading _ _ (λ _ v, Some v) (λ _ _, ∅).

Lemma version_deep : deep version_reading ListMeta_DeepCopy.
Proof.
  split; [split; [done|cbn; set_solver]|]. intros h a v Hv. exists a, h. cbn in *.
  split; [done|]. split; [done|]. split; [done|set_solver].
Qed.

Definition a_spec : MirrorUpgradeRequestSpec := Spec_ "prod" "argocd" "2.9" "2.10" "Auto" false "".
Definition running : MirrorUpgradeRequest (option loc) loc :=
  Request_ zero_TypeMeta (Some 2%positive) a_spec (Status_ "Running" "" (Some 3%positive) None "job-1").
Definition pending : MirrorUpgradeRequest (option loc) loc := Request_ zero_TypeMeta None a_spec zero_Status.
Definition both : MirrorUpgradeRequestList string (option slice) :=
  List_ zero_TypeMeta "42" (Some (Slice 5%positive 0 2)).
Definition memory : heap :=
  list_to_map (M := heap) [(1%positive, CRequest running : cell); (2%positive, COther ({[ "team" := "core" ]} : labels));
    (3%positive, CTime 1700000000%Z); (4%positive, CList both); (5%positive, CArray [running; pending])].

Definition running_value : MirrorUpgradeRequest (option labels) Z :=
  Request_ zero_TypeMeta (Some {[ "team" := "core" ]}) a_spec (Status_ "Running" "" (Some 1700000000%Z) None "job-1").
Definition pending_value : MirrorUpgradeRequest (option labels) Z :=
  Request_ zero_TypeMeta None a_spec zero_Status.

Lemma MirrorUpgradeRequest_DeepCopy_isolated_witness :
  isolated (request_reading (pointer_reading label_reading)) ref_request 1%positive running running_value memory
    (MirrorUpgradeRequest_DeepCopy (Some 1%positive) memory).
Proof.
  apply (MirrorUpgradeRequest_DeepCopy_isolated (pointer_reading label_reading) time_deep labels_deep);
    reflexivity.
Defined.

Lemma MirrorUpgradeRequestList_DeepCopy_isolated_witness :
  isolated (list_reading (pointer_reading label_reading) version_reading) ref_list 4%positive both
    (List_ zero_TypeMeta "42" (Some [running_value; pending_value])) memory
    (MirrorUpgradeRequestList_DeepCopy (Some 4%positive) memory).
Proof.
  apply (MirrorUpgradeRequestList_DeepCopy_isolated (pointer_reading label_reading) time_deep labels_deep
    version_reading version_deep); reflexivity.
Defined.
End Sample.
