(* ===== verification/Flags.v ===== *)
(** The command line of the binaries of cmd/: the flags they declare, and how Go's
    package flag reads the arguments into them. *)
From S2P Require Import Prelude GoStrings.

(** ** The flags every binary declares, with their defaults *)

Record flags := Flags {
  metricsAddr : string; probeAddr : string; enableLeaderElection : bool; secureMetrics : bool;
  webhookCertPath : string; webhookCertName : string; webhookCertKey : string;
  metricsCertPath : string; metricsCertName : string; metricsCertKey : string;
  enableHTTP2 : bool }.
Definition default_flags : flags :=
  Flags "0" ":8081" false true "" "tls.crt" "tls.key" "" "tls.crt" "tls.key" false.

(** What a flag is bound to: [flag.StringVar] or [flag.BoolVar]. *)
Inductive flag_Value :=
| StringVar (set : string → flags → flags)
| BoolVar (set : bool → flags → flags).

Definition formal (name : string) : option flag_Value :=
  if decide (name = "metrics-bind-address") then
    Some (StringVar (λ v '(Flags a b c d e f g h i j k), Flags v b c d e f g h i j k))
  else if decide (name = "health-probe-bind-address") then
    Some (StringVar (λ v '(Flags a b c d e f g h i j k), Flags a v c d e f g h i j k))
  else if decide (name = "leader-elect") then
    Some (BoolVar (λ v '(Flags a b c d e f g h i j k), Flags a b v d e f g h i j k))
  else if decide (name = "metrics-secure") then
    Some (BoolVar (λ v '(Flags a b c d e f g h i j k), Flags a b c v e f g h i j k))
  else if decide (name = "webhook-cert-path") then
    Some (StringVar (λ v '(Flags a b c d e f g h i j k), Flags a b c d v f g h i j k))
  else if decide (name = "webhook-cert-name") then
    Some (StringVar (λ v '(Flags a b c d e f g h i j k), Flags a b c d e v g h i j k))
  else if decide (name = "webhook-cert-key") then
    Some (StringVar (λ v '(Flags a b c d e f g h i j k), Flags a b c d e f v h i j k))
  else if decide (name = "metrics-cert-path") then
    Some (StringVar (λ v '(Flags a b c d e f g h i j k), Flags a b c d e f g v i j k))
  else if decide (name = "metrics-cert-name") then
    Some (StringVar (λ v '(Flags a b c d e f g h i j k), Flags a b c d e f g h v j k))
  else if decide (name = "metrics-cert-key") then
    Some (StringVar (λ v '(Flags a b c d e f g h i j k), Flags a b c d e f g h i v k))
  else if decide (name = "enable-http2") then
    Some (BoolVar (λ v '(Flags a b c d e f g h i j k), Flags a b c d e f g h i j v))
  else None.

(** Flags that libraries add to [flag.CommandLine]: those of
    [zap.Options.BindFlags], and the kubeconfig of controller-runtime. Whether a
    flag is boolean, and whether it takes a value. *)
Class LibraryFlags := { library_flag : string → option (bool * (string → bool)) }.

(** ** Package flag *)

Definition strconv_ParseBool (s : string) : option bool :=
  if decide (s ∈ ["1"; "t"; "T"; "TRUE"; "true"; "True"]) then Some true
  else if decide (s ∈ ["0"; "f"; "F"; "FALSE"; "false"; "False"]) then Some false
  else None.

(** How [flag.Parse] ends: with the flags and the arguments left, or the process
    exits ([flag.ExitOnError]): 0 after -help, 2 after an error. *)
Inductive parsed :=
| ParsedFlags (f : flags) (rest : list string)
| Exit (code : Z).

(** The name and the value of an argument that is a flag. *)
Inductive argument :=
| NotFlag
| Terminator
| BadSyntax
| FlagArg (name : string) (value : option string).

Definition eq_char : ascii := byte_of 61.
Definition not_eq_char (c : ascii) : bool := negb (bool_decide (c = eq_char)).

Definition split_value (name : string) : argument :=
  match str_dropWhile not_eq_char name with
  | EmptyString => FlagArg name None
  | String _ value => FlagArg (str_takeWhile not_eq_char name) (Some value)
  end.

Definition flag_name (s : string) : argument :=
  match s with
  | EmptyString => BadSyntax
  | String c _ => if decide (c = "-"%char ∨ c = eq_char) then BadSyntax else split_value s
  end.

Definition read_argument (s : string) : argument :=
  match s with
  | String "-" (String "-" EmptyString) => Terminator
  | String "-" (String "-" name) => flag_name name
  | String "-" (String c r) => flag_name (String c r)
  | _ => NotFlag
  end.

Section parse.
Context `{!LibraryFlags}.

(** [FlagSet.Parse]: one call of [parseOne] per flag. *)
Fixpoint Parse (args : list string) (f : flags) : parsed :=
  match args with
  | [] => ParsedFlags f []
  | s :: rest =>
      match read_argument s with
      | NotFlag => ParsedFlags f (s :: rest)
      | Terminator => ParsedFlags f rest
      | BadSyntax => Exit 2
      | FlagArg name value =>
          match formal name with
          | Some (BoolVar set) =>
              match strconv_ParseBool (default "true" value) with
              | Some b => Parse rest (set b f)
              | None => Exit 2
              end
          | Some (StringVar set) =>
              match value, rest with
              | Some v, _ => Parse rest (set v f)
              | None, v :: rest => Parse rest (set v f)
              | None, [] => Exit 2
              end
          | None =>
              match library_flag name with
              | Some (true, ok) => if ok (default "true" value) then Parse rest f else Exit 2
              | Some (false, ok) =>
                  match value, rest with
                  | Some v, _ => if ok v then Parse rest f else Exit 2
                  | None, v :: rest => if ok v then Parse rest f else Exit 2
                  | None, [] => Exit 2
                  end
              | None => Exit (if decide (name = "help" ∨ name = "h") then 0 else 2)
              end
          end
      end
  end.

(** [flag.Parse] *)
Definition flag_Parse (args : list string) : parsed := Parse args default_flags.
End parse.

(** ** Facts *)

(** Every flag set in the form that says its value. *)
Definition strconv_FormatBool (b : bool) : string := if b then "true" else "false".
Definition render (f : flags) : list string :=
  ["--metrics-bind-address=" +:+ metricsAddr f; "--health-probe-bind-address=" +:+ probeAddr f;
   "--leader-elect=" +:+ strconv_FormatBool (enableLeaderElection f);
   "--metrics-secure=" +:+ strconv_FormatBool (secureMetrics f);
   "--webhook-cert-path=" +:+ webhookCertPath f; "--webhook-cert-name=" +:+ webhookCertName f;
   "--webhook-cert-key=" +:+ webhookCertKey f; "--metrics-cert-path=" +:+ metricsCertPath f;
   "--metrics-cert-name=" +:+ metricsCertName f; "--metrics-cert-key=" +:+ metricsCertKey f;
   "--enable-http2=" +:+ strconv_FormatBool (enableHTTP2 f)].

(** An argument that gives the boolean flag [name] the value [b]. *)
Definition gives (name : string) (b : bool) (arg : string) : Prop :=
  ∃ v, read_argument arg = FlagArg name v ∧ strconv_ParseBool (default "true" v) = Some b.

(** Case analysis on the flag of a name. *)
Ltac by_flag H :=
  unfold formal in H;
  repeat (case_decide; [subst; try discriminate H; injection H as <-|]); [..|discriminate H].

(** [get] is the variable of the boolean flag [name]. *)
Definition bound (get : flags → bool) (name : string) : Prop :=
  (∀ n set v f, formal n = Some (StringVar set) → get (set v f) = get f) ∧
  (∀ n set b f, formal n = Some (BoolVar set) → get (set b f) = get f ∨ n = name ∧ get (set b f) = b).

Lemma bound_secureMetrics : bound secureMetrics "metrics-secure".
Proof. split; intros n set v f Hn; by_flag Hn; destruct f; try done; first [by left|by right]. Qed.
Lemma bound_enableHTTP2 : bound enableHTTP2 "enable-http2".
Proof. split; intros n set v f Hn; by_flag Hn; destruct f; try done; first [by left|by right]. Qed.

Section facts.
Context `{!LibraryFlags}.

(** The recursion of [Parse] removes one argument or two. *)
Lemma args_ind (P : list string → Prop) :
  P [] → (∀ s rest, P rest → (∀ v rest', rest = v :: rest' → P rest') → P (s :: rest)) → ∀ args, P args.
Proof.
  intros H0 Hs args. enough (P args ∧ ∀ v rest, args = v :: rest → P rest) by tauto.
  induction args as [|s rest [IH IH']]; [done|]. split; [by apply Hs|]. by intros v r [= _ <-].
Qed.

Lemma Parse_provenance get name args : bound get name → ∀ f f' rest,
  Parse args f = ParsedFlags f' rest → get f' ≠ get f → ∃ arg, arg ∈ args ∧ gives name (get f') arg.
Proof.
  intros [Hstr Hbool]. induction args as [|s tl IH IH'] using args_ind; intros f f' rest; cbn [Parse].
  { by intros [= <- <-]. }
  assert (Htl : ∀ f0, Parse tl f0 = ParsedFlags f' rest → get f' ≠ get f0 →
    ∃ arg, arg ∈ s :: tl ∧ gives name (get f') arg).
  { intros f0 Hp Hne. destruct (IH f0 f' rest Hp Hne) as (arg & ? & ?). exists arg. split; [by right|done]. }
  assert (Htl' : ∀ v tl' f0, tl = v :: tl' → Parse tl' f0 = ParsedFlags f' rest → get f' ≠ get f0 →
    ∃ arg, arg ∈ s :: tl ∧ gives name (get f') arg).
  { intros v tl' f0 -> Hp Hne. destruct (IH' v tl' eq_refl f0 f' rest Hp Hne) as (arg & ? & ?).
    exists arg. split; [by do 2 right|done]. }
  destruct (read_argument s) as [| | |n value] eqn:Hs; [by intros [= <- <-]|by intros [= <- <-]|done|].
  destruct (formal n) as [[set|set]|] eqn:Hn.
  - destruct value as [v|]; [|destruct tl as [|v tl']; [done|]]; intros Hp Hne.
    + apply (Htl _ Hp). by rewrite (Hstr _ _ _ _ Hn).
    + apply (Htl' v tl' _ eq_refl Hp). by rewrite (Hstr _ _ _ _ Hn).
  - destruct (strconv_ParseBool (default "true" value)) as [b|] eqn:Hb; [|done]. intros Hp Hne.
    destruct (Hbool n set b f Hn) as [Heq|[-> Heq]]; [apply (Htl _ Hp); by rewrite Heq|].
    destruct (decide (get f' = get (set b f))) as [Hsame|Hdiff]; [|by apply (Htl _ Hp)].
    exists s. split; [by left|]. exists value. split; [exact Hs|]. by rewrite Hsame, Heq.
  - destruct (library_flag n) as [[[] ok]|]; [| |done].
    + destruct (ok (default "true" value)); [|done]. apply Htl.
    + destruct value as [v|]; [destruct (ok v); [apply Htl|done]|].
      destruct tl as [|v tl']; [done|]. destruct (ok v); [|done]. by apply (Htl' v tl').
Qed.

(** Where the protections of the servers are turned off. *)
Lemma flags_provenance args f rest :
  flag_Parse args = ParsedFlags f rest →
  (secureMetrics f = false → ∃ arg, arg ∈ args ∧ gives "metrics-secure" false arg) ∧
  (enableHTTP2 f = true → ∃ arg, arg ∈ args ∧ gives "enable-http2" true arg).
Proof.
  intros Hp. split; intros Hf.
  - destruct (Parse_provenance _ _ args bound_secureMetrics _ _ _ Hp) as (arg & ? & ?); [by rewrite Hf|].
    exists arg. by rewrite Hf in *.
  - destruct (Parse_provenance _ _ args bound_enableHTTP2 _ _ _ Hp) as (arg & ? & ?); [by rewrite Hf|].
    exists arg. by rewrite Hf in *.
Qed.

(** Every setting can be given on the command line, and read back: the
    arguments --name=value for the eleven flags parse to exactly those values,
    whatever bytes they hold, and nothing is left over. *)
Theorem flag_round_trip f : flag_Parse (render f) = ParsedFlags f [].
Proof. destruct f as [a b [] [] c d e g h i []]; reflexivity. Qed.

(** Parsing stops at the first argument that is not a flag, and says so only in
    the arguments left over, which the binaries do not look at: what follows has
    no effect. In particular a boolean flag does not take the next argument, so
    [--metrics-secure false] keeps metrics secure and hides every later flag. *)
Theorem later_flags_are_ignored args f f' rest more :
  Parse args f = ParsedFlags f' rest → rest ≠ [] → Parse (args ++ more) f = ParsedFlags f' (rest ++ more).
Proof.
  intros Hp Hrest. revert f Hp. induction args as [|s tl IH IH'] using args_ind; intros f; cbn [Parse app].
  { by intros [= <- <-]. }
  destruct (read_argument s) as [| | |n value]; [by intros [= <- <-]|by intros [= <- <-]|done|].
  destruct (formal n) as [[set|set]|].
  - destruct value as [v|]; [apply IH|]. destruct tl as [|v tl']; [done|]. by apply (IH' v tl').
  - destruct (strconv_ParseBool _); [apply IH|done].
  - destruct (library_flag n) as [[[] ok]|]; [| |done].
    + destruct (ok _); [apply IH|done].
    + destruct value as [v|]; [destruct (ok v); [apply IH|done]|].
      destruct tl as [|v tl']; [done|]. cbn [app]. destruct (ok v); [|done]. by apply (IH' v tl').
Qed.
End facts.

(** ** Witnesses *)

Module Sample.
Definition no_library_flags : LibraryFlags := {| library_flag _ := None |}.
#[local] Existing Instance no_library_flags.

Lemma later_flags_are_ignored_witness :
  Parse ["--metrics-secure"; "false"; "--metrics-bind-address=:8443"; "--leader-elect"] default_flags =
  ParsedFlags default_flags ["false"; "--metrics-bind-address=:8443"; "--leader-elect"].
Proof.
  apply (later_flags_are_ignored ["--metrics-secure"; "false"] default_flags default_flags ["false"]
    ["--metrics-bind-address=:8443"; "--leader-elect"]); [reflexivity|discriminate].
Defined.
End Sample.
