(* ===== verification/Scheme.v ===== *)
(** internal/bootstrap/scheme.go and inventory_scheme.go, with
    api/v1alpha1/groupversion_info.go: the Go types each binary registers.
    apimachinery's schemes are the class [RuntimeScheme]. *)
From S2P Require Import Prelude ExportPath.

(** ** Schemes *)

Record GroupVersion := GV { gv_Group : string; gv_Version : string }.
#[export] Instance GroupVersion_eq_dec : EqDecision GroupVersion.
Proof. solve_decision. Defined.

(** The Go types objects of the program have, with the names reflection gives. *)
Inductive go_type :=
| TMirrorUpgradeRequest
| TMirrorUpgradeRequestList
| TUnstructured
| TOther (pkg name : string).
#[export] Instance go_type_eq_dec : EqDecision go_type.
Proof. solve_decision. Defined.

Definition type_name (t : go_type) : string :=
  match t with
  | TMirrorUpgradeRequest => "MirrorUpgradeRequest"
  | TMirrorUpgradeRequestList => "MirrorUpgradeRequestList"
  | TUnstructured => "Unstructured"
  | TOther _ name => name
  end.

(** An object as controller-runtime asks the scheme about it: its type, and the
    kind written in it. *)
Record runtime_object := Object_ { obj_type : go_type; obj_GVK : GroupVersionKind }.

Section schemes.
(** apimachinery and controller-runtime: the calls that register types, the
    builder of api/v1alpha1, the kinds a type is registered under, and how
    controller-runtime finds the kind of an object ([None] is an error). *)
Context {S B : Type}.
Class RuntimeScheme := {
  runtime_NewScheme : S;
  clientgo_AddToScheme : S → result S;
  AddKnownTypes : GroupVersion → list go_type → S → S;
  AddToGroupVersion : GroupVersion → S → S;
  scheme_Builder : GroupVersion → B;
  Register : list go_type → B → B;
  Builder_AddToScheme : B → S → result S;
  ObjectKinds : S → go_type → list GroupVersionKind;
  GVKForObject : runtime_object → S → option GroupVersionKind
}.
Context `{!RuntimeScheme}.
Implicit Types s : S.

(** [utilruntime.Must]: [None] is a panic. *)
Definition Must (r : result S) : option S := match r with Ok s => Some s | Failed _ => None end.

(** ** api/v1alpha1 *)

Definition SchemeGroupVersion : GroupVersion := GV "ops.accord.io" "v1alpha1".
(** What the [init] of mirrorupgraderequest_types.go registers. *)
Definition init_types : list go_type := [TMirrorUpgradeRequest; TMirrorUpgradeRequestList].
(** [SchemeBuilder] after the [init] of the package. *)
Definition SchemeBuilder : B := Register init_types (scheme_Builder SchemeGroupVersion).
Definition AddToScheme : S → result S := Builder_AddToScheme SchemeBuilder.

(** ** internal/bootstrap *)

Definition NewScheme : option S :=
  s ← Must (clientgo_AddToScheme runtime_NewScheme);
  Must (AddToScheme s).

Definition NewInventoryScheme : option S :=
  s ← Must (clientgo_AddToScheme runtime_NewScheme);
  let gv := GV "argoproj.io" "v1alpha1" in
  Some (AddToGroupVersion gv (AddKnownTypes gv [TUnstructured] s)).

(** ** What the registrations are good for *)

(** The types of this program and of the unstructured package. *)
Definition own_type (t : go_type) : Prop := match t with TOther _ _ => False | _ => True end.

Definition kind_under (gv : GroupVersion) (t : go_type) : GroupVersionKind :=
  GVK (gv_Group gv) (gv_Version gv) (type_name t).

(** The documentation of the two libraries: registering adds a kind named after
    the type; client-go and the types of every group version are others than
    these; an unstructured object has the kind it says, any other the one kind
    of its type. *)
Class RuntimeSchemeLaws : Prop := {
  kinds_new t : ObjectKinds runtime_NewScheme t = [];
  kinds_clientgo s s' t : clientgo_AddToScheme s = Ok s' → own_type t → ObjectKinds s' t = ObjectKinds s t;
  kinds_group_version gv s t : own_type t → ObjectKinds (AddToGroupVersion gv s) t = ObjectKinds s t;
  kinds_known gv ts s t : t ∈ ts → ObjectKinds s t = [] → ObjectKinds (AddKnownTypes gv ts s) t = [kind_under gv t];
  kinds_unknown gv ts s t : t ∉ ts → ObjectKinds (AddKnownTypes gv ts s) t = ObjectKinds s t;
  kinds_builder gv ts s s' t : Builder_AddToScheme (Register ts (scheme_Builder gv)) s = Ok s' → own_type t →
    ObjectKinds s' t = ObjectKinds (AddKnownTypes gv ts s) t;
  gvk_unstructured g s : Kind g ≠ "" → ExportPath.Version g ≠ "" → GVKForObject (Object_ TUnstructured g) s = Some g;
  gvk_typed t g s k : t ≠ TUnstructured → ObjectKinds s t = [k] → GVKForObject (Object_ t g) s = Some k;
  gvk_unregistered t g s : t ≠ TUnstructured → ObjectKinds s t = [] → GVKForObject (Object_ t g) s = None
}.
Context `{!RuntimeSchemeLaws}.

Lemma core_kinds s t : Must (clientgo_AddToScheme runtime_NewScheme) = Some s → own_type t → ObjectKinds s t = [].
Proof.
  unfold Must. destruct (clientgo_AddToScheme runtime_NewScheme) as [s0|] eqn:Hs; [|done]. intros [= ->] Ht.
  by rewrite (kinds_clientgo _ _ _ Hs Ht), kinds_new.
Qed.

Lemma NewScheme_kinds s t :
  NewScheme = Some s → own_type t →
  ObjectKinds s t =
    if decide (t ∈ [TMirrorUpgradeRequest; TMirrorUpgradeRequestList]) then [kind_under SchemeGroupVersion t] else [].
Proof.
  unfold NewScheme. intros (s0 & Hcore & Hs)%bind_Some Ht. pose proof (core_kinds _ _ Hcore Ht) as H0t.
  unfold Must, AddToScheme, SchemeBuilder in Hs. destruct (Builder_AddToScheme _ s0) as [s1|] eqn:Hb; [|done].
  injection Hs as ->. rewrite (kinds_builder _ _ _ _ _ Hb Ht).
  case_decide; [by apply kinds_known|by rewrite kinds_unknown].
Qed.

Lemma NewInventoryScheme_kinds s t :
  NewInventoryScheme = Some s → own_type t →
  ObjectKinds s t =
    if decide (t = TUnstructured) then [kind_under (GV "argoproj.io" "v1alpha1") TUnstructured] else [].
Proof.
  unfold NewInventoryScheme. intros (s0 & Hcore & [= <-])%bind_Some Ht. rewrite kinds_group_version by done.
  pose proof (core_kinds _ _ Hcore Ht) as H0t. case_decide as Hd.
  - subst t. apply kinds_known; [by left|done].
  - rewrite kinds_unknown; [done|]. by intros ->%list_elem_of_singleton.
Qed.

(** The kinds of the objects of the program in the two schemes. *)
Lemma NewScheme_resolves s g :
  NewScheme = Some s →
  GVKForObject (Object_ TMirrorUpgradeRequest g) s = Some (GVK "ops.accord.io" "v1alpha1" "MirrorUpgradeRequest").
Proof. intros Hs. apply gvk_typed; [done|]. by rewrite (NewScheme_kinds s TMirrorUpgradeRequest Hs I), decide_True by (by left). Qed.

Lemma NewInventoryScheme_refuses s g :
  NewInventoryScheme = Some s → GVKForObject (Object_ TMirrorUpgradeRequest g) s = None.
Proof. intros Hs. apply gvk_unregistered; [done|]. by rewrite (NewInventoryScheme_kinds s TMirrorUpgradeRequest Hs I), decide_False. Qed.
End schemes.
