(* ===== verification/Webhook.v ===== *)
(** internal/sync/webhook.go: the handler of push payloads, composed of the HMAC
    check, the payload parser, the fetch of a file and the apply of a manifest. *)
From S2P Require Import Prelude GoStrings GoPath GoCrypto GoUtf8 GoMap GoJson GoJsonFacts Config ExportPath InventoryPath ConfigMapMaterial Normalize Reconciler Hmac GitHubPush Fetch Apply.

(** ** net/http on the server side *)

(** [Header] is keyed by canonical header names, as net/http reads them. *)
Record request := HttpRequest { ReqMethod : string; Header : gmap string (list string); ReqBody : http_body }.
Record response := Response_ { RespStatus : Z; ContentType : string; RespText : string }.

(** [r.Header.Get(key)] for a key in canonical form. *)
Definition Header_Get (r : request) (key : string) : string :=
  match default [] (Header r !! key) with v :: _ => v | [] => "" end.

Definition newline : string := String (byte_of 10) "".

Definition http_Error (msg : string) (code : Z) : response :=
  Response_ code "text/plain; charset=utf-8" (msg +:+ newline).

(** ** Results *)

Record webhookResult := WebhookResult { Path : string; Status : string; Detail : string }.
Definition webhookResponse : Type := list webhookResult.

Definition omitempty (key v : string) : list (string * json string) :=
  if decide (v = "") then [] else [(key, JStr v)].
Definition result_json (r : webhookResult) : json string :=
  JObj (omitempty "path" (Path r) ++ [("status", JStr (Status r))] ++ omitempty "detail" (Detail r)).

(** [json.NewEncoder(w).Encode(webhookResponse{Results: results})]; no result is a
    nil slice. *)
Definition encode_response (results : webhookResponse) : string :=
  print_json (JObj [("results", match results with [] => JNull | _ => JArr (map result_json results) end)])
  +:+ newline.

(** ** The handler *)

(** Its K8s client is the class [KubeClient]. *)
Record WebhookHandler (C : Type) := Handler_ {
  HTTPClient : option C; GitHubToken : string; WebhookSecret : string }.
Arguments Handler_ {C}.
Arguments HTTPClient {C}.
Arguments GitHubToken {C}.
Arguments WebhookSecret {C}.

Definition max_payload : Z := Z.shiftl 32 20.
Definition not_inventory : string := "path not under inventory/applications|applicationsets".

Section handler.
Context `{GoUnicode} `{Float64} `{JsonMessages} `{EventMessages} `{SigsYaml}.
Context {U C W : Type} `{!ClientObject U} `{!Unstructured U} `{!KubeClient U W} `{!HttpClient C W}.

(** The body of the loop over the added and modified paths. *)
Definition sync_added (h : WebhookHandler C) (fullName sha p : string) (w : W) : webhookResult * W :=
  match ParseInventoryExportPath p with
  | None => (WebhookResult p "ignored" not_inventory, w)
  | Some parsed =>
      let httpClient := default http_DefaultClient (HTTPClient h) in
      let '(raw, w) := FetchGitHubRawFile (Some httpClient) (GitHubToken h) fullName sha p w in
      match raw with
      | Failed err => (WebhookResult p "error" (Error_text err), w)
      | Ok raw =>
          let '(res, w) := ApplyInventoryYAML parsed raw w in
          match res with
          | Failed err => (WebhookResult p "error" (Error_text err), w)
          | Ok _ => (WebhookResult p "applied" "", w)
          end
      end
  end.

Definition deletion_target (k8sKind : string) (parsed : ParsedInventoryPath) : U :=
  SetName (InventoryPath.Name parsed) (SetNamespace (InventoryPath.Namespace parsed)
    (SetGroupVersionKind (GVK "argoproj.io" "v1alpha1" k8sKind) new_Unstructured)).

(** The body of the loop over the removed paths. *)
Definition sync_removed (p : string) (w : W) : webhookResult * W :=
  match ParseInventoryExportPath p with
  | None => (WebhookResult p "ignored" not_inventory, w)
  | Some parsed =>
      match ArgoKindFromPlural (InventoryPath.PluralKind parsed) with
      | Failed err => (WebhookResult p "ignored" (Error_text err), w)
      | Ok k8sKind =>
          let '(res, w) := k8s_Delete (deletion_target k8sKind parsed) w in
          match res with
          | Failed err =>
              if IsNotFound err then (WebhookResult p "deleted" "already gone", w)
              else (WebhookResult p "error" ("delete failed: " +:+ Error_text err), w)
          | Ok _ => (WebhookResult p "deleted" "", w)
          end
      end
  end.

(** [for _, p := range paths], appending one result per path. *)
Fixpoint range_paths (step : string → W → webhookResult * W) (paths : list string)
    (results : webhookResponse) (w : W) : webhookResponse * W :=
  match paths with
  | [] => (results, w)
  | p :: paths => let '(r, w) := step p w in range_paths step paths (results ++ [r]) w
  end.

Definition ServeHTTP (h : WebhookHandler C) (r : request) (w : W) : response * W :=
  if decide (ReqMethod r ≠ "POST") then (http_Error "method not allowed" 405, w) else
  match read_limited max_payload (ReqBody r) with
  | Failed _ => (http_Error "failed to read body" 400, w)
  | Ok body =>
      match VerifyHMACSignature (WebhookSecret h) (Header_Get r SignatureHeader) body with
      | Failed _ => (http_Error "unauthorized" 401, w)
      | Ok _ =>
          match ParseGitHubPushPaths body with
          | Failed err => (http_Error (Error_text err) 400, w)
          | Ok pu =>
              let '(results, w) :=
                range_paths (sync_added h (fullName pu) (headSHA pu)) (addedModified pu) [] w in
              let '(results, w) := range_paths sync_removed (removed pu) results w in
              (Response_ 200 "application/json" (encode_response results), w)
          end
      end
  end.

(** ** The gate *)

Implicit Types (h : WebhookHandler C) (r : request).

(** The request is an authentic push. *)
Definition authentic (h : WebhookHandler C) (r : request) (pu : push) : Prop :=
  ReqMethod r = "POST" ∧ ∃ body, read_limited max_payload (ReqBody r) = Ok body ∧
    VerifyHMACSignature (WebhookSecret h) (Header_Get r SignatureHeader) body = Ok tt ∧
    ParseGitHubPushPaths body = Ok pu.

Definition sync_push (h : WebhookHandler C) (pu : push) (w : W) : webhookResponse * W :=
  let '(results, w) := range_paths (sync_added h (fullName pu) (headSHA pu)) (addedModified pu) [] w in
  range_paths sync_removed (removed pu) results w.

Lemma serve_authentic h r pu w :
  authentic h r pu →
  ServeHTTP h r w =
  (Response_ 200 "application/json" (encode_response (sync_push h pu w).1), (sync_push h pu w).2).
Proof.
  intros (Hm & body & Hb & Hv & Hp). unfold ServeHTTP, sync_push. rewrite decide_False by (intros Hx; by apply Hx).
  rewrite Hb, Hv, Hp. destruct (range_paths _ (addedModified pu) [] w) as [rs w1].
  by destruct (range_paths _ (removed pu) rs w1) as [rs' w2].
Qed.

Inductive refusal (h : WebhookHandler C) (r : request) : response → Prop :=
| refuse_method : ReqMethod r ≠ "POST" → refusal h r (http_Error "method not allowed" 405)
| refuse_body e : ReqMethod r = "POST" → read_limited max_payload (ReqBody r) = Failed e →
    refusal h r (http_Error "failed to read body" 400)
| refuse_signature body e : ReqMethod r = "POST" → read_limited max_payload (ReqBody r) = Ok body →
    VerifyHMACSignature (WebhookSecret h) (Header_Get r SignatureHeader) body = Failed e →
    refusal h r (http_Error "unauthorized" 401)
| refuse_payload body e : ReqMethod r = "POST" → read_limited max_payload (ReqBody r) = Ok body →
    VerifyHMACSignature (WebhookSecret h) (Header_Get r SignatureHeader) body = Ok tt →
    ParseGitHubPushPaths body = Failed e →
    refusal h r (http_Error (Error_text e) 400).

Lemma serve_cases h r w :
  (∃ pu, authentic h r pu) ∨ refusal h r (ServeHTTP h r w).1 ∧ (ServeHTTP h r w).2 = w.
Proof.
  unfold authentic, ServeHTTP. case_decide as Hm; [right; by repeat constructor|].
  destruct (read_limited _ _) as [body|e] eqn:Hb; [|right; split; [by econstructor|done]].
  destruct (VerifyHMACSignature _ _ body) as [[]|e] eqn:Hv; [|right; split; [by econstructor|done]].
  destruct (ParseGitHubPushPaths body) as [pu|e] eqn:Hp; [|right; split; [by econstructor|done]].
  left. exists pu. split; [done|]. by exists body.
Qed.

Lemma refusal_not_authentic h r resp pu : refusal h r resp → ¬ authentic h r pu.
Proof.
  intros Hr (Hm & body & Hb & Hv & Hp). inversion Hr; congruence.
Qed.

Lemma refusal_status h r resp : refusal h r resp → RespStatus resp ≠ 200%Z.
Proof. by intros []. Qed.

(** C2: nothing happens without an authentic push: the response has status 200
    exactly when the request is a POST whose body, signed with the webhook
    secret, is the payload of a push; every other request leaves the cluster and
    GitHub alone and is refused with the status and text of the first check that
    fails (405, 400, 401, 400). *)
Theorem ServeHTTP_gate h r (w : W) :
  (RespStatus (ServeHTTP h r w).1 = 200%Z ↔ ∃ pu, authentic h r pu) ∧
  ((∃ pu, authentic h r pu) ∨ refusal h r (ServeHTTP h r w).1 ∧ (ServeHTTP h r w).2 = w).
Proof.
  split; [|apply serve_cases]. split.
  - intros Hs. destruct (serve_cases h r w) as [Ha|[Hr _]]; [done|]. by apply refusal_status in Hr.
  - intros [pu Ha]. by rewrite (serve_authentic _ _ _ _ Ha).
Qed.
End handler.
