(* ===== verification/WebhookTrace.v ===== *)
(** What the webhook handler does to the outside: the calls it makes, recorded in
    a log, against a specification of the calls one path may cause. *)
From S2P Require Import Prelude GoStrings GoPath GoCrypto GoUtf8 GoMap GoJson GoJsonFacts Config ExportPath InventoryPath ConfigMapMaterial Normalize Reconciler Hmac GitHubPush Fetch Apply UnstructuredMap Webhook.

(** ** Recorded calls *)

Inductive call (U : Type) : Type :=
| CallDo (req : http_request) (resp : result http_response)
| CallApply (obj : U) (owner : string) (force : bool) (res : result unit)
| CallDelete (obj : U) (res : result unit).
Arguments CallDo {U} req resp.
Arguments CallApply {U} obj owner force res.
Arguments CallDelete {U} obj res.

Section log.
Context {U C W : Type} `{!KubeClient U W} `{!HttpClient C W}.

(** The same clients on a world that also records every call with its answer. *)
Definition logged : Type := W * list (call U).
Definition record {A} (c : A → call U) (rw : A * W) (log : list (call U)) : A * logged :=
  (rw.1, (rw.2, log ++ [c rw.1])).
Definition logged_kube : KubeClient U logged := {|
  k8s_Apply obj owner force w := record (CallApply obj owner force) (k8s_Apply obj owner force w.1) w.2;
  k8s_Delete obj w := record (CallDelete obj) (k8s_Delete obj w.1) w.2
|}.
Definition logged_http : HttpClient C logged := {|
  http_NewRequest := http_NewRequest;
  http_DefaultClient := http_DefaultClient;
  http_Do c req w := record (CallDo req) (http_Do c req w.1) w.2
|}.
End log.

Section trace.
Context `{GoUnicode} `{Float64} `{JsonMessages} `{EventMessages} `{SigsYaml}.
Context {U C W : Type} `{!ClientObject U} `{!Unstructured U} `{!UnstructuredLaws}.
Context `{!KubeClient U W} `{!HttpClient C W}.
#[local] Existing Instances logged_kube logged_http.
Abbreviation trace := (list (call U)).
Abbreviation log_t := (@logged U W).
Implicit Types (h : WebhookHandler C) (p : string) (w : log_t).

(** ** Specification: the calls a path causes, and what is reported of them *)

Definition fetch_request h pu p : http_request :=
  raw_request (GitHubToken h) (raw_url (fullName pu) (headSHA pu) p).

(** [raw] is what the answer to the fetch holds, at most 8 MiB of it. *)
Definition fetched (resp : result http_response) (raw : string) : Prop :=
  ∃ b, resp = Ok (Response 200 b) ∧ read_limited (8 * 1024 * 1024) b = Ok raw.

(** A manifest of the object the path names. *)
Definition acceptable (parsed : ParsedInventoryPath) (raw : string) : Prop :=
  ∃ hash j (obj : U), MaterialHashFromNormalizedYAML raw = Ok hash ∧
    YAMLToJSON (FirstYAMLDocument raw) = Ok j ∧ UnmarshalJSON j = Ok obj ∧ identity parsed obj.

(** The object a manifest asks for: of the identity of the path, and marked with
    the material hash of the manifest. *)
Definition marked (parsed : ParsedInventoryPath) (raw : string) (sent : U) : Prop :=
  identity parsed sent ∧ ∃ hash ann, MaterialHashFromNormalizedYAML raw = Ok hash ∧
    GetAnnotations sent = Some ann ∧ amap_get SyncContentHashAnnotationKey ann = Some hash.

Inductive added_spec h pu p : trace → webhookResult → Prop :=
| added_ignored : ParseInventoryExportPath p = None →
    added_spec h pu p [] (WebhookResult p "ignored" not_inventory)
| added_unsent parsed detail : ParseInventoryExportPath p = Some parsed →
    http_NewRequest (C := C) (W := W) (raw_url (fullName pu) (headSHA pu) p) ≠ None →
    added_spec h pu p [] (WebhookResult p "error" detail)
| added_refused parsed resp detail : ParseInventoryExportPath p = Some parsed →
    (∀ raw, fetched resp raw → ¬ acceptable parsed raw) →
    added_spec h pu p [CallDo (fetch_request h pu p) resp] (WebhookResult p "error" detail)
| added_sent parsed resp raw sent res : ParseInventoryExportPath p = Some parsed →
    fetched resp raw → acceptable parsed raw → marked parsed raw sent →
    added_spec h pu p
      [CallDo (fetch_request h pu p) resp; CallApply sent "accord-sync-operator" true res]
      (match res with
       | Ok _ => WebhookResult p "applied" ""
       | Failed e => WebhookResult p "error" ("server-side apply: " +:+ Error_text e)
       end).

Inductive removed_spec p : trace → webhookResult → Prop :=
| removed_ignored : ParseInventoryExportPath p = None →
    removed_spec p [] (WebhookResult p "ignored" not_inventory)
| removed_sent parsed obj res : ParseInventoryExportPath p = Some parsed → identity parsed obj →
    removed_spec p [CallDelete obj res]
      (match res with
       | Ok _ => WebhookResult p "deleted" ""
       | Failed e => if IsNotFound e then WebhookResult p "deleted" "already gone"
                     else WebhookResult p "error" ("delete failed: " +:+ Error_text e)
       end).

(** ** Refinement of the specification *)

Lemma fetch_trace h pu p w res w' :
  FetchGitHubRawFile (W := log_t) (Some (default http_DefaultClient (HTTPClient h))) (GitHubToken h)
    (fullName pu) (headSHA pu) p w = (res, w') →
  (w'.2 = w.2 ∧ is_ok res = false ∧
   http_NewRequest (C := C) (W := W) (raw_url (fullName pu) (headSHA pu) p) ≠ None) ∨
  ∃ resp, w'.2 = w.2 ++ [CallDo (fetch_request h pu p) resp] ∧ ∀ raw, res = Ok raw ↔ fetched resp raw.
Proof.
  unfold FetchGitHubRawFile. cbn [http_NewRequest logged_http].
  destruct (http_NewRequest _) as [e|]; [intros [= <- <-]; by left|].
  cbn [http_Do logged_http record default]. unfold record. destruct (http_Do _ _ w.1) as [resp w1].
  cbn [fst snd]. intros Hrun. right. exists resp.
  destruct resp as [[code b]|e]; [|injection Hrun as <- <-; split; [done|by split; [|intros (b & ? & _)]]].
  cbn [RespBody StatusCode] in Hrun. unfold max_raw_file in Hrun. change (Z.shiftl 8 20) with (8 * 1024 * 1024)%Z in Hrun.
  destruct (read_limited _ b) as [s|e] eqn:Hr.
  - destruct (Z.eqb_spec code 200) as [->|]; cbn [negb] in Hrun; injection Hrun as <- <-; (split; [done|]).
    + intros raw. split; [intros <-%Ok_inj; by exists b|]. intros (b' & [= <-] & Hb). congruence.
    + intros raw. split; [done|]. by intros (b' & [= ? <-] & Hb).
  - injection Hrun as <- <-. split; [done|]. intros raw. split; [done|]. intros (b' & [= _ <-] & Hb). congruence.
Qed.

Lemma apply_trace parsed raw w res w' :
  InventoryPath.Name parsed ≠ "" →
  ApplyInventoryYAML (W := log_t) parsed raw w = (res, w') →
  (w'.2 = w.2 ∧ is_ok res = false ∧ ¬ acceptable parsed raw) ∨
  ∃ sent r, w'.2 = w.2 ++ [CallApply sent "accord-sync-operator" true r] ∧
    res = wrap_err "server-side apply" r ∧ acceptable parsed raw ∧ marked parsed raw sent.
Proof.
  intros Hname Hrun. pose proof (apply_cases (W := log_t) parsed raw w) as Hc. rewrite Hrun in Hc.
  cbn [fst snd] in Hc. inversion Hc as [e He|hash j obj Hh Hj Ho Hid]; subst.
  { left. split; [done|]. split; [done|]. intros (hash & j & obj & Hh & Hj & Ho & Hid).
    by destruct (He _ _ _ Hh Hj Ho) as [? _]. }
  right.
  exists (annotate hash obj), (k8s_Apply (annotate hash obj) fieldOwner true w.1).1.
  split; [done|]. split; [done|]. split; [by exists hash, j, obj|]. split; [by apply annotate_identity|].
  exists hash, (annotations_with hash obj). split; [done|].
  split; [apply annotate_get; by rewrite (id_name _ _ Hid)|].
  unfold annotations_with. by rewrite get_set, decide_True.
Qed.

Lemma sync_added_trace h pu p w :
  ∃ seg, (sync_added h (fullName pu) (headSHA pu) p w).2.2 = w.2 ++ seg ∧
         added_spec h pu p seg (sync_added h (fullName pu) (headSHA pu) p w).1.
Proof.
  unfold sync_added. destruct (ParseInventoryExportPath p) as [parsed|] eqn:Hp.
  2:{ exists []. split; [by rewrite app_nil_r|by constructor]. }
  assert (Hname : InventoryPath.Name parsed ≠ "").
  { destruct parsed. apply parse_spec in Hp as (_ & _ & (? & _) & _). done. }
  destruct (FetchGitHubRawFile _ _ _ _ p w) as [raw w1] eqn:Hf.
  apply fetch_trace in Hf as [(Hw & Hraw & Hnew)|(resp & Hw & Hraw)].
  { destruct raw as [raw|e]; [done|]. exists []. split; [by rewrite app_nil_r|by eapply added_unsent]. }
  destruct raw as [raw|e].
  2:{ eexists. split; [exact Hw|]. eapply added_refused; [done|]. by intros raw ?%Hraw. }
  pose proof (proj1 (Hraw raw) eq_refl) as Hf.
  destruct (ApplyInventoryYAML parsed raw w1) as [res w2] eqn:Ha.
  apply apply_trace in Ha as [(Hw2 & Hres & Hno)|(sent & r & Hw2 & -> & Hacc & Hm)]; [|..|done].
  - destruct res as [|e]; [done|]. eexists. split; [cbn [fst snd]; by rewrite Hw2, Hw|].
    eapply added_refused; [done|]. intros raw' Hraw'%Hraw. apply Ok_inj in Hraw' as <-. done.
  - pose proof (added_sent h pu p parsed resp raw sent r Hp Hf Hacc Hm) as Hs.
    destruct r as [[]|e]; (eexists; split; [cbn [wrap_err fst snd]; by rewrite Hw2, Hw, <- app_assoc|exact Hs]).
Qed.

Lemma deletion_target_identity k parsed :
  ArgoKindFromPlural (InventoryPath.PluralKind parsed) = Ok k → identity parsed (deletion_target (U := U) k parsed).
Proof.
  intros Hk. destruct (built_object (U := U) (GVK "argoproj.io" "v1alpha1" k) (InventoryPath.Namespace parsed)
    (InventoryPath.Name parsed)) as (Hv & Hkind & Hns & Hn).
  split; [exact Hv|rewrite Hk; f_equal; symmetry; exact Hkind|exact Hns|exact Hn].
Qed.

(** A path that is accepted names a plural with a kind. *)
Lemma parsed_kind p parsed :
  ParseInventoryExportPath p = Some parsed → ∃ k, ArgoKindFromPlural (InventoryPath.PluralKind parsed) = Ok k.
Proof.
  intros Hp. assert (Hpl : export_plural (InventoryPath.PluralKind parsed)).
  { destruct parsed. by apply parse_spec in Hp as (? & _). }
  apply kind_of_plural in Hpl. destruct (ArgoKindFromPlural _) as [k|] eqn:Hk; [by exists k|done].
Qed.

Lemma sync_removed_trace p w :
  ∃ seg, (sync_removed p w).2.2 = w.2 ++ seg ∧ removed_spec p seg (sync_removed p w).1.
Proof.
  unfold sync_removed. destruct (ParseInventoryExportPath p) as [parsed|] eqn:Hp.
  2:{ exists []. split; [by rewrite app_nil_r|by constructor]. }
  destruct (parsed_kind p parsed Hp) as [k Hk]. rewrite Hk.
  pose proof (deletion_target_identity k parsed Hk) as Hid.
  cbn [k8s_Delete logged_kube]. unfold record.
  pose proof (removed_sent p parsed _ (k8s_Delete (deletion_target k parsed) w.1).1 Hp Hid) as Hs.
  destruct (k8s_Delete (deletion_target k parsed) w.1) as [[[]|e] w1]; cbn [fst snd] in *.
  - eexists. by split.
  - destruct (IsNotFound e); (eexists; split; [|exact Hs]; done).
Qed.

Lemma range_trace step spec :
  (∀ p w, ∃ seg, (step p w).2.2 = w.2 ++ seg ∧ spec p seg (step p w).1) →
  ∀ paths results w, ∃ segs rs,
    (range_paths step paths results w).1 = results ++ rs ∧
    (range_paths step paths results w).2.2 = w.2 ++ concat segs ∧ Forall3 spec paths segs rs.
Proof.
  intros Hstep. induction paths as [|p paths IH]; intros results w; cbn [range_paths].
  { exists [], []. rewrite !app_nil_r. repeat constructor. }
  destruct (Hstep p w) as (seg & Hw & Hs). destruct (step p w) as [r w1]. cbn [fst snd] in *.
  destruct (IH (results ++ [r]) w1) as (segs & rs & Hrs & Hlog & Hall).
  exists (seg :: segs), (r :: rs). rewrite Hrs, Hlog, Hw, <- !app_assoc. split; [done|].
  split; [done|by constructor].
Qed.

Lemma sync_push_trace h pu w :
  ∃ segs1 segs2 rs1 rs2,
    (sync_push h pu w).1 = rs1 ++ rs2 ∧ (sync_push h pu w).2.2 = w.2 ++ concat segs1 ++ concat segs2 ∧
    Forall3 (added_spec h pu) (addedModified pu) segs1 rs1 ∧ Forall3 removed_spec (removed pu) segs2 rs2.
Proof.
  unfold sync_push.
  destruct (range_trace _ _ (sync_added_trace h pu) (addedModified pu) [] w) as (segs1 & rs1 & Hrs1 & Hlog1 & Hall1).
  destruct (range_paths _ (addedModified pu) [] w) as [rs w1]. cbn [fst snd] in *. subst rs.
  destruct (range_trace _ _ sync_removed_trace (removed pu) ([] ++ rs1) w1) as (segs2 & rs2 & Hrs2 & Hlog2 & Hall2).
  exists segs1, segs2, rs1, rs2. rewrite Hrs2, Hlog2, Hlog1, <- !app_assoc. done.
Qed.

(** ** Consequences for the log *)

Definition is_delete (c : call U) : bool := match c with CallDelete _ _ => true | _ => false end.

Lemma Forall3_concat {A B D} (P : A → list B → D → Prop) l segs rs b :
  Forall3 P l segs rs → b ∈ concat segs →
  ∃ x seg y, x ∈ l ∧ P x seg y ∧ b ∈ seg ∧ (∀ b', b' ∈ seg → b' ∈ concat segs).
Proof.
  induction 1 as [|x seg y l segs rs Hx Hall IH]; cbn; [by intros ?%elem_of_nil|].
  intros [Hb|Hb]%elem_of_app.
  - exists x, seg, y. split; [by left|]. split; [done|]. split; [done|].
    intros b' ?. apply elem_of_app. by left.
  - destruct (IH Hb) as (x' & seg' & y' & ? & ? & ? & Hsub). exists x', seg', y'.
    split; [by right|]. split; [done|]. split; [done|]. intros b' ?. apply elem_of_app. right. auto.
Qed.

Lemma Forall3_segment {A B D} (P : A → list B → D → Prop) l segs rs x :
  Forall3 P l segs rs → x ∈ l → ∃ pre seg y post, concat segs = pre ++ seg ++ post ∧ P x seg y.
Proof.
  induction 1 as [|x' seg y l segs rs Hx Hall IH]; [by intros ?%elem_of_nil|].
  intros [->|Hin]%elem_of_cons; [by exists [], seg, y, (concat segs)|].
  destruct (IH Hin) as (pre & seg' & y' & post & Heq & Hp).
  exists (seg ++ pre), seg', y', post. split; [|done]. cbn. by rewrite Heq, <- app_assoc.
Qed.

Lemma added_no_delete h pu p seg res c : added_spec h pu p seg res → c ∈ seg → is_delete c = false.
Proof. intros Hs Hc. inversion Hs; subst; set_solver. Qed.

Lemma removed_only_delete p seg res c : removed_spec p seg res → c ∈ seg → is_delete c = true.
Proof. intros Hs Hc. inversion Hs; subst; set_solver. Qed.

Definition served h r (w : W) : trace := (ServeHTTP (W := log_t) h r (w, [])).2.2.

Lemma served_authentic h r pu (w : W) :
  authentic h r pu → ∃ segs1 segs2 rs1 rs2, served h r w = concat segs1 ++ concat segs2 ∧
    Forall3 (added_spec h pu) (addedModified pu) segs1 rs1 ∧ Forall3 removed_spec (removed pu) segs2 rs2.
Proof.
  intros Ha. unfold served. rewrite (serve_authentic _ _ _ _ Ha). cbn [snd].
  destruct (sync_push_trace h pu (w, [])) as (segs1 & segs2 & rs1 & rs2 & _ & Hlog & HA & HR).
  by exists segs1, segs2, rs1, rs2.
Qed.

(** C14: an authentic push is worked off path by path, in order: for every added or
    modified path at most one fetch and then at most one apply, for every removed
    path at most one delete, each as the specification of the path allows; a path
    outside the inventory causes no call, a failure on one path does not stop the
    others, and the response lists one result per path, in the same order, that
    reports truthfully what was called and answered. *)
Theorem ServeHTTP_refines h r pu (w : W) :
  authentic h r pu →
  ∃ segs1 segs2 rs1 rs2,
    ServeHTTP (W := log_t) h r (w, []) =
      (Response_ 200 "application/json" (encode_response (rs1 ++ rs2)),
       ((ServeHTTP (W := log_t) h r (w, [])).2.1, concat segs1 ++ concat segs2)) ∧
    Forall3 (added_spec h pu) (addedModified pu) segs1 rs1 ∧
    Forall3 removed_spec (removed pu) segs2 rs2 ∧
    map Path (rs1 ++ rs2) = addedModified pu ++ removed pu.
Proof.
  intros Ha. rewrite (serve_authentic _ _ _ _ Ha). cbn [snd].
  destruct (sync_push_trace h pu (w, [])) as (segs1 & segs2 & rs1 & rs2 & Hrs & Hlog & HA & HR).
  exists segs1, segs2, rs1, rs2. split.
  { rewrite Hrs. f_equal. cbn [snd app] in Hlog. rewrite <- Hlog. apply surjective_pairing. }
  split; [done|]. split; [done|]. rewrite map_app. f_equal.
  - clear -HA. induction HA as [|p seg res l segs rs Hp Hall IH]; [done|]. cbn. f_equal; [|done].
    by inversion Hp as [| | |? ? ? ? []].
  - clear -HR. induction HR as [|p seg res l segs rs Hp Hall IH]; [done|]. cbn. f_equal; [|done].
    inversion Hp as [|? ? [|e] ]; [done..|]. by destruct (IsNotFound e).
Qed.

(** C1: every write to the cluster is authorised: nothing is called unless the
    request is an authentic push; then an object is applied only for an added or
    modified path, it has the identity the path names and carries the hash of a
    manifest fetched for that path, and an object is deleted only if a removed
    path names it; all applies come before all deletes. *)
Theorem webhook_writes_are_authorized h r (w : W) :
  (served h r w ≠ [] → ∃ pu, authentic h r pu) ∧
  ∀ pu, authentic h r pu →
    (∀ obj owner force res, CallApply obj owner force res ∈ served h r w →
       owner = "accord-sync-operator" ∧ force = true ∧
       ∃ p parsed raw resp, p ∈ addedModified pu ∧ ParseInventoryExportPath p = Some parsed ∧
         CallDo (fetch_request h pu p) resp ∈ served h r w ∧ fetched resp raw ∧ marked parsed raw obj) ∧
    (∀ obj res, CallDelete obj res ∈ served h r w →
       ∃ p parsed, p ∈ removed pu ∧ ParseInventoryExportPath p = Some parsed ∧ identity parsed obj) ∧
    ∃ pre post, served h r w = pre ++ post ∧
      Forall (λ c, is_delete c = false) pre ∧ Forall (λ c, is_delete c = true) post.
Proof.
  split.
  { intros Hne. destruct (serve_cases (W := log_t) h r (w, [])) as [?|[_ Heq]]; [done|].
    unfold served in Hne. by rewrite Heq in Hne. }
  intros pu Ha. destruct (served_authentic h r pu w Ha) as (segs1 & segs2 & rs1 & rs2 & -> & HA & HR).
  split; [|split].
  - intros obj owner force res [Hin|Hin]%elem_of_app.
    + destruct (Forall3_concat _ _ _ _ _ HA Hin) as (p & seg & y & Hp & Hs & Hc & Hsub).
      inversion Hs as [| | |parsed resp raw sent res' Hparse Hf _ Hm]; subst; [set_solver..|].
      assert (Heq : CallApply obj owner force res = CallApply sent "accord-sync-operator" true res') by set_solver.
      injection Heq as -> -> -> ->. split; [done|]. split; [done|]. exists p, parsed, raw, resp.
      split; [done|]. split; [done|]. split; [|done]. apply elem_of_app. left. apply Hsub. by left.
    + destruct (Forall3_concat _ _ _ _ _ HR Hin) as (p & seg & y & _ & Hs & Hc & _).
      by apply (removed_only_delete _ _ _ _ Hs) in Hc.
  - intros obj res [Hin|Hin]%elem_of_app.
    + destruct (Forall3_concat _ _ _ _ _ HA Hin) as (p & seg & y & _ & Hs & Hc & _).
      by apply (added_no_delete _ _ _ _ _ _ Hs) in Hc.
    + destruct (Forall3_concat _ _ _ _ _ HR Hin) as (p & seg & y & Hp & Hs & Hc & _).
      inversion Hs as [|parsed obj' res' Hparse Hid]; subst; [set_solver|].
      assert (Heq : CallDelete obj res = CallDelete obj' res') by set_solver.
      injection Heq as -> ->. by exists p, parsed.
  - exists (concat segs1), (concat segs2). split; [done|].
    split; apply Forall_forall; intros c Hc.
    + destruct (Forall3_concat _ _ _ _ _ HA Hc) as (p & seg & y & _ & Hs & Hin & _).
      by eapply added_no_delete.
    + destruct (Forall3_concat _ _ _ _ _ HR Hc) as (p & seg & y & _ & Hs & Hin & _).
      by eapply removed_only_delete.
Qed.

(** A push that adds or modifies one path of an object and removes another
    path of the same object - a rename between .yml and .yaml - deletes the
    object at the end, after everything it applied. *)
Theorem rename_deletes_the_object h r pu (w : W) p q parsed :
  authentic h r pu → p ∈ addedModified pu → q ∈ removed pu →
  ParseInventoryExportPath p = Some parsed → ParseInventoryExportPath q = Some parsed →
  ∃ pre obj res post, served h r w = pre ++ CallDelete obj res :: post ∧ identity parsed obj ∧
    Forall (λ c, is_delete c = true) post.
Proof.
  intros Ha _ Hq _ Hparse. destruct (served_authentic h r pu w Ha) as (segs1 & segs2 & rs1 & rs2 & -> & _ & HR).
  destruct (Forall3_segment _ _ _ _ _ HR Hq) as (pre & seg & y & post & Hseg & Hs).
  inversion Hs as [Hnone|parsed' obj res Hparse' Hid]; subst; [congruence|].
  rewrite Hparse in Hparse'. injection Hparse' as <-.
  exists (concat segs1 ++ pre), obj, res, post. rewrite Hseg, <- app_assoc. split; [done|]. split; [done|].
  apply Forall_forall. intros c Hc.
  assert (Hin : c ∈ concat segs2) by (rewrite Hseg; apply elem_of_app; right; by right).
  destruct (Forall3_concat _ _ _ _ _ HR Hin) as (q' & seg & y & _ & Hs' & Hin' & _).
  by eapply removed_only_delete.
Qed.
End trace.

(** ** Witnesses: a push that renames the export of one object *)

Module Sample.
#[local] Existing Instances ascii_tables literal_f64 plain_messages plain_event_messages json_yaml
  map_object map_unstructured.
Abbreviation gomap := (list (string * json f64)).

(** A file server that has one manifest at every path, and an API server that
    accepts everything. *)
Definition manifest : string := quoted
  "{'apiVersion':'argoproj.io/v1alpha1','kind':'Application','metadata':{'name':'x','namespace':'a'}}".
Definition sample_http : HttpClient unit unit := {|
  http_NewRequest _ := None;
  http_DefaultClient := tt;
  http_Do _ _ w := (Ok (Response 200 (Body manifest None false)), w)
|}.
Definition sample_kube : KubeClient gomap unit := {|
  k8s_Apply _ _ _ w := (Ok tt, w);
  k8s_Delete _ w := (Ok tt, w)
|}.
#[local] Existing Instances sample_http sample_kube.

Definition rename_payload : string := print_json (payload_json
  (Payload "o/r" (Some "c0ffee") "c0ffee"
    [(["inventory/applications/a/x.yaml"], [], ["inventory/applications/a/x.yml"])] [])).
Definition rename_push : push :=
  Push "o/r" "c0ffee" ["inventory/applications/a/x.yaml"] ["inventory/applications/a/x.yml"].
Definition sample_handler : WebhookHandler unit := Handler_ None "" "secret".
Definition sample_request : request :=
  HttpRequest "POST" {[ SignatureHeader := [sign "secret" rename_payload] ]} (Body rename_payload None false).

Lemma sample_authentic : authentic sample_handler sample_request rename_push.
Proof.
  split; [done|]. exists rename_payload. split; [by_vm|]. split; [|by_vm].
  apply verify_spec. split; [done|]. eexists. split; [reflexivity|]. apply hex_decode_encode.
Qed.

(** What a call is, for reading a log. *)
Definition call_name (c : call gomap) : string :=
  match c with CallDo _ _ => "get" | CallApply _ _ _ _ => "apply" | CallDelete _ _ => "delete" end.

Lemma rename_deletes_the_object_witness :
  map call_name (served sample_handler sample_request tt) = ["get"; "apply"; "delete"] ∧
  ∃ pre obj res post, served sample_handler sample_request tt = pre ++ CallDelete obj res :: post ∧
    GetName obj = "x".
Proof.
  split; [by_vm|]. pose proof map_unstructured_laws as laws.
  destruct (rename_deletes_the_object sample_handler sample_request rename_push tt
    "inventory/applications/a/x.yaml" "inventory/applications/a/x.yml" (Parsed "applications" "a" "x")
    sample_authentic ltac:(by left) ltac:(by left) ltac:(by_vm) ltac:(by_vm))
    as (pre & obj & res & post & Hlog & Hid & _).
  exists pre, obj, res, post. split; [exact Hlog|]. exact (id_name _ _ Hid).
Defined.

Lemma ServeHTTP_refines_witness :
  ∃ results, (ServeHTTP (W := @logged gomap unit) (HttpClient0 := logged_http) (KubeClient0 := logged_kube)
                sample_handler sample_request (tt, [])).1
             = Response_ 200 "application/json" (encode_response results) ∧
    map Path results = ["inventory/applications/a/x.yaml"; "inventory/applications/a/x.yml"].
Proof.
  pose proof map_unstructured_laws as laws.
  destruct (ServeHTTP_refines sample_handler sample_request rename_push tt sample_authentic)
    as (segs1 & segs2 & rs1 & rs2 & Hrun & _ & _ & Hpaths).
  exists (rs1 ++ rs2). split; [exact (f_equal fst Hrun)|exact Hpaths].
Defined.

Lemma webhook_writes_are_authorized_witness :
  length (served sample_handler sample_request tt) = 3 ∧
  Forall (λ c, match c with CallDelete obj _ => GetName obj = "x" | _ => True end)
    (served sample_handler sample_request tt).
Proof.
  split; [by_vm|]. pose proof map_unstructured_laws as laws.
  apply Forall_forall. intros [| |obj res] Hin; [exact I|exact I|].
  destruct (proj2 (webhook_writes_are_authorized sample_handler sample_request tt) rename_push sample_authentic)
    as (_ & Hdel & _).
  destruct (Hdel obj res Hin) as (p & parsed & Hp & Hparse & Hid).
  rewrite (id_name _ _ Hid). apply list_elem_of_singleton in Hp as ->.
  assert (Hx : ParseInventoryExportPath "inventory/applications/a/x.yml" = Some (Parsed "applications" "a" "x"))
    by by_vm.
  rewrite Hx in Hparse. injection Hparse as <-. reflexivity.
Defined.

Lemma ApplyInventoryYAML_correct_witness :
  ∃ sent hash, ApplyInventoryYAML (Parsed "applications" "a" "x") manifest tt =
      (let '(r, w) := k8s_Apply sent "accord-sync-operator" true tt in (wrap_err "server-side apply" r, w)) ∧
    GetName sent = "x" ∧ MaterialHashFromNormalizedYAML manifest = Ok hash.
Proof.
  pose proof map_unstructured_laws as laws.
  destruct (ApplyInventoryYAML (Parsed "applications" "a" "x") manifest tt) as [res w] eqn:Hrun.
  assert (Hp : ParseInventoryExportPath "inventory/applications/a/x.yaml" = Some (Parsed "applications" "a" "x"))
    by by_vm.
  pose proof (ApplyInventoryYAML_correct "inventory/applications/a/x.yaml" _ manifest tt w res Hp Hrun) as Hc.
  destruct (MaterialHashFromNormalizedYAML manifest) as [hash|e] eqn:Hhash.
  2:{ assert (Hok : is_ok (MaterialHashFromNormalizedYAML manifest) = true) by by_vm.
      rewrite Hhash in Hok. discriminate Hok. }
  destruct (j ← YAMLToJSON (FirstYAMLDocument manifest); UnmarshalJSON j) as [obj|e] eqn:Hobj.
  2:{ assert (Hok : is_ok (j ← YAMLToJSON (FirstYAMLDocument manifest); UnmarshalJSON j) = true) by by_vm.
      rewrite Hobj in Hok. discriminate Hok. }
  assert (Hres : is_ok (ApplyInventoryYAML (Parsed "applications" "a" "x") manifest tt).1 = true) by by_vm.
  rewrite Hrun in Hres. destruct Hc as [[_ (sent & Hid & Heq & _)]|(_ & _ & f & e & m & rest & -> & _)];
    [|discriminate Hres].
  exists sent, hash. split; [exact Heq|]. split; [exact (id_name _ _ Hid)|reflexivity].
Defined.
End Sample.
