(* ===== verification/Concurrent.v ===== *)
(** Requests served at the same time. net/http runs the handler of
    internal/sync/webhook.go for every request in a goroutine of its own; the
    goroutines share nothing but GitHub and the cluster, so what matters is how
    their calls interleave. A handler is the tree of the calls it makes: running a
    tree by itself is [ServeHTTP], and a pool of trees moves one call at a time. *)
From S2P Require Import Prelude GoStrings GoPath GoCrypto GoUtf8 GoMap GoJson GoJsonFacts Config ExportPath InventoryPath ConfigMapMaterial Normalize Reconciler Hmac GitHubPush Fetch Apply UnstructuredMap Webhook WebhookTrace.

(** ** Trees of calls *)

Inductive prog (U C A : Type) : Type :=
| Done (a : A)
| Do (c : C) (req : http_request) (k : result http_response → prog U C A)
| Patch (obj : U) (owner : string) (force : bool) (k : result unit → prog U C A)
| Remove (obj : U) (k : result unit → prog U C A).
Arguments Done {U C A}.
Arguments Do {U C A}.
Arguments Patch {U C A}.
Arguments Remove {U C A}.

#[export] Instance prog_ret {U C} : MRet (prog U C) := λ A, Done.
#[export] Instance prog_bind {U C} : MBind (prog U C) := λ A B f,
  fix go m :=
    match m with
    | Done a => f a
    | Do c req k => Do c req (λ r, go (k r))
    | Patch obj owner force k => Patch obj owner force (λ r, go (k r))
    | Remove obj k => Remove obj (λ r, go (k r))
    end.

Section handler.
Context `{GoUnicode} `{Float64} `{JsonMessages} `{EventMessages} `{SigsYaml}.
Context {U C W : Type} `{!ClientObject U} `{!Unstructured U} `{!KubeClient U W} `{!HttpClient C W}.
Abbreviation prog := (prog U C).
Implicit Types (h : WebhookHandler C) (r : request) (w : W).

Fixpoint run {A} (m : prog A) (w : W) : A * W :=
  match m with
  | Done a => (a, w)
  | Do c req k => let '(r, w) := http_Do c req w in run (k r) w
  | Patch obj owner force k => let '(r, w) := k8s_Apply obj owner force w in run (k r) w
  | Remove obj k => let '(r, w) := k8s_Delete obj w in run (k r) w
  end.

Lemma run_bind {A B} (m : prog A) (f : A → prog B) w :
  run (m ≫= f) w = let '(a, w) := run m w in run (f a) w.
Proof.
  revert w. induction m as [a|c req k IH|obj owner force k IH|obj k IH]; intros w; [done|..]; cbn;
    match goal with |- context [let '(_, _) := ?x in _] => destruct x as [a w'] end; apply IH.
Qed.

(** ** The handler of webhook.go, with fetch.go and apply.go, as a tree *)

Definition fetch_tree (httpClient : option C) (token fullName sha filePath : string) : prog (result string) :=
  let httpClient := default (http_DefaultClient (W := W)) httpClient in
  let u := raw_url fullName sha filePath in
  match http_NewRequest (C := C) (W := W) u with
  | Some err => Done (Failed (ErrWrap "build raw request" err))
  | None =>
      Do httpClient (raw_request token u) (λ resp,
        Done match resp with
             | Failed err => Failed (ErrWrap "http get" err)
             | Ok resp =>
                 match read_limited max_raw_file (RespBody resp) with
                 | Failed err => Failed (ErrWrap "read body" err)
                 | Ok body =>
                     if negb (StatusCode resp =? 200)%Z
                     then Failed (Err ("raw fetch status " +:+ strconv_Itoa (StatusCode resp) +:+ " for " +:+ u))
                     else Ok body
                 end
             end)
  end.

Definition apply_tree (parsed : ParsedInventoryPath) (gitYAML : string) : prog (result unit) :=
  match MaterialHashFromNormalizedYAML gitYAML with
  | Failed err => Done (Failed (ErrWrap "compute material hash from Git YAML" err))
  | Ok incomingHash =>
      match YAMLToJSON (FirstYAMLDocument gitYAML) with
      | Failed err => Done (Failed (ErrWrap "convert yaml to json" err))
      | Ok jsonBytes =>
          match UnmarshalJSON jsonBytes with
          | Failed err => Done (Failed (ErrWrap "parse unstructured" err))
          | Ok obj =>
              match validatePathManifestIdentity parsed obj with
              | Some err => Done (Failed err)
              | None =>
                  Patch (annotate incomingHash obj) fieldOwner true (λ res, Done (wrap_err "server-side apply" res))
              end
          end
      end
  end.

Definition added_tree h (fullName sha p : string) : prog webhookResult :=
  match ParseInventoryExportPath p with
  | None => Done (WebhookResult p "ignored" not_inventory)
  | Some parsed =>
      raw ← fetch_tree (Some (default (http_DefaultClient (W := W)) (HTTPClient h))) (GitHubToken h) fullName sha p;
      match raw with
      | Failed err => Done (WebhookResult p "error" (Error_text err))
      | Ok raw =>
          res ← apply_tree parsed raw;
          Done match res with
               | Failed err => WebhookResult p "error" (Error_text err)
               | Ok _ => WebhookResult p "applied" ""
               end
      end
  end.

Definition removed_tree (p : string) : prog webhookResult :=
  match ParseInventoryExportPath p with
  | None => Done (WebhookResult p "ignored" not_inventory)
  | Some parsed =>
      match ArgoKindFromPlural (InventoryPath.PluralKind parsed) with
      | Failed err => Done (WebhookResult p "ignored" (Error_text err))
      | Ok k8sKind =>
          Remove (deletion_target k8sKind parsed) (λ res,
            Done match res with
                 | Failed err =>
                     if IsNotFound err then WebhookResult p "deleted" "already gone"
                     else WebhookResult p "error" ("delete failed: " +:+ Error_text err)
                 | Ok _ => WebhookResult p "deleted" ""
                 end)
      end
  end.

Fixpoint range_tree (step : string → prog webhookResult) (paths : list string) (results : webhookResponse)
    : prog webhookResponse :=
  match paths with
  | [] => Done results
  | p :: paths => r ← step p; range_tree step paths (results ++ [r])
  end.

Definition push_tree h (pu : push) : prog response :=
  results ← range_tree (added_tree h (fullName pu) (headSHA pu)) (addedModified pu) [];
  results ← range_tree removed_tree (removed pu) results;
  Done (Response_ 200 "application/json" (encode_response results)).

Definition serve_tree h r : prog response :=
  if decide (ReqMethod r ≠ "POST") then Done (http_Error "method not allowed" 405) else
  match read_limited max_payload (ReqBody r) with
  | Failed _ => Done (http_Error "failed to read body" 400)
  | Ok body =>
      match VerifyHMACSignature (WebhookSecret h) (Header_Get r SignatureHeader) body with
      | Failed _ => Done (http_Error "unauthorized" 401)
      | Ok _ =>
          match ParseGitHubPushPaths body with
          | Failed err => Done (http_Error (Error_text err) 400)
          | Ok pu => push_tree h pu
          end
      end
  end.

(** ** A tree that runs alone is the handler *)

Lemma run_fetch httpClient token n s p w :
  run (fetch_tree httpClient token n s p) w = FetchGitHubRawFile httpClient token n s p w.
Proof.
  unfold fetch_tree, FetchGitHubRawFile. destruct (http_NewRequest _); [done|]. cbn [run].
  destruct (http_Do _ _ w) as [[resp|e] w1]; [|done]. destruct (read_limited _ _); [|done]. by destruct (negb _).
Qed.

Lemma run_apply parsed y w : run (apply_tree parsed y) w = ApplyInventoryYAML parsed y w.
Proof.
  unfold apply_tree, ApplyInventoryYAML. destruct (MaterialHashFromNormalizedYAML y); [|done].
  destruct (YAMLToJSON _); [|done]. destruct (UnmarshalJSON _); [|done].
  destruct (validatePathManifestIdentity _ _); [done|]. cbn [run]. by destruct (k8s_Apply _ _ _ w).
Qed.

Lemma run_added h n s p w : run (added_tree h n s p) w = sync_added h n s p w.
Proof.
  unfold added_tree, sync_added. destruct (ParseInventoryExportPath p); [|done].
  rewrite run_bind, run_fetch. destruct (FetchGitHubRawFile _ _ _ _ p w) as [[raw|e] w1]; [|done].
  rewrite run_bind, run_apply. by destruct (ApplyInventoryYAML _ raw w1) as [[]].
Qed.

Lemma run_removed p w : run (removed_tree p) w = sync_removed p w.
Proof.
  unfold removed_tree, sync_removed. destruct (ParseInventoryExportPath p); [|done].
  destruct (ArgoKindFromPlural _); [|done]. cbn [run]. destruct (k8s_Delete _ w) as [[|e] w1]; [done|].
  cbn [run]. by destruct (IsNotFound e).
Qed.

Lemma run_range (tree : string → prog webhookResult) step :
  (∀ p w, run (tree p) w = step p w) →
  ∀ paths results w, run (range_tree tree paths results) w = range_paths step paths results w.
Proof.
  intros Hstep paths. induction paths as [|p paths IH]; intros results w; [done|]. cbn [range_tree range_paths].
  rewrite run_bind, Hstep. by destruct (step p w).
Qed.

Lemma run_serve h r w : run (serve_tree h r) w = ServeHTTP h r w.
Proof.
  unfold serve_tree, ServeHTTP. case_decide; [done|]. destruct (read_limited _ _); [|done].
  destruct (VerifyHMACSignature _ _ _); [|done]. destruct (ParseGitHubPushPaths _) as [pu|]; [|done].
  unfold push_tree. rewrite run_bind, (run_range _ _ (run_added h _ _)).
  destruct (range_paths _ (addedModified pu) _ w) as [rs w1]. rewrite run_bind, (run_range _ _ run_removed).
  by destruct (range_paths _ (removed pu) rs w1).
Qed.

(** ** Pools: one handler makes its next call *)

Abbreviation pool := (list (prog response)).

Inductive call_step {A} : prog A → W → call U → prog A → W → Prop :=
| step_do c req k w : call_step (Do c req k) w (CallDo req (http_Do c req w).1) (k (http_Do c req w).1) (http_Do c req w).2
| step_patch obj owner force k w : call_step (Patch obj owner force k) w
    (CallApply obj owner force (k8s_Apply obj owner force w).1)
    (k (k8s_Apply obj owner force w).1) (k8s_Apply obj owner force w).2
| step_remove obj k w : call_step (Remove obj k) w (CallDelete obj (k8s_Delete obj w).1)
    (k (k8s_Delete obj w).1) (k8s_Delete obj w).2.

(** Runs of a pool, with the log of calls, each with the handler that made it. *)
Inductive steps : pool → W → list (nat * call U) → pool → W → Prop :=
| steps_refl ps w : steps ps w [] ps w
| steps_step ps w i m c m' w1 log ps' w' :
    ps !! i = Some m → call_step m w c m' w1 → steps (<[i := m']> ps) w1 log ps' w' →
    steps ps w ((i, c) :: log) ps' w'.

(** The run of a schedule, which names the handler that calls next. *)
Definition next {A} (m : prog A) (w : W) : option (call U * prog A * W) :=
  match m with
  | Done _ => None
  | Do c req k => let '(res, w) := http_Do c req w in Some (CallDo req res, k res, w)
  | Patch obj owner force k =>
      let '(res, w) := k8s_Apply obj owner force w in Some (CallApply obj owner force res, k res, w)
  | Remove obj k => let '(res, w) := k8s_Delete obj w in Some (CallDelete obj res, k res, w)
  end.
Fixpoint schedule (order : list nat) (ps : pool) (w : W) : option (list (nat * call U) * pool * W) :=
  match order with
  | [] => Some ([], ps, w)
  | i :: order =>
      m ← ps !! i;
      '(c, m', w) ← next m w;
      '(log, ps, w) ← schedule order (<[i := m']> ps) w;
      Some ((i, c) :: log, ps, w)
  end.

Lemma next_step {A} (m : prog A) w c m' w' : next m w = Some (c, m', w') ↔ call_step m w c m' w'.
Proof.
  split.
  - destruct m as [a|cl req k|obj owner force k|obj k]; cbn; [done|..].
    + pose proof (step_do cl req k w) as Hs. destruct (http_Do cl req w). by intros [= <- <- <-].
    + pose proof (step_patch obj owner force k w) as Hs. destruct (k8s_Apply obj owner force w). by intros [= <- <- <-].
    + pose proof (step_remove obj k w) as Hs. destruct (k8s_Delete obj w). by intros [= <- <- <-].
  - intros []; cbn; match goal with |- context [let '(_, _) := ?x in _] => by destruct x end.
Qed.

Lemma schedule_steps order ps w log ps' w' : schedule order ps w = Some (log, ps', w') → steps ps w log ps' w'.
Proof.
  revert ps w log. induction order as [|i order IH]; intros ps w log; cbn; [intros [= <- <- <-]; constructor|].
  intros (m & Hm & ([[c m'] w1] & Hn%next_step & ([[log' ps1] w2] & Hs & Heq)%bind_Some)%bind_Some)%bind_Some.
  injection Heq as <- <- <-. eapply steps_step; [done|exact Hn|by apply IH].
Qed.

Definition finished {A} (m : prog A) : Prop := match m with Done _ => True | _ => False end.
#[export] Instance finished_dec {A} (m : prog A) : Decision (finished m).
Proof. destruct m; cbn; apply _. Defined.

(** What a schedule comes to, for evaluation: the names of the calls, and whether
    every handler is done. *)
Definition summary (name : call U → string) (x : list (nat * call U) * pool * W) : bool * list (nat * string) :=
  (forallb (λ m, bool_decide (finished m)) x.1.2, map (λ ic, (ic.1, name ic.2)) x.1.1).
Lemma scheduled (name : call U → string) order ps w all names :
  summary name <$> schedule order ps w = Some (all, names) →
  ∃ log ps' w', steps ps w log ps' w' ∧ map (λ ic, (ic.1, name ic.2)) log = names ∧ (all = true → Forall finished ps').
Proof.
  intros ([[log ps'] w'] & Hs & [= Hall Hnames])%fmap_Some. exists log, ps', w'.
  split; [by apply (schedule_steps order)|]. split; [done|]. intros ->. apply Forall_forall. intros m Hm.
  symmetry in Hall. rewrite forallb_forall in Hall. apply list_elem_of_In, Hall in Hm. by apply bool_decide_eq_true in Hm.
Qed.

Definition calls_of (i : nat) (log : list (nat * call U)) : list (call U) :=
  (filter (λ ic, ic.1 = i) log).*2.

(** ** A logic for trees: what a handler may call after which calls *)

(** [wp P Q past m]: every call [c] the tree makes satisfies [P past c], with the
    calls made before, and its result satisfies [Q], whatever the answers are. *)
Section logic.
Context (P : list (call U) → call U → Prop).
Fixpoint wp {A} (Q : list (call U) → A → Prop) (past : list (call U)) (m : prog A) : Prop :=
  match m with
  | Done a => Q past a
  | Do c req k => ∀ res, P past (CallDo req res) ∧ wp Q (past ++ [CallDo req res]) (k res)
  | Patch obj owner force k => ∀ res,
      P past (CallApply obj owner force res) ∧ wp Q (past ++ [CallApply obj owner force res]) (k res)
  | Remove obj k => ∀ res, P past (CallDelete obj res) ∧ wp Q (past ++ [CallDelete obj res]) (k res)
  end.

Lemma wp_mono {A} (Q Q' : list (call U) → A → Prop) past (m : prog A) :
  (∀ past a, Q past a → Q' past a) → wp Q past m → wp Q' past m.
Proof.
  intros HQ. revert past. induction m as [a|c req k IH|obj owner force k IH|obj k IH]; intros past; cbn;
    [apply HQ|..]; intros Hm res; destruct (Hm res) as [HP Hk]; (split; [exact HP|by apply IH]).
Qed.

Lemma wp_bind {A B} (Q : list (call U) → B → Prop) past (m : prog A) (f : A → prog B) :
  wp (λ past a, wp Q past (f a)) past m → wp Q past (m ≫= f).
Proof.
  revert past. induction m as [a|c req k IH|obj owner force k IH|obj k IH]; intros past; cbn; [done|..];
    intros Hm res; destruct (Hm res) as [HP Hk]; (split; [exact HP|by apply IH]).
Qed.

Lemma wp_range (step : string → prog webhookResult) (I : list (call U) → Prop) (paths : list string) :
  (∀ past p, p ∈ paths → I past → wp (λ past res, I past ∧ Path res = p) past (step p)) →
  ∀ past results, I past →
    wp (λ past rs, I past ∧ ∃ new, rs = results ++ new ∧ map Path new = paths) past (range_tree step paths results).
Proof.
  induction paths as [|p paths IH]; intros Hstep past results HI; cbn [range_tree].
  { split; [done|]. exists []. by rewrite app_nil_r. }
  apply wp_bind. eapply wp_mono; [|apply Hstep; [by left|done]]. intros past' res [HI' Hp].
  eapply wp_mono; [|apply IH; [|exact HI']]; [|intros ? q Hq; apply Hstep; by right].
  intros past2 rs (? & new & -> & Hnew). split; [done|]. exists (res :: new). rewrite <- app_assoc. split; [done|].
  cbn. by rewrite Hp, Hnew.
Qed.

Lemma wp_step {A} (Q : list (call U) → A → Prop) past (m m' : prog A) w c w' :
  wp Q past m → call_step m w c m' w' → P past c ∧ wp Q (past ++ [c]) m'.
Proof. intros Hm Hs. destruct Hs; apply Hm. Qed.

(** Soundness for pools: in every interleaving, the calls of handler [i] satisfy
    [P] after its own earlier calls. *)
Lemma wp_steps (Q : list (call U) → response → Prop) ps w log ps' w' past i m :
  steps ps w log ps' w' → ps !! i = Some m → wp Q past m →
  (∀ pre c post, calls_of i log = pre ++ c :: post → P (past ++ pre) c) ∧
  ∃ m', ps' !! i = Some m' ∧ wp Q (past ++ calls_of i log) m'.
Proof.
  intros Hs. revert past m. induction Hs as [ps w|ps w j mj c mj' w1 log ps' w' Hj Hc Hs IH]; intros past m Hi Hm.
  - split; [by intros []|]. exists m. split; [done|]. unfold calls_of. cbn. by rewrite app_nil_r.
  - unfold calls_of. destruct (decide (j = i)) as [->|Hne].
    + rewrite Hi in Hj. injection Hj as <-. destruct (wp_step _ _ _ _ _ _ _ Hm Hc) as [HP Hm'].
      destruct (IH (past ++ [c]) mj') as [Hcalls Hlast]; [|exact Hm'|].
      { apply list_lookup_insert_eq. by eapply lookup_lt_Some. }
      rewrite filter_cons_True by done. cbn [fmap list_fmap snd]. unfold calls_of in *. split.
      * intros [|x pre] c' post Heq; [injection Heq as <- _; by rewrite app_nil_r|].
        injection Heq as <- Heq. rewrite (cons_middle c), app_assoc. by eapply Hcalls.
      * destruct Hlast as (m' & ? & Hw). exists m'. split; [done|]. rewrite (cons_middle c), app_assoc. done.
    + rewrite filter_cons_False by done. apply (IH past m); [|exact Hm]. by rewrite list_lookup_insert_ne.
Qed.
End logic.
End handler.

Section claims.
Context `{GoUnicode} `{Float64} `{JsonMessages} `{EventMessages} `{SigsYaml}.
Context {U C W : Type} `{!ClientObject U} `{!Unstructured U} `{!UnstructuredLaws}.
Context `{!KubeClient U W} `{!HttpClient C W}.
Abbreviation trace := (list (call U)).
Implicit Types (h : WebhookHandler C) (r : request) (w : W) (past : trace).

(** The push of a request that gets through the checks. *)
Definition accepted h r : option push :=
  if decide (ReqMethod r ≠ "POST") then None else
  match read_limited max_payload (ReqBody r) with
  | Ok body =>
      match VerifyHMACSignature (WebhookSecret h) (Header_Get r SignatureHeader) body, ParseGitHubPushPaths body with
      | Ok _, Ok pu => Some pu
      | _, _ => None
      end
  | Failed _ => None
  end.

Lemma accepted_authentic h r pu : accepted h r = Some pu ↔ authentic h r pu.
Proof.
  unfold accepted, authentic. case_decide as Hm; [by split; [|intros [? _]]|].
  destruct (read_limited _ _) as [body|e]; [|by split; [|intros (_ & ? & ? & _)]].
  split.
  - destruct (VerifyHMACSignature _ _ body) as [[]|] eqn:Hv; [|done].
    destruct (ParseGitHubPushPaths body) as [pu'|] eqn:Hp; [|done]. intros [= ->].
    split; [by destruct (decide (ReqMethod r = "POST"))|]. by exists body.
  - intros (_ & body' & [= <-] & -> & ->). done.
Qed.

Lemma serve_tree_cases h r :
  (∃ pu, authentic h r pu ∧ serve_tree (U := U) (W := W) h r = push_tree (W := W) h pu) ∨
  (accepted h r = None ∧ ∃ resp, refusal h r resp ∧ serve_tree (U := U) (W := W) h r = Done resp).
Proof.
  unfold serve_tree, accepted, authentic.
  case_decide as Hm; [right; split; [done|]; eexists; split; [by apply refuse_method|done]|].
  assert (Hpost : ReqMethod r = "POST") by (by destruct (decide (ReqMethod r = "POST"))).
  destruct (read_limited _ _) as [body|e] eqn:Hb; [|right; split; [done|]; eexists; by split; [eapply refuse_body|]].
  destruct (VerifyHMACSignature _ _ body) as [[]|e] eqn:Hv;
    [|right; split; [done|]; eexists; by split; [eapply refuse_signature|]].
  destruct (ParseGitHubPushPaths body) as [pu|e] eqn:Hp;
    [|right; split; [done|]; eexists; by split; [eapply refuse_payload|]].
  left. exists pu. split; [|done]. split; [done|]. by exists body.
Qed.

(** ** What a handler may call *)

(** After its own calls [past], the handler of the push [pu] may fetch an inventory
    file it added or modified, apply - before any delete - the object of such a
    file, marked with the hash of what was fetched for it, and delete an object a
    removed path names. *)
Definition authorized h pu past (c : call U) : Prop :=
  match c with
  | CallDo req _ => ∃ p parsed, p ∈ addedModified pu ∧ ParseInventoryExportPath p = Some parsed ∧
      req = fetch_request h pu p
  | CallApply obj owner force _ =>
      owner = "accord-sync-operator" ∧ force = true ∧ Forall (λ c, is_delete c = false) past ∧
      ∃ p parsed raw resp, p ∈ addedModified pu ∧ ParseInventoryExportPath p = Some parsed ∧
        CallDo (fetch_request h pu p) resp ∈ past ∧ fetched resp raw ∧ marked parsed raw obj
  | CallDelete obj _ => ∃ p parsed, p ∈ removed pu ∧ ParseInventoryExportPath p = Some parsed ∧ identity parsed obj
  end.

Definition no_delete past : Prop := Forall (λ c, is_delete c = false) past.
Lemma no_delete_snoc past c : no_delete past → is_delete c = false → no_delete (past ++ [c]).
Proof. intros Hp Hc. apply Forall_app. split; [done|]. by constructor. Qed.

Lemma wp_fetch h pu p parsed past :
  p ∈ addedModified pu → ParseInventoryExportPath p = Some parsed → no_delete past →
  wp (authorized h pu) (λ past' res, no_delete past' ∧
      ∀ raw, res = Ok raw → ∃ resp, CallDo (fetch_request h pu p) resp ∈ past' ∧ fetched resp raw) past
    (fetch_tree (W := W) (Some (default (http_DefaultClient (W := W)) (HTTPClient h))) (GitHubToken h)
      (fullName pu) (headSHA pu) p).
Proof.
  intros Hp Hparse Hpast. unfold fetch_tree. destruct (http_NewRequest _) as [e|]; [by split|].
  intros resp. split; [by exists p, parsed|]. split; [by apply no_delete_snoc|]. intros raw Hraw. exists resp.
  split; [apply elem_of_app; right; by left|]. destruct resp as [[code b]|e]; [|done].
  cbn [RespBody StatusCode] in Hraw. change max_raw_file with (8 * 1024 * 1024)%Z in Hraw.
  destruct (read_limited _ b) as [body|] eqn:Hb; [|done]. exists b.
  destruct (Z.eqb_spec code 200) as [->|]; [|done]. by apply Ok_inj in Hraw as <-.
Qed.

Lemma wp_apply h pu p parsed raw resp past :
  p ∈ addedModified pu → ParseInventoryExportPath p = Some parsed → no_delete past →
  CallDo (fetch_request h pu p) resp ∈ past → fetched resp raw →
  wp (authorized h pu) (λ past' _, no_delete past') past (apply_tree (C := C) parsed raw).
Proof.
  intros Hp Hparse Hpast Hin Hf. unfold apply_tree.
  destruct (MaterialHashFromNormalizedYAML raw) as [hash|] eqn:Hh; [|done].
  destruct (YAMLToJSON _) as [j|] eqn:Hj; [|done]. destruct (UnmarshalJSON j) as [obj|] eqn:Ho; [|done].
  destruct (validatePathManifestIdentity parsed obj) as [|] eqn:Hv; [done|]. apply validate_None in Hv.
  assert (Hname : GetName obj ≠ "").
  { rewrite (id_name _ _ Hv). destruct parsed. by apply parse_spec in Hparse as (_ & _ & (? & _) & _). }
  intros res. split; [|by apply no_delete_snoc]. split; [done|]. split; [done|]. split; [done|].
  exists p, parsed, raw, resp. do 4 (split; [done|]). split; [by apply annotate_identity|].
  exists hash, (annotations_with hash obj). split; [done|]. split; [by apply annotate_get|].
  unfold annotations_with. by rewrite get_set, decide_True.
Qed.

Lemma wp_added h pu p past :
  p ∈ addedModified pu → no_delete past →
  wp (authorized h pu) (λ past' res, no_delete past' ∧ Path res = p) past
    (added_tree (W := W) h (fullName pu) (headSHA pu) p).
Proof.
  intros Hp Hpast. unfold added_tree. destruct (ParseInventoryExportPath p) as [parsed|] eqn:Hparse; [|done].
  apply wp_bind. eapply wp_mono; [|by eapply wp_fetch]. intros past' [raw|e] [Hpast' Hraw]; [|done].
  destruct (Hraw raw eq_refl) as (resp & Hin & Hf). apply wp_bind.
  eapply wp_mono; [|by eapply wp_apply]. by intros past2 [] Hpast2.
Qed.

Lemma wp_removed h pu p past :
  p ∈ removed pu → wp (authorized h pu) (λ _ res, True ∧ Path res = p) past (removed_tree (C := C) p).
Proof.
  intros Hp. unfold removed_tree. destruct (ParseInventoryExportPath p) as [parsed|] eqn:Hparse; [|done].
  destruct (parsed_kind p parsed Hparse) as [k Hk]. rewrite Hk. intros res. split.
  - exists p, parsed. split; [done|]. split; [done|]. by apply deletion_target_identity.
  - destruct res as [|e]; [done|]. by destruct (IsNotFound e).
Qed.

(** What is answered: a refusal, or one result per path in order. *)
Definition answered h r (resp : response) : Prop :=
  (accepted h r = None ∧ refusal h r resp) ∨
  ∃ pu results, authentic h r pu ∧ resp = Response_ 200 "application/json" (encode_response results) ∧
    map Path results = addedModified pu ++ removed pu.

Lemma wp_push h pu past :
  no_delete past →
  wp (authorized h pu) (λ _ resp, ∃ results, resp = Response_ 200 "application/json" (encode_response results) ∧
      map Path results = addedModified pu ++ removed pu) past (push_tree (W := W) h pu).
Proof.
  intros Hpast. unfold push_tree. apply wp_bind.
  eapply wp_mono; [|apply (wp_range _ _ no_delete); [|exact Hpast]]; [|intros; by apply wp_added].
  intros past1 rs1 (_ & new1 & -> & Hnew1). apply wp_bind.
  eapply wp_mono; [|apply (wp_range _ _ (λ _, True)); [|done]]; [|intros; by apply wp_removed].
  intros past2 rs2 (_ & new2 & -> & Hnew2). exists (new1 ++ new2). split; [done|].
  by rewrite map_app, Hnew1, Hnew2.
Qed.

Definition push_authorized h r past (c : call U) : Prop := ∃ pu, authentic h r pu ∧ authorized h pu past c.

Lemma wp_weaken {A} (P P' : trace → call U → Prop) (Q : trace → A → Prop) past (m : prog U C A) :
  (∀ past c, P past c → P' past c) → wp P Q past m → wp P' Q past m.
Proof.
  intros HP. revert past. induction m as [a|c req k IH|obj owner force k IH|obj k IH]; intros past; cbn; [done|..];
    intros Hm res; destruct (Hm res) as [Hc Hk]; (split; [by apply HP|by apply IH]).
Qed.

Lemma wp_serve h r : wp (push_authorized h r) (λ _, answered h r) [] (serve_tree (W := W) h r).
Proof.
  destruct (serve_tree_cases h r) as [(pu & Ha & ->)|(Hno & resp & Hr & ->)]; [|by left].
  apply (wp_weaken (authorized h pu)); [by exists pu|]. eapply wp_mono; [|by apply wp_push, Forall_nil].
  intros past resp (results & -> & Hpaths). right. by exists pu, results.
Qed.

(** C3: requests served at the same time do not get around the checks. However the
    calls of any number of handlers interleave - and whatever GitHub and the
    cluster, which the handlers share, answer - each handler calls only what its
    own request allows: nothing unless the request is an authentic push, then a
    fetch of a file that push added or modified, an apply - before any delete - of
    the object of a file it has fetched, marked with the hash of that file, and a
    delete of an object that a path it removed names. A handler that is done has
    refused its request as [ServeHTTP] does, or answered with one result per path,
    in order. *)
Theorem concurrent_writes_are_authorized h rs w log ps w' :
  steps (map (serve_tree (W := W) h) rs) w log ps w' →
  length ps = length rs ∧
  ∀ i r, rs !! i = Some r →
    (∀ pre c post, calls_of i log = pre ++ c :: post → push_authorized h r pre c) ∧
    (∀ resp, ps !! i = Some (Done resp) → answered h r resp).
Proof.
  intros Hs. split.
  { rewrite <- (length_map (serve_tree (W := W) h)). clear -Hs.
    induction Hs as [|??????????? _ _ IH]; [done|]. by rewrite IH, length_insert. }
  intros i r Hr. assert (Hi : map (serve_tree (W := W) h) rs !! i = Some (serve_tree h r)) by (by rewrite list_lookup_fmap, Hr).
  destruct (wp_steps _ _ _ _ _ _ _ _ _ _ Hs Hi (wp_serve h r)) as [Hcalls (m' & Hm' & Hw)].
  split; [exact Hcalls|]. intros resp Hresp. rewrite Hresp in Hm'. by injection Hm' as <-.
Qed.

(** ** Serving ends *)

(** At most [n] calls, whatever is answered. *)
Fixpoint within {A} (n : nat) (m : prog U C A) : Prop :=
  match m, n with
  | Done _, _ => True
  | Do _ _ k, S n => ∀ res, within n (k res)
  | Patch _ _ _ k, S n => ∀ res, within n (k res)
  | Remove _ k, S n => ∀ res, within n (k res)
  | _, 0 => False
  end.

Lemma within_bind {A B} (m : prog U C A) (f : A → prog U C B) a b :
  within a m → (∀ x, within b (f x)) → within (a + b) (m ≫= f).
Proof.
  intros Hm Hf. revert a Hm. induction m as [x|c req k IH|obj owner force k IH|obj k IH]; intros a Hm; cbn.
  - clear Hm. revert b Hf. induction a as [|a IHa]; intros b Hf; [apply Hf|].
    rewrite Nat.add_succ_comm. apply IHa. intros y. specialize (Hf y). clear -Hf.
    revert b Hf. generalize (f y) as m. induction m as [z|c req k IH|obj owner force k IH|obj k IH]; intros b;
      cbn; [done|..]; (destruct b as [|b]; [done|]); intros Hk res; apply IH, Hk.
  - destruct a as [|a]; [done|]. intros res. by apply IH.
  - destruct a as [|a]; [done|]. intros res. by apply IH.
  - destruct a as [|a]; [done|]. intros res. by apply IH.
Qed.

Lemma within_range (step : string → prog U C webhookResult) n :
  (∀ p, within n (step p)) → ∀ paths results, within (n * length paths) (range_tree step paths results).
Proof.
  intros Hn paths. induction paths as [|p paths IH]; intros results; [by rewrite Nat.mul_0_r|].
  cbn [range_tree length]. rewrite Nat.mul_succ_r, Nat.add_comm. by apply within_bind.
Qed.

Definition max_calls h r : nat :=
  match accepted h r with Some pu => 2 * length (addedModified pu) + length (removed pu) | None => 0 end.

Lemma within_serve h r : within (max_calls h r) (serve_tree (U := U) (W := W) h r).
Proof.
  unfold max_calls. destruct (serve_tree_cases h r) as [(pu & Ha & ->)|(-> & resp & _ & ->)]; [|done].
  rewrite (proj2 (accepted_authentic h r pu) Ha). unfold push_tree.
  apply within_bind; [apply (within_range _ 2)|intros rs1; rewrite <- (Nat.mul_1_l (length (removed pu)));
    rewrite <- (Nat.add_0_r (1 * _)); apply within_bind; [apply (within_range _ 1)|done]].
  - intros p. unfold added_tree. destruct (ParseInventoryExportPath p); [|done].
    apply (within_bind _ _ 1 1); [unfold fetch_tree; by destruct (http_NewRequest _)|]. intros [raw|]; [|done].
    rewrite <- (Nat.add_0_r 1). apply (within_bind _ _ 1 0); [|done]. unfold apply_tree.
    destruct (MaterialHashFromNormalizedYAML raw); [|done]. destruct (YAMLToJSON _); [|done].
    destruct (UnmarshalJSON _); [|done]. by destruct (validatePathManifestIdentity _ _).
  - intros p. unfold removed_tree. destruct (ParseInventoryExportPath p); [|done]. by destruct (ArgoKindFromPlural _).
Qed.

Lemma within_step {A} n (m m' : prog U C A) w c w' : within n m → call_step m w c m' w' → ∃ n', n = S n' ∧ within n' m'.
Proof. intros Hm Hs. destruct Hs; (destruct n as [|n]; [done|]); exists n; (split; [done|apply Hm]). Qed.

Lemma steps_bounded ps w log ps' w' : steps ps w log ps' w' →
  ∀ ns, Forall2 within ns ps → length log ≤ sum_list ns.
Proof.
  induction 1 as [ps w|ps w i m c m' w1 log ps' w' Hi Hc _ IH]; intros ns Hns; [cbn; lia|].
  destruct (Forall2_lookup_r _ _ _ _ _ Hns Hi) as (n & Hn & Hm).
  destruct (within_step _ _ _ _ _ _ Hm Hc) as (n' & -> & Hm').
  pose proof (IH (<[i := n']> ns) ltac:(by apply Forall2_insert)) as Hle. cbn [length].
  pose proof (sum_list_insert i (S n') n' ns Hn). lia.
Qed.

(** C25: serving ends: a pool of handlers makes at most two calls per added or
    modified path and one per removed path of the pushes it serves, however they
    interleave, and as long as some handler is not done, one can make its next
    call: no handler waits for another. *)
Theorem serving_ends h rs w log ps w' :
  steps (map (serve_tree (W := W) h) rs) w log ps w' →
  length log ≤ sum_list (map (max_calls h) rs) ∧
  (Forall finished ps ∨ ∃ i c ps2 w2, steps ps w' [(i, c)] ps2 w2).
Proof.
  intros Hs. split.
  - apply (steps_bounded _ _ _ _ _ Hs).
    clear Hs. induction rs as [|r rs IH]; constructor; [apply within_serve|exact IH].
  - clear Hs. induction ps as [|m ps [IH|(i & c & ps2 & w2 & IH)]]; [by left| |].
    + destruct m as [a|c req k|obj owner force k|obj k]; [by left; constructor|right; exists 0..];
        eexists _, _, _; (eapply steps_step; [reflexivity|constructor|constructor]).
    + right. inversion IH as [|? ? ? m0 ? m1 ? ? ? ? Hi Hc Hrest]; subst. exists (S i), c.
      eexists _, _. eapply steps_step; [exact Hi|exact Hc|constructor].
Qed.
End claims.

(** ** Witnesses: the rename of the trace, received twice and served at once *)

Module Sample.
Import WebhookTrace.Sample.
#[local] Existing Instances ascii_tables literal_f64 plain_messages plain_event_messages json_yaml
  map_object map_unstructured sample_http sample_kube.

Definition twice : list request := [sample_request; sample_request].
Definition trees : list (prog gomap unit response) := map (serve_tree (W := unit) sample_handler) twice.

Lemma twice_run : ∃ log ps w, steps trees tt log ps w ∧
  map (λ ic, (ic.1, call_name ic.2)) log =
    [(0, "get"); (1, "get"); (1, "apply"); (0, "apply"); (0, "delete"); (1, "delete")].
Proof.
  assert (Hsched : summary call_name <$> schedule [0; 1; 1; 0; 0; 1] trees tt =
    Some (true, [(0, "get"); (1, "get"); (1, "apply"); (0, "apply"); (0, "delete"); (1, "delete")])) by by_vm.
  destruct (scheduled call_name _ _ _ _ _ Hsched) as (log & ps & w & Hs & Hlog & _).
  exists log, ps, w. split; [exact Hs|exact Hlog].
Qed.

Lemma concurrent_writes_are_authorized_witness :
  ∃ log ps w, steps trees tt log ps w ∧ length log = 6 ∧
    ∀ c, (1, c) ∈ log → ∃ past, push_authorized sample_handler sample_request past c.
Proof.
  pose proof map_unstructured_laws as laws. destruct twice_run as (log & ps & w & Hs & Hlog).
  exists log, ps, w. split; [exact Hs|]. split; [apply (f_equal length) in Hlog; by rewrite length_map in Hlog|].
  intros c Hin. destruct (concurrent_writes_are_authorized sample_handler twice tt log ps w Hs) as [_ Hall].
  destruct (Hall 1 sample_request eq_refl) as [Hcalls _].
  assert (Hc : c ∈ calls_of 1 log).
  { apply list_elem_of_fmap. exists (1, c). split; [reflexivity|]. by apply list_elem_of_filter. }
  apply list_elem_of_split in Hc as (pre & post & Heq). exists pre. by eapply Hcalls.
Defined.

Lemma serving_ends_witness :
  ∃ log ps w, steps trees tt log ps w ∧ length log = 6 ∧
    length log ≤ sum_list (map (max_calls sample_handler) twice).
Proof.
  pose proof map_unstructured_laws as laws. destruct twice_run as (log & ps & w & Hs & Hlog).
  exists log, ps, w. split; [exact Hs|]. split; [apply (f_equal length) in Hlog; by rewrite length_map in Hlog|].
  exact (proj1 (serving_ends sample_handler twice tt log ps w Hs)).
Defined.
End Sample.
