(* ===== verification/Rbac.v ===== *)
(** The permissions the binaries declare, the +kubebuilder:rbac markers of
    internal/sync/apply.go, internal/inventory/reconciler.go and
    internal/controller/mirrorupgraderequest_controller.go, and what the webhook
    handler can do on an API server that enforces them. controller-gen collects
    the markers into the one role of config/rbac/role.yaml. *)
From S2P Require Import Prelude GoStrings GoPath GoCrypto GoUtf8 GoMap GoJson GoJsonFacts ExportPath InventoryPath ConfigMapMaterial Normalize Reconciler Hmac GitHubPush Fetch Apply UnstructuredMap Webhook WebhookTrace.

(** ** The rules *)

(** One marker: groups=..,resources=..,verbs=..; none of them has a wildcard. *)
Record PolicyRule := Rule { rule_group : string; rule_resources : list string; rule_verbs : list string }.

Definition sync_rules : list PolicyRule :=
  [Rule "argoproj.io" ["applications"] ["get"; "create"; "patch"];
   Rule "argoproj.io" ["applicationsets"] ["get"; "create"; "patch"]].
Definition inventory_application_rules : list PolicyRule :=
  [Rule "argoproj.io" ["applications"] ["get"; "list"; "watch"]].
Definition inventory_applicationset_rules : list PolicyRule :=
  [Rule "argoproj.io" ["applicationsets"] ["get"; "list"; "watch"]].
Definition mirror_rules : list PolicyRule :=
  [Rule "ops.accord.io" ["mirrorupgraderequests"] ["get"; "list"; "watch"; "create"; "update"; "patch"; "delete"];
   Rule "ops.accord.io" ["mirrorupgraderequests/status"] ["get"; "update"; "patch"];
   Rule "ops.accord.io" ["mirrorupgraderequests/finalizers"] ["update"]].

(** The ClusterRole manager-role. *)
Definition manager_role : list PolicyRule :=
  sync_rules ++ inventory_application_rules ++ inventory_applicationset_rules ++ mirror_rules.

Definition rule_grants (verb group resource : string) (r : PolicyRule) : bool :=
  bool_decide (rule_group r = group) && bool_decide (resource ∈ rule_resources r) && bool_decide (verb ∈ rule_verbs r).
(** Access is additive: a request is allowed when some rule grants it. *)
Definition granted (rules : list PolicyRule) (verb group resource : string) : bool :=
  existsb (rule_grants verb group resource) rules.

Section server.
Context `{GoUnicode} `{Float64} `{JsonMessages} `{EventMessages} `{SigsYaml}.
Context {U C W : Type} `{!ClientObject U} `{!Unstructured U} `{!UnstructuredLaws}.
Context `{!KubeClient U W} `{!HttpClient C W}.
Implicit Types (h : WebhookHandler C) (p : string) (w : W) (obj : U).

(** The resource an Argo object is stored under. *)
Definition argo_resource (obj : U) : option string :=
  if decide (GetAPIVersion obj = "argoproj.io/v1alpha1") then Some (ArgoPluralKind (GetKind obj)) else None.

(** An API server that enforces the rules: it refuses an apply without [patch]
    and a delete without [delete], and changes nothing then. *)
Class EnforcesRules (rules : list PolicyRule) : Prop := {
  apply_forbidden obj owner force w resource :
    argo_resource obj = Some resource → granted rules "patch" "argoproj.io" resource = false →
    ∃ msg, k8s_Apply obj owner force w = (Failed (ErrAPI "Forbidden" msg), w);
  delete_forbidden obj w resource :
    argo_resource obj = Some resource → granted rules "delete" "argoproj.io" resource = false →
    ∃ msg, k8s_Delete obj w = (Failed (ErrAPI "Forbidden" msg), w)
}.

(** ** What the role lacks *)

Definition argo_plural (plural : string) : Prop := plural = "applications" ∨ plural = "applicationsets".

Lemma role_grants_reads_and_applies plural verb :
  argo_plural plural → verb ∈ ["get"; "list"; "watch"; "create"; "patch"] →
  granted manager_role verb "argoproj.io" plural = true.
Proof.
  intros Hplural Hverb. assert (Hall : forallb (λ v, granted manager_role v "argoproj.io" plural)
    ["get"; "list"; "watch"; "create"; "patch"] = true) by (destruct Hplural as [-> | ->]; reflexivity).
  rewrite forallb_forall in Hall. by apply Hall, list_elem_of_In.
Qed.

Lemma role_lacks_delete plural : argo_plural plural → granted manager_role "delete" "argoproj.io" plural = false.
Proof. by intros [-> | ->]. Qed.

Lemma identity_resource p parsed obj :
  ParseInventoryExportPath p = Some parsed → identity parsed obj →
  ∃ plural, argo_resource obj = Some plural ∧ argo_plural plural.
Proof.
  intros Hp [Hv Hk _ _]. exists (ArgoPluralKind (GetKind obj)). unfold argo_resource.
  rewrite decide_True by done. split; [done|]. revert Hk. unfold ArgoKindFromPlural.
  repeat case_decide; [intros <-%Ok_inj; by left|intros <-%Ok_inj; by right|done].
Qed.

(** What is reported of a removed path that cannot be deleted. *)
Definition deletion_refused p (res : webhookResult) : Prop :=
  Path res = p ∧ Status res = match ParseInventoryExportPath p with Some _ => "error" | None => "ignored" end.

Lemma sync_removed_forbidden `{!EnforcesRules manager_role} p w :
  (sync_removed p w).2 = w ∧ deletion_refused p (sync_removed p w).1.
Proof.
  unfold sync_removed, deletion_refused. destruct (ParseInventoryExportPath p) as [parsed|] eqn:Hp; [|done].
  destruct (parsed_kind p parsed Hp) as [k Hk]. rewrite Hk.
  destruct (identity_resource p parsed _ Hp (deletion_target_identity k parsed Hk)) as (plural & Hres & Hplural).
  by destruct (delete_forbidden _ w plural Hres (role_lacks_delete plural Hplural)) as [msg ->].
Qed.

Lemma range_removed_forbidden `{!EnforcesRules manager_role} paths : ∀ results w,
  ∃ rs, range_paths sync_removed paths results w = (results ++ rs, w) ∧ Forall2 deletion_refused paths rs.
Proof.
  induction paths as [|p paths IH]; intros results w; cbn [range_paths].
  - exists []. by rewrite app_nil_r.
  - destruct (sync_removed_forbidden p w) as [Hw Hres]. destruct (sync_removed p w) as [res w']. cbn [fst snd] in *.
    subst w'. destruct (IH (results ++ [res]) w) as (rs & Hrun & Hrs). exists (res :: rs).
    rewrite Hrun, <- app_assoc. split; [done|by constructor].
Qed.

(** C18: on a cluster that enforces the role generated from the markers, a
    deletion in Git never reaches the cluster: the role grants the reads and the
    applies of both Argo kinds but no delete, so every removed inventory path is
    answered with an error, and serving a push ends in the state its applies
    left. *)
Theorem git_deletions_are_forbidden `{!EnforcesRules manager_role} h r pu w :
  authentic h r pu →
  ∃ applied refused, range_paths (sync_added h (fullName pu) (headSHA pu)) (addedModified pu) [] w = applied ∧
    ServeHTTP h r w = (Response_ 200 "application/json" (encode_response (applied.1 ++ refused)), applied.2) ∧
    Forall2 deletion_refused (removed pu) refused.
Proof.
  intros Ha. rewrite (serve_authentic _ _ _ _ Ha). unfold sync_push.
  destruct (range_paths (sync_added _ _ _) _ [] w) as [rs w1].
  destruct (range_removed_forbidden (removed pu) rs w1) as (refused & Hrun & Hrs).
  exists (rs, w1), refused. by rewrite Hrun.
Qed.
End server.

(** ** Witness: an API server that looks every request up in the role *)

Module Sample.
Import WebhookTrace.Sample.
#[local] Existing Instances ascii_tables literal_f64 plain_messages plain_event_messages json_yaml
  map_object map_unstructured sample_http.

Definition forbidden (verb : string) : error := ErrAPI "Forbidden" ("cannot " +:+ verb +:+ " resource").
(** The state counts the requests that were let through. *)
Definition guard (rules : list PolicyRule) (verb : string) (obj : gomap) (w : nat) : result unit * nat :=
  match argo_resource obj with
  | Some resource => if granted rules verb "argoproj.io" resource then (Ok tt, S w) else (Failed (forbidden verb), w)
  | None => (Failed (forbidden verb), w)
  end.
Definition role_kube (rules : list PolicyRule) : KubeClient gomap nat := {|
  k8s_Apply obj _ _ w := guard rules "patch" obj w;
  k8s_Delete obj w := guard rules "delete" obj w
|}.
Definition counting_http : HttpClient unit nat := {|
  http_NewRequest _ := None;
  http_DefaultClient := tt;
  http_Do _ _ w := (Ok (Response 200 (Body manifest None false)), w)
|}.
#[local] Existing Instances role_kube counting_http.

Lemma role_kube_enforces rules : EnforcesRules (KubeClient0 := role_kube rules) rules.
Proof.
  split.
  - intros obj owner force w resource Hres Hno. eexists. cbn [k8s_Apply role_kube]. unfold guard.
    rewrite Hres, Hno. reflexivity.
  - intros obj w resource Hres Hno. eexists. cbn [k8s_Delete role_kube]. unfold guard.
    rewrite Hres, Hno. reflexivity.
Qed.

(** The push of a rename: its apply is let through, its delete is not. *)
Lemma git_deletions_are_forbidden_witness :
  ∃ results, ServeHTTP (KubeClient0 := role_kube manager_role) sample_handler sample_request 0 =
      (Response_ 200 "application/json" (encode_response results), 1) ∧
    map Status results = ["applied"; "error"].
Proof.
  pose proof map_unstructured_laws as laws. pose proof (role_kube_enforces manager_role) as server.
  destruct (git_deletions_are_forbidden (KubeClient0 := role_kube manager_role) sample_handler sample_request
    rename_push 0 sample_authentic) as (applied & refused & Happ & Hserve & Hrefused).
  assert (Hfirst : applied = ([WebhookResult "inventory/applications/a/x.yaml" "applied" ""], 1))
    by (rewrite <- Happ; by_vm).
  rewrite Hfirst in Hserve. exists (applied.1 ++ refused). rewrite Hfirst. split; [exact Hserve|].
  inversion Hrefused as [|p res ? ? [_ Hstatus] Hnil]; subst. inversion Hnil; subst. cbn [fst map app].
  rewrite Hstatus. by_vm.
Defined.
End Sample.
