(* ===== verification/LoopBreak.v ===== *)
(** The two operators together: an object the sync-operator applies from Git is
    not exported again by the inventory-controller. *)
From S2P Require Import Prelude GoStrings GoPath GoCrypto GoUtf8 GoMap GoJson GoJsonFacts Config ExportPath InventoryPath ConfigMapMaterial Normalize HashCache GitBatch BatchWorker Reconciler Apply UnstructuredMap.

(** ** Objects and the JSON maps they hold *)

Section laws.
Context `{Float64} `{JsonMessages} {U : Type} `{!RuntimeObject U} `{!ClientObject U} `{!Unstructured U}.
Abbreviation gomap := (list (string * json f64)).

(** Marshalling the object gives the text of this map. *)
Definition reads (obj : U) (m : gomap) : Prop :=
  ∃ s, json_Marshal_object obj = Ok s ∧ unmarshal_map s = Ok (Some m).

(** What apimachinery documents of an unstructured object as a JSON map: parsing
    keeps the map and refuses no object with a kind, the identity is read from its
    fields, the annotations are those under metadata when they are all
    strings, and [SetAnnotations] writes them there. *)
Class UnstructuredContent : Prop := {
  unmarshal_reads j obj : UnmarshalJSON j = Ok obj → ∃ m, unmarshal_map j = Ok (Some m) ∧ reads obj m;
  unmarshal_accepts j m : unmarshal_map j = Ok (Some m) → str_at ["kind"] m ≠ "" → is_ok (UnmarshalJSON j) = true;
  reads_version obj m : reads obj m → GetAPIVersion obj = str_at ["apiVersion"] m;
  reads_kind obj m : reads obj m → GetKind obj = str_at ["kind"] m;
  reads_namespace obj m : reads obj m → GetNamespace obj = str_at ["metadata"; "namespace"] m;
  reads_name obj m : reads obj m → GetName obj = str_at ["metadata"; "name"] m;
  reads_annotations obj m l : reads obj m →
    path_get ["metadata"; "annotations"] (JObj m) = Some (JObj (string_json l)) → GetAnnotations obj = Some l;
  reads_no_annotations obj m : reads obj m →
    path_get ["metadata"; "annotations"] (JObj m) = None → GetAnnotations obj = None;
  reads_set_annotations obj m meta l : reads obj m → amap_get "metadata" m = Some (JObj meta) →
    ascending l = true → Forall (λ kv, utf8_valid kv.1 = true ∧ utf8_valid kv.2 = true) l →
    reads (SetAnnotations l obj) (set_metadata "annotations" (JObj (string_json l)) m)
}.
End laws.

(** The annotations of a manifest are strings, or absent. *)
Definition plain_annotations `{Float64} (m : list (string * json f64)) : Prop :=
  path_get ["metadata"; "annotations"] (JObj m) = None ∨
  ∃ l, path_get ["metadata"; "annotations"] (JObj m) = Some (JObj (string_json l)).

(** ** Validity of what is written *)

Lemma ascii_utf8 s : str_forallb is_ascii_byte s = true → utf8_valid s = true.
Proof.
  induction s as [|c s IH]; [done|]. cbn [str_forallb]. intros [Hc Hs]%andb_true_iff.
  change (String c s) with (String c "" +:+ s). rewrite utf8_valid_rune; [by apply IH|].
  unfold is_rune. unfold is_ascii_byte in Hc. unfold utf8_1, in_range.
  pose proof (byte_val_bound c). lia.
Qed.

Lemma lower_hex_utf8 s : str_forallb lower_hex s = true → utf8_valid s = true.
Proof.
  intros Hs. apply ascii_utf8. induction s as [|c s IH]; [done|]. cbn [str_forallb] in *.
  apply andb_true_iff in Hs as [Hc Hs]. rewrite IH by done. rewrite andb_true_r.
  revert c Hc. assert (Hall : ∀ c, implb (lower_hex c) (is_ascii_byte c) = true) by by_bytes.
  intros c Hc. specialize (Hall c). by rewrite Hc in Hall.
Qed.

Section loop.
Context `{GoUnicode} `{TextTemplate} `{Float64Laws} `{JsonMessages} `{!SigsYaml}.
Context {U : Type} `{!RuntimeObject U} `{!ClientObject U} `{!Unstructured U}.
Context `{!UnstructuredLaws} `{!UnstructuredContent}.
Abbreviation gomap := (list (string * json f64)).
Implicit Types (obj : U) (m meta : gomap).

Lemma reads_decoded obj m : reads obj m → go_map 0 m.
Proof. intros (s & _ & Hs). by apply unmarshal_map_decoded in Hs. Qed.

Lemma named_metadata m : str_at ["metadata"; "name"] m ≠ "" → ∃ meta, amap_get "metadata" m = Some (JObj meta).
Proof.
  unfold str_at. rewrite path_get_cons. destruct (amap_get "metadata" m) as [[| | | | |meta]|]; try done.
  by exists meta.
Qed.

Lemma go_map_strings d l :
  go_map d (string_json l) →
  ascending l = true ∧ Forall (λ kv, utf8_valid kv.1 = true ∧ utf8_valid kv.2 = true) l.
Proof.
  intros (_ & Hasc & Hall). rewrite string_json_ascending in Hasc. split; [done|].
  clear Hasc. induction l as [|[k v] l IH]; [constructor|].
  change (string_json ((k, v) :: l)) with ((k, @JStr f64 v) :: string_json l) in Hall.
  apply Forall_cons in Hall as [[Hk Hv] Hall]. constructor; [|by apply IH]. by split.
Qed.

(** Annotating writes the hash among the annotations, and nothing else. *)
Lemma annotate_reads h obj m :
  reads obj m → GetName obj ≠ "" → plain_annotations m → utf8_valid h = true →
  ∃ m', reads (annotate h obj) m' ∧ touch m m'.
Proof.
  intros Hr Hname Hann Hh. rewrite (reads_name _ _ Hr) in Hname.
  destruct (named_metadata m Hname) as [meta Hmeta]. rewrite annotate_eq. unfold annotations_with.
  pose proof (reads_decoded _ _ Hr) as Hm. pose proof (go_map_get _ _ _ _ Hm Hmeta) as Hgm.
  assert (Hset : ∀ l, amap_get "annotations" meta = Some (JObj (string_json l)) ∨
                      amap_get "annotations" meta = None ∧ l = [] →
    default [] (GetAnnotations obj) = l → ascending l = true →
    Forall (λ kv, utf8_valid kv.1 = true ∧ utf8_valid kv.2 = true) l →
    ∃ m', reads (SetAnnotations (amap_set SyncContentHashAnnotationKey h
      (amap_of_list (default [] (GetAnnotations obj)))) obj) m' ∧ touch m m').
  { intros l Hl -> Hasc Hutf. rewrite amap_of_ascending by done.
    eexists. split.
    - apply (reads_set_annotations obj m meta); [done..|by apply ascending_set|by apply Forall_set].
    - unfold set_metadata. rewrite Hmeta, <- string_json_set.
      apply touch_annotate; [by right|done|]. destruct Hl as [Hl|[Hl ->]]; [by left|by right]. }
  destruct Hann as [Hnone|[l Hl]].
  - pose proof (reads_no_annotations _ _ Hr Hnone) as Hget.
    apply (Hset []); [|by rewrite Hget|done|done].
    right. rewrite path_get_cons, Hmeta in Hnone. cbn [path_of] in Hnone. rewrite path_get_cons in Hnone.
    by destruct (amap_get "annotations" meta).
  - pose proof (reads_annotations _ _ _ Hr Hl) as Hget.
    rewrite path_get_cons, Hmeta in Hl. cbn [path_of] in Hl. rewrite path_get_cons in Hl.
    destruct (amap_get "annotations" meta) as [ann|] eqn:Ha; [|done]. cbn [path_of path_get] in Hl.
    injection Hl as ->. pose proof (go_map_get _ _ _ _ Hgm Ha) as [Hasc Hutf]%go_map_strings.
    apply (Hset l); [by left|by rewrite Hget|done|done].
Qed.

(** What the API server may do to an applied object without changing its material. *)
Definition server_update : gomap → gomap → Prop := rtc (λ m m', touch m m' ∧ go_map 0 m').

Lemma server_update_normalized m m' : go_map 0 m → server_update m m' → normalized m = normalized m'.
Proof.
  intros Hm Hu. induction Hu as [|m1 m2 m3 [Ht Hd] Hu IH]; [done|].
  rewrite (touch_normalized m1 m2) by done. by apply IH.
Qed.

Lemma plural_segment kind ns name :
  kind = "Application" ∨ kind = "ApplicationSet" → plain_elem ns = true → segment_name name →
  strings_HasSuffix name ".yml" = false →
  ParseInventoryExportPath (export_path (ArgoPluralKind kind) ns name) =
  Some (Parsed (ArgoPluralKind kind) ns name).
Proof. intros Hk Hns Hname Hs. apply parse_export; [by apply ArgoPluralKind_export|done..|by constructor]. Qed.

Lemma str_at_normalized k p m :
  stripped (k :: p) = false → str_at (k :: p) (normalized m) = str_at (k :: p) m.
Proof.
  intros Hs. pose proof (λ s, normalized_leaves (k :: p) m (JStr s) eq_refl) as Hl. unfold str_at.
  destruct (path_get (k :: p) (JObj (normalized m))) as [[]|] eqn:Hn;
    try (rewrite (proj1 (proj1 (Hl _) eq_refl)); done);
    destruct (path_get (k :: p) (JObj m)) as [[]|] eqn:Hm; try done;
    match goal with |- _ = ?s => pose proof (proj2 (Hl s) (conj eq_refl Hs)) as Hx end; congruence.
Qed.
End loop.

Section claims.
Context `{GoUnicode} `{TextTemplate} `{Float64Laws} `{JsonMessages} `{!SigsYaml}.
Context {U W : Type} `{!RuntimeObject U} `{!ClientObject U} `{!Unstructured U} `{!KubeClient U W}.
Context `{!UnstructuredLaws} `{!UnstructuredContent}.
Implicit Types (obj : U) (w : W).

Lemma apply_ok parsed yaml w w' :
  ApplyInventoryYAML parsed yaml w = (Ok tt, w') →
  ∃ h j obj, MaterialHashFromNormalizedYAML yaml = Ok h ∧ YAMLToJSON (FirstYAMLDocument yaml) = Ok j ∧
    UnmarshalJSON j = Ok obj ∧ identity parsed obj ∧
    k8s_Apply (annotate h obj) "accord-sync-operator" true w = (Ok tt, w').
Proof.
  intros Hrun. pose proof (apply_cases parsed yaml w) as Hc. rewrite Hrun in Hc. cbn [fst snd] in Hc.
  inversion Hc as [|h j obj Hh Hj Ho Hid Hres Hw]; subst. exists h, j, obj.
  split; [done|]. split; [done|]. split; [done|]. split; [done|]. change fieldOwner with "accord-sync-operator" in *.
  destruct (k8s_Apply _ _ _ w) as [[[]|e] w1]; [done|done].
Qed.

(** A reconcile that finds an object as it was sent, up to what the server keeps
    and the two annotations, does nothing. *)
Definition settled (sent : U) : Prop :=
  ∀ live sent_map live_map kind get tmpl s ns name,
    reads sent sent_map → server_update sent_map live_map → reads live live_map →
    (a ← GetAnnotations live; amap_get SyncContentHashAnnotationKey a) =
      (a ← GetAnnotations sent; amap_get SyncContentHashAnnotationKey a) →
    argo_kind kind → get (kind_gvk kind) ns name = Ok live →
    (Reconcile kind get tmpl s ns name).2 = s.

Lemma annotated_is_settled h obj m :
  reads obj m → GetName obj ≠ "" → plain_annotations m →
  h = hex_EncodeToString (sha256_Sum256 (marshal_map (Some (normalized m)))) → settled (annotate h obj).
Proof.
  intros Hr Hname Hplain Hhash. pose proof (reads_decoded _ _ Hr) as Hgm.
  destruct (annotate_reads h obj m Hr Hname Hplain) as (m' & Hr' & Ht).
  { subst h. apply lower_hex_utf8, hex_encode_lower. }
  intros live sent_map live_map kind get tmpl s ns name Hsent Hup Hlive Hann Hkind Hget.
  assert (Heq : sent_map = m').
  { destruct Hsent as (t & Ht1 & Hs1), Hr' as (t' & Ht2 & Hs2). rewrite Ht1 in Ht2. apply Ok_inj in Ht2 as <-.
    rewrite Hs1 in Hs2. by apply Ok_inj in Hs2 as [= ->]. }
  subst sent_map. pose proof (server_update_normalized _ _ (reads_decoded _ _ Hr') Hup) as Hn.
  rewrite <- (touch_normalized m m') in Hn by done.
  rewrite (reconcile_found _ _ _ _ _ _ live) by done. unfold handle.
  destruct Hlive as (t & Hmar & Hun). rewrite (hash_of_object live t _ Hmar Hun), normalize_Some, <- Hn.
  destruct (JSONToYAML _) as [y|e]; cbn [wrap_err mbind result_bind]; [|done].
  rewrite <- Hhash. rewrite (annotate_get h obj Hname) in Hann. cbn [mbind option_bind] in Hann.
  unfold annotations_with in Hann. rewrite get_set, decide_True in Hann by done.
  assert (Hmatch : annotation_matches live h = true); [|by rewrite Hmatch].
  unfold annotation_matches. destruct (GetAnnotations live) as [a|]; [|done]. cbn in Hann.
  by apply bool_decide_eq_true.
Qed.


(** C6: no loop: once the sync-operator has applied a manifest of an inventory
    path - one whose annotations, if it has any, are strings - the object it sent
    carries the hash its own material has, so that a reconcile that finds the
    object as it was sent, up to what the API server keeps in status, bookkeeping
    metadata and the two annotations, neither queues an export nor touches the
    cache, for as long as the annotation is left in place. *)
Theorem applied_object_is_not_exported gitPath parsed yaml w w' :
  ParseInventoryExportPath gitPath = Some parsed →
  ApplyInventoryYAML parsed yaml w = (Ok tt, w') →
  (∀ j m, YAMLToJSON (FirstYAMLDocument yaml) = Ok j → unmarshal_map j = Ok (Some m) → plain_annotations m) →
  ∃ sent, k8s_Apply sent "accord-sync-operator" true w = (Ok tt, w') ∧
    ∀ live sent_map live_map kind get tmpl s ns name,
      reads sent sent_map → server_update sent_map live_map → reads live live_map →
      (a ← GetAnnotations live; amap_get SyncContentHashAnnotationKey a) =
        (a ← GetAnnotations sent; amap_get SyncContentHashAnnotationKey a) →
      argo_kind kind → get (kind_gvk kind) ns name = Ok live →
      (Reconcile kind get tmpl s ns name).2 = s.
Proof.
  destruct parsed as [plural pns pname]. intros Hp (h & j & obj & Hh & Hj & Ho & Hid & Hk)%apply_ok Hplain.
  apply parse_spec in Hp as (_ & _ & (Hpname & _) & _).
  assert (Hname : GetName obj ≠ "") by by rewrite (id_name _ _ Hid).
  destruct (unmarshal_reads _ _ Ho) as (m & Hm & Hr). exists (annotate h obj). split; [done|].
  apply (annotated_is_settled h obj m Hr Hname (Hplain _ _ Hj Hm)).
  rewrite (hash_of_yaml yaml j (Some m) Hj Hm), normalize_Some in Hh. by apply Ok_inj in Hh.
Qed.

(** The export of an object, as the sync-operator takes it. *)
Lemma exported_accepted `{!SigsYamlLaws} kind obj m y h w :
  argo_kind kind → reads obj m →
  GetAPIVersion obj = "argoproj.io/v1alpha1" → GetKind obj = kind →
  plain_elem (GetNamespace obj) = true → segment_name (GetName obj) →
  strings_HasSuffix (GetName obj) ".yml" = false →
  NormalizedYAMLAndMaterialHash obj = Ok (y, h) →
  YAMLToJSON (firstYAMLDocument y) = YAMLToJSON y →
  ∃ p parsed obj', RenderExportPath defaultExportPathTemplate kind (GetNamespace obj) (GetName obj) = Ok p ∧
    ParseInventoryExportPath p = Some parsed ∧ reads obj' (normalized m) ∧ GetName obj' ≠ "" ∧
    h = hex_EncodeToString (sha256_Sum256 (marshal_map (Some (normalized m)))) ∧
    let sent := annotate h obj' in
    ApplyInventoryYAML parsed y w = (let '(r, w') := k8s_Apply sent "accord-sync-operator" true w in
                                      (wrap_err "server-side apply" r, w')) ∧
    GetKind sent = kind ∧ GetNamespace sent = GetNamespace obj ∧ GetName sent = GetName obj ∧
    (a ← GetAnnotations sent; amap_get SyncContentHashAnnotationKey a) = Some h.
Proof.
  intros Hkind Hr Hv Hk Hns Hname Hyml Hh Hdoc.
  set (parsed := Parsed (ArgoPluralKind kind) (GetNamespace obj) (GetName obj)).
  apply hash_inv in Hh as (s & o & Hs & Ho & Hy & Hhash). destruct Hr as (s' & Hs' & Hm).
  rewrite Hs in Hs'. apply Ok_inj in Hs' as <-. rewrite Ho in Hm. apply Ok_inj in Hm as ->.
  assert (Hr : reads obj m) by by exists s.
  pose proof (reads_decoded _ _ Hr) as Hgm. pose proof (go_map_normalized _ _ Hgm) as Hgn.
  rewrite normalize_Some in Hy, Hhash. apply yaml_reads_back in Hy as (j & Hj & Hread).
  rewrite unmarshal_marshal_map in Hread by done. rewrite <- Hdoc in Hj.
  assert (Hkn : str_at ["kind"] (normalized m) = kind)
    by (rewrite str_at_normalized by done; by rewrite <- (reads_kind _ _ Hr)).
  destruct (UnmarshalJSON j) as [obj'|e] eqn:Hobj'.
  2:{ pose proof (unmarshal_accepts (U := U) j _ Hread) as Hacc. rewrite Hobj' in Hacc.
      rewrite Hkn in Hacc. by destruct Hkind as [-> | ->]; discriminate Hacc. }
  destruct (unmarshal_reads _ _ Hobj') as (m' & Hm' & Hr').
  rewrite Hread in Hm'. apply Ok_inj in Hm' as [= <-].
  assert (Hid : identity parsed obj').
  { split; cbn [InventoryPath.PluralKind InventoryPath.Namespace InventoryPath.Name parsed].
    - by rewrite (reads_version _ _ Hr'), str_at_normalized, <- (reads_version _ _ Hr).
    - rewrite (reads_kind _ _ Hr'), Hkn. by destruct Hkind as [-> | ->].
    - by rewrite (reads_namespace _ _ Hr'), str_at_normalized, <- (reads_namespace _ _ Hr).
    - by rewrite (reads_name _ _ Hr'), str_at_normalized, <- (reads_name _ _ Hr). }
  assert (Hhy : MaterialHashFromNormalizedYAML y = Ok h).
  { rewrite (hash_of_yaml y j _ Hj Hread), Hhash. by rewrite <- normalize_Some, normalize_idem, normalize_Some. }
  exists (export_path (ArgoPluralKind kind) (GetNamespace obj) (GetName obj)), parsed, obj'.
  split; [apply render_default|]. split; [by apply plural_segment|]. split; [exact Hr'|].
  split; [rewrite (id_name _ _ Hid); apply Hname|]. split; [exact Hhash|]. split.
  { unfold ApplyInventoryYAML. rewrite Hhy. unfold FirstYAMLDocument. rewrite Hj, Hobj'.
    by rewrite (proj2 (validate_None parsed obj') Hid). }
  destruct (annotate_identity parsed h obj' Hid) as [_ Hk' Hns' Hn'].
  split; [rewrite annotate_eq, set_annotations_kind, (reads_kind _ _ Hr'); exact Hkn|].
  split; [exact Hns'|]. split; [exact Hn'|].
  rewrite annotate_get by (rewrite (id_name _ _ Hid); apply Hname). cbn [mbind option_bind].
  unfold annotations_with. by rewrite get_set, decide_True.
Qed.

(** C7: what one operator writes the other accepts: the document the
    inventory-controller exports for an Argo object, at the path it renders by
    default, is applied by the sync-operator as the same kind, namespace and
    name, with the hash the inventory-controller computed for it. Excepted are
    names that end in .yml, and documents that trimming alters. *)
Theorem exported_document_is_applied `{!SigsYamlLaws} kind obj m y h w :
  argo_kind kind → reads obj m →
  GetAPIVersion obj = "argoproj.io/v1alpha1" → GetKind obj = kind →
  plain_elem (GetNamespace obj) = true → segment_name (GetName obj) →
  strings_HasSuffix (GetName obj) ".yml" = false →
  NormalizedYAMLAndMaterialHash obj = Ok (y, h) →
  YAMLToJSON (firstYAMLDocument y) = YAMLToJSON y →
  ∃ p parsed sent, RenderExportPath defaultExportPathTemplate kind (GetNamespace obj) (GetName obj) = Ok p ∧
    ParseInventoryExportPath p = Some parsed ∧
    ApplyInventoryYAML parsed y w = (let '(r, w') := k8s_Apply sent "accord-sync-operator" true w in
                                      (wrap_err "server-side apply" r, w')) ∧
    GetKind sent = kind ∧ GetNamespace sent = GetNamespace obj ∧ GetName sent = GetName obj ∧
    (a ← GetAnnotations sent; amap_get SyncContentHashAnnotationKey a) = Some h.
Proof.
  intros. destruct (exported_accepted kind obj m y h w) as (p & parsed & obj' & Hp & Hparse & _ & _ & _ & Hrest);
    try done. by exists p, parsed, (annotate h obj').
Qed.

(** Normalizing keeps annotations strings. *)
Lemma string_json_delete {F} k l : amap_delete k (string_json (F := F) l) = string_json (amap_delete k l).
Proof.
  induction l as [|[k' v] l IH]; [done|]. cbn [string_json map fst snd amap_delete]. fold (string_json (F := F) l).
  rewrite IH. by case_decide.
Qed.

Lemma plain_normalized m : plain_annotations m → plain_annotations (normalized m).
Proof.
  unfold plain_annotations. rewrite !path_get_cons, get_normalized, decide_False, decide_True by done.
  destruct (amap_get "metadata" m) as [[| | | | |meta]|]; cbn [metadata_value path_of];
    intros Hm; try by left.
  rewrite path_get_cons in Hm.
  assert (Hn : path_of ["annotations"] (normalized_sub (normalizeMetadata meta)) =
               amap_get "annotations" (normalizeMetadata meta)).
  { destruct (normalizeMetadata meta) as [|kv l]; [done|]. cbn [normalized_sub path_of]. rewrite path_get_cons.
    by destruct (amap_get "annotations" (kv :: l)). }
  rewrite Hn, get_normalizeMetadata, decide_True by done.
  destruct (amap_get "annotations" meta) as [ann|]; [|by left]. cbn [path_of path_get] in Hm.
  destruct Hm as [Hm|[l [= ->]]]; [done|]. cbn [annotations_value]. unfold strip_annotations.
  rewrite !string_json_delete. destruct (string_json _) as [|kv l'] eqn:Hl; [by left|right].
  eexists. cbn [normalized_sub]. by rewrite <- Hl.
Qed.
End claims.

(** ** Witnesses *)

Section map_content.
Context `{Float64Laws} `{JsonMessages}.
#[local] Existing Instances map_object map_runtime map_unstructured.
Abbreviation gomap := (list (string * json f64)).

Lemma map_reads (obj m : gomap) : reads obj m → m = obj ∧ go_map 0 obj.
Proof.
  intros (s & Hs & Hm). unfold json_Marshal_object, map_runtime in Hs.
  destruct (decodable (JObj obj)) eqn:Hd; [|done]. apply Ok_inj in Hs as <-.
  unfold decodable in Hd. rewrite go_value_obj in Hd.
  rewrite unmarshal_marshal_map in Hm by done. by apply Ok_inj in Hm as [= <-].
Qed.

Lemma reads_map (m : gomap) : go_map 0 m → reads m m.
Proof.
  intros Hm. exists (marshal_map (Some m)). split; [|by apply unmarshal_marshal_map].
  unfold json_Marshal_object, map_runtime, decodable. by rewrite (proj2 (go_value_obj 0 m) Hm).
Qed.

Lemma string_json_go_map d l :
  (d < maxNestingDepth)%Z → ascending l = true →
  Forall (λ kv, utf8_valid kv.1 = true ∧ utf8_valid kv.2 = true) l → go_map d (string_json l).
Proof.
  intros Hd Hasc Hall. split; [done|]. rewrite string_json_ascending. split; [done|].
  clear Hasc. induction Hall as [|[k v] l [Hk Hv] Hall IH]; [constructor|]. constructor; [|done]. by split.
Qed.

Lemma map_content : UnstructuredContent (U := gomap).
Proof.
  split.
  - intros j obj Ho. unfold UnmarshalJSON, map_unstructured in Ho.
    destruct (unmarshal_map j) as [[m|]|] eqn:Hj; try done. apply Ok_inj in Ho as <-.
    exists m. split; [done|]. apply reads_map. by apply unmarshal_map_decoded in Hj.
  - intros j m Hj _. unfold UnmarshalJSON, map_unstructured. by rewrite Hj.
  - by intros obj m [-> _]%map_reads.
  - by intros obj m [-> _]%map_reads.
  - by intros obj m [-> _]%map_reads.
  - by intros obj m [-> _]%map_reads.
  - intros obj m l [-> _]%map_reads Hl. unfold GetAnnotations, map_object. rewrite Hl. apply string_map_json.
  - intros obj m [-> _]%map_reads Hl. unfold GetAnnotations, map_object. by rewrite Hl.
  - intros obj m meta l [-> Hgm]%map_reads Hmeta Hasc Hutf. apply reads_map.
    unfold set_metadata. rewrite Hmeta. pose proof (go_map_get _ _ _ _ Hgm Hmeta) as Hg.
    pose proof Hgm as (Hd & Ha & Hall). split; [done|]. split; [auto with accord|].
    apply Forall_set; [|done]. split; [done|]. cbn [snd]. apply go_value_obj.
    destruct Hg as (Hd1 & Ha1 & Hall1). split; [done|]. split; [auto with accord|].
    apply Forall_set; [|done]. split; [done|]. cbn [snd]. apply go_value_obj.
    by apply string_json_go_map.
Qed.
End map_content.

Module Sample.
#[local] Existing Instances ascii_tables fragment_engine literal_f64 plain_messages json_yaml
  map_object map_runtime map_unstructured.
Abbreviation gomap := (list (string * json f64)).

Definition accepting_kube : KubeClient gomap unit := {|
  k8s_Apply _ _ _ w := (Ok tt, w);
  k8s_Delete _ w := (Ok tt, w)
|}.
#[local] Existing Instance accepting_kube.

Definition manifest : string := quoted
  "{'apiVersion':'argoproj.io/v1alpha1','kind':'Application','metadata':{'name':'x','namespace':'a'}}".
Definition manifest_map : gomap := match unmarshal_map manifest with Ok (Some m) => m | _ => [] end.
Lemma manifest_decoded : unmarshal_map manifest = Ok (Some manifest_map).
Proof. by_vm. Qed.
Lemma manifest_reads : reads manifest_map manifest_map.
Proof. apply reads_map. exact (unmarshal_map_decoded _ _ manifest_decoded). Qed.
Lemma manifest_plain : plain_annotations manifest_map.
Proof. left. by_vm. Qed.
Lemma manifest_document : YAMLToJSON (FirstYAMLDocument manifest) = Ok manifest.
Proof. by_vm. Qed.
Lemma manifest_version : GetAPIVersion manifest_map = "argoproj.io/v1alpha1".
Proof. by_vm. Qed.
Lemma manifest_kind : GetKind manifest_map = "Application".
Proof. by_vm. Qed.
Lemma manifest_namespace : GetNamespace manifest_map = "a".
Proof. by_vm. Qed.
Lemma manifest_name : GetName manifest_map = "x".
Proof. by_vm. Qed.
Lemma manifest_applied : ApplyInventoryYAML (Parsed "applications" "a" "x") manifest tt = (Ok tt, tt).
Proof. by_vm. Qed.

(** The object as it is sent, found unchanged by the reconcile. *)
Lemma applied_object_is_not_exported_witness :
  ∃ sent : gomap, k8s_Apply sent "accord-sync-operator" true tt = (Ok tt, tt) ∧
    ∀ sent_map s, reads sent sent_map →
      (Reconcile "Application" (λ _ _ _, Ok sent) defaultExportPathTemplate s "a" "x").2 = s.
Proof.
  pose proof map_unstructured_laws as laws. pose proof map_content as content.
  destruct (applied_object_is_not_exported "inventory/applications/a/x.yaml" (Parsed "applications" "a" "x")
    manifest tt tt ltac:(by_vm) manifest_applied) as (sent & Hsent & Hloop).
  { intros j m Hj Hm. rewrite manifest_document in Hj. apply Ok_inj in Hj as <-.
    rewrite manifest_decoded in Hm. apply Ok_inj in Hm as [= <-]. exact manifest_plain. }
  exists sent. split; [exact Hsent|]. intros sent_map s Hr.
  apply (Hloop sent sent_map sent_map); [exact Hr|apply rtc_refl|exact Hr|reflexivity|by left|reflexivity].
Defined.

Lemma exported_document_is_applied_witness :
  ∃ y h sent, NormalizedYAMLAndMaterialHash manifest_map = Ok (y, h) ∧
    ApplyInventoryYAML (Parsed "applications" "a" "x") y tt =
      (let '(r, w') := k8s_Apply sent "accord-sync-operator" true tt in (wrap_err "server-side apply" r, w')) ∧
    GetName sent = "x".
Proof.
  pose proof map_unstructured_laws as laws. pose proof map_content as content.
  pose proof json_yaml_laws as yaml_laws.
  assert (Hh : NormalizedYAMLAndMaterialHash manifest_map =
    Ok (manifest, hex_EncodeToString (sha256_Sum256 manifest))) by by_vm.
  assert (Hns : plain_elem (GetNamespace manifest_map) = true) by (rewrite manifest_namespace; reflexivity).
  assert (Hname : segment_name (GetName manifest_map)).
  { rewrite manifest_name. split; [discriminate|]. split; [discriminate|reflexivity]. }
  assert (Hyml : strings_HasSuffix (GetName manifest_map) ".yml" = false) by (rewrite manifest_name; reflexivity).
  assert (Hdoc : YAMLToJSON (firstYAMLDocument manifest) = YAMLToJSON manifest) by by_vm.
  pose proof (exported_document_is_applied "Application" manifest_map manifest_map manifest _ tt
    (or_introl eq_refl) manifest_reads manifest_version manifest_kind Hns Hname Hyml Hh Hdoc) as Happlied.
  destruct Happlied as (p & parsed & sent & Hp & Hparse & Happ & _ & _ & Hsent & _).
  exists manifest, (hex_EncodeToString (sha256_Sum256 manifest)), sent. split; [exact Hh|].
  assert (Heq : parsed = Parsed "applications" "a" "x").
  { rewrite render_default in Hp. apply Ok_inj in Hp as <-.
    assert (Hx : ParseInventoryExportPath (export_path (ArgoPluralKind "Application")
      (GetNamespace manifest_map) (GetName manifest_map)) = Some (Parsed "applications" "a" "x"))
      by (rewrite manifest_namespace, manifest_name; by_vm).
    rewrite Hx in Hparse. by injection Hparse as <-. }
  subst parsed. split; [exact Happ|]. rewrite Hsent. exact manifest_name.
Defined.
End Sample.
