(* ===== verification/FeedbackLoop.v ===== *)
(** One turn of the loop between the operators: an object is exported, the push
    that publishes it is served, and the reconcile of what was applied does
    nothing. *)
From S2P Require Import Prelude GoStrings GoPath GoCrypto GoUtf8 GoMap GoJson GoJsonFacts Config ExportPath InventoryPath ConfigMapMaterial Normalize HashCache GitBatch BatchWorker Reconciler Hmac GitHubPush Fetch Apply UnstructuredMap Webhook LoopBreak.

Section turn.
Context `{GoUnicode} `{TextTemplate} `{Float64Laws} `{JsonMessages} `{EventMessages} `{!SigsYaml} `{!SigsYamlLaws}.
Context {U C W : Type} `{!RuntimeObject U} `{!ClientObject U} `{!Unstructured U} `{!KubeClient U W} `{!HttpClient C W}.
Context `{!UnstructuredLaws} `{!UnstructuredContent}.
Implicit Types (obj : U) (w : W) (h : WebhookHandler C).

(** A push of one path. *)
Lemma serve_one h r pu p w :
  authentic h r pu → addedModified pu = [p] → removed pu = [] →
  ServeHTTP h r w =
  (let '(res, w') := sync_added h (fullName pu) (headSHA pu) p w in
   (Response_ 200 "application/json" (encode_response [res]), w')).
Proof.
  intros Ha Hadd Hrem. rewrite (serve_authentic _ _ _ _ Ha). unfold sync_push. rewrite Hadd, Hrem.
  cbn [range_paths app]. by destruct (sync_added _ _ _ _ w).
Qed.

(** C8: the loop between the operators ends after one turn. A reconcile of an
    Argo object that is new to the cache and does not carry its own hash queues
    its document for its path; when a signed push says that the path was added or
    modified and GitHub returns that document, the handler applies one object, of
    the same kind, namespace and name and with the hash of the document as its
    annotation, and answers 200 with the path applied; and a reconcile of that
    object - as it was sent, or with what the API server adds in status,
    bookkeeping metadata and the two annotations - queues nothing and leaves the
    cache alone, in every cluster that watches it. Excepted are names that end in
    .yml, annotations that are not strings, and documents that trimming alters. *)
Theorem feedback_loop_ends kind obj m y digest get s h r pu w w1 :
  argo_kind kind → reads obj m → plain_annotations m →
  GetAPIVersion obj = "argoproj.io/v1alpha1" → GetKind obj = kind →
  plain_elem (GetNamespace obj) = true → segment_name (GetName obj) →
  strings_HasSuffix (GetName obj) ".yml" = false →
  NormalizedYAMLAndMaterialHash obj = Ok (y, digest) → YAMLToJSON (firstYAMLDocument y) = YAMLToJSON y →
  get (kind_gvk kind) (GetNamespace obj) (GetName obj) = Ok obj → annotation_matches obj digest = false →
  Get (Cache s) (ExportObjectCacheKey kind (GetNamespace obj) (GetName obj)) ≠ Some digest →
  let p := default_path kind (GetNamespace obj) (GetName obj) in
  authentic h r pu → addedModified pu = [p] → removed pu = [] →
  FetchGitHubRawFile (Some (default http_DefaultClient (HTTPClient h))) (GitHubToken h)
    (fullName pu) (headSHA pu) p w = (Ok y, w1) →
  GitQueue (Reconcile kind get defaultExportPathTemplate s (GetNamespace obj) (GetName obj)).2 !! p =
    Some (Pending opWrite y) ∧
  ∃ sent, GetKind sent = kind ∧ GetNamespace sent = GetNamespace obj ∧ GetName sent = GetName obj ∧
    (a ← GetAnnotations sent; amap_get SyncContentHashAnnotationKey a) = Some digest ∧
    (∀ w2, k8s_Apply sent "accord-sync-operator" true w1 = (Ok tt, w2) →
       ServeHTTP h r w =
       (Response_ 200 "application/json" (encode_response [WebhookResult p "applied" ""]), w2)) ∧
    settled sent.
Proof.
  intros Hkind Hr Hplain Hv Hk Hns Hname Hyml Hh Hdoc Hget Hann Hcache p Hauth Hadd Hrem Hfetch.
  destruct (exported_accepted kind obj m y digest w1 Hkind Hr Hv Hk Hns Hname Hyml Hh Hdoc)
    as (p' & parsed & obj' & Hp & Hparse & Hr' & Hne & Hdigest & Happ & Hsk & Hsns & Hsn & Hsa).
  assert (Hpp : p' = p) by (rewrite render_default in Hp; by apply Ok_inj in Hp). subst p'.
  split.
  - rewrite (reconcile_found _ _ _ _ _ _ obj) by done. unfold handle. rewrite Hh, Hann.
    case_bool_decide as Hc; [done|]. rewrite render_default. cbn. apply lookup_insert_eq.
  - exists (annotate digest obj'). do 4 (split; [done|]). split.
    + intros w2 Happly. rewrite (serve_one h r pu p w Hauth Hadd Hrem). unfold sync_added.
      rewrite Hparse, Hfetch, Happ, Happly. done.
    + apply (annotated_is_settled digest obj' (normalized m)); [done|done|by apply plain_normalized|].
      rewrite Hdigest. do 4 f_equal. symmetry. apply (normalized_idem 0). by eapply reads_decoded.
Qed.
End turn.

(** ** Witness *)

Module Sample.
Import LoopBreak.Sample.
#[local] Existing Instances ascii_tables fragment_engine literal_f64 plain_messages plain_event_messages json_yaml
  map_object map_runtime map_unstructured accepting_kube.

(** GitHub has the exported document. *)
Definition manifest_http : HttpClient unit unit := {|
  http_NewRequest _ := None;
  http_DefaultClient := tt;
  http_Do _ _ w := (Ok (Response 200 (Body manifest None false)), w)
|}.
#[local] Existing Instance manifest_http.

Definition a_path : string := "inventory/applications/a/x.yaml".
Definition add_payload : string := print_json (payload_json
  (Payload "o/r" (Some "c0ffee") "c0ffee" [([a_path], [], [])] [])).
Definition add_push : push := Push "o/r" "c0ffee" [a_path] [].
Definition a_handler : WebhookHandler unit := Handler_ None "" "secret".
Definition a_request : request :=
  HttpRequest "POST" {[ SignatureHeader := [sign "secret" add_payload] ]} (Body add_payload None false).

Lemma add_authentic : authentic a_handler a_request add_push.
Proof.
  split; [done|]. exists add_payload. split; [by_vm|]. split; [|by_vm].
  apply verify_spec. split; [done|]. eexists. split; [reflexivity|]. apply hex_decode_encode.
Qed.

Definition digest : string := hex_EncodeToString (sha256_Sum256 manifest).
Lemma manifest_digest : NormalizedYAMLAndMaterialHash manifest_map = Ok (manifest, digest).
Proof. by_vm. Qed.
Lemma manifest_unannotated : annotation_matches manifest_map digest = false.
Proof. by_vm. Qed.
Lemma manifest_plain_yaml : YAMLToJSON (firstYAMLDocument manifest) = YAMLToJSON manifest.
Proof. by_vm. Qed.
Lemma manifest_path : default_path "Application" (GetNamespace manifest_map) (GetName manifest_map) = a_path.
Proof. rewrite manifest_namespace, manifest_name. by_vm. Qed.
Lemma manifest_fetched :
  FetchGitHubRawFile (Some (default http_DefaultClient (HTTPClient a_handler))) (GitHubToken a_handler)
    (fullName add_push) (headSHA add_push) a_path tt = (Ok manifest, tt).
Proof. by_vm. Qed.

Lemma feedback_loop_ends_witness :
  ∃ sent, ServeHTTP a_handler a_request tt =
      (Response_ 200 "application/json" (encode_response [WebhookResult a_path "applied" ""]), tt) ∧
    GetName sent = "x" ∧ settled sent.
Proof.
  pose proof map_unstructured_laws as laws. pose proof map_content as content. pose proof json_yaml_laws as yaml_laws.
  assert (Hns : plain_elem (GetNamespace manifest_map) = true) by (rewrite manifest_namespace; reflexivity).
  assert (Hname : segment_name (GetName manifest_map)).
  { rewrite manifest_name. split; [discriminate|]. split; [discriminate|reflexivity]. }
  assert (Hyml : strings_HasSuffix (GetName manifest_map) ".yml" = false) by (rewrite manifest_name; reflexivity).
  pose proof (feedback_loop_ends "Application" manifest_map manifest_map manifest digest (λ _ _ _, Ok manifest_map)
    (RState ∅ ∅) a_handler a_request add_push tt tt (or_introl eq_refl) manifest_reads manifest_plain manifest_version
    manifest_kind Hns Hname Hyml manifest_digest manifest_plain_yaml eq_refl manifest_unannotated) as Hturn.
  cbv zeta in Hturn. rewrite manifest_path in Hturn.
  destruct (Hturn ltac:(discriminate) add_authentic eq_refl eq_refl manifest_fetched)
    as (_ & sent & _ & _ & Hn & _ & Hserve & Hsettled).
  exists sent. split; [exact (Hserve tt eq_refl)|]. split; [|exact Hsettled]. rewrite Hn. exact manifest_name.
Defined.

(** ** The exception of null annotations

    normalize.go leaves [annotations: null] in the material, and setting the hash
    annotation replaces the null: the object that is applied has another hash
    than the manifest it came from, and its reconcile exports it once more. *)
Definition recording_kube : KubeClient (list (string * json f64)) (list (list (string * json f64))) := {|
  k8s_Apply obj _ _ w := (Ok tt, w ++ [obj]);
  k8s_Delete _ w := (Ok tt, w)
|}.
Definition null_manifest : string := quoted
  "{'apiVersion':'argoproj.io/v1alpha1','kind':'Application','metadata':{'annotations':null,'name':'x','namespace':'a'}}".
Definition applied_objects : list (list (string * json f64)) :=
  (ApplyInventoryYAML (KubeClient0 := recording_kube) (Parsed "applications" "a" "x") null_manifest []).2.
Definition requeued (obj : list (string * json f64)) : option pendingExport :=
  GitQueue (Reconcile "Application" (λ _ _ _, Ok obj) defaultExportPathTemplate (RState ∅ ∅) "a" "x").2 !! a_path.

Lemma null_annotations_are_exported_again :
  map requeued applied_objects = [Some (Pending opWrite manifest)].
Proof. by_vm. Qed.
End Sample.
