(* ===== verification/SyncConvergence.v ===== *)
(** The sync side as a whole: pushes are served in the order of the branch, and
    the cluster follows the inventory files of its head. *)
From S2P Require Import Prelude GoStrings GoPath GoCrypto GoUtf8 GoMap GoJson GoJsonFacts Config ExportPath InventoryPath ConfigMapMaterial Normalize Reconciler Hmac GitHubPush Fetch Apply UnstructuredMap Webhook WebhookTrace LoopBreak FeedbackLoop.

(** ** The cluster, as far as the sync-operator looks after it *)

(** A tree of the branch, path to content. *)
Abbreviation tree := (gmap string string).

(** Objects are named as their paths name them. [live w id] is [None] when the
    object does not exist in the world [w], and otherwise its hash annotation. *)
Class Cluster (W : Type) := { live : W → ParsedInventoryPath → option (option string) }.

(** The worlds agree, but for the object [id], which is [v]. *)
Definition changed `{Cluster W} (w w' : W) (id : ParsedInventoryPath) (v : option (option string)) : Prop :=
  ∀ id', live w' id' = if decide (id' = id) then v else live w id'.
Definition unchanged `{Cluster W} (w w' : W) : Prop := ∀ id, live w' id = live w id.

Section sync.
Context `{GoUnicode} `{Float64} `{JsonMessages} `{EventMessages} `{SigsYaml}.
Context {U C W : Type} `{!ClientObject U} `{!Unstructured U} `{!UnstructuredLaws}.
Context `{!KubeClient U W} `{!HttpClient C W} `{!Cluster W}.
Implicit Types (h : WebhookHandler C) (p : string) (w : W) (obj : U) (id : ParsedInventoryPath) (t : tree).

Definition annotated_hash (obj : U) : option string :=
  a ← GetAnnotations obj; amap_get SyncContentHashAnnotationKey a.

(** An API server that lets the sync-operator do its work: a forced server-side
    apply succeeds and leaves the fields it was sent, among them the hash; a
    delete succeeds or finds nothing, and the object is gone (no finalizer holds
    it); neither touches another object, and fetching a file touches none. *)
Class ClusterUp : Prop := {
  apply_live obj id w : identity id obj → ∃ w',
    k8s_Apply obj "accord-sync-operator" true w = (Ok tt, w') ∧ changed w w' id (Some (annotated_hash obj));
  delete_live obj id w : identity id obj → ∃ res w',
    k8s_Delete obj w = (res, w') ∧ (res = Ok tt ∨ ∃ e, res = Failed e ∧ IsNotFound e = true) ∧ changed w w' id None;
  fetch_live (c : C) req w : unchanged w (http_Do c req w).2
}.

(** GitHub has the tree at the head of a push: every fetch of a file of it is
    answered with the file, which is at most 8 MiB long. *)
Definition serves h pu t : Prop := ∀ p c w, t !! p = Some c →
  http_NewRequest (C := C) (W := W) (raw_url (fullName pu) (headSHA pu) p) = None ∧
  fetched (http_Do (default http_DefaultClient (HTTPClient h)) (fetch_request h pu p) w).1 c.

(** ** What a push has to say about the trees before and after it *)

(** It lists every path that changed: what is there afterwards as added or
    modified, what is gone as removed. *)
Record reports (pu : push) t t' : Prop := {
  reports_added p : p ∈ addedModified pu → is_Some (t' !! p);
  reports_removed p : p ∈ removed pu → is_Some (t !! p) ∧ t' !! p = None;
  reports_changed p : t !! p ≠ t' !! p → p ∈ addedModified pu ∨ p ∈ removed pu
}.

(** No two paths of the trees name one object, as x.yaml and x.yml do. *)
Definition unambiguous t t' : Prop := ∀ p q id,
  is_Some (t !! p) ∨ is_Some (t' !! p) → is_Some (t !! q) ∨ is_Some (t' !! q) →
  ParseInventoryExportPath p = Some id → ParseInventoryExportPath q = Some id → p = q.

(** Its inventory files are manifests of the objects their paths name. *)
Definition manifests pu t : Prop := ∀ p c id,
  p ∈ addedModified pu → t !! p = Some c → ParseInventoryExportPath p = Some id → acceptable (U := U) id c.

(** ** Specification: the cluster shows the tree *)

Definition file_hash (c : string) : option string :=
  match MaterialHashFromNormalizedYAML c with Ok hash => Some hash | Failed _ => None end.

Record in_sync (w : W) t : Prop := {
  sync_file p c id : t !! p = Some c → ParseInventoryExportPath p = Some id → live w id = Some (file_hash c);
  sync_gone id : (∀ p, ParseInventoryExportPath p = Some id → t !! p = None) → live w id = None
}.

(** ** One path *)

Lemma parsed_name p id : ParseInventoryExportPath p = Some id → InventoryPath.Name id ≠ "".
Proof. intros Hp. destruct id. by apply parse_spec in Hp as (_ & _ & (? & _) & _). Qed.

Lemma annotated_hash_set hash obj : GetName obj ≠ "" → annotated_hash (annotate hash obj) = Some hash.
Proof.
  intros Hn. unfold annotated_hash. rewrite annotate_get by done. cbn. unfold annotations_with.
  by rewrite get_set, decide_True.
Qed.

Context `{!ClusterUp}.

Lemma fetch_unchanged client token n s p w : unchanged w (FetchGitHubRawFile (C := C) client token n s p w).2.
Proof.
  unfold FetchGitHubRawFile. destruct (http_NewRequest _); [done|].
  pose proof (fetch_live (default http_DefaultClient client) (raw_request token (raw_url n s p)) w) as Hw.
  destruct (http_Do _ _ w) as [[resp|e] w1]; [|exact Hw].
  destruct (read_limited _ _); [|exact Hw]. by destruct (negb _).
Qed.

Lemma fetch_served h pu t p c w :
  serves h pu t → t !! p = Some c →
  (FetchGitHubRawFile (Some (default http_DefaultClient (HTTPClient h))) (GitHubToken h)
     (fullName pu) (headSHA pu) p w).1 = Ok c.
Proof.
  intros Hs Hc. destruct (Hs p c w Hc) as (Hnew & b & Hdo & Hb). unfold FetchGitHubRawFile. rewrite Hnew.
  cbn [default]. fold (fetch_request h pu p). destruct (http_Do _ _ w) as [resp w1]. cbn [fst] in Hdo. subst resp.
  cbn [RespBody StatusCode]. change max_raw_file with (8 * 1024 * 1024)%Z. by rewrite Hb.
Qed.

Lemma apply_changed id c w :
  InventoryPath.Name id ≠ "" → acceptable (U := U) id c →
  (ApplyInventoryYAML id c w).1 = Ok tt ∧ changed w (ApplyInventoryYAML id c w).2 id (Some (file_hash c)).
Proof.
  intros Hname (hash & j & obj & Hh & Hj & Ho & Hid). unfold ApplyInventoryYAML, file_hash. rewrite Hh, Hj, Ho.
  rewrite (proj2 (validate_None id obj) Hid).
  destruct (apply_live (annotate hash obj) id w (annotate_identity id hash obj Hid)) as (w' & Happ & Hw').
  change fieldOwner with "accord-sync-operator". rewrite Happ. split; [done|].
  rewrite annotated_hash_set in Hw'; [done|]. by rewrite (id_name _ _ Hid).
Qed.

Lemma sync_added_ignored h n s p w : ParseInventoryExportPath p = None → (sync_added h n s p w).2 = w.
Proof. intros Hp. unfold sync_added. by rewrite Hp. Qed.

Lemma sync_added_applies h pu t p c id w :
  serves h pu t → t !! p = Some c → ParseInventoryExportPath p = Some id → acceptable (U := U) id c →
  changed w (sync_added h (fullName pu) (headSHA pu) p w).2 id (Some (file_hash c)).
Proof.
  intros Hs Hc Hp Hacc. unfold sync_added. rewrite Hp.
  pose proof (fetch_served h pu t p c w Hs Hc) as Hf. pose proof (fetch_unchanged
    (Some (default http_DefaultClient (HTTPClient h))) (GitHubToken h) (fullName pu) (headSHA pu) p w) as Hu.
  destruct (FetchGitHubRawFile _ _ _ _ p w) as [raw w1]. cbn [fst snd] in *. subst raw.
  destruct (apply_changed id c w1 (parsed_name p id Hp) Hacc) as [Hres Hch].
  destruct (ApplyInventoryYAML id c w1) as [res w2]. cbn [fst snd] in *. subst res.
  intros id'. rewrite Hch. case_decide; [done|]. apply Hu.
Qed.

Lemma sync_removed_ignored p w : ParseInventoryExportPath p = None → (sync_removed p w).2 = w.
Proof. intros Hp. unfold sync_removed. by rewrite Hp. Qed.

Lemma sync_removed_deletes p id w :
  ParseInventoryExportPath p = Some id → changed w (sync_removed p w).2 id None.
Proof.
  intros Hp. unfold sync_removed. rewrite Hp. destruct (parsed_kind p id Hp) as [k Hk]. rewrite Hk.
  destruct (delete_live _ id w (deletion_target_identity k id Hk)) as (res & w' & -> & Hres & Hw').
  destruct Hres as [->|(e & -> & He)]; [done|]. by rewrite He.
Qed.

(** ** The paths of a push *)

(** After a range over paths, an object named by one of them is as the last such
    path left it, and every other object as it was. *)
Lemma range_live (step : string → W → webhookResult * W) (left : string → option (option string) → Prop) :
  (∀ p w, ParseInventoryExportPath p = None → (step p w).2 = w) →
  ∀ paths, (∀ p w id, p ∈ paths → ParseInventoryExportPath p = Some id →
              ∃ v, left p v ∧ changed w (step p w).2 id v) →
  ∀ results w id,
    (∃ p, p ∈ paths ∧ ParseInventoryExportPath p = Some id ∧ left p (live (range_paths step paths results w).2 id)) ∨
    ((∀ p, p ∈ paths → ParseInventoryExportPath p ≠ Some id) ∧
     live (range_paths step paths results w).2 id = live w id).
Proof.
  intros Hnone paths. induction paths as [|p paths IH]; intros Hstep results w id; cbn [range_paths].
  { right. split; [by intros ? ?%elem_of_nil|done]. }
  pose proof (Hnone p w) as Hp0. pose proof (λ id, Hstep p w id ltac:(by left)) as Hp1.
  destruct (step p w) as [res w1]. cbn [snd] in Hp0, Hp1.
  destruct (IH (λ q w id Hq, Hstep q w id ltac:(by right)) (results ++ [res]) w1 id)
    as [(q & Hq & Hparse & Hleft)|[Hothers Hlive]].
  { left. exists q. split; [by right|done]. }
  rewrite Hlive. destruct (ParseInventoryExportPath p) as [idp|] eqn:Hp.
  2: { right. rewrite Hp0 by done. split; [|done]. intros q [->|Hq]%elem_of_cons; [congruence|by apply Hothers]. }
  destruct (Hp1 idp eq_refl) as (v & Hv & Hch). specialize (Hch id). case_decide as Hid.
  - left. exists p. split; [by left|]. split; [by rewrite Hp, Hid|]. by rewrite Hch.
  - right. split; [|done]. intros q [->|Hq]%elem_of_cons; [congruence|by apply Hothers].
Qed.

Lemma added_live h pu t ps w id :
  serves h pu t → manifests pu t → (∀ p, p ∈ ps → p ∈ addedModified pu ∧ is_Some (t !! p)) →
  let w' := (range_paths (sync_added h (fullName pu) (headSHA pu)) ps [] w).2 in
  (∃ p c, p ∈ ps ∧ ParseInventoryExportPath p = Some id ∧ t !! p = Some c ∧ live w' id = Some (file_hash c)) ∨
  ((∀ p, p ∈ ps → ParseInventoryExportPath p ≠ Some id) ∧ live w' id = live w id).
Proof.
  intros Hs Hm Hps w'.
  assert (Hstep : ∀ p w id, p ∈ ps → ParseInventoryExportPath p = Some id →
    ∃ v, (∃ c, t !! p = Some c ∧ v = Some (file_hash c)) ∧ changed w (sync_added h (fullName pu) (headSHA pu) p w).2 id v).
  { intros p w0 id0 Hp Hparse. destruct (Hps p Hp) as [Hadd [c Hc]]. exists (Some (file_hash c)).
    split; [by exists c|]. eapply sync_added_applies; [done|done|done|]. by eapply Hm. }
  destruct (range_live _ _ (sync_added_ignored h _ _) ps Hstep [] w id)
    as [(p & Hp & Hparse & c & Hc & Hlive)|Hno]; [left; by exists p, c|by right].
Qed.

Lemma removed_live ps results w id :
  let w' := (range_paths sync_removed ps results w).2 in
  (∃ p, p ∈ ps ∧ ParseInventoryExportPath p = Some id ∧ live w' id = None) ∨
  ((∀ p, p ∈ ps → ParseInventoryExportPath p ≠ Some id) ∧ live w' id = live w id).
Proof.
  intros w'. apply (range_live sync_removed (λ _ v, v = None) sync_removed_ignored).
  intros p w0 id0 _ Hp. exists None. split; [done|]. by apply sync_removed_deletes.
Qed.

Lemma added_not_removed h r pu p : authentic h r pu → p ∈ addedModified pu → p ∉ removed pu.
Proof.
  intros (_ & body & _ & _ & Hparse). unfold ParseGitHubPushPaths in Hparse.
  destruct (unmarshal_event body) as [ev|]; [|done]. apply push_paths_ok in Hparse as (_ & _ & _ & _ & _ & -> & ->).
  rewrite !sort_Strings_perm, !elem_of_elements. by intros Hin [_ ?]%elem_of_difference.
Qed.

Lemma push_in_sync h r pu t t' w :
  authentic h r pu → reports pu t t' → unambiguous t t' → manifests pu t' → serves h pu t' →
  in_sync w t → in_sync (ServeHTTP h r w).2 t'.
Proof.
  intros Ha [Radd Rrem Rchg] Hu Hm Hs [Hfile Hgone]. rewrite (serve_authentic _ _ _ _ Ha). cbn [snd]. unfold sync_push.
  pose proof (λ id, added_live h pu t' (addedModified pu) w id Hs Hm (λ p Hp, conj Hp (Radd p Hp))) as Hadd.
  destruct (range_paths (sync_added _ _ _) _ [] w) as [rs w1]. cbn [snd] in Hadd.
  pose proof (removed_live (removed pu) rs w1) as Hrem. split.
  - intros p c id Hc Hp. destruct (Hrem id) as [(q & Hq & Hparse & _)|[_ ->]].
    { destruct (Rrem q Hq) as [Hqt Hqt']. assert (q = p) as -> by (eapply (Hu q p id); eauto). congruence. }
    destruct (Hadd id) as [(q & c' & Hq & Hparse & Hc' & ->)|[Hno ->]].
    { assert (q = p) as -> by (eapply (Hu q p id); eauto). congruence. }
    apply (Hfile p); [|done]. destruct (decide (t !! p = t' !! p)) as [->|Hne]; [done|].
    destruct (Rchg p Hne) as [Hin|Hin]; [by destruct (Hno p Hin)|]. destruct (Rrem p Hin). congruence.
  - intros id Hid. destruct (Hrem id) as [(q & _ & _ & ->)|[Hno ->]]; [done|].
    destruct (Hadd id) as [(q & c & _ & Hparse & Hc & _)|[Hno' ->]].
    { rewrite (Hid q Hparse) in Hc. done. }
    apply Hgone. intros p Hp. destruct (t !! p) as [c|] eqn:Hc; [|done]. exfalso.
    destruct (Rchg p) as [Hin|Hin]; [rewrite Hc, (Hid p Hp); done|by eapply Hno'|by eapply Hno].
Qed.

(** ** A history of pushes *)

(** The branch goes from [t] to [t'] by the pushes of these requests. *)
Inductive pushes h : tree → list request → tree → Prop :=
| pushes_nil t : pushes h t [] t
| pushes_cons t t1 t' r rs pu :
    authentic h r pu → reports pu t t1 → unambiguous t t1 → manifests pu t1 → serves h pu t1 →
    pushes h t1 rs t' → pushes h t (r :: rs) t'.

Definition serve_all h (rs : list request) (w : W) : W := foldl (λ w r, (ServeHTTP h r w).2) w rs.

Lemma history_in_sync h t rs t' w : pushes h t rs t' → in_sync w t → in_sync (serve_all h rs w) t'.
Proof.
  intros Hp. revert w. induction Hp as [t|t t1 t' r rs pu Ha Hr Hu Hm Hs _ IH]; intros w Hw; [done|].
  cbn [serve_all foldl]. apply IH. by eapply push_in_sync.
Qed.

(** C11: the cluster follows Git. From a cluster that shows a tree - every
    inventory file of it is an object with the hash of the file, and no other
    Argo object exists - serving the signed pushes of the branch one after the
    other leaves a cluster that shows the tree at its head, however many pushes
    there are and whatever each adds, changes and removes: as long as each push
    lists the paths it changed, its inventory files are manifests of their
    objects, no two files name one object, GitHub has the files and the API
    server does what it is asked. *)
Theorem cluster_follows_git h t rs t' w :
  pushes h t rs t' → in_sync w t → in_sync (serve_all h rs w) t'.
Proof. apply history_in_sync. Qed.

(** The handler does not look at the order of pushes, nor whether it has served one
    before: serving the push of an old commit again, in whatever state the cluster
    is, puts the manifests of that commit back. *)
Theorem replayed_push_reverts h r pu t p c id w :
  authentic h r pu → serves h pu t → manifests pu t → (∀ q, q ∈ addedModified pu → is_Some (t !! q)) →
  p ∈ addedModified pu → t !! p = Some c → ParseInventoryExportPath p = Some id →
  (∀ q, q ∈ addedModified pu ++ removed pu → ParseInventoryExportPath q = Some id → q = p) →
  live (ServeHTTP h r w).2 id = Some (file_hash c).
Proof.
  intros Ha Hs Hm Hdom Hin Hc Hp Honly. pose proof (added_not_removed h r pu p Ha Hin) as Hnot.
  rewrite (serve_authentic _ _ _ _ Ha). cbn [snd]. unfold sync_push.
  pose proof (added_live h pu t (addedModified pu) w id Hs Hm (λ q Hq, conj Hq (Hdom q Hq))) as Hadd. cbv zeta in Hadd.
  destruct (range_paths (sync_added _ _ _) _ [] w) as [rs w1]. cbn [snd] in Hadd.
  destruct (removed_live (removed pu) rs w1 id) as [(q & Hq & Hqid & _)|[_ ->]].
  { destruct Hnot. by rewrite <- (Honly q ltac:(by apply elem_of_app; right) Hqid). }
  destruct Hadd as [(q & c' & Hq & Hqid & Hc' & ->)|[Hno _]]; [|by destruct (Hno p)].
  rewrite (Honly q ltac:(by apply elem_of_app; left) Hqid) in Hc'. congruence.
Qed.

(** ** Files changed and removed in one push *)

(** The paths there are after a commit, and after those of a push: GitHub lists them
    from the oldest on, each with what it changes. *)
Definition commit_paths (s : gset string) (c : commit) : gset string :=
  (s ∪ list_to_set (elements (Added c) ++ elements (Modified c))) ∖ list_to_set (elements (Removed c)).
Definition push_tree_paths (s : gset string) (cs : list commit) : gset string := foldl commit_paths s cs.

(** A path that a commit removes and no later one adds is not there in the end. *)
Lemma removed_for_good s pre c post p :
  p ∈ elements (Removed c) → (∀ c', c' ∈ post → p ∉ elements (Added c') ++ elements (Modified c')) →
  p ∉ push_tree_paths s (pre ++ c :: post).
Proof.
  intros Hrem Hpost. unfold push_tree_paths. rewrite foldl_app. cbn [foldl].
  assert (Hc : p ∉ commit_paths (foldl commit_paths s pre) c) by (unfold commit_paths; set_solver).
  revert Hc Hpost. generalize (commit_paths (foldl commit_paths s pre) c) as s1.
  induction post as [|c' post IH]; intros s1 Hs1 Hpost; [done|]. cbn [foldl]. apply IH.
  - pose proof (Hpost c' ltac:(by left)). unfold commit_paths. set_solver.
  - intros c1 Hc1. apply Hpost. by right.
Qed.

(** GitHub answers for a path that the tree at the head of a push does not have. *)
Definition misses pu t : Prop := ∀ p c req w, t !! p = None → URL req = raw_url (fullName pu) (headSHA pu) p →
  ∃ b, (http_Do (C := C) (W := W) c req w).1 = Ok (Response 404 b).

Lemma fetch_missing h pu t p w :
  misses pu t → t !! p = None →
  is_ok (FetchGitHubRawFile (Some (default http_DefaultClient (HTTPClient h))) (GitHubToken h)
    (fullName pu) (headSHA pu) p w).1 = false.
Proof.
  intros H404 Hp. unfold FetchGitHubRawFile. destruct (http_NewRequest _); [done|].
  destruct (H404 p (default http_DefaultClient (Some (default http_DefaultClient (HTTPClient h))))
    (raw_request (GitHubToken h) (raw_url (fullName pu) (headSHA pu) p)) w Hp eq_refl) as [b Hb].
  destruct (http_Do _ _ w) as [resp w1]. cbn [fst] in Hb. subst resp. cbn [RespBody StatusCode].
  by destruct (read_limited _ b).
Qed.

Lemma apply_other id id' c w : id' ≠ id → live (ApplyInventoryYAML id c w).2 id' = live w id'.
Proof.
  intros Hne. destruct (apply_cases id c w) as [e _|hash j obj _ _ _ Hid]; [done|].
  destruct (apply_live (annotate hash obj) id w (annotate_identity id hash obj Hid)) as (w' & Happ & Hw').
  change fieldOwner with "accord-sync-operator". rewrite Happ. cbn [snd]. by rewrite Hw', decide_False.
Qed.

Lemma sync_added_other h n s q id w :
  ParseInventoryExportPath q ≠ Some id ∨
    is_ok (FetchGitHubRawFile (Some (default http_DefaultClient (HTTPClient h))) (GitHubToken h) n s q w).1 = false →
  live (sync_added h n s q w).2 id = live w id.
Proof.
  intros Hq. unfold sync_added. destruct (ParseInventoryExportPath q) as [idq|]; [|done].
  pose proof (fetch_unchanged (Some (default http_DefaultClient (HTTPClient h))) (GitHubToken h) n s q w id) as Hu.
  destruct (FetchGitHubRawFile _ _ _ _ q w) as [[raw|e] w1]; cbn [fst snd is_ok] in *; [|exact Hu].
  destruct Hq as [Hq|]; [|done]. rewrite <- Hu. clear Hu.
  rewrite <- (apply_other idq id raw w1) by congruence. by destruct (ApplyInventoryYAML idq raw w1) as [[|] ?].
Qed.

Lemma range_other (step : string → W → webhookResult * W) id paths :
  (∀ q w, q ∈ paths → live (step q w).2 id = live w id) →
  ∀ results w, live (range_paths step paths results w).2 id = live w id.
Proof.
  induction paths as [|q paths IH]; intros Hstep results w; [done|]. cbn [range_paths].
  pose proof (Hstep q w ltac:(by left)) as Hq. destruct (step q w) as [res w1]. cbn [snd] in Hq.
  rewrite IH; [done|]. intros q' w' Hin. apply Hstep. by right.
Qed.

(** An object that only an added path names, one that is not at the head. *)
Lemma unfetched_unchanged h r pu t p id w :
  authentic h r pu → p ∈ addedModified pu → misses pu t → t !! p = None →
  (∀ q, q ∈ addedModified pu ++ removed pu → ParseInventoryExportPath q = Some id → q = p) →
  live (ServeHTTP h r w).2 id = live w id.
Proof.
  intros Ha Hin H404 Hp Honly. pose proof (added_not_removed h r pu p Ha Hin) as Hnot.
  rewrite (serve_authentic _ _ _ _ Ha). cbn [snd]. unfold sync_push.
  pose proof (range_other (sync_added h (fullName pu) (headSHA pu)) id (addedModified pu)) as Hfirst.
  specialize (Hfirst ltac:(intros q w0 Hq; apply sync_added_other; destruct (decide (ParseInventoryExportPath q = Some id)) as [Hqid|];
    [rewrite (Honly q ltac:(by apply elem_of_app; left) Hqid); right; by eapply fetch_missing|by left]) [] w).
  destruct (range_paths (sync_added _ _ _) _ [] w) as [rs w1]. cbn [snd] in Hfirst.
  rewrite (range_other sync_removed id (removed pu)); [done|]. intros q w0 Hq.
  destruct (ParseInventoryExportPath q) as [idq|] eqn:Hqid; [|by rewrite sync_removed_ignored].
  rewrite (sync_removed_deletes q idq w0 Hqid). case_decide as Heq; [|done]. subst idq.
  destruct Hnot. by rewrite <- (Honly q ltac:(by apply elem_of_app; right) Hqid).
Qed.

End sync.

(** ** Witnesses: a file added, removed again, and changed and removed at once *)

Module Sample.
Import LoopBreak.Sample FeedbackLoop.Sample.
#[local] Existing Instances ascii_tables literal_f64 plain_messages plain_event_messages json_yaml
  map_object map_unstructured.
Abbreviation gomap := (list (string * json f64)).

(** A cluster that keeps the hash annotation of every object. *)
Abbreviation world := (ParsedInventoryPath → option (option string)).
Definition obj_id (m : gomap) : ParsedInventoryPath :=
  Parsed (ArgoPluralKind (GetKind m)) (GetNamespace m) (GetName m).
Definition put (id : ParsedInventoryPath) (v : option (option string)) (w : world) : world :=
  λ id', if decide (id' = id) then v else w id'.
Definition cluster_kube : KubeClient gomap world := {|
  k8s_Apply m _ _ w := (Ok tt, put (obj_id m) (Some (annotated_hash m)) w);
  k8s_Delete m w := (Ok tt, put (obj_id m) None w)
|}.
Definition cluster_live : Cluster world := {| live w := w |}.
(** GitHub has the manifest at one commit, and nothing else. *)
Definition one_file : HttpClient unit world := {|
  http_NewRequest _ := None;
  http_DefaultClient := tt;
  http_Do _ req w :=
    (Ok (if decide (URL req = raw_url "o/r" "c0ffee" a_path) then Response 200 (Body manifest None false)
         else Response 404 (Body "404: Not Found" None false)), w)
|}.
#[local] Existing Instances cluster_kube cluster_live one_file.

Lemma identity_obj_id id (m : gomap) : identity id m → obj_id m = id.
Proof.
  intros [_ Hk Hns Hn]. destruct id as [plural ns name]. unfold obj_id. cbn in *. subst. f_equal.
  revert Hk. unfold ArgoKindFromPlural. repeat case_decide; [by intros <-%Ok_inj|by intros <-%Ok_inj|done].
Qed.

Lemma cluster_up : ClusterUp (U := gomap) (C := unit) (W := world).
Proof.
  split; [| |done].
  - intros m id w Hid. eexists. split; [reflexivity|]. by rewrite (identity_obj_id id m Hid).
  - intros m id w Hid. eexists _, _. split; [reflexivity|]. split; [by left|]. by rewrite (identity_obj_id id m Hid).
Qed.

Definition a_tree : gmap string string := {[a_path := manifest]}.
Lemma a_tree_Some p c : a_tree !! p = Some c → p = a_path ∧ c = manifest.
Proof. unfold a_tree. by intros [-> ->]%lookup_singleton_Some. Qed.
Definition a_name : ParsedInventoryPath := Parsed "applications" "a" "x".
Lemma a_path_name : ParseInventoryExportPath a_path = Some a_name.
Proof. by_vm. Qed.
Definition nothing : world := λ _, None.

Definition signed (payload : string) : request :=
  HttpRequest "POST" {[ SignatureHeader := [sign "secret" payload] ]} (Body payload None false).
Definition remove_payload : string := print_json (payload_json
  (Payload "o/r" (Some "d00d") "d00d" [([], [], [a_path])] [])).
Definition remove_push : push := Push "o/r" "d00d" [] [a_path].
Lemma remove_authentic : authentic a_handler (signed remove_payload) remove_push.
Proof.
  split; [done|]. exists remove_payload. split; [by_vm|]. split; [|by_vm].
  apply verify_spec. split; [done|]. eexists. split; [reflexivity|]. apply hex_decode_encode.
Qed.

Lemma one_path t t' : t = ∅ ∨ t = a_tree → t' = ∅ ∨ t' = a_tree → unambiguous t t'.
Proof.
  assert (Hone : ∀ u p, u = ∅ ∨ u = a_tree → is_Some (u !! p) → p = a_path).
  { intros u p [->| ->] [c Hc]; [by rewrite lookup_empty in Hc|]. by apply a_tree_Some in Hc as [? _]. }
  intros Ht Ht' p q id Hp Hq _ _. transitivity a_path.
  - destruct Hp as [Hp|Hp]; by eapply Hone, Hp.
  - symmetry. destruct Hq as [Hq|Hq]; by eapply Hone, Hq.
Qed.

Lemma manifest_acceptable : acceptable (U := gomap) a_name manifest.
Proof.
  eexists _, _, manifest_map. split; [vm_compute; reflexivity|]. split; [vm_compute; reflexivity|].
  split; [by_vm|]. split; by_vm.
Qed.

Lemma add_serves : serves (W := world) a_handler add_push a_tree.
Proof.
  intros p c w [-> ->]%a_tree_Some. split; [done|]. exists (Body manifest None false). split; by_vm.
Qed.

Lemma added_history t' rs : pushes a_handler a_tree rs t' → pushes (W := world) a_handler ∅ (a_request :: rs) t'.
Proof.
  apply (pushes_cons a_handler ∅ a_tree t' a_request rs add_push add_authentic).
  - split.
    + intros p ->%list_elem_of_singleton. by eexists.
    + by intros p ?%elem_of_nil.
    + intros p Hp. left. apply list_elem_of_singleton. destruct (decide (p = a_path)) as [|Hne]; [done|].
      destruct Hp. unfold a_tree. by rewrite lookup_empty, lookup_singleton_ne.
  - apply one_path; [by left|by right].
  - intros p c id _ [-> ->]%a_tree_Some Hid. rewrite a_path_name in Hid. injection Hid as <-.
    exact manifest_acceptable.
  - exact add_serves.
Qed.

Lemma removed_history : pushes (W := world) a_handler a_tree [signed remove_payload] ∅.
Proof.
  apply (pushes_cons a_handler a_tree ∅ ∅ _ [] remove_push remove_authentic).
  - split.
    + by intros p ?%elem_of_nil.
    + intros p ->%list_elem_of_singleton. split; [by eexists|done].
    + intros p Hp. right. apply list_elem_of_singleton. destruct (decide (p = a_path)) as [|Hne]; [done|].
      destruct Hp. unfold a_tree. by rewrite lookup_empty, lookup_singleton_ne.
  - apply one_path; [by right|by left].
  - by intros p c id ?%elem_of_nil.
  - intros p c w Hc. by rewrite lookup_empty in Hc.
  - constructor.
Qed.

Lemma nothing_in_sync : in_sync nothing ∅.
Proof. split; [|done]. intros p c id Hc. by rewrite lookup_empty in Hc. Qed.

(** One push adds the file, the next removes it: the object comes and goes. *)
Lemma cluster_follows_git_witness :
  live (serve_all a_handler [a_request] nothing) a_name = Some (file_hash manifest) ∧
  live (serve_all a_handler [a_request; signed remove_payload] nothing) a_name = None.
Proof.
  pose proof map_unstructured_laws as laws. pose proof cluster_up as up. split.
  - apply (sync_file _ a_tree (cluster_follows_git a_handler ∅ [a_request] a_tree nothing
      (added_history a_tree [] (pushes_nil a_handler a_tree)) nothing_in_sync) a_path); [|exact a_path_name].
    apply lookup_singleton_eq.
  - apply (sync_gone _ ∅ (cluster_follows_git a_handler ∅ _ ∅ nothing
      (added_history ∅ _ removed_history) nothing_in_sync)). intros p _. apply lookup_empty.
Defined.

(** One commit changes the file, the next removes it, and both are pushed at once. *)
Definition both_payload : payload :=
  Payload "o/r" (Some "dead") "dead" [([], [a_path], []); ([], [], [a_path])] [].
Definition both_push : push := Push "o/r" "dead" [a_path] [].
Lemma both_authentic : authentic a_handler (signed (print_json (payload_json both_payload))) both_push.
Proof.
  split; [done|]. exists (print_json (payload_json both_payload)). split; [by_vm|]. split; [|by_vm].
  apply verify_spec. split; [done|]. eexists. split; [reflexivity|]. apply hex_decode_encode.
Qed.
Lemma both_missing : misses (C := unit) (W := world) both_push ∅.
Proof.
  intros p c req w _ Hurl. eexists. cbn [http_Do one_file fst]. rewrite Hurl, decide_False; [done|].
  intros Heq. cbv -[strings_TrimPrefix] in Heq. discriminate Heq.
Qed.

End Sample.
