(* ===== verification/ConcurrentSync.v ===== *)
(** Pushes served at the same time, and the cluster they leave: pushes that name
    different objects serialize. *)
From S2P Require Import Prelude GoStrings GoPath GoCrypto GoUtf8 GoMap GoJson GoJsonFacts Config ExportPath InventoryPath ConfigMapMaterial Normalize Reconciler Hmac GitHubPush Fetch Apply UnstructuredMap Webhook WebhookTrace Concurrent LoopBreak FeedbackLoop SyncConvergence.

(** GitHub answers the same request with the same answer: files are fetched at a
    commit, which does not change. *)
Class Immutable (C W : Type) `{!HttpClient C W} : Prop :=
  same_answer (c : C) req (w w' : W) : (http_Do c req w).1 = (http_Do c req w').1.

Section serial.
Context `{GoUnicode} `{Float64} `{JsonMessages} `{EventMessages} `{SigsYaml}.
Context {U C W : Type} `{!ClientObject U} `{!Unstructured U} `{!UnstructuredLaws}.
Context `{!KubeClient U W} `{!HttpClient C W} `{!Cluster W} `{!ClusterUp} `{!Immutable C W}.
Abbreviation prog := (prog U C).
Implicit Types (h : WebhookHandler C) (r : request) (w : W) (id : ParsedInventoryPath).

(** ** What a tree writes *)

(** Objects that were written, with what they are left as. *)
Abbreviation written := (gmap ParsedInventoryPath (option (option string))).
Implicit Types (acc e : written).

Definition gone (res : result unit) : Prop := res = Ok tt ∨ ∃ err, res = Failed err ∧ IsNotFound err = true.

(** [writes Q acc m]: the tree, after it has written [acc], writes only objects it
    may, and is done with a result and writes that satisfy [Q]; the answers are
    those of a cluster that is up. *)
Fixpoint writes {A} (Q : A → written → Prop) acc (m : prog A) : Prop :=
  match m with
  | Done a => Q a acc
  | Do c req k => ∀ w, writes Q acc (k (http_Do c req w).1)
  | Patch obj owner force k => owner = "accord-sync-operator" ∧ force = true ∧
      ∃ id, identity id obj ∧ writes Q (<[id := Some (annotated_hash obj)]> acc) (k (Ok tt))
  | Remove obj k => ∃ id, identity id obj ∧ ∀ res, gone res → writes Q (<[id := None]> acc) (k res)
  end.

Lemma writes_bind {A B} (Q : B → written → Prop) acc (m : prog A) (f : A → prog B) :
  writes (λ a acc, writes Q acc (f a)) acc m → writes Q acc (m ≫= f).
Proof.
  revert acc. induction m as [a|c req k IH|obj owner force k IH|obj k IH]; intros acc; cbn; [done|..].
  - intros Hm w. by apply IH.
  - intros (? & ? & id & ? & Hm). do 2 (split; [done|]). exists id. split; [done|by apply IH].
  - intros (id & ? & Hm). exists id. split; [done|]. intros res Hres. by apply IH, Hm.
Qed.

(** A tree that always writes the same, and only objects of [N]. *)
Definition acts {X A} (N : ParsedInventoryPath → Prop) (f : X → prog A) : Prop :=
  ∃ g : written → written,
    (∀ x acc (Q : A → written → Prop), (∀ a, Q a (g acc)) → writes Q acc (f x)) ∧
    (∀ acc id, ¬ N id → g acc !! id = acc !! id).

Lemma acts_done {X A} N (f : X → A) : acts N (λ x, Done (f x)).
Proof. exists (λ acc, acc). split; [by intros x acc Q HQ; apply HQ|done]. Qed.

Lemma acts_bind {X A B} N (m : X → prog A) (f : X → A → prog B) :
  acts N m → acts N (λ xa : X * A, f xa.1 xa.2) → acts N (λ x, m x ≫= f x).
Proof.
  intros (g & Hg & Hg') (g2 & Hg2 & Hg2'). exists (λ acc, g2 (g acc)). split.
  - intros x acc Q HQ. apply writes_bind, Hg. intros a. by apply (Hg2 (x, a)).
  - intros acc id Hid. by rewrite Hg2', Hg'.
Qed.

Lemma acts_range {X} N (step : string → prog webhookResult) paths :
  (∀ p, p ∈ paths → acts N (λ _ : webhookResponse, step p)) →
  ∀ results : X → webhookResponse, acts N (λ x, range_tree step paths (results x)).
Proof.
  induction paths as [|p paths IH] in X |-*; intros Hstep results; cbn [range_tree]; [apply acts_done|].
  apply acts_bind.
  - destruct (Hstep p ltac:(by left)) as (g & Hg & Hg'). exists g. split; [by intros; apply (Hg [])|done].
  - apply (IH _ ltac:(intros q Hq; apply Hstep; by right) (λ xa, results xa.1 ++ [xa.2])).
Qed.

Lemma acts_apply {X} N id y : N id → acts (X := X) N (λ _, apply_tree (C := C) id y).
Proof.
  intros HN. unfold apply_tree. destruct (MaterialHashFromNormalizedYAML y) as [hash|]; [|apply acts_done].
  destruct (YAMLToJSON _) as [j|]; [|apply acts_done]. destruct (UnmarshalJSON j) as [obj|]; [|apply acts_done].
  destruct (validatePathManifestIdentity id obj) eqn:Hv; [apply acts_done|]. apply validate_None in Hv.
  exists (<[id := Some (annotated_hash (annotate hash obj))]>). split.
  - intros x acc Q HQ. split; [done|]. split; [done|]. exists id. split; [by apply annotate_identity|]. apply HQ.
  - intros acc id' Hid'. apply lookup_insert_ne. by intros ->.
Qed.

Definition names (pu : push) id : Prop :=
  ∃ p, p ∈ addedModified pu ++ removed pu ∧ ParseInventoryExportPath p = Some id.

Lemma acts_added {X} h pu w p :
  p ∈ addedModified pu → acts (X := X) (names pu) (λ _, added_tree (W := W) h (fullName pu) (headSHA pu) p).
Proof.
  intros Hp. unfold added_tree. destruct (ParseInventoryExportPath p) as [id|] eqn:Hid; [|apply acts_done].
  unfold fetch_tree. destruct (http_NewRequest _) as [err|]; [apply acts_done|].
  cbn [mbind prog_bind]. set (c := default _ _). set (req := raw_request _ _).
  assert (Hsame : ∀ k : result http_response → prog webhookResult,
    acts (X := X) (names pu) (λ _, k (http_Do c req w).1) → acts (X := X) (names pu) (λ _, Do c req k)).
  { intros k (g & Hg & Hg'). exists g. split; [|done]. intros x acc Q HQ w0. rewrite (same_answer c req w0 w).
    by apply Hg. }
  apply Hsame. destruct (match (http_Do c req w).1 with Ok _ => _ | Failed _ => _ end) as [raw|e]; [|apply acts_done].
  change (acts (X := X) (names pu) (λ _, apply_tree id raw ≫= λ res, Done
    match res with Failed err => WebhookResult p "error" (Error_text err) | Ok _ => WebhookResult p "applied" "" end)).
  apply acts_bind; [|apply acts_done]. apply acts_apply. exists p. split; [by apply elem_of_app; left|done].
Qed.

Lemma acts_removed {X} pu p : p ∈ removed pu → acts (X := X) (names pu) (λ _, removed_tree (C := C) p).
Proof.
  intros Hp. unfold removed_tree. destruct (ParseInventoryExportPath p) as [id|] eqn:Hid; [|apply acts_done].
  destruct (parsed_kind p id Hid) as [k Hk]. rewrite Hk. exists (<[id := None]>). split.
  - intros x acc Q HQ. exists id. split; [by apply deletion_target_identity|]. intros res _. apply HQ.
  - intros acc id' Hid'. apply lookup_insert_ne. intros ->. apply Hid'. exists p.
    split; [by apply elem_of_app; right|done].
Qed.

(** The objects a request is about. *)
Definition request_names h r id : Prop := ∃ pu, authentic h r pu ∧ names pu id.

(** What a handler writes does not depend on when it writes it. *)
Lemma serve_writes h r w :
  ∃ e, writes (λ _ acc, acc = e) ∅ (serve_tree (W := W) h r) ∧ ∀ id, is_Some (e !! id) → request_names h r id.
Proof.
  destruct (serve_tree_cases (U := U) (W := W) h r) as [(pu & Ha & ->)|(_ & resp & _ & ->)].
  2: { exists ∅. split; [done|]. intros id [v Hv]. by rewrite lookup_empty in Hv. }
  assert (Hacts : acts (names pu) (λ _ : unit, push_tree (W := W) h pu)).
  { unfold push_tree. apply acts_bind; [apply (acts_range _ _ _ ltac:(intros; by apply acts_added) (λ _, []))|].
    apply (acts_bind _ (λ ua, range_tree removed_tree (removed pu) ua.2)
      (λ _ rs, Done (Response_ 200 "application/json" (encode_response rs)))); [|apply acts_done].
    apply (acts_range _ _ _ ltac:(intros; by apply acts_removed) snd). }
  destruct Hacts as (g & Hg & Hg'). exists (g ∅). split; [by apply (Hg tt)|]. intros id [v Hv].
  exists pu. split; [done|]. destruct (decide (id ∈ omap ParseInventoryExportPath (addedModified pu ++ removed pu)))
    as [Hin|Hn]; [by apply list_elem_of_omap in Hin|].
  rewrite Hg' in Hv; [by rewrite lookup_empty in Hv|]. intros Hnames. apply Hn. by apply list_elem_of_omap.
Qed.

(** ** Pools of trees *)

Definition final e {A} : A → written → Prop := λ _ acc, acc = e.

(** Writes are not taken back. *)
Lemma writes_dom {A} e acc (m : prog A) w id : writes (final e) acc m → is_Some (acc !! id) → is_Some (e !! id).
Proof.
  revert acc. induction m as [a|c req k IH|obj owner force k IH|obj k IH]; intros acc; cbn.
  - by intros ->.
  - intros Hm. by eapply IH, Hm.
  - intros (_ & _ & id' & _ & Hm) Hid. eapply IH; [exact Hm|]. apply lookup_insert_is_Some'. by right.
  - intros (id' & _ & Hm) Hid. eapply IH; [by apply (Hm (Ok tt)); left|]. apply lookup_insert_is_Some'. by right.
Unshelve. exact w.
Qed.

(** The cluster is what the handlers have written so far, on top of [w0]. *)
Record shows (w0 w : W) (accs : list written) : Prop := {
  shows_written i acc id v : accs !! i = Some acc → acc !! id = Some v → live w id = v;
  shows_rest id : (∀ i acc, accs !! i = Some acc → acc !! id = None) → live w id = live w0 id
}.

Definition apart (es : list written) : Prop := ∀ i j e e' id,
  es !! i = Some e → es !! j = Some e' → is_Some (e !! id) → is_Some (e' !! id) → i = j.

Lemma shows_write w0 w w' accs i acc id v :
  shows w0 w accs → accs !! i = Some acc → changed w w' id v →
  (∀ j acc', j ≠ i → accs !! j = Some acc' → acc' !! id = None) →
  shows w0 w' (<[i := <[id := v]> acc]> accs).
Proof.
  intros [Hw Hr] Hi Hch Hone. pose proof (lookup_lt_Some _ _ _ Hi) as Hlt. split.
  - intros j acc' id' v' Hj Hid'. rewrite Hch. apply list_lookup_insert_Some in Hj as [(<- & <- & _)|[Hne Hj]].
    + apply lookup_insert_Some in Hid' as [[<- <-]|[Hne Hid']]; [by rewrite decide_True|].
      rewrite decide_False by done. by eapply Hw.
    + case_decide as Heq; [subst id'; by rewrite (Hone j acc') in Hid'|]. by eapply Hw.
  - intros id' Hnone. rewrite Hch.
    pose proof (Hnone i (<[id := v]> acc) ltac:(by apply list_lookup_insert_eq)) as Hi'.
    apply lookup_insert_None in Hi' as [Hi' Hne]. rewrite decide_False by done. apply Hr. intros j acc' Hj.
    destruct (decide (j = i)) as [->|Hji]; [by simplify_eq|]. apply (Hnone j). by rewrite list_lookup_insert_ne.
Qed.

(** One call of one handler. *)
Lemma call_shows {A} w0 w w' e accs i acc (m m' : prog A) c :
  shows w0 w accs → accs !! i = Some acc → writes (final e) acc m → call_step m w c m' w' →
  (∀ j acc' id, j ≠ i → accs !! j = Some acc' → is_Some (e !! id) → acc' !! id = None) →
  ∃ acc', writes (final e) acc' m' ∧ shows w0 w' (<[i := acc']> accs).
Proof.
  intros Hs Hi Hm Hc Hone. destruct Hc as [cl req k w|obj owner force k w|obj k w]; cbn [writes] in Hm.
  - exists acc. split; [apply Hm|]. rewrite list_insert_id by done. destruct Hs as [Hw Hr].
    split; [intros ?????; rewrite fetch_live; by eapply Hw|intros id Hid; rewrite fetch_live; by apply Hr].
  - destruct Hm as (-> & -> & id & Hid & Hm). destruct (apply_live obj id w Hid) as (w1 & Happ & Hch).
    rewrite Happ. exists (<[id := Some (annotated_hash obj)]> acc). split; [exact Hm|].
    eapply shows_write; [done..|]. intros j acc' Hj Hacc'. eapply Hone; [done..|].
    eapply writes_dom; [done|exact Hm|]. rewrite lookup_insert_eq. by eexists.
  - destruct Hm as (id & Hid & Hm). destruct (delete_live obj id w Hid) as (res & w1 & Hdel & Hres & Hch).
    rewrite Hdel. exists (<[id := None]> acc). split; [by apply Hm|].
    eapply shows_write; [done..|]. intros j acc' Hj Hacc'. eapply Hone; [done..|].
    eapply writes_dom; [done|by apply (Hm res)|]. rewrite lookup_insert_eq. by eexists.
Qed.

Lemma steps_shows w0 ps w log ps' w' : steps ps w log ps' w' → ∀ accs es,
  apart es → Forall3 (λ m acc e, writes (final e) acc m) ps accs es → shows w0 w accs →
  ∃ accs', Forall3 (λ m acc e, writes (final e) acc m) ps' accs' es ∧ shows w0 w' accs'.
Proof.
  induction 1 as [ps w|ps w i m c m' w1 log ps' w' Hi Hc _ IH]; intros accs es Hap Hall Hs; [by exists accs|].
  destruct (Forall3_lookup_l _ _ _ _ _ _ Hall Hi) as (acc & e & Hacc & He & Hm).
  destruct (call_shows w0 w w1 e accs i acc m m' c Hs Hacc Hm Hc) as (acc' & Hm' & Hs').
  - intros j accj id Hji Hj Hid. destruct (accj !! id) as [v|] eqn:Hv; [|done]. destruct Hji.
    destruct (Forall3_lookup_m _ _ _ _ _ _ Hall Hj) as (mj & ej & _ & Hej & Hmj).
    apply (Hap j i ej e id Hej He); [|done]. eapply writes_dom; [done|exact Hmj|by rewrite Hv].
  - apply (IH (<[i := acc']> accs) es); [done| |done].
    rewrite <- (list_insert_id es i e He). by apply Forall3_insert.
Qed.

(** Where a pool ends depends on what its handlers write only. *)
Lemma finished_shows w0 ps w accs es :
  Forall3 (λ m acc e, writes (final e) acc (m : prog response)) ps accs es → Forall finished ps → shows w0 w accs →
  shows w0 w es.
Proof.
  intros Hall Hfin Hs. assert (accs = es) as <-; [|done]. clear Hs.
  induction Hall as [|m acc e ps accs es Hm _ IH]; [done|]. apply Forall_cons in Hfin as [Hf Hfin].
  f_equal; [|by apply IH]. by destruct m.
Qed.

Lemma shows_agree w0 w w' es : shows w0 w es → shows w0 w' es → ∀ id, live w id = live w' id.
Proof.
  intros [Hw Hr] [Hw' Hr'] id. destruct (decide (Exists (λ e, is_Some (e !! id)) es)) as [Hex|Hno].
  - apply Exists_exists in Hex as (e & (i & Hi)%list_elem_of_lookup & v & Hv). by rewrite (Hw i e id v), (Hw' i e id v).
  - rewrite Hr, Hr'; [done|..]; intros i e He; apply eq_None_not_Some; intros Hs; apply Hno, Exists_exists;
      exists e; (split; [by eapply list_elem_of_lookup_2|done]).
Qed.

(** ** Serving one request after the other is one interleaving *)

Lemma steps_trans ps w log ps1 w1 log' ps2 w2 :
  steps ps w log ps1 w1 → steps ps1 w1 log' ps2 w2 → steps ps w (log ++ log') ps2 w2.
Proof. induction 1 as [|?????????? Hi Hc _ IH]; [done|]. intros Hs. eapply steps_step; [done|done|by apply IH]. Qed.

Lemma run_steps pre post (m : prog response) w :
  ∃ log, steps (pre ++ m :: post) w log (pre ++ Done (run m w).1 :: post) (run m w).2.
Proof.
  assert (Hmid : ∀ x : prog response, (pre ++ x :: post) !! length pre = Some x) by (intros; by apply list_lookup_middle).
  assert (Hins : ∀ x y : prog response, <[length pre := y]> (pre ++ x :: post) = pre ++ y :: post)
    by (intros; apply insert_app_r_alt_eq || (rewrite insert_app_r_alt by done; by rewrite Nat.sub_diag)).
  revert w. induction m as [a|c req k IH|obj owner force k IH|obj k IH]; intros w; [by eexists; constructor|..].
  - destruct (IH (http_Do c req w).1 (http_Do c req w).2) as [log Hs]. eexists. eapply steps_step; [apply Hmid|apply step_do|].
    rewrite Hins. cbn [run]. by destruct (http_Do c req w).
  - destruct (IH (k8s_Apply obj owner force w).1 (k8s_Apply obj owner force w).2) as [log Hs]. eexists.
    eapply steps_step; [apply Hmid|apply step_patch|]. rewrite Hins. cbn [run]. by destruct (k8s_Apply obj owner force w).
  - destruct (IH (k8s_Delete obj w).1 (k8s_Delete obj w).2) as [log Hs]. eexists.
    eapply steps_step; [apply Hmid|apply step_remove|]. rewrite Hins. cbn [run]. by destruct (k8s_Delete obj w).
Qed.

Lemma serve_all_steps h rs w : ∃ log ps,
  steps (map (serve_tree (W := W) h) rs) w log ps (serve_all h rs w) ∧ Forall finished ps.
Proof.
  assert (Hgo : ∀ pre, Forall finished pre → ∃ log ps,
    steps (pre ++ map (serve_tree (W := W) h) rs) w log ps (serve_all h rs w) ∧ Forall finished ps).
  { revert w. induction rs as [|r rs IH]; intros w pre Hpre.
    - exists [], pre. cbn. rewrite app_nil_r. split; [constructor|done].
    - destruct (run_steps pre (map (serve_tree h) rs) (serve_tree h r) w) as [log Hs]. rewrite run_serve in Hs.
      destruct (IH (ServeHTTP h r w).2 (pre ++ [Done (ServeHTTP h r w).1])) as (log' & ps & Hs' & Hfin).
      { apply Forall_app. split; [done|]. by constructor. }
      rewrite <- app_assoc in Hs'. exists (log ++ log'), ps. split; [|done]. by eapply steps_trans. }
  by apply (Hgo []).
Qed.

(** No two requests are about one object. *)
Definition disjoint h (rs : list request) : Prop := ∀ i j r r' id,
  rs !! i = Some r → rs !! j = Some r' → request_names h r id → request_names h r' id → i = j.

Lemma pool_writes h rs w : disjoint h rs → ∃ es, apart es ∧
  Forall3 (λ m acc e, writes (final e) acc m) (map (serve_tree (W := W) h) rs) (map (λ _, ∅) rs) es.
Proof.
  intros Hd. assert (Hes : ∃ es, Forall2 (λ r e, ∀ id, is_Some (e !! id) → request_names h r id) rs es ∧
    Forall3 (λ m acc e, writes (final e) acc m) (map (serve_tree (W := W) h) rs) (map (λ _, ∅) rs) es).
  { clear Hd. induction rs as [|r rs (es & Hn & Hall)]; [exists []; split; constructor|].
    destruct (serve_writes h r w) as (e & He & Hid). exists (e :: es). split; by constructor. }
  destruct Hes as (es & Hn & Hall). exists es. split; [|done]. intros i j e e' id Hi Hj He He'.
  destruct (Forall2_lookup_r _ _ _ _ _ Hn Hi) as (r & Hr & Hid). destruct (Forall2_lookup_r _ _ _ _ _ Hn Hj) as (r' & Hr' & Hid').
  eapply Hd; [exact Hr|exact Hr'|by apply Hid|by apply Hid'].
Qed.

(** C12: pushes that name different objects can be served at the same time: when the
    API server does what it is asked and GitHub answers a request always the same,
    every interleaving of their handlers that runs to the end leaves the cluster
    that serving them one after the other leaves. So when they are the pushes of a
    branch, the cluster follows Git all the same. *)
Theorem concurrent_pushes_serialize h rs w log ps w' :
  disjoint h rs → steps (map (serve_tree (W := W) h) rs) w log ps w' → Forall finished ps →
  (∀ id, live w' id = live (serve_all h rs w) id) ∧
  ∀ t t', pushes h t rs t' → in_sync w t → in_sync w' t'.
Proof.
  intros Hd Hs Hfin. destruct (pool_writes h rs w Hd) as (es & Hap & Hall).
  assert (Hstart : shows w w (map (λ _, ∅) rs)).
  { split; [|done]. intros i acc id v Hi. apply list_lookup_fmap_Some in Hi as (r & -> & _). by rewrite lookup_empty. }
  assert (Hend : ∀ log ps w1, steps (map (serve_tree (W := W) h) rs) w log ps w1 → Forall finished ps → shows w w1 es).
  { intros log1 ps1 w1 Hs1 Hf. destruct (steps_shows w _ _ _ _ _ Hs1 _ _ Hap Hall Hstart) as (accs & Hall1 & Hw1).
    by eapply finished_shows. }
  destruct (serve_all_steps h rs w) as (log2 & ps2 & Hs2 & Hfin2).
  pose proof (shows_agree w w' (serve_all h rs w) es (Hend _ _ _ Hs Hfin) (Hend _ _ _ Hs2 Hfin2)) as Hsame.
  split; [done|]. intros t t' Hp Hsync. pose proof (history_in_sync h t rs t' w Hp Hsync) as [Hfile Hgone].
  split; [intros; rewrite Hsame; by eapply Hfile|intros; rewrite Hsame; by apply Hgone].
Qed.
End serial.

(** ** Witness: a file added and another removed, in two pushes served at once *)

Module Sample.
Import LoopBreak.Sample FeedbackLoop.Sample SyncConvergence.Sample.
#[local] Existing Instances ascii_tables literal_f64 plain_messages plain_event_messages json_yaml
  map_object map_unstructured cluster_kube cluster_live one_file.

Definition y_path : string := "inventory/applications/a/y.yaml".
Definition y_name : ParsedInventoryPath := Parsed "applications" "a" "y".
Definition y_payload : string := print_json (payload_json (Payload "o/r" (Some "beef") "beef" [([], [], [y_path])] [])).
Definition y_push : push := Push "o/r" "beef" [] [y_path].
Lemma y_authentic : authentic a_handler (signed y_payload) y_push.
Proof.
  split; [done|]. exists y_payload. split; [by_vm|]. split; [|by_vm].
  apply verify_spec. split; [done|]. eexists. split; [reflexivity|]. apply hex_decode_encode.
Qed.

Definition both_requests : list request := [a_request; signed y_payload].
Definition y_there : world := put y_name (Some (Some "old")) nothing.
Definition trees : list (prog gomap unit response) := map (serve_tree (W := world) a_handler) both_requests.

Lemma authentic_unique r pu pu' : authentic a_handler r pu → authentic a_handler r pu' → pu = pu'.
Proof. intros Ha%accepted_authentic Ha'%accepted_authentic. congruence. Qed.

Lemma both_disjoint : disjoint a_handler both_requests.
Proof.
  assert (Hx : ∀ id, request_names a_handler a_request id → id = a_name).
  { intros id (pu & Ha & p & Hp & Hid). rewrite (authentic_unique _ _ _ Ha add_authentic) in Hp.
    apply list_elem_of_singleton in Hp as ->. rewrite a_path_name in Hid. by injection Hid. }
  assert (Hy : ∀ id, request_names a_handler (signed y_payload) id → id = y_name).
  { intros id (pu & Ha & p & Hp & Hid). rewrite (authentic_unique _ _ _ Ha y_authentic) in Hp.
    apply list_elem_of_singleton in Hp as ->. assert (Hn : ParseInventoryExportPath y_path = Some y_name) by by_vm.
    rewrite Hn in Hid. by injection Hid. }
  intros i j r r' id Hi Hj Hr Hr'.
  destruct i as [|[|i]], j as [|[|j]]; try done; injection Hi as <-; injection Hj as <-.
  - apply Hx in Hr as ->. apply Hy in Hr'. discriminate Hr'.
  - apply Hy in Hr as ->. apply Hx in Hr'. discriminate Hr'.
Qed.

Lemma interleaved : ∃ log ps w, steps trees y_there log ps w ∧ Forall finished ps ∧
  map (λ ic, (ic.1, WebhookTrace.Sample.call_name ic.2)) log = [(0, "get"); (1, "delete"); (0, "apply")].
Proof.
  assert (Hsched : summary WebhookTrace.Sample.call_name <$> schedule [0; 1; 0] trees y_there =
    Some (true, [(0, "get"); (1, "delete"); (0, "apply")])) by by_vm.
  destruct (scheduled WebhookTrace.Sample.call_name _ _ _ _ _ Hsched) as (log & ps & w & Hs & Hlog & Hfin).
  exists log, ps, w. split; [exact Hs|]. split; [exact (Hfin eq_refl)|exact Hlog].
Qed.

Lemma concurrent_pushes_serialize_witness : ∃ log ps w,
  steps trees y_there log ps w ∧ map (λ ic, (ic.1, WebhookTrace.Sample.call_name ic.2)) log = [(0, "get"); (1, "delete"); (0, "apply")] ∧
  live w a_name = Some (file_hash manifest) ∧ live w y_name = None.
Proof.
  pose proof map_unstructured_laws as laws. pose proof cluster_up as up.
  assert (Himm : Immutable unit world) by (intros c req w w'; reflexivity).
  destruct interleaved as (log & ps & w & Hs & Hfin & Hlog). exists log, ps, w. split; [exact Hs|]. split; [exact Hlog|].
  destruct (concurrent_pushes_serialize a_handler both_requests y_there log ps w both_disjoint Hs Hfin) as [Hsame _].
  assert (Hserial : (let w' := serve_all a_handler both_requests y_there in (live w' a_name, live w' y_name)) =
    (Some (file_hash manifest), None)) by by_vm.
  rewrite !Hsame. split; [exact (f_equal fst Hserial)|exact (f_equal snd Hserial)].
Defined.
End Sample.
