(* ===== verification/Manager.v ===== *)
(** internal/bootstrap/manager.go and the binaries of cmd/: how flags and
    environment become a running manager. controller-runtime is the class
    [ControllerRuntime], asked whether each setup call fails. *)
From S2P Require Import Prelude GoStrings Flags Scheme GoCrypto GoUtf8 GoMap GoJson GoJsonFacts Config ExportPath InventoryPath ConfigMapMaterial Normalize HashCache GitBatch Fs BatchWorker Reconciler Hmac GitHubPush Fetch Apply UnstructuredMap Webhook.

(** ** bootstrap.NewManager *)

Record ManagerInputs (S : Type) := Inputs {
  in_Scheme : S; in_LeaderElectionID : string; in_flags : flags }.
Arguments Inputs {S}.
Arguments in_Scheme {S}.
Arguments in_LeaderElectionID {S}.
Arguments in_flags {S}.

Record tls_Config := TLS { NextProtos : list string }.
Abbreviation tls_opt := (tls_Config → tls_Config).
Record cert_files := Certs { CertDir : string; CertName : string; KeyName : string }.
Definition no_certs : cert_files := Certs "" "" "".

Record webhook_Options := WebhookOptions { WebhookTLSOpts : list tls_opt; WebhookCerts : cert_files }.
(** [AuthFilter]: the filter that authenticates and authorises requests is set. *)
Record metrics_Options := MetricsOptions {
  BindAddress : string; SecureServing : bool; MetricsTLSOpts : list tls_opt; AuthFilter : bool;
  MetricsCerts : cert_files }.
Record ctrl_Options (S : Type) := CtrlOptions {
  opt_Scheme : S; Metrics : metrics_Options; WebhookServer : webhook_Options;
  HealthProbeBindAddress : string; LeaderElection : bool; LeaderElectionID : string }.
Arguments CtrlOptions {S}.
Arguments opt_Scheme {S}.
Arguments Metrics {S}.
Arguments WebhookServer {S}.
Arguments HealthProbeBindAddress {S}.
Arguments LeaderElection {S}.
Arguments LeaderElectionID {S}.

Definition disableHTTP2 : tls_opt := λ c, TLS ["http/1.1"].

Definition manager_options {S} (i : ManagerInputs S) : ctrl_Options S :=
  let f := in_flags i in
  let tlsOpts := if enableHTTP2 f then [] else [disableHTTP2] in
  let webhookServerOptions := WebhookOptions tlsOpts
    (if decide (webhookCertPath f = "") then no_certs
     else Certs (webhookCertPath f) (webhookCertName f) (webhookCertKey f)) in
  let metricsServerOptions := MetricsOptions (metricsAddr f) (secureMetrics f) tlsOpts (secureMetrics f)
    (if decide (metricsCertPath f = "") then no_certs
     else Certs (metricsCertPath f) (metricsCertName f) (metricsCertKey f)) in
  CtrlOptions (in_Scheme i) metricsServerOptions webhookServerOptions (probeAddr f)
    (enableLeaderElection f) (in_LeaderElectionID i).

(** What [Complete] is given: the two reconcilers of reconciler.go with the configured
    template, and that of the mirror-upgrader, which does nothing yet. *)
Inductive reconciler :=
| ApplicationReconciler (ExportPathTmpl : string)
| ApplicationSetReconciler (ExportPathTmpl : string)
| MirrorUpgradeRequestReconciler.

Definition MirrorUpgradeRequest_Reconcile : result unit := Ok tt.

Definition run_reconciler `{GoUnicode} `{TextTemplate} `{Float64} `{JsonMessages} `{SigsYaml} {O}
    `{!RuntimeObject O} `{!ClientObject O} (r : reconciler) (get : client_reader O) (s : rstate) (namespace name : string)
    : result unit * rstate :=
  match r with
  | ApplicationReconciler tmpl => Reconcile_Application get tmpl s namespace name
  | ApplicationSetReconciler tmpl => Reconcile_ApplicationSet get tmpl s namespace name
  | MirrorUpgradeRequestReconciler => (MirrorUpgradeRequest_Reconcile, s)
  end.

(** ** The setup calls of a binary *)

Section binaries.
(** HTTP clients, and the one with a timeout of so many nanoseconds. *)
Context {C : Type} (http_Client : Z → C).
Context {S B : Type} `{!RuntimeScheme (S := S) (B := B)} `{!LibraryFlags}.

Inductive setup_call :=
| CallNewManager (o : ctrl_Options S)
| CallAdd (cfg : InventoryControllerConfig) (needLeaderElection : bool)
| CallController (watched : runtime_object) (name : string) (r : reconciler)
| CallRegister (path : string) (h : WebhookHandler C)
| CallHealthz (name : string)
| CallReadyz (name : string)
| CallStart.

(** The error of a call, after the calls made before. *)
Class ControllerRuntime := { ctrl_error : list setup_call → setup_call → option error }.
Context `{!ControllerRuntime}.

(** The calls in order; the first failure ends the process with code 1. The
    result is the exit code and the calls made. *)
Fixpoint run_setup (made todo : list setup_call) : Z * list setup_call :=
  match todo with
  | [] => (0%Z, made)
  | c :: todo =>
      match ctrl_error made c with
      | Some _ => (1%Z, made ++ [c])
      | None => run_setup (made ++ [c]) todo
      end
  end.

(** What every binary does with the command line, once its scheme is built: a
    panic ends a process with code 2. *)
Definition with_flags (scheme : option S) (args : list string) (setup : S → flags → Z * list setup_call)
    : Z * list setup_call :=
  match scheme with
  | None => (2%Z, [])
  | Some scheme =>
      match flag_Parse args with
      | Exit code => (code, [])
      | ParsedFlags f _ => setup scheme f
      end
  end.

Definition time_Minute : Z := 60 * time_Second.

(** cmd/sync-operator *)
Definition sync_operator_calls (cfg : SyncOperatorConfig) (scheme : S) (f : flags) : list setup_call :=
  let h := Handler_ (Some (http_Client (2 * time_Minute))) (SyncGitAccessToken cfg) (Config.WebhookSecret cfg) in
  [CallNewManager (manager_options (Inputs scheme "accord-sync-operator.accord.io" f));
   CallRegister WebhookPath h; CallHealthz "healthz"; CallReadyz "readyz"; CallStart].

Definition sync_operator_main (env : environ) (args : list string) : Z * list setup_call :=
  match LoadSyncOperatorConfig env with
  | Failed _ => (1%Z, [])
  | Ok cfg => with_flags NewInventoryScheme args (λ scheme f, run_setup [] (sync_operator_calls cfg scheme f))
  end.

(** cmd/inventory-controller, with the two controllers of reconciler.go *)
Definition SetupWithManager_Application (tmpl : string) : setup_call :=
  CallController (Object_ TUnstructured ApplicationGVK) "accord-inventory-application" (ApplicationReconciler tmpl).
Definition SetupWithManager_ApplicationSet (tmpl : string) : setup_call :=
  CallController (Object_ TUnstructured ApplicationSetGVK) "accord-inventory-applicationset" (ApplicationSetReconciler tmpl).

Definition inventory_controller_calls (cfg : InventoryControllerConfig) (scheme : S) (f : flags) : list setup_call :=
  [CallNewManager (manager_options (Inputs scheme "accord-inventory.accord.io" f));
   CallAdd cfg NeedLeaderElection;
   SetupWithManager_Application (ExportPathTemplate cfg);
   SetupWithManager_ApplicationSet (ExportPathTemplate cfg);
   CallHealthz "healthz"; CallReadyz "readyz"; CallStart].

Definition inventory_controller_main `{GoUnicode} (env : environ) (args : list string) : Z * list setup_call :=
  match LoadInventoryControllerConfig env with
  | Failed _ => (1%Z, [])
  | Ok cfg => with_flags NewInventoryScheme args (λ scheme f, run_setup [] (inventory_controller_calls cfg scheme f))
  end.

(** cmd/mirror-upgrader *)
Definition SetupWithManager_MirrorUpgradeRequest : setup_call :=
  CallController (Object_ TMirrorUpgradeRequest (GVK "" "" "")) "mirrorupgraderequest" MirrorUpgradeRequestReconciler.

Definition mirror_upgrader_calls (scheme : S) (f : flags) : list setup_call :=
  [CallNewManager (manager_options (Inputs scheme "b858da39.accord.io" f));
   SetupWithManager_MirrorUpgradeRequest;
   CallHealthz "healthz"; CallReadyz "readyz"; CallStart].

Definition mirror_upgrader_main (args : list string) : Z * list setup_call :=
  with_flags NewScheme args (λ scheme f, run_setup [] (mirror_upgrader_calls scheme f)).

(** ** Facts *)

Lemma run_setup_prefix todo : ∀ made code calls,
  run_setup made todo = (code, calls) →
  (∃ pre post, todo = pre ++ post ∧ calls = made ++ pre ∧ (code = 0%Z → post = [])) ∧ (code = 0 ∨ code = 1)%Z.
Proof.
  induction todo as [|c todo IH]; intros made code calls; cbn [run_setup].
  { intros [= <- <-]. split; [|by left]. exists [], []. rewrite (app_nil_r made). split; [reflexivity|]. split; reflexivity. }
  destruct (ctrl_error made c).
  - intros [= <- <-]. split; [|by right]. exists [c], todo.
    split; [done|]. split; [done|discriminate].
  - intros Hrun. apply IH in Hrun as [(pre & post & -> & -> & Hz) Hcode]. split; [|done].
    exists (c :: pre), post. by rewrite <- app_assoc.
Qed.

Lemma run_setup_elem todo code calls c :
  run_setup [] todo = (code, calls) → c ∈ calls → c ∈ todo.
Proof.
  intros Hrun Hc. apply run_setup_prefix in Hrun as [(pre & post & -> & -> & _) _].
  apply elem_of_app. by left.
Qed.

(** What reaches the setup calls of a binary: its scheme and its flags. *)
Lemma with_flags_calls scheme args todo code calls c :
  with_flags scheme args (λ s f, run_setup [] (todo s f)) = (code, calls) → c ∈ calls →
  ∃ s f rest, scheme = Some s ∧ flag_Parse args = ParsedFlags f rest ∧ run_setup [] (todo s f) = (code, calls) ∧
    c ∈ todo s f.
Proof.
  unfold with_flags. destruct scheme as [s|]; [|intros [= <- <-] []%elem_of_nil].
  destruct (flag_Parse args) as [f rest|code'] eqn:Hp; [|intros [= <- <-] []%elem_of_nil].
  intros Hs Hc. exists s, f, rest. split; [done|]. split; [done|]. split; [done|]. by eapply run_setup_elem.
Qed.

(** A manager that is started has been set up completely. *)
Lemma started_all todo code calls :
  run_setup [] (todo ++ [CallStart]) = (code, calls) → CallStart ∉ todo → CallStart ∈ calls → calls = todo ++ [CallStart].
Proof.
  intros [(pre & post & Htodo & -> & _) _]%run_setup_prefix Hno Hin. cbn [app] in *.
  destruct post as [|c post _] using rev_ind; [by rewrite app_nil_r in Htodo|].
  rewrite app_assoc in Htodo. apply app_inj_tail in Htodo as [-> _]. destruct Hno. apply elem_of_app. by left.
Qed.

(** The options of a manager, as the flags say. *)
Definition apply_opts (opts : list tls_opt) (c : tls_Config) : tls_Config := foldl (λ c f, f c) c opts.

Record configured (f : flags) (id : string) (scheme : S) (o : ctrl_Options S) : Prop := {
  conf_scheme : opt_Scheme o = scheme;
  conf_webhook_tls c : apply_opts (WebhookTLSOpts (WebhookServer o)) c = if enableHTTP2 f then c else TLS ["http/1.1"];
  conf_metrics_tls c : apply_opts (MetricsTLSOpts (Metrics o)) c = if enableHTTP2 f then c else TLS ["http/1.1"];
  conf_webhook_certs : WebhookCerts (WebhookServer o) =
    if decide (webhookCertPath f = "") then no_certs else Certs (webhookCertPath f) (webhookCertName f) (webhookCertKey f);
  conf_metrics_certs : MetricsCerts (Metrics o) =
    if decide (metricsCertPath f = "") then no_certs else Certs (metricsCertPath f) (metricsCertName f) (metricsCertKey f);
  conf_metrics_address : BindAddress (Metrics o) = metricsAddr f;
  conf_metrics_secure : SecureServing (Metrics o) = secureMetrics f ∧ AuthFilter (Metrics o) = secureMetrics f;
  conf_probes : HealthProbeBindAddress o = probeAddr f;
  conf_election : LeaderElection o = enableLeaderElection f ∧ LeaderElectionID o = id
}.

Lemma manager_options_configured f id scheme : configured f id scheme (manager_options (Inputs scheme id f)).
Proof. split; try done; intros c; cbn; by destruct (enableHTTP2 f). Qed.
End binaries.

Section claims.
Context `{GoUnicode} `{Float64} `{JsonMessages} `{EventMessages} `{SigsYaml}.
Context {U C W : Type} `{!ClientObject U} `{!Unstructured U} `{!KubeClient U W} `{!HttpClient C W}.
Context {S B : Type} `{!RuntimeScheme (S := S) (B := B)} `{!LibraryFlags}.
Context (http_Client : Z → C) `{!ControllerRuntime (C := C) (S := S)}.
Implicit Types (h : WebhookHandler C) (r : request) (w : W).

(** C34: the sync-operator never serves without authentication. It makes no setup
    call when WEBHOOK_SECRET is missing or blank; otherwise the only handler it
    registers is at /api/v1/webhook with that secret, the server starts only
    after the handler and the health checks are in place, and a request to the
    handler whose body does not carry the HMAC of the secret changes nothing and
    is not answered with 200. Its manager has the options that the flags of the
    command line say - addresses, certificate files, leader election, the protocols
    of both servers, and whether metrics are served by HTTPS behind the
    authorization filter - and unless an argument says otherwise both servers speak
    HTTP/1.1 only and metrics are so protected. *)
Theorem sync_operator_main_authenticated env args code calls :
  sync_operator_main http_Client env args = (code, calls) →
  (strings_TrimSpace (os_Getenv env "WEBHOOK_SECRET") = "" → code = 1%Z ∧ calls = []) ∧
  (∀ path h, CallRegister path h ∈ calls →
     path = "/api/v1/webhook" ∧ WebhookSecret h = os_Getenv env "WEBHOOK_SECRET" ∧ WebhookSecret h ≠ "" ∧
     ∀ r w, (∀ body, read_limited max_payload (ReqBody r) = Ok body →
               ∀ digits, Header_Get r "X-Hub-Signature-256" = "sha256=" +:+ digits →
               hex_DecodeString digits ≠ Ok (hmac_sha256 (os_Getenv env "WEBHOOK_SECRET") body)) →
       (ServeHTTP h r w).2 = w ∧ RespStatus (ServeHTTP h r w).1 ≠ 200%Z) ∧
  (CallStart ∈ calls → ∃ o h, calls = [CallNewManager o; CallRegister "/api/v1/webhook" h;
     CallHealthz "healthz"; CallReadyz "readyz"; CallStart]) ∧
  (∀ o, CallNewManager o ∈ calls →
     (∃ f rest s, flag_Parse args = ParsedFlags f rest ∧ NewInventoryScheme = Some s ∧
        configured f "accord-sync-operator.accord.io" s o) ∧
     ((∀ c, apply_opts (WebhookTLSOpts (WebhookServer o)) c = TLS ["http/1.1"] ∧
            apply_opts (MetricsTLSOpts (Metrics o)) c = TLS ["http/1.1"]) ∨
      ∃ arg, arg ∈ args ∧ gives "enable-http2" true arg) ∧
     (SecureServing (Metrics o) = true ∧ AuthFilter (Metrics o) = true ∨
      ∃ arg, arg ∈ args ∧ gives "metrics-secure" false arg)).
Proof.
  unfold sync_operator_main, LoadSyncOperatorConfig. change envWebhookSecret with "WEBHOOK_SECRET".
  set (secret := os_Getenv env "WEBHOOK_SECRET"). case_decide as Hsecret.
  { intros [= <- <-]. split; [done|]. split; [by intros ? ? ?%elem_of_nil|].
    split; [by intros ?%elem_of_nil|by intros ? ?%elem_of_nil]. }
  assert (Hne : secret ≠ "") by (intros Hs; by rewrite Hs in Hsecret).
  intros Hmain. split; [done|].
  pose proof (λ c, with_flags_calls _ _ _ _ _ c Hmain) as Hin. unfold sync_operator_calls in Hin.
  cbn [SyncGitAccessToken Config.WebhookSecret] in Hin.
  split; [|split].
  - intros path h Hh. destruct (Hin _ Hh) as (s & f & rest & _ & _ & _ & Htodo).
    assert (Heq : path = WebhookPath ∧ WebhookSecret h = secret) by (set_unfold in Htodo; naive_solver).
    destruct Heq as [-> Hs]. split; [done|]. split; [done|]. split; [congruence|].
    intros r w Hno. destruct (serve_cases h r w) as [[pu (_ & body & Hb & Hv & _)]|[Hr Hw]].
    + apply verify_spec in Hv as (_ & digits & Hd & Hx). rewrite Hs in Hx. by destruct (Hno body Hb digits Hd).
    + split; [done|by eapply refusal_status].
  - intros Hst. destruct (Hin _ Hst) as (s & f & rest & _ & _ & Hrun & _).
    eexists _, _. by apply (started_all [_; _; _; _] _ _ Hrun); [set_solver|].
  - intros o Ho. destruct (Hin _ Ho) as (s & f & rest & Hscheme & Hf & _ & Htodo).
    assert (Heq : o = manager_options (Inputs s "accord-sync-operator.accord.io" f))
      by (set_unfold in Htodo; naive_solver).
    destruct (flags_provenance args f rest Hf) as [Hs Hh]. pose proof (manager_options_configured f
      "accord-sync-operator.accord.io" s) as Hconf. rewrite <- Heq in Hconf. destruct (Hconf) as [_ Hw Hm _ _ _ [Hsec Hauth] _ _].
    split; [by exists f, rest, s|]. split.
    + destruct (enableHTTP2 f); [right; by apply Hh|left]. by intros c; rewrite Hw, Hm.
    + rewrite Hsec, Hauth. destruct (secureMetrics f); [by left|right; by apply Hs].
Qed.
End claims.

(** Which call of a list a call is. *)
Ltac in_calls H :=
  repeat (apply elem_of_cons in H as [H|H]; [try discriminate H; injection H as; subst|]);
  [..|by apply elem_of_nil in H].

Section watched.
Context `{GoUnicode} `{TextTemplate} `{Float64} `{JsonMessages} `{SigsYaml}.
Context {O : Type} `{!RuntimeObject O} `{!ClientObject O}.
Context {C S B : Type} (http_Client : Z → C) `{!RuntimeScheme (S := S) (B := B)} `{!RuntimeSchemeLaws} `{!LibraryFlags}.
Context `{!ControllerRuntime (C := C) (S := S)}.

(** The reconciler reads objects of no other kind. *)
Definition reads_only (r : reconciler) (gvk : GroupVersionKind) : Prop :=
  ∀ get get' : client_reader O, (∀ ns n, get gvk ns n = get' gvk ns n) →
  ∀ s ns n, run_reconciler r get s ns n = run_reconciler r get' s ns n.

Lemma inventory_reads tmpl :
  reads_only (ApplicationReconciler tmpl) ApplicationGVK ∧ reads_only (ApplicationSetReconciler tmpl) ApplicationSetGVK.
Proof.
  split; intros get get' Hsame s ns n; cbn [run_reconciler].
  - unfold Reconcile_Application. by rewrite Hsame.
  - unfold Reconcile_ApplicationSet. by rewrite Hsame.
Qed.

(** C35: every controller watches objects its manager can tell the kind of, and of
    the kind it is there for. In the inventory-controller the controller named after
    Application is set up with the reconciler of Applications and watches exactly
    argoproj.io/v1alpha1 Application, the only kind that reconciler reads, the one
    named after ApplicationSet likewise, both with the configured template, and the
    manager is started only with both set up. Their objects are unstructured and
    carry their kind themselves. The mirror-upgrader depends on its scheme: it
    watches a typed object, which its scheme resolves to MirrorUpgradeRequest of
    ops.accord.io/v1alpha1 and that of the other binaries does not know. The
    sync-operator has no controller. *)
Theorem controllers_watch_known_kinds env args :
  (∀ code (calls : list (setup_call (C := C) (S := S))), inventory_controller_main env args = (code, calls) →
     (∀ o watched name r, CallNewManager o ∈ calls → CallController watched name r ∈ calls →
        ∃ cfg gvk, LoadInventoryControllerConfig env = Ok cfg ∧
          (name = "accord-inventory-application" ∧ gvk = ApplicationGVK ∧
             r = ApplicationReconciler (ExportPathTemplate cfg) ∨
           name = "accord-inventory-applicationset" ∧ gvk = ApplicationSetGVK ∧
             r = ApplicationSetReconciler (ExportPathTemplate cfg)) ∧
          GVKForObject watched (opt_Scheme o) = Some gvk ∧ reads_only r gvk) ∧
     (CallStart ∈ calls → ∃ w1 r1 w2 r2, CallController w1 "accord-inventory-application" r1 ∈ calls ∧
        CallController w2 "accord-inventory-applicationset" r2 ∈ calls)) ∧
  (∀ code (calls : list (setup_call (C := C) (S := S))), mirror_upgrader_main args = (code, calls) →
     (∀ o watched name r, CallNewManager o ∈ calls → CallController watched name r ∈ calls →
        name = "mirrorupgraderequest" ∧ r = MirrorUpgradeRequestReconciler ∧
        GVKForObject watched (opt_Scheme o) = Some (GVK "ops.accord.io" "v1alpha1" "MirrorUpgradeRequest") ∧
        ∀ s, NewInventoryScheme = Some s → GVKForObject watched s = None) ∧
     (CallStart ∈ calls → ∃ w r, CallController w "mirrorupgraderequest" r ∈ calls)) ∧
  (∀ code (calls : list (setup_call (C := C) (S := S))) watched name r,
     sync_operator_main http_Client env args = (code, calls) → CallController watched name r ∉ calls).
Proof.
  split; [|split]; intros code calls.
  - unfold inventory_controller_main.
    destruct (LoadInventoryControllerConfig env) as [cfg|].
    2: { intros [= <- <-]. split; [by intros ? ? ? ? ?%elem_of_nil|by intros ?%elem_of_nil]. }
    intros Hmain. split.
    + intros o watched name r (s & f & rest & _ & _ & Hrun & Ho)%(with_flags_calls _ _ _ _ _ _ Hmain) Hc.
      apply (run_setup_elem _ _ _ _ Hrun) in Hc. unfold inventory_controller_calls in Hc. exists cfg.
      destruct (inventory_reads (ExportPathTemplate cfg)) as [Ha Hs].
      in_calls Hc; [exists ApplicationGVK|exists ApplicationSetGVK]; (split; [done|]);
        (split; [by auto|]); (split; [by apply gvk_unstructured|done]).
    + intros Hst. destruct (with_flags_calls _ _ _ _ _ _ Hmain Hst) as (s & f & rest & _ & _ & Hrun & _).
      rewrite (started_all [_; _; _; _; _; _] _ _ Hrun); [|set_solver|done]. eexists _, _, _, _. split.
      * do 2 right. by left.
      * do 3 right. by left.
  - unfold mirror_upgrader_main. intros Hmain. split.
    + intros o watched name r (s & f & rest & Hs & _ & Hrun & Ho)%(with_flags_calls _ _ _ _ _ _ Hmain) Hc.
      apply (run_setup_elem _ _ _ _ Hrun) in Hc. unfold mirror_upgrader_calls in Ho, Hc.
      in_calls Hc. in_calls Ho. do 2 (split; [done|]). split; [by apply NewScheme_resolves|].
      intros s'. apply NewInventoryScheme_refuses.
    + intros Hst. destruct (with_flags_calls _ _ _ _ _ _ Hmain Hst) as (s & f & rest & _ & _ & Hrun & _).
      rewrite (started_all [_; _; _; _] _ _ Hrun); [|set_solver|done]. eexists _, _. right. by left.
  - intros watched name r. unfold sync_operator_main.
    destruct (LoadSyncOperatorConfig env) as [cfg|]; [|intros [= <- <-] []%elem_of_nil].
    intros Hmain (s & f & rest & _ & _ & _ & Hc)%(with_flags_calls _ _ _ _ _ _ Hmain).
    unfold sync_operator_calls in Hc. by in_calls Hc.
Qed.
End watched.

(** ** Witness: an environment with a secret, on a runtime where every call works *)

Module Sample.
#[local] Existing Instances ascii_tables fragment_engine literal_f64 plain_messages plain_event_messages json_yaml
  map_object map_unstructured text_object text_annotations.

(** A scheme as the kinds registered, a builder as its group version and types. *)
Abbreviation kind_table := (list (go_type * GroupVersionKind)).
Definition kinds_at (s : kind_table) (t : go_type) : list GroupVersionKind :=
  (filter (λ p, p.1 = t) s).*2.
Definition add_kinds (gv : GroupVersion) (ts : list go_type) (s : kind_table) : kind_table :=
  ((λ t, (t, kind_under gv t)) <$> remove_dups ts) ++ s.
Definition table_scheme : RuntimeScheme (S := kind_table) (B := GroupVersion * list go_type) := {|
  runtime_NewScheme := [];
  clientgo_AddToScheme s := Ok ((TOther "k8s.io/api/core/v1" "Pod", GVK "" "v1" "Pod") :: s);
  AddKnownTypes := add_kinds;
  AddToGroupVersion gv s := (TOther "meta/v1" "WatchEvent", GVK (gv_Group gv) (gv_Version gv) "WatchEvent") :: s;
  scheme_Builder gv := (gv, []);
  Register ts b := (b.1, b.2 ++ ts);
  Builder_AddToScheme b s := Ok (add_kinds b.1 b.2 s);
  ObjectKinds := kinds_at;
  GVKForObject o s :=
    if decide (obj_type o = TUnstructured)
    then if decide (ExportPath.Kind (obj_GVK o) = "" ∨ ExportPath.Version (obj_GVK o) = "") then None else Some (obj_GVK o)
    else match kinds_at s (obj_type o) with [g] => Some g | _ => None end
|}.
#[local] Existing Instance table_scheme.
Definition no_library_flags : LibraryFlags := {| library_flag _ := None |}.
#[local] Existing Instance no_library_flags.

Lemma kinds_skip t g s t' : own_type t' → ¬ own_type t → kinds_at ((t, g) :: s) t' = kinds_at s t'.
Proof. intros Ht' Ht. unfold kinds_at. rewrite filter_cons. case_decide as Heq; [by cbn in Heq; subst|done]. Qed.

Lemma kinds_add gv ts s t :
  kinds_at (add_kinds gv ts s) t = (if decide (t ∈ ts) then [kind_under gv t] else []) ++ kinds_at s t.
Proof.
  unfold kinds_at, add_kinds. rewrite filter_app, fmap_app. f_equal.
  assert (Hnd : NoDup (remove_dups ts)) by apply NoDup_remove_dups.
  assert (Hin : t ∈ remove_dups ts ↔ t ∈ ts) by apply elem_of_remove_dups.
  revert Hnd Hin. generalize (remove_dups ts) as l. intros l Hnd.
  assert (Hl : (filter (λ p : go_type * GroupVersionKind, p.1 = t) ((λ t, (t, kind_under gv t)) <$> l)).*2 =
    if decide (t ∈ l) then [kind_under gv t] else []).
  { induction Hnd as [|a l Ha Hnd IH]; [done|]. cbn [fmap list_fmap]. rewrite filter_cons. cbn [fst].
    destruct (decide (a = t)) as [->|Hat].
    - rewrite (decide_True (P := t ∈ t :: l)) by (by left). cbn. rewrite decide_False in IH by done.
      by rewrite IH.
    - rewrite IH. by do 2 case_decide; [..|set_solver|set_solver|]. }
  rewrite Hl. intros Hin. by do 2 case_decide; [..|tauto|tauto|].
Qed.

#[local] Instance table_scheme_laws : RuntimeSchemeLaws (S := kind_table) (B := GroupVersion * list go_type).
Proof.
  split; unfold ObjectKinds, AddKnownTypes, AddToGroupVersion, clientgo_AddToScheme, runtime_NewScheme,
    Builder_AddToScheme, Register, scheme_Builder, GVKForObject, table_scheme.
  - done.
  - intros s s' t [= <-] Ht. apply kinds_skip; [exact Ht|intros []].
  - intros gv s t Ht. apply kinds_skip; [exact Ht|intros []].
  - intros gv ts s t Ht Hs. by rewrite kinds_add, Hs, decide_True.
  - intros gv ts s t Ht. by rewrite kinds_add, decide_False.
  - intros gv ts s s' t [= <-] _. done.
  - intros g s Hk Hv. cbn [obj_type obj_GVK]. rewrite decide_True by done. rewrite decide_False; [done|tauto].
  - intros t g s k Ht Hk. cbn [obj_type]. by rewrite decide_False, Hk.
  - intros t g s Ht Hk. cbn [obj_type]. by rewrite decide_False, Hk.
Qed.

Abbreviation a_call := (setup_call (C := unit) (S := kind_table)).
Definition working_runtime : ControllerRuntime (C := unit) (S := kind_table) := {| ctrl_error _ _ := None |}.
Definition secret_env : environ := {[ "WEBHOOK_SECRET" := "s3cret" ]}.
Definition idle_kube : KubeClient (list (string * json f64)) unit := {|
  k8s_Apply _ _ _ w := (Ok tt, w); k8s_Delete _ w := (Ok tt, w) |}.
Definition idle_http : HttpClient unit unit := {|
  http_NewRequest _ := None; http_DefaultClient := tt; http_Do _ _ w := (Failed (Err "unreachable"), w) |}.
#[local] Existing Instances working_runtime idle_kube idle_http.

Definition secret_run : Z * list a_call :=
  sync_operator_main (λ _, tt) secret_env ["--leader-elect"; "--metrics-bind-address=:8443"].

Lemma sync_operator_main_authenticated_witness :
  secret_run.1 = 0%Z ∧
  (∀ path h, CallRegister path h ∈ secret_run.2 → path = "/api/v1/webhook" ∧ WebhookSecret h = "s3cret") ∧
  ∀ o, CallNewManager o ∈ secret_run.2 → BindAddress (Metrics o) = ":8443" ∧ LeaderElection o = true.
Proof.
  destruct (sync_operator_main_authenticated (λ _, tt) secret_env ["--leader-elect"; "--metrics-bind-address=:8443"]
    secret_run.1 secret_run.2 (surjective_pairing secret_run)) as (_ & Hreg & _ & Hopts).
  split; [by vm_compute|]. split.
  - intros path h Hin. destruct (Hreg path h Hin) as (Hp & Hs & _). split; [exact Hp|exact Hs].
  - intros o Hin. destruct (Hopts o Hin) as ((f & rest & s & Hf & _ & Hconf) & _).
    vm_compute in Hf. injection Hf as <- _. destruct Hconf as [_ _ _ _ _ Hb _ _ [Hl _]]. split; [exact Hb|exact Hl].
Defined.

(** The inventory-controller and the mirror-upgrader, both started. *)
Definition repo_env : environ := {[ "GIT_REPO_URL" := "https://example.org/r" ]}.
Abbreviation inventory_run := (inventory_controller_main repo_env [] : Z * list a_call).
Abbreviation mirror_run := (mirror_upgrader_main [] : Z * list a_call).

Lemma controllers_watch_known_kinds_witness :
  (∃ w1 r1 w2 r2, CallController w1 "accord-inventory-application" r1 ∈ inventory_run.2 ∧
     CallController w2 "accord-inventory-applicationset" r2 ∈ inventory_run.2) ∧
  ∃ o, CallNewManager o ∈ mirror_run.2 ∧
    GVKForObject (Object_ TMirrorUpgradeRequest (GVK "" "" "")) (opt_Scheme o) =
      Some (GVK "ops.accord.io" "v1alpha1" "MirrorUpgradeRequest").
Proof.
  destruct (controllers_watch_known_kinds (O := string) (λ _, tt) repo_env []) as (Hi & Hm & _). split.
  - apply (Hi inventory_run.1 inventory_run.2 (surjective_pairing inventory_run)).
    do 6 right. by left.
  - eexists. split; [left|].
    apply (proj1 (Hm mirror_run.1 mirror_run.2 (surjective_pairing mirror_run)) _ _ "mirrorupgraderequest" MirrorUpgradeRequestReconciler); [left|right; left].
Defined.
End Sample.
