(* ===== verification/Convergence.v ===== *)
(** The inventory side as a whole: objects that change in the cluster, the
    reconciles that follow, and the flushes of the batch worker, up to the files
    of the branch. *)
From S2P Require Import Prelude GoStrings GoPath GoCrypto GoMap GoJson GoJsonFacts Config ExportPath InventoryPath ConfigMapMaterial Normalize ArchivePath GitBatch Fs BatchWorker BatchWorkerFacts ExportBatch WorkerQueue HashCache Reconciler.

(** ** The system *)

(** Kind, namespace and name. *)
Abbreviation object_id := (string * string * string)%type.

Definition id_ok (id : object_id) : Prop :=
  argo_kind id.1.1 ∧ plain_elem id.1.2 = true ∧ k8s_segment id.2.

Section system.
Context `{GoUnicode} `{TextTemplate} `{Float64Laws} `{JsonMessages} `{!SigsYaml}.
Context `{OsFaults} `{TempDirsLaws} `{GoGitSpec}.
Context {O : Type} `{!RuntimeObject O} `{!ClientObject O}.
Context (cfg : InventoryControllerConfig) (disk : fs).

(** The objects of the cluster; the identities changed since their last
    reconcile; the cache and the queue; the batch in progress; the repository. *)
Record sys := Sys {
  objects : gmap object_id O; dirty : gset object_id; ctl : rstate;
  progress : option batch; repository : remote }.

Definition cluster_reader (objs : gmap object_id O) : client_reader O := λ gvk ns name,
  match objs !! (ExportPath.Kind gvk, ns, name) with
  | Some obj => Ok obj
  | None => Failed (ErrAPI "NotFound" (name +:+ " not found"))
  end.

(** What the read of an object can be answered with: the object or that there is
    none, as the cluster is, or another error. *)
Definition answers (objs : gmap object_id O) (id : object_id) (get : client_reader O) : Prop :=
  get (kind_gvk id.1.1) id.1.2 id.2 = cluster_reader objs (kind_gvk id.1.1) id.1.2 id.2 ∨
  ∃ e, get (kind_gvk id.1.1) id.1.2 id.2 = Failed e ∧ IsNotFound e = false.

Definition reconcile_object (get : client_reader O) (id : object_id) (ct : rstate) : result unit * rstate :=
  Reconcile id.1.1 get defaultExportPathTemplate ct id.1.2 id.2.

(** The reconcile queues an operation: on an empty queue it would leave one. *)
Definition exports (get : client_reader O) (id : object_id) (c : HashCache) : bool :=
  bool_decide (GitQueue (reconcile_object get id (RState c ∅)).2 ≠ ∅).

(** controller-runtime forgets a request that was reconciled, and queues it again
    after an error. *)
Definition requeue (res : result unit) (id : object_id) (D : gset object_id) : gset object_id :=
  if is_ok res then D ∖ {[id]} else {[id]} ∪ D.

Definition cache_key (id : object_id) : string := ExportObjectCacheKey id.1.1 id.1.2 id.2.
Definition export_rel (id : object_id) : string := default_path id.1.1 id.1.2 id.2.
Definition branch_ref : string := NewBranchReferenceName (branch_of cfg).
Definition live_file (r : remote) (id : object_id) : option string :=
  f ← branch_files r branch_ref; (f : files) !! live_key (export_rel id).

(** What a step is about: a change of an object; a reconcile, and whether it queued
    an operation; a batch taken; one published, from a clone of some remote; one
    put back; one dropped; a push of someone else. *)
Inductive label :=
| LChange (id : object_id)
| LReconcile (id : object_id) (exported : bool)
| LTake
| LPublish (cloned : remote)
| LFail
| LDrop (b : batch)
| LPush.

Definition has_repository : Prop := strings_TrimSpace (GitRepoURL cfg) ≠ "".

(** The batch worker. The clone may be of an older state of the repository than the
    one the push meets. A batch is put back after a failed export whatever was
    enqueued meanwhile; the remote is as it was then, or the push that is reported
    as failed arrived. Without a repository batches are dropped. *)
Inductive worker_step : sys → label → sys → Prop :=
| worker_take s b q' : progress s = None → flush_take (GitQueue (ctl s)) = Some (b, q') →
    worker_step s LTake (Sys (objects s) (dirty s) (RState (Cache (ctl s)) q') (Some b) (repository s))
| worker_publish s b dir r0 rp tree order disk' r' : progress s = Some b → has_repository →
    export_ready cfg disk dir r0 rp tree b → order ≡ₚ map_to_list b →
    exportBatch cfg disk r0 (repository s) b order = (Ok tt, disk', r') →
    worker_step s (LPublish r0)
      (Sys (objects s) (dirty s) (RState (Cache (ctl s)) (flush_finish (GitQueue (ctl s)) b (Ok tt))) None r')
| worker_fail s b d r0 order d' e : progress s = Some b → has_repository →
    exportBatch cfg d r0 (repository s) b order = (Failed e, d', repository s) →
    worker_step s LFail
      (Sys (objects s) (dirty s) (RState (Cache (ctl s)) (flush_finish (GitQueue (ctl s)) b (Failed e))) None
         (repository s))
| worker_unanswered s b dir r0 rp tree order disk' e r' : progress s = Some b → has_repository →
    export_ready cfg disk dir r0 rp tree b → order ≡ₚ map_to_list b →
    exportBatch cfg disk r0 (repository s) b order = (Failed e, disk', r') →
    worker_step s LFail
      (Sys (objects s) (dirty s) (RState (Cache (ctl s)) (flush_finish (GitQueue (ctl s)) b (Failed e))) None r')
| worker_drop s b : progress s = Some b → ¬ has_repository →
    worker_step s (LDrop b)
      (Sys (objects s) (dirty s) (RState (Cache (ctl s)) (flush_finish (GitQueue (ctl s)) b (Ok tt))) None (repository s)).

Inductive sys_step : sys → label → sys → Prop :=
| sys_change s id o : id_ok id →
    sys_step s (LChange id)
      (Sys (partial_alter (λ _, o) id (objects s)) ({[id]} ∪ dirty s) (ctl s) (progress s) (repository s))
| sys_reconcile s id get res ctl' : id_ok id → answers (objects s) id get →
    reconcile_object get id (ctl s) = (res, ctl') →
    sys_step s (LReconcile id (exports get id (Cache (ctl s))))
      (Sys (objects s) (requeue res id (dirty s)) ctl' (progress s) (repository s))
| sys_worker s l s' : worker_step s l s' → sys_step s l s'
| sys_push s r' : sys_step s LPush (Sys (objects s) (dirty s) (ctl s) (progress s) r').

(** A restart of the process: cache, queue and the batch in progress are gone, and
    the controllers are told of every object there is. *)
Definition restarted (s : sys) : sys :=
  Sys (objects s) (dom (objects s)) (RState NewHashCache ∅) None (repository s).

(** The objects the process is up to date with after a step, if it was with those
    of [T] before: a reconcile that queues an operation brings it up to date; a
    batch put back over a newer operation on the path, an operation dropped, a file
    that someone else pushed a change of, and one that changed between clone and
    push put it out of date. *)
Definition tracking (T : object_id → Prop) (s : sys) (l : label) (s' : sys) (id : object_id) : Prop :=
  match l with
  | LChange _ | LTake | LReconcile _ false => T id
  | LReconcile id' true => T id ∨ id = id'
  | LPublish r0 => T id ∧ live_file r0 id = live_file (repository s) id
  | LFail => T id ∧ ∀ op, GitQueue (ctl s) !! export_rel id = Some op → GitQueue (ctl s') !! export_rel id = Some op
  | LDrop b => T id ∧ b !! export_rel id = None
  | LPush => T id ∧ live_file (repository s') id = live_file (repository s) id
  end.

(** The states of all runs, with restarts, from an empty cluster and any
    repository. A process that starts, with an empty cache, is up to date with the
    objects that have no file. *)
Inductive sys_reach : (object_id → Prop) → sys → Prop :=
| sys_init r : sys_reach (λ id, live_file r id = None) (Sys ∅ ∅ (RState NewHashCache ∅) None r)
| sys_next T s l s' : sys_reach T s → sys_step s l s' → sys_reach (tracking T s l s') s'
| sys_restart T s : sys_reach T s → sys_reach (λ id, live_file (repository s) id = None) (restarted s).

(** ** The invariant *)

(** The latest operation on the path of an object: queued, in progress, or done
    and visible on the branch. *)
Definition shown (s : sys) (id : object_id) : pendingExport :=
  match GitQueue (ctl s) !! export_rel id with
  | Some op => op
  | None =>
      match progress s ≫= (λ b, b !! export_rel id) with
      | Some op => op
      | None => match live_file (repository s) id with
                | Some c => Pending opWrite c
                | None => Pending opArchive ""
                end
      end
  end.

Definition cache_shown (s : sys) (id : object_id) : Prop :=
  match Cache (ctl s) !! cache_key id with
  | Some h => ∃ (obj : O) y, NormalizedYAMLAndMaterialHash obj = Ok (y, h) ∧ shown s id = Pending opWrite y
  | None => kind (shown s id) = opArchive
  end.

(** The reconcile of the object as it is would find nothing to do. *)
Definition reconciled (s : sys) (id : object_id) : Prop :=
  match objects s !! id with
  | Some obj => ∃ y h, NormalizedYAMLAndMaterialHash obj = Ok (y, h) ∧
      (annotation_matches obj h = true ∨ Cache (ctl s) !! cache_key id = Some h)
  | None => Cache (ctl s) !! cache_key id = None
  end.

Record sys_inv (T : object_id → Prop) (s : sys) : Prop := {
  inv_ids id : is_Some (objects s !! id) ∨ id ∈ dirty s → id_ok id;
  inv_cache id : id_ok id → T id → cache_shown s id;
  inv_clean id : id_ok id → id ∉ dirty s → reconciled s id
}.

(** What preserves [cache_shown] when the cache does. *)
Definition shown_le (op op' : pendingExport) : Prop :=
  match kind op with opWrite => op' = op | opArchive => kind op' = opArchive end.

Lemma cache_shown_le s s' id :
  Cache (ctl s') !! cache_key id = Cache (ctl s) !! cache_key id →
  shown_le (shown s id) (shown s' id) → cache_shown s id → cache_shown s' id.
Proof.
  unfold cache_shown, shown_le. intros ->. destruct (Cache (ctl s) !! cache_key id) as [h|].
  - intros Hle (obj & y & Hy & Hs). rewrite Hs in Hle. cbn in Hle. by exists obj, y.
  - intros Hle Hs. by rewrite Hs in Hle.
Qed.

Lemma shown_le_refl op : shown_le op op.
Proof. unfold shown_le. by destruct (kind op) eqn:Hk. Qed.

Lemma id_rel id : id_ok id → inventory_rel (export_rel id).
Proof.
  intros (Hk & Hns & Hn). exists (ArgoPluralKind id.1.1), id.1.2, id.2.
  split; [by apply ArgoPluralKind_export|]. by split.
Qed.

Lemma id_same id id' :
  id_ok id → id_ok id' → (cache_key id = cache_key id' ↔ id = id') ∧ (export_rel id = export_rel id' ↔ id = id').
Proof.
  intros (Hk & Hns & Hn) (Hk' & Hns' & Hn').
  apply plain_no_slash in Hns, Hns'.
  pose proof (same_object _ _ _ _ _ _ Hk Hk' Hns Hn Hns' Hn') as Hsame. unfold cache_key, export_rel.
  assert (Hinj : ExportObjectCacheKey id.1.1 id.1.2 id.2 = ExportObjectCacheKey id'.1.1 id'.1.2 id'.2 → id = id').
  { intros (H1' & H2' & H3')%cache_key_inj; try done. destruct id as [[??]?], id' as [[??]?]. cbn in *. congruence. }
  split; (split; [|by intros ->]); [done|]. intros Heq. apply Hinj. by apply Hsame.
Qed.

(** ** Each step preserves the invariant *)

(** A reconcile that acts: a new slot of the cache and an operation queued. *)
Definition put (id : object_id) (c : option string) (op : pendingExport) (ct : rstate) : rstate :=
  RState (partial_alter (λ _, c) (cache_key id) (Cache ct)) (<[export_rel id := op]> (GitQueue ct)).

Lemma put_same id c op ct :
  Cache (put id c op ct) !! cache_key id = c ∧ GitQueue (put id c op ct) !! export_rel id = Some op.
Proof. cbn. by rewrite lookup_partial_alter_eq, lookup_insert_eq. Qed.

Lemma put_other id id' c op ct :
  id_ok id → id_ok id' → id ≠ id' →
  Cache (put id c op ct) !! cache_key id' = Cache ct !! cache_key id' ∧
  GitQueue (put id c op ct) !! export_rel id' = GitQueue ct !! export_rel id'.
Proof.
  intros Hid Hid' Hne. destruct (id_same id id' Hid Hid') as [Hk Hr]. cbn.
  rewrite lookup_partial_alter_ne, lookup_insert_ne; [done|by rewrite Hr|by rewrite Hk].
Qed.

Lemma reader_object (objs : gmap object_id O) id :
  argo_kind id.1.1 →
  cluster_reader objs (kind_gvk id.1.1) id.1.2 id.2 =
  match objs !! id with Some obj => Ok obj | None => Failed (ErrAPI "NotFound" (id.2 +:+ " not found")) end.
Proof.
  intros Hk. unfold cluster_reader. replace (ExportPath.Kind (kind_gvk id.1.1), id.1.2, id.2) with id; [done|].
  destruct id as [[k ns] n]. cbn in *. by destruct Hk as [-> | ->].
Qed.

(** What a reconcile does when it queues nothing, and what it puts when it does;
    neither depends on the queue. *)
Definition idle (g : result O) (cached : option string) (res : result unit) : Prop :=
  match g with
  | Ok obj => match NormalizedYAMLAndMaterialHash obj with
              | Ok (y, h) => res = Ok tt ∧ (annotation_matches obj h = true ∨ cached = Some h)
              | Failed _ => is_ok res = false
              end
  | Failed e => IsNotFound e = false ∧ is_ok res = false
  end.
Definition truthful (g : result O) (c : option string) (op : pendingExport) : Prop :=
  match g with
  | Ok obj => ∃ y h, NormalizedYAMLAndMaterialHash obj = Ok (y, h) ∧ annotation_matches obj h = false ∧
                c = Some h ∧ op = Pending opWrite y
  | Failed e => IsNotFound e = true ∧ c = None ∧ op = Pending opArchive ""
  end.

Lemma reconcile_shape get id c :
  id_ok id → let g := get (kind_gvk id.1.1) id.1.2 id.2 in
  (∃ res, idle g (c !! cache_key id) res ∧ exports get id c = false ∧
     ∀ q, reconcile_object get id (RState c q) = (res, RState c q)) ∨
  (∃ slot op, truthful g slot op ∧ exports get id c = true ∧
     ∀ q, reconcile_object get id (RState c q) = (Ok tt, put id slot op (RState c q))).
Proof.
  intros (Hk & _ & _) g.
  assert (Hidle : ∀ res, (∀ q, reconcile_object get id (RState c q) = (res, RState c q)) → exports get id c = false).
  { intros res Hq. unfold exports. rewrite Hq. apply bool_decide_eq_false_2. intros Hne. by apply Hne. }
  assert (Hput : ∀ slot op, (∀ q, reconcile_object get id (RState c q) = (Ok tt, put id slot op (RState c q))) →
    exports get id c = true).
  { intros slot op Hq. unfold exports. rewrite Hq. apply bool_decide_eq_true_2. cbn. apply insert_non_empty. }
  unfold idle, truthful. subst g. unfold reconcile_object in *.
  destruct (get (kind_gvk id.1.1) id.1.2 id.2) as [obj|e] eqn:Hg.
  - assert (Hrun : ∀ q, Reconcile id.1.1 get defaultExportPathTemplate (RState c q) id.1.2 id.2 =
      handle defaultExportPathTemplate (RState c q) id.1.2 id.2 obj id.1.1) by (intros q; by apply reconcile_found).
    unfold handle in Hrun. destruct (NormalizedYAMLAndMaterialHash obj) as [[y h]|e'] eqn:Hn.
    + destruct (annotation_matches obj h) eqn:Ha; [left; exists (Ok tt); split; [auto|split; [by eapply Hidle|done]]|].
      cbn [Cache GitQueue] in Hrun. unfold Get in Hrun. fold (cache_key id) in Hrun.
      case_bool_decide as Hc; [left; exists (Ok tt); split; [auto|split; [by eapply Hidle|done]]|].
      right. exists (Some h), (Pending opWrite y). rewrite render_default in Hrun.
      split; [by exists y, h|]. split; [by apply (Hput _ _ Hrun)|exact Hrun].
    + left. eexists. split; [|split; [by eapply Hidle|exact Hrun]]. done.
  - destruct (IsNotFound e) eqn:He.
    + right. exists None, (Pending opArchive ""). pose proof (λ q, reconcile_gone _ _ (RState c q) _ _ _ Hk Hg He) as Hrun.
      split; [done|]. split; [by apply (Hput _ _ Hrun)|exact Hrun].
    + left. pose proof (λ q, reconcile_failed _ _ defaultExportPathTemplate (RState c q) _ _ _ Hk Hg He) as Hrun.
      eexists. split; [|split; [by eapply Hidle|exact Hrun]]. done.
Qed.

(** One of the two, on the object as the cluster has it. *)
Lemma reconcile_cases s id get res ctl' :
  id_ok id → answers (objects s) id get → reconcile_object get id (ctl s) = (res, ctl') →
  (exports get id (Cache (ctl s)) = false ∧ ctl' = ctl s ∧ (res = Ok tt → ∃ obj y h, objects s !! id = Some obj ∧
     NormalizedYAMLAndMaterialHash obj = Ok (y, h) ∧
     (annotation_matches obj h = true ∨ Cache (ctl s) !! cache_key id = Some h))) ∨
  (exports get id (Cache (ctl s)) = true ∧ res = Ok tt ∧ ∃ c op, ctl' = put id c op (ctl s) ∧
     match objects s !! id with
     | Some obj => ∃ y h, NormalizedYAMLAndMaterialHash obj = Ok (y, h) ∧ c = Some h ∧ op = Pending opWrite y
     | None => c = None ∧ op = Pending opArchive ""
     end).
Proof.
  intros Hid Hans Hrun. assert (Heta : RState (Cache (ctl s)) (GitQueue (ctl s)) = ctl s) by by destruct (ctl s).
  unfold answers in Hans. rewrite reader_object in Hans by apply Hid.
  destruct (reconcile_shape get id (Cache (ctl s)) Hid) as [(res' & Hidle & -> & Hq)|(c & op & Ht & -> & Hq)];
    specialize (Hq (GitQueue (ctl s))); rewrite Heta, Hrun in Hq; injection Hq as -> ->; [left|right].
  - do 2 (split; [done|]). intros ->. unfold idle in Hidle. destruct Hans as [Hg|(e & Hg & He)]; rewrite Hg in Hidle.
    + destruct (objects s !! id) as [obj|]; [|by destruct Hidle].
      destruct (NormalizedYAMLAndMaterialHash obj) as [[y h]|] eqn:Hn; [|done]. by exists obj, y, h; destruct Hidle.
    + by destruct Hidle.
  - do 2 (split; [done|]). exists c, op. split; [done|]. unfold truthful in Ht.
    destruct Hans as [Hg|(e & Hg & He)]; rewrite Hg in Ht; [|by destruct Ht as [? _]; congruence].
    destruct (objects s !! id) as [obj|]; [|by destruct Ht as (_ & -> & ->)].
    destruct Ht as (y & h & Hn & _ & -> & ->). by exists y, h.
Qed.

Lemma inv_change T s id o :
  sys_inv T s → id_ok id →
  sys_inv T (Sys (partial_alter (λ _, o) id (objects s)) ({[id]} ∪ dirty s) (ctl s) (progress s) (repository s)).
Proof.
  intros [Hids Hcache Hclean] Hid. split; cbn [objects dirty ctl progress repository].
  - intros id'. destruct (decide (id = id')) as [->|Hne]; [done|].
    rewrite lookup_partial_alter_ne by done. set_solver.
  - intros id' Hid' HT. by apply Hcache.
  - intros id' Hid' Hd. unfold reconciled. cbn [objects ctl].
    rewrite lookup_partial_alter_ne by set_solver. apply Hclean; [done|set_solver].
Qed.

Lemma requeue_ids res id D id' : id' ∈ requeue res id D → id' ∈ D ∨ id' = id.
Proof. unfold requeue. destruct res; cbn; set_solver. Qed.
Lemma requeue_other res id D id' : id' ≠ id → id' ∈ requeue res id D ↔ id' ∈ D.
Proof. unfold requeue. destruct res; cbn; set_solver. Qed.
Lemma requeue_same res id D : id ∈ requeue res id D ↔ is_ok res = false.
Proof. unfold requeue. destruct res; cbn; set_solver. Qed.

Lemma inv_reconcile T s id get res ctl' :
  sys_inv T s → id_ok id → answers (objects s) id get → reconcile_object get id (ctl s) = (res, ctl') →
  sys_inv (λ id', if exports get id (Cache (ctl s)) then T id' ∨ id' = id else T id')
    (Sys (objects s) (requeue res id (dirty s)) ctl' (progress s) (repository s)).
Proof.
  intros [Hids Hcache Hclean] Hid Hans Hrun.
  assert (Hids' : ∀ id', is_Some (objects s !! id') ∨ id' ∈ requeue res id (dirty s) → id_ok id').
  { intros id' [?|[?| ->]%requeue_ids]; auto. }
  destruct (reconcile_cases s id get res ctl' Hid Hans Hrun) as [(-> & -> & Hdone)|(-> & -> & c & op & -> & Ht)].
  - split; cbn [objects dirty]; [done|by intros; apply Hcache|]. intros id' Hid' Hd.
    destruct (decide (id' = id)) as [->|Hne].
    + rewrite requeue_same in Hd. destruct res as [[]|e]; [|done].
      destruct (Hdone eq_refl) as (obj & y & h & Ho & Hy). unfold reconciled. cbn [objects ctl]. rewrite Ho. by exists y, h.
    + apply Hclean; [done|]. by rewrite requeue_other in Hd.
  - split; cbn [objects dirty]; [done| |]; intros id' Hid'.
    + intros HT. destruct (decide (id = id')) as [<-|Hne].
      * unfold cache_shown, shown. cbn [ctl]. destruct (put_same id c op (ctl s)) as [-> ->].
        destruct (objects s !! id) as [obj|]; [|by destruct Ht as [-> ->]].
        destruct Ht as (y & h & Hy & -> & ->). by exists obj, y.
      * destruct (put_other id id' c op (ctl s) Hid Hid' Hne) as [Hc Hq].
        apply (cache_shown_le s); [exact Hc| |apply Hcache; [done|by destruct HT as [|<-]]].
        unfold shown. cbn [ctl progress repository]. rewrite Hq. apply shown_le_refl.
    + intros Hd. unfold reconciled. cbn [objects ctl]. destruct (decide (id = id')) as [<-|Hne].
      * destruct (put_same id c op (ctl s)) as [-> _].
        destruct (objects s !! id) as [obj|]; [|by destruct Ht as [-> _]].
        destruct Ht as (y & h & Hy & -> & _). exists y, h. auto.
      * destruct (put_other id id' c op (ctl s) Hid Hid' Hne) as [-> _]. apply Hclean; [done|].
        by rewrite requeue_other in Hd.
Qed.

Lemma inv_restart T s : sys_inv T s → sys_inv (λ id, live_file (repository s) id = None) (restarted s).
Proof.
  intros [Hids _ _]. unfold restarted. split; cbn [objects dirty ctl Cache].
  - intros id [Hid|Hid%elem_of_dom]; apply Hids; by left.
  - intros id Hid. unfold cache_shown, shown, NewHashCache.
    cbn [ctl Cache GitQueue progress repository mbind option_bind]. rewrite !lookup_empty. by intros ->.
  - intros id Hid Hd%not_elem_of_dom. unfold reconciled. cbn [objects ctl Cache]. by rewrite Hd.
Qed.

(** Steps of the worker, and of others on the repository, leave the cache alone;
    what is shown changes at most from a write to itself. *)
Lemma inv_worker (T T' : object_id → Prop) s ct pr r :
  sys_inv T s → Cache ct = Cache (ctl s) →
  (∀ id, id_ok id → T' id → T id ∧ shown_le (shown s id) (shown (Sys (objects s) (dirty s) ct pr r) id)) →
  sys_inv T' (Sys (objects s) (dirty s) ct pr r).
Proof.
  intros [Hids Hcache Hclean] Hct Hle. split; cbn [objects dirty]; [exact Hids| |]; intros id Hid.
  - intros HT. destruct (Hle id Hid HT) as [HT0 Hs].
    apply (cache_shown_le s); [cbn; by rewrite Hct|exact Hs|by apply Hcache].
  - intros Hd. unfold reconciled. cbn [objects ctl]. rewrite Hct. by apply Hclean.
Qed.

Lemma inv_take T s b q' :
  sys_inv T s → progress s = None → flush_take (GitQueue (ctl s)) = Some (b, q') →
  sys_inv T (Sys (objects s) (dirty s) (RState (Cache (ctl s)) q') (Some b) (repository s)).
Proof.
  intros Hinv Hp Ht. apply (inv_worker T); [done|done|]. intros id Hid HT. split; [done|].
  unfold flush_take in Ht. case_decide; [done|]. injection Ht as <- <-.
  unfold shown. rewrite Hp. cbn [ctl GitQueue progress repository mbind option_bind]. rewrite lookup_empty.
  destruct (GitQueue (ctl s) !! export_rel id); apply shown_le_refl.
Qed.

(** A batch put back, over a repository that shows the same files beside it. *)
Lemma inv_fail T s b e r' :
  sys_inv T s → progress s = Some b →
  (∀ id, id_ok id → b !! export_rel id = None → live_file r' id = live_file (repository s) id) →
  let s' := Sys (objects s) (dirty s) (RState (Cache (ctl s)) (flush_finish (GitQueue (ctl s)) b (Failed e))) None r' in
  sys_inv (tracking T s LFail s') s'.
Proof.
  intros Hinv Hp Hr s'. apply (inv_worker T); [done|done|]. intros id Hid [HT Hkept]. split; [done|].
  cbn [ctl GitQueue s'] in *. rewrite flush_finish_failed in *. rewrite lookup_union in Hkept.
  unfold shown. rewrite Hp. cbn [ctl GitQueue progress repository mbind option_bind]. rewrite lookup_union.
  specialize (Hr id Hid). destruct (b !! export_rel id) as [op|], (GitQueue (ctl s) !! export_rel id) as [op'|];
    cbn in *; try apply shown_le_refl.
  - specialize (Hkept _ eq_refl). injection Hkept as ->. apply shown_le_refl.
  - rewrite Hr by done. apply shown_le_refl.
Qed.

(** A published batch on the branch. *)
Lemma published_live (b : batch) (r r' : remote) (id : object_id) (old w : files) :
  id_ok id → inventory_batch b →
  branch_files r branch_ref = Some old → branch_files r' branch_ref = Some w →
  published b (λ k, old !! k) (λ k, w !! k) →
  match b !! export_rel id with
  | Some op => match kind op with
               | opWrite => live_file r' id = Some (content op)
               | opArchive => live_file r' id = None
               end
  | None => live_file r' id = live_file r id
  end.
Proof.
  intros Hid Hb Hold Hw Hpub. unfold live_file. rewrite Hold, Hw. cbn [mbind option_bind].
  destruct (b !! export_rel id) as [[[] c]|] eqn:Hop; cbn [kind content].
  - by apply (pub_write _ _ _ Hpub).
  - by eapply (pub_archived _ _ _ Hpub).
  - apply (pub_other _ _ _ Hpub). intros rel op Hr. pose proof (Hb _ _ Hr) as Hi.
    split; [|intros _; by apply live_not_archive; [apply id_rel|]].
    intros Heq%live_key_inj. congruence.
Qed.

(** What a ready export leaves of a file: the operation of the batch on it, if it
    has one; when the batch makes no difference nothing is pushed, and the file is
    what was cloned. *)
Lemma export_live b dir r0 rp tree order r disk' r' :
  export_ready cfg disk dir r0 rp tree b → order ≡ₚ map_to_list b →
  exportBatch cfg disk r0 r b order = (Ok tt, disk', r') →
  ∀ id, id_ok id → live_file r0 id = live_file r id →
  match b !! export_rel id with
  | Some op => match kind op with
               | opWrite => live_file r' id = Some (content op)
               | opArchive => live_file r' id = None
               end
  | None => live_file r' id = live_file r id
  end.
Proof.
  intros Hready Hperm Hexp id Hid Hsame. pose proof (batch_paths _ _ _ _ _ _ _ Hready) as Hb.
  destruct (exportBatch_outcome _ _ _ _ _ _ _ _ _ _ _ _ Hready Hperm Hexp)
    as (_ & old & w & Hold & Hpub & [[-> ->]|(Hr & Hw & _)]).
  - rewrite <- Hsame. by eapply published_live.
  - by eapply published_live.
Qed.

(** Beside the paths of the batch the file stays, when the export fails as well. *)
Lemma export_other b dir r0 rp tree order r res disk' r' :
  export_ready cfg disk dir r0 rp tree b → order ≡ₚ map_to_list b →
  exportBatch cfg disk r0 r b order = (res, disk', r') →
  ∀ id, id_ok id → b !! export_rel id = None → live_file r' id = live_file r id.
Proof.
  intros Hready Hperm Hexp id Hid Hnone. pose proof (batch_paths _ _ _ _ _ _ _ Hready) as Hb.
  destruct (exportBatch_outcome _ _ _ _ _ _ _ _ _ _ _ _ Hready Hperm Hexp) as (_ & old & w & Hold & Hpub & Hcase).
  assert (Hmoved : advanced branch_ref (Some old) w (batch_message b) r r' → live_file r' id = live_file r id).
  { intros (Hr & Hw & _). pose proof (published_live b r r' id old w Hid Hb Hr Hw Hpub) as Hl. by rewrite Hnone in Hl. }
  destruct res as [u|e]; [destruct Hcase as [[_ ->]|?]; auto|].
  destruct Hcase as [(c & e' & _ & _ & ->)|(e' & _ & [Hun|?])]; [done| |auto].
  unfold live_file. by rewrite (proj1 (Hun _)).
Qed.

Lemma inv_publish T s b dir r0 rp tree order disk' r' :
  sys_inv T s → progress s = Some b → export_ready cfg disk dir r0 rp tree b → order ≡ₚ map_to_list b →
  exportBatch cfg disk r0 (repository s) b order = (Ok tt, disk', r') →
  let s' := Sys (objects s) (dirty s) (RState (Cache (ctl s)) (flush_finish (GitQueue (ctl s)) b (Ok tt))) None r' in
  sys_inv (tracking T s (LPublish r0) s') s'.
Proof.
  intros Hinv Hp Hready Hperm Hexp s'. apply (inv_worker T); [done|done|]. intros id Hid [HT Hsame]. split; [done|].
  pose proof (export_live _ _ _ _ _ _ _ _ _ Hready Hperm Hexp id Hid Hsame) as Hl.
  unfold shown. rewrite Hp. cbn [ctl GitQueue progress repository mbind option_bind flush_finish].
  destruct (GitQueue (ctl s) !! export_rel id); [apply shown_le_refl|].
  destruct (b !! export_rel id) as [[[] c]|]; cbn [kind content] in Hl; rewrite Hl; try done. apply shown_le_refl.
Qed.

Lemma inv_push T s r' :
  sys_inv T s → let s' := Sys (objects s) (dirty s) (ctl s) (progress s) r' in sys_inv (tracking T s LPush s') s'.
Proof.
  intros Hinv s'. apply (inv_worker T); [done|done|]. intros id Hid [HT Hsame]. split; [done|].
  cbn [repository s'] in Hsame. unfold shown. cbn [ctl progress repository]. rewrite Hsame. apply shown_le_refl.
Qed.

Lemma inv_drop T s b :
  sys_inv T s → progress s = Some b →
  let s' := Sys (objects s) (dirty s) (RState (Cache (ctl s)) (flush_finish (GitQueue (ctl s)) b (Ok tt))) None (repository s) in
  sys_inv (tracking T s (LDrop b) s') s'.
Proof.
  intros Hinv Hp s'. apply (inv_worker T); [done|done|]. intros id Hid [HT Hnone]. split; [done|].
  unfold shown. rewrite Hp. cbn [ctl GitQueue progress repository mbind option_bind flush_finish]. rewrite Hnone.
  apply shown_le_refl.
Qed.

Lemma worker_inv T s l s' : sys_inv T s → worker_step s l s' → sys_inv (tracking T s l s') s'.
Proof.
  intros Hinv Hw. destruct Hw as [| |s b d r0 order d' e Hp _ Hexp|s b dir r0 rp tree order disk' e r' Hp _ Hready Hperm Hexp|];
    [by apply inv_take|by eapply inv_publish|by apply inv_fail| |by apply inv_drop].
  apply inv_fail; [done|done|]. by eapply export_other.
Qed.

Lemma step_inv T s l s' : sys_inv T s → sys_step s l s' → sys_inv (tracking T s l s') s'.
Proof.
  intros Hinv Hstep. destruct Hstep as [s id o Hid|s id get res ctl' Hid Hans Hrun|s l s' Hw|s r'];
    [by apply inv_change| |by apply worker_inv|by apply inv_push].
  pose proof (inv_reconcile _ _ _ _ _ _ Hinv Hid Hans Hrun) as Hnext. unfold tracking.
  by destruct (exports get id (Cache (ctl s))).
Qed.

Lemma reach_inv T s : sys_reach T s → sys_inv T s.
Proof.
  induction 1 as [r|T s l s' _ IH Hstep|T s _ IH]; [|by apply step_inv|by eapply inv_restart].
  split; cbn; [intros id [[? Hid]|Hid]; [by rewrite lookup_empty in Hid|by apply elem_of_empty in Hid]| |done].
  intros id Hid Hlive. unfold cache_shown, shown. cbn [ctl Cache GitQueue progress repository mbind option_bind].
  unfold NewHashCache. rewrite !lookup_empty. by rewrite Hlive.
Qed.

(** The material texts of two objects are a collision of SHA-256. *)
Definition collide (obj obj' : O) : Prop :=
  ∃ t t' o o', json_Marshal_object obj = Ok t ∧ unmarshal_map t = Ok o ∧
    json_Marshal_object obj' = Ok t' ∧ unmarshal_map t' = Ok o' ∧
    let j := marshal_map (normalizeKubernetesObject o) in
    let j' := marshal_map (normalizeKubernetesObject o') in
    j ≠ j' ∧ sha256_Sum256 j = sha256_Sum256 j'.

Lemma same_document (obj obj' : O) y y' h :
  NormalizedYAMLAndMaterialHash obj = Ok (y, h) → NormalizedYAMLAndMaterialHash obj' = Ok (y', h) →
  y' = y ∨ collide obj obj'.
Proof.
  intros (t & o & Ht & Ho & Hy & ->)%hash_inv (t' & o' & Ht' & Ho' & Hy' & Heq%hex_encode_inj)%hash_inv.
  destruct (decide (marshal_map (normalizeKubernetesObject o) = marshal_map (normalizeKubernetesObject o')))
    as [E|E]; [left|right; by exists t, t', o, o'].
  rewrite E, Hy' in Hy. by apply Ok_inj in Hy.
Qed.

(** The branch shows the object: its normalized document, up to a collision with
    the document exported before, unless the object was applied from Git, and no
    file when it is gone. *)
Definition converged (s : sys) (id : object_id) : Prop :=
  match objects s !! id with
  | Some obj => ∃ y h, NormalizedYAMLAndMaterialHash obj = Ok (y, h) ∧
      (annotation_matches obj h = true ∨
       ∃ (obj' : O) y', NormalizedYAMLAndMaterialHash obj' = Ok (y', h) ∧
         live_file (repository s) id = Some y' ∧ (y' = y ∨ collide obj obj'))
  | None => live_file (repository s) id = None
  end.

Lemma settled_converged T s id :
  sys_inv T s → T id → id_ok id → id ∉ dirty s → GitQueue (ctl s) !! export_rel id = None →
  (progress s ≫= λ b, b !! export_rel id) = None → converged s id.
Proof.
  intros [_ Hcache Hclean] HT Hid Hd Hq Hp. unfold converged.
  specialize (Hcache id Hid HT). specialize (Hclean id Hid Hd). unfold reconciled in Hclean.
  unfold cache_shown, shown in Hcache. rewrite Hq, Hp in Hcache. destruct (objects s !! id) as [obj|].
  - destruct Hclean as (y & h & Hy & Hc). exists y, h. split; [done|]. destruct Hc as [Hann|Hc]; [by left|right].
    rewrite Hc in Hcache. destruct Hcache as (obj' & y' & Hy' & Hl). exists obj', y'. split; [done|].
    destruct (live_file (repository s) id); [|done]. injection Hl as ->. split; [done|by eapply same_document].
  - rewrite Hclean in Hcache. by destruct (live_file (repository s) id).
Qed.

(** C4: Git converges to the cluster, in every run of the inventory-controller with
    the default template: objects are created, changed - also by the sync-operator
    - and deleted; reconciles succeed, fail and are repeated; batches are taken and
    published, from a clone with nothing in the way of their files, or put back,
    whatever was enqueued meanwhile; others push to the branch; the process is
    restarted. Once an object has been reconciled after its
    last change and no operation on its path is queued or in progress, the branch
    has its normalized document at its path - up to a collision of SHA-256 with the
    document exported before - or the object carries its own hash, as one applied
    from Git does; and when the object is gone the branch has no file for it. This
    is for the objects the process is up to date with: those of which an operation
    was queued, or that had no file when it started, and since then no older
    operation was put back over a newer one on the path, as
    [failed_flush_restores_stale] shows can happen, none was dropped for lack of a
    repository, and nobody else pushed a change of the file. *)
Theorem inventory_converges T s id :
  sys_reach T s → T id → id_ok id → id ∉ dirty s → GitQueue (ctl s) !! export_rel id = None →
  (progress s ≫= λ b, b !! export_rel id) = None →
  match objects s !! id with
  | Some obj => ∃ y h, NormalizedYAMLAndMaterialHash obj = Ok (y, h) ∧
      (annotation_matches obj h = true ∨
       ∃ (obj' : O) y', NormalizedYAMLAndMaterialHash obj' = Ok (y', h) ∧
         live_file (repository s) id = Some y' ∧ (y' = y ∨ collide obj obj'))
  | None => live_file (repository s) id = None
  end.
Proof. intros Hr. by apply settled_converged, reach_inv. Qed.

(** C22: the cache means what it says, in the same runs: for an object the process
    is up to date with, a cached hash is the hash of the document that the latest
    operation on its path writes - queued, in the batch in progress, or done and on
    the branch - and without one that operation is an archive, or there is no file. *)
Theorem cache_is_latest_operation T s id :
  sys_reach T s → T id → id_ok id →
  let latest := match GitQueue (ctl s) !! export_rel id with
                | Some op => Some op
                | None => match progress s ≫= (λ b, b !! export_rel id) with
                          | Some op => Some op
                          | None => Pending opWrite <$> live_file (repository s) id
                          end
                end in
  match Cache (ctl s) !! cache_key id with
  | Some h => ∃ (obj : O) y, NormalizedYAMLAndMaterialHash obj = Ok (y, h) ∧ latest = Some (Pending opWrite y)
  | None => ∀ op, latest = Some op → kind op = opArchive
  end.
Proof.
  intros Hr HT Hid latest. pose proof (inv_cache _ _ (reach_inv _ _ Hr) id Hid HT) as Hc.
  unfold cache_shown, shown in Hc. subst latest.
  destruct (Cache (ctl s) !! cache_key id) as [h|].
  - destruct Hc as (obj & y & Hy & Hs). exists obj, y. split; [done|]. repeat case_match; naive_solver.
  - intros op. repeat case_match; naive_solver.
Qed.
End system.

(** ** Witness: an object is created, reconciled and published *)

Module Sample.
#[local] Existing Instances ascii_tables fragment_engine literal_f64 text_object text_annotations json_yaml
  plain_messages no_faults one_temp history_git.

Definition a_id : object_id := ("Application", "argocd", "a").
Definition a_rel : string := "inventory/applications/argocd/a.yaml".
Definition a_doc : string := marshal_map (normalizeKubernetesObject (Some sample_map)).
Definition a_batch : batch := <[a_rel := Pending opWrite a_doc]> ∅.

Lemma a_ok : id_ok a_id.
Proof. split; [by left|]. by split. Qed.
Definition b_id : object_id := ("Application", "argocd", "b").
Lemma b_ok : id_ok b_id.
Proof. split; [by left|]. by split. Qed.

Lemma a_rels : inventory_batch a_batch.
Proof.
  unfold a_batch. intros rel op [[<- _]|[_ Hr]]%lookup_insert_Some; [|done].
  exists "applications", "argocd", "a". by split; [left|].
Qed.

Lemma a_ready :
  export_ready sample_cfg sample_disk "/tmp/x" sample_remote sample_clone sample_tree a_batch.
Proof.
  destruct sample_ready as [Hno Hwf Htemp Hclone Htree Hroot _ _].
  split; [exact Hno|exact Hwf|exact Htemp|exact Hclone|exact Htree|exact Hroot|exact a_rels|].
  intros rel op Hr. apply a_rels, live_key_inv in Hr as (p & n & f & _ & Hl & _ & Ha & _).
  rewrite Hl, Ha. split; (split; [|by intros Hx%sample_tree_files]);
    intros q r Hq Hqn Hrn c Hc%sample_tree_files; subst q; discriminate Hq.
Qed.

Definition a_run : result unit * fs * history :=
  exportBatch (H2 := history_git) sample_cfg sample_disk sample_remote sample_remote a_batch (map_to_list a_batch).

Lemma a_published : a_run.1 = (Ok tt, sample_disk).
Proof. by_vm. Qed.

#[local] Existing Instance history_spec.

Definition a_ctl : rstate := RState (<[cache_key a_id := sample_hash1]> ∅) a_batch.
Definition a_start : sys (O := string) := Sys ∅ ∅ (RState NewHashCache ∅) None (sample_remote : remote).
Definition a_created : sys (O := string) :=
  Sys (partial_alter (λ _, Some sample_text) a_id ∅) ({[a_id]} ∪ ∅) (RState NewHashCache ∅) None (sample_remote : remote).
Definition a_reconciled : sys (O := string) :=
  Sys (objects a_created) (dirty a_created ∖ {[a_id]}) a_ctl None (sample_remote : remote).
Definition a_taken : sys (O := string) :=
  Sys (objects a_reconciled) (dirty a_reconciled) (RState (Cache a_ctl) ∅) (Some a_batch) (sample_remote : remote).
Definition a_done : sys (O := string) :=
  Sys (objects a_taken) (dirty a_taken) (RState (Cache a_ctl) ∅) None (a_run.2 : remote).

Lemma a_object : objects a_created !! a_id = Some sample_text.
Proof. apply lookup_partial_alter_eq. Qed.

Lemma a_no_export id : id_ok id → live_file sample_cfg (sample_remote : remote) id = None.
Proof.
  intros Hid%id_rel. apply live_key_inv in Hid as (p & n & f & _ & Hl & _).
  change (({[ ["README"] := "x" ]} : files) !! live_key (export_rel id) = None).
  rewrite Hl. apply lookup_singleton_ne. discriminate.
Qed.

Definition a_get : client_reader string := cluster_reader (objects a_created).
Lemma a_answers : answers (objects a_created) a_id a_get.
Proof. by left. Qed.
Lemma a_reconcile_run : reconcile_object a_get a_id (RState NewHashCache ∅) = (Ok tt, a_ctl).
Proof.
  unfold reconcile_object. cbn [a_id fst snd]. rewrite (reconcile_found _ _ _ _ _ _ sample_text); [|by left|].
  - unfold handle. by rewrite sample_hashed1, sample_unannotated, render_default.
  - unfold a_get, cluster_reader. change (ExportPath.Kind (kind_gvk "Application"), "argocd", "a") with a_id.
    by rewrite a_object.
Qed.

Lemma a_reach : ∃ T, sys_reach sample_cfg sample_disk T a_done ∧ T a_id.
Proof.
  pose proof one_temp_laws as laws. eexists. split.
  - eapply (sys_next _ _ _ a_taken); [eapply (sys_next _ _ _ a_reconciled);
      [eapply (sys_next _ _ _ a_created); [eapply (sys_next _ _ _ a_start); [apply sys_init|]|]|]|].
    + by apply (sys_change _ _ a_start a_id (Some sample_text)), a_ok.
    + exact (sys_reconcile _ _ a_created a_id a_get (Ok tt) a_ctl a_ok a_answers a_reconcile_run).
    + apply sys_worker. by apply (worker_take _ _ a_reconciled a_batch ∅).
    + apply sys_worker.
      apply (worker_publish _ _ a_taken a_batch "/tmp/x" sample_remote sample_clone sample_tree (map_to_list a_batch)
        sample_disk a_run.2); [reflexivity|discriminate|exact a_ready|reflexivity|].
      pose proof a_published as Hp. unfold a_run in *.
      destruct (exportBatch _ _ _ _ _ _) as [rd r2]. cbn in Hp. by subst rd.
  - split; [|reflexivity]. unfold tracking. pose proof (a_no_export a_id a_ok).
    destruct (exports a_get a_id (Cache (ctl a_created))); [by left|done].
Qed.

Lemma inventory_converges_witness :
  ∃ y h, NormalizedYAMLAndMaterialHash sample_text = Ok (y, h) ∧
    (annotation_matches sample_text h = true ∨
     ∃ (obj' : string) y', NormalizedYAMLAndMaterialHash obj' = Ok (y', h) ∧
       live_file sample_cfg (a_run.2 : remote) a_id = Some y' ∧ (y' = y ∨ collide sample_text obj')).
Proof.
  pose proof one_temp_laws as laws. destruct a_reach as (T & Hreach & HT).
  pose proof (inventory_converges sample_cfg sample_disk T a_done a_id Hreach HT a_ok
    ltac:(set_solver) ltac:(apply lookup_empty) eq_refl) as Hc.
  change (objects a_done) with (objects a_created) in Hc. rewrite a_object in Hc. exact Hc.
Defined.

Lemma cache_is_latest_operation_witness :
  ∃ (obj : string) y, NormalizedYAMLAndMaterialHash obj = Ok (y, sample_hash1) ∧
    live_file sample_cfg (a_run.2 : remote) a_id = Some y.
Proof.
  pose proof one_temp_laws as laws. destruct a_reach as (T & Hreach & HT).
  pose proof (cache_is_latest_operation sample_cfg sample_disk T a_done a_id Hreach HT a_ok) as Hc. cbv zeta in Hc.
  change (Cache (ctl a_done)) with (<[cache_key a_id := sample_hash1]> (∅ : HashCache)) in Hc.
  rewrite lookup_insert_eq in Hc. destruct Hc as (obj & y & Hy & Hl). exists obj, y. split; [exact Hy|].
  change (Pending opWrite <$> live_file sample_cfg (a_run.2 : remote) a_id = Some (Pending opWrite y)) in Hl.
  revert Hl. destruct (live_file _ _ _) as [y'|]; [|discriminate]. intros [= ->]. reflexivity.
Defined.
End Sample.
