(* ===== verification/Restart.v ===== *)
(** What a restart of the inventory-controller forgets. The queue and the cache are
    in memory, and a process that starts is told of the objects there are, not of
    those that are gone. *)
From S2P Require Import Prelude GoStrings GoPath GoCrypto GoMap GoJson GoJsonFacts Config ExportPath InventoryPath ConfigMapMaterial Normalize ArchivePath GitBatch Fs BatchWorker BatchWorkerFacts ExportBatch WorkerQueue HashCache Reconciler Convergence.

Section restart.
Context `{GoUnicode} `{TextTemplate} `{Float64Laws} `{JsonMessages} `{!SigsYaml}.
Context `{OsFaults} `{TempDirsLaws} `{GoGitSpec}.
Context {O : Type} `{!RuntimeObject O} `{!ClientObject O}.
Context (cfg : InventoryControllerConfig) (disk : fs).
Abbreviation sys := (sys (O := O)).
Implicit Types s : sys.

(** A step, or a restart, that has nothing to do with an object: the object does not
    change, nobody asks for its reconcile, and nobody else pushes a change of its
    file. *)
Inductive elsewhere (id : object_id) : sys → sys → Prop :=
| elsewhere_step s l s' : sys_step cfg disk s l s' →
    match l with
    | LChange id' | LReconcile id' _ => id' ≠ id
    | LPush => live_file cfg (repository s') id = live_file cfg (repository s) id
    | _ => True
    end → elsewhere id s s'
| elsewhere_restart s : elsewhere id s (restarted s).

(** The object is gone, its file is there, and no one has heard of it. *)
Record forgotten (c : string) (id : object_id) s : Prop := {
  forgotten_gone : objects s !! id = None;
  forgotten_clean : id ∉ dirty s;
  forgotten_queue : GitQueue (ctl s) !! export_rel id = None;
  forgotten_batch : (progress s ≫= λ b, b !! export_rel id) = None;
  forgotten_file : live_file cfg (repository s) id = Some c
}.

Lemma restarted_forgotten c id s :
  objects s !! id = None → live_file cfg (repository s) id = Some c → forgotten c id (restarted s).
Proof. intros Hgone Hfile. split; cbn; [done|by apply not_elem_of_dom|apply lookup_empty|done|done]. Qed.

Lemma worker_forgotten c id s l s' : id_ok id → worker_step cfg disk s l s' → forgotten c id s → forgotten c id s'.
Proof.
  intros Hid Hw [Hgone Hclean Hq Hb Hfile]. assert (Hother : ∀ b, progress s = Some b → b !! export_rel id = None).
  { intros b Hp. by rewrite Hp in Hb. }
  destruct Hw as
    [s b q' Hp Ht|s b dir r0 rp tree order disk' r' Hp _ Hready Hperm Hexp|s b d r0 order d' e Hp _ _
    |s b dir r0 rp tree order disk' e r' Hp _ Hready Hperm Hexp|s b Hp _];
    (split; cbn [objects dirty ctl GitQueue progress repository]; [done|done|..]); try done;
    try (by rewrite flush_finish_failed, lookup_union, Hq, (Hother b Hp));
    try (by rewrite (export_other cfg disk b _ _ _ _ _ _ _ _ _ Hready Hperm Hexp id Hid (Hother b Hp))).
  - unfold flush_take in Ht. case_decide; [done|]. injection Ht as <- <-. apply lookup_empty.
  - unfold flush_take in Ht. case_decide; [done|]. by injection Ht as <- <-.
Qed.

Lemma elsewhere_forgotten c id s s' : id_ok id → elsewhere id s s' → forgotten c id s → forgotten c id s'.
Proof.
  intros Hid Hstep Hf. destruct Hstep as [s l s' Hstep Hl|s]; [|by apply restarted_forgotten; apply Hf].
  destruct Hstep as [s id' o Hid'|s id' get res ctl' Hid' Hans Hrun|s l s' Hw|s r'];
    [| |by eapply worker_forgotten|destruct Hf as [Hgone Hclean Hq Hb Hfile]; split; cbn in *; by rewrite ?Hl].
  - destruct Hf as [Hgone Hclean Hq Hb Hfile].
    split; cbn [objects dirty ctl progress repository]; [by rewrite lookup_partial_alter_ne|set_solver|done|done|done].
  - destruct Hf as [Hgone Hclean Hq Hb Hfile].
    split; cbn [objects dirty ctl progress repository]; [done|by rewrite requeue_other by done| |done|done].
    destruct (reconcile_cases s id' get res ctl' Hid' Hans Hrun) as [(_ & -> & _)|(_ & _ & c' & op & -> & _)]; [done|].
    by destruct (put_other id' id c' op (ctl s) Hid' Hid Hl) as [_ ->].
Qed.

End restart.

(** ** Witness: an object that was exported is deleted while no process runs *)

Module Sample.
Import Convergence.Sample.
#[local] Existing Instances ascii_tables fragment_engine literal_f64 text_object text_annotations json_yaml
  plain_messages no_faults one_temp history_git history_spec.


Definition a_gone : sys (O := string) :=
  Sys (partial_alter (λ _, None) a_id (objects a_done)) ({[a_id]} ∪ dirty a_done) (ctl a_done) (progress a_done) (a_run.2 : remote).
Definition b_created : sys (O := string) :=
  Sys (partial_alter (λ _, Some sample_text) b_id (objects (restarted a_gone))) ({[b_id]} ∪ dirty (restarted a_gone))
    (RState NewHashCache ∅) None (a_run.2 : remote).

Lemma a_file : live_file sample_cfg (a_run.2 : remote) a_id = Some a_doc.
Proof. by_vm. Qed.

End Sample.
