(* ===== verification/ReconcileCalls.v ===== *)
(** internal/inventory/reconciler.go call by call. Every method of the hash cache and
    of the queue holds a mutex for its whole body and nothing is held from one to
    the next: a reconcile is a tree of calls, each of which is one step. *)
From S2P Require Import Prelude GoStrings GoPath GoCrypto GoMap GoJson GoJsonFacts Config ExportPath InventoryPath ConfigMapMaterial Normalize ArchivePath GitBatch Fs BatchWorker BatchWorkerFacts ExportBatch WorkerQueue HashCache Reconciler Convergence.

(** ** A reconcile as the tree of its calls *)

Inductive calls (O : Type) : Type :=
| Return (res : result unit)
| ClientGet (gvk : GroupVersionKind) (ns name : string) (k : result O → calls O)
| CacheGet (key : string) (k : option string → calls O)
| CacheSet (key hash : string) (k : calls O)
| CacheDelete (key : string) (k : calls O)
| QueueEnqueue (job : ExportJob) (k : calls O)
| QueueArchive (relPath : string) (k : calls O).
Arguments Return {O}.
Arguments ClientGet {O}.
Arguments CacheGet {O}.
Arguments CacheSet {O}.
Arguments CacheDelete {O}.
Arguments QueueEnqueue {O}.
Arguments QueueArchive {O}.

Section tree.
Context `{GoUnicode} `{TextTemplate} `{Float64} `{JsonMessages} `{!SigsYaml}.
Context {O : Type} `{!RuntimeObject O} `{!ClientObject O}.
Implicit Types (t : calls O) (s : rstate) (get : client_reader O).

Definition handle_calls (ExportPathTmpl namespace name : string) (obj : O) (kind : string) : calls O :=
  match NormalizedYAMLAndMaterialHash obj with
  | Failed e => Return (Failed (ErrWrap "normalize and hash object" e))
  | Ok (yamlBytes, currentHash) =>
      let cacheKey := ExportObjectCacheKey kind namespace name in
      if annotation_matches obj currentHash then Return (Ok tt)
      else CacheGet cacheKey (λ prev,
        if bool_decide (prev = Some currentHash) then Return (Ok tt)
        else CacheSet cacheKey currentHash
          match RenderExportPath ExportPathTmpl kind namespace name with
          | Failed e => Return (Failed (ErrWrap "render export path" e))
          | Ok relPath => QueueEnqueue (Job relPath yamlBytes) (Return (Ok tt))
          end)
  end.

Definition reconcile_calls (gvk : GroupVersionKind) (kind ExportPathTmpl namespace name : string) : calls O :=
  ClientGet gvk namespace name (λ u,
    match u with
    | Failed err =>
        if IsNotFound err then
          CacheDelete (ExportObjectCacheKey kind namespace name)
            match RenderExportPath ExportPathTmpl kind namespace name with
            | Failed pathErr => Return (Failed (ErrWrap "render export path for delete" pathErr))
            | Ok relPath => QueueArchive relPath (Return (Ok tt))
            end
        else Return (Failed (ErrWrap ("failed to get " +:+ kind) err))
    | Ok u => handle_calls ExportPathTmpl namespace name u kind
    end).
Definition Reconcile_Application_calls : string → string → string → calls O :=
  reconcile_calls ApplicationGVK "Application".
Definition Reconcile_ApplicationSet_calls : string → string → string → calls O :=
  reconcile_calls ApplicationSetGVK "ApplicationSet".

(** One call, and all of them without interruption. *)
Definition call get t s : option (calls O * rstate) :=
  match t with
  | Return _ => None
  | ClientGet gvk ns name k => Some (k (get gvk ns name), s)
  | CacheGet key k => Some (k (Get (Cache s) key), s)
  | CacheSet key hash k => Some (k, RState (Set_ (Cache s) key hash) (GitQueue s))
  | CacheDelete key k => Some (k, RState (Delete (Cache s) key) (GitQueue s))
  | QueueEnqueue job k => Some (k, RState (Cache s) (Enqueue (GitQueue s) job))
  | QueueArchive relPath k => Some (k, RState (Cache s) (EnqueueArchive (GitQueue s) relPath))
  end.
Fixpoint run get t s : result unit * rstate :=
  match t with
  | Return res => (res, s)
  | ClientGet gvk ns name k => run get (k (get gvk ns name)) s
  | CacheGet key k => run get (k (Get (Cache s) key)) s
  | CacheSet key hash k => run get k (RState (Set_ (Cache s) key hash) (GitQueue s))
  | CacheDelete key k => run get k (RState (Delete (Cache s) key) (GitQueue s))
  | QueueEnqueue job k => run get k (RState (Cache s) (Enqueue (GitQueue s) job))
  | QueueArchive relPath k => run get k (RState (Cache s) (EnqueueArchive (GitQueue s) relPath))
  end.

Lemma call_run get t s t' s' : call get t s = Some (t', s') → run get t s = run get t' s'.
Proof. by destruct t; intros [= <- <-]. Qed.

(** Without interruption, it is the reconcile of [Reconciler]. *)
Lemma run_handle get tmpl s ns name obj kind :
  run get (handle_calls tmpl ns name obj kind) s = handle tmpl s ns name obj kind.
Proof.
  unfold handle_calls, handle. destruct (NormalizedYAMLAndMaterialHash obj) as [[y h]|e]; [|done].
  destruct (annotation_matches obj h); [done|]. cbn [run]. case_bool_decide; [done|]. cbn [run].
  by destruct (RenderExportPath _ _ _ _).
Qed.
Lemma run_Application get tmpl s ns name :
  run get (Reconcile_Application_calls tmpl ns name) s = Reconcile_Application get tmpl s ns name.
Proof.
  unfold Reconcile_Application_calls, reconcile_calls, Reconcile_Application. cbn [run].
  destruct (get _ _ _) as [u|err]; [apply run_handle|]. destruct (IsNotFound err); [|done].
  cbn [run]. by destruct (RenderExportPath _ _ _ _).
Qed.
Lemma run_ApplicationSet get tmpl s ns name :
  run get (Reconcile_ApplicationSet_calls tmpl ns name) s = Reconcile_ApplicationSet get tmpl s ns name.
Proof.
  unfold Reconcile_ApplicationSet_calls, reconcile_calls, Reconcile_ApplicationSet. cbn [run].
  destruct (get _ _ _) as [u|err]; [apply run_handle|]. destruct (IsNotFound err); [|done].
  cbn [run]. by destruct (RenderExportPath _ _ _ _).
Qed.

(** The calls of the controller of an object. *)
Definition object_calls (id : object_id) : calls O :=
  (if decide (id.1.1 = "Application") then Reconcile_Application_calls else Reconcile_ApplicationSet_calls)
    defaultExportPathTemplate id.1.2 id.2.
Lemma run_object get id s :
  run get (object_calls id) s = reconcile_object get id s.
Proof. unfold object_calls, reconcile_object, Reconcile. case_decide; [apply run_Application|apply run_ApplicationSet]. Qed.

(** ** Calls about one object *)

(** They touch one slot of the cache, and what they queue comes last. *)
Fixpoint about (id : object_id) t : Prop :=
  match t with
  | Return _ => True
  | ClientGet gvk ns name k => gvk = kind_gvk id.1.1 ∧ ns = id.1.2 ∧ name = id.2 ∧ ∀ u, about id (k u)
  | CacheGet key k => key = cache_key id ∧ ∀ v, about id (k v)
  | CacheSet key _ k | CacheDelete key k => key = cache_key id ∧ about id k
  | QueueEnqueue _ k | QueueArchive _ k => k = Return (Ok tt)
  end.
(** The next call queues an operation. *)
Definition queues t : bool :=
  match t with QueueEnqueue _ _ | QueueArchive _ _ => true | _ => false end.
(** They have read the object. *)
Fixpoint has_read t : Prop :=
  match t with
  | Return _ => True
  | ClientGet _ _ _ _ => False
  | CacheGet _ k => ∀ v, has_read (k v)
  | CacheSet _ _ k | CacheDelete _ k | QueueEnqueue _ k | QueueArchive _ k => has_read k
  end.

Lemma handle_about id obj :
  about id (handle_calls defaultExportPathTemplate id.1.2 id.2 obj id.1.1) ∧
  has_read (handle_calls defaultExportPathTemplate id.1.2 id.2 obj id.1.1).
Proof.
  unfold handle_calls. destruct (NormalizedYAMLAndMaterialHash obj) as [[y h]|e]; [|done].
  destruct (annotation_matches obj h); [done|]. rewrite render_default. split; cbn.
  - split; [done|]. intros v. case_bool_decide; [done|]. cbn. by split.
  - intros v. by case_bool_decide.
Qed.

Lemma object_calls_get id : argo_kind id.1.1 → ∃ k : result O → calls O,
  object_calls id = ClientGet (kind_gvk id.1.1) id.1.2 id.2 k ∧ ∀ u, about id (k u) ∧ has_read (k u).
Proof.
  intros Hk. assert (Hcalls : object_calls id = reconcile_calls (kind_gvk id.1.1) id.1.1 defaultExportPathTemplate id.1.2 id.2).
  { unfold object_calls, kind_gvk. by destruct Hk as [-> | ->]. }
  rewrite Hcalls. eexists. split; [reflexivity|]. intros [u|err]; [apply handle_about|].
  destruct (IsNotFound err); [|done]. rewrite render_default. cbn. by split.
Qed.
(** What they do depends on the object, its slot of the cache and the queue alone,
    and leaves the other slots of the cache as they are. *)
Definition same_slot (id : object_id) s1 s2 : Prop :=
  Cache s1 !! cache_key id = Cache s2 !! cache_key id ∧ GitQueue s1 = GitQueue s2.

Lemma run_local id t get1 get2 s1 s2 :
  about id t → has_read t ∨ get1 (kind_gvk id.1.1) id.1.2 id.2 = get2 (kind_gvk id.1.1) id.1.2 id.2 →
  same_slot id s1 s2 →
  (run get1 t s1).1 = (run get2 t s2).1 ∧ same_slot id (run get1 t s1).2 (run get2 t s2).2.
Proof.
  revert s1 s2. induction t as [res|gvk ns name k IH|key k IH|key h k IH|key k IH|job k IH|rel k IH];
    intros s1 s2 Ha Hg [Hc Hq]; cbn [run about has_read] in *.
  - done.
  - destruct Ha as (-> & -> & -> & Ha). destruct Hg as [[]|Hg]. rewrite Hg. apply IH; [done|by right|done].
  - destruct Ha as [-> Ha]. unfold Get. rewrite Hc. apply IH; [done|naive_solver|done].
  - destruct Ha as [-> Ha]. apply IH; [done|done|]. split; [|done]. cbn. unfold Set_. by rewrite !lookup_insert_eq.
  - destruct Ha as [-> Ha]. apply IH; [done|done|]. split; [|done]. cbn. unfold Delete. by rewrite !lookup_delete_eq.
  - subst k. cbn. split; [done|]. split; [done|]. cbn. by rewrite Hq.
  - subst k. cbn. split; [done|]. split; [done|]. cbn. by rewrite Hq.
Qed.

Lemma run_frame id t get s key :
  about id t → key ≠ cache_key id → Cache (run get t s).2 !! key = Cache s !! key.
Proof.
  intros Ha Hkey. revert s. induction t as [res|gvk ns name k IH|key' k IH|key' h k IH|key' k IH|job k IH|rel k IH];
    intros s; cbn [run about] in *.
  - done.
  - apply IH, Ha.
  - by apply IH, Ha.
  - destruct Ha as [-> Ha]. rewrite (IH Ha). cbn. unfold Set_. by rewrite lookup_insert_ne.
  - destruct Ha as [-> Ha]. rewrite (IH Ha). cbn. unfold Delete. by rewrite lookup_delete_ne.
  - by subst k.
  - by subst k.
Qed.

(** A call keeps that; those before the last neither see nor change the queue. *)
Lemma call_about id t get s t' s' :
  about id t → call get t s = Some (t', s') →
  about id t' ∧ (∀ key, key ≠ cache_key id → Cache s' !! key = Cache s !! key) ∧
  (has_read t → has_read t' ∧
     if queues t then t' = Return (Ok tt)
     else GitQueue s' = GitQueue s ∧ ∀ q get', call get' t (RState (Cache s) q) = Some (t', RState (Cache s') q)).
Proof.
  destruct t as [res|gvk ns name k|key k|key h k|key k|job k|rel k]; cbn [about has_read call];
    [done| | | | | |]; intros Ha [= <- <-].
  - destruct Ha as (_ & _ & _ & Ha). split; [done|]. by split.
  - destruct Ha as [_ Ha]. split; [done|]. split; [done|]. by intros Hr.
  - destruct Ha as [-> Ha]. split; [done|]. split; [|by intros Hr].
    intros key Hkey. cbn. unfold Set_. by rewrite lookup_insert_ne.
  - destruct Ha as [-> Ha]. split; [done|]. split; [|by intros Hr].
    intros key Hkey. cbn. unfold Delete. by rewrite lookup_delete_ne.
  - by subst k.
  - by subst k.
Qed.

(** A call that queues an operation leaves one on an empty queue. *)
Lemma queues_run id t get c : about id t → queues t = true → GitQueue (run get t (RState c ∅)).2 ≠ ∅.
Proof. destruct t; try done; cbn; intros -> _; cbn; apply insert_non_empty. Qed.
End tree.
