(* ===== verification/ConcurrentReconcile.v ===== *)
(** Reconciles that run at the same time. The two controllers and the batch worker
    are goroutines that share the hash cache and the queue: between the calls of a
    reconcile those of other reconciles, steps of the worker and changes of the
    cluster happen. *)
From S2P Require Import Prelude GoStrings GoPath GoCrypto GoMap GoJson GoJsonFacts Config ExportPath InventoryPath ConfigMapMaterial Normalize ArchivePath GitBatch Fs BatchWorker BatchWorkerFacts ExportBatch WorkerQueue HashCache Reconciler Convergence ReconcileCalls.

(** ** The system with reconciles under way *)

Section system.
Context `{GoUnicode} `{TextTemplate} `{Float64Laws} `{JsonMessages} `{!SigsYaml}.
Context `{OsFaults} `{TempDirsLaws} `{GoGitSpec}.
Context {O : Type} `{!RuntimeObject O} `{!ClientObject O}.
Context (cfg : InventoryControllerConfig) (disk : fs).
Abbreviation sys := (sys (O := O)).
Abbreviation sys_reach := (sys_reach (O := O) cfg disk).
Implicit Types (a b : sys) (t : calls O).

(** The calls still to be made for the objects that are being reconciled. *)
Record csys := CSys { base : sys; flying : gmap object_id (calls O) }.
Implicit Types c : csys.

Definition with_ctl b ct : sys := Sys (objects b) (dirty b) ct (progress b) (repository b).
Definition with_repository b r' : sys := Sys (objects b) (dirty b) (ctl b) (progress b) r'.
(** An object whose reconcile returned an error is to be reconciled again. *)
Definition returned b (res : result unit) (id : object_id) : sys :=
  Sys (objects b) (if is_ok res then dirty b else {[id]} ∪ dirty b) (ctl b) (progress b) (repository b).

(** controller-runtime never reconciles the same object twice at a time. The states
    carry the objects the process is up to date with, as [sys_reach] does: the call
    that queues an operation brings it up to date. *)
Inductive creach : (object_id → Prop) → csys → Prop :=
| creach_init r : creach (λ id, live_file cfg r id = None) (CSys (Sys ∅ ∅ (RState NewHashCache ∅) None r) ∅)
| creach_start T b fl id : creach T (CSys b fl) → id_ok id → fl !! id = None →
    creach T (CSys (Sys (objects b) (dirty b ∖ {[id]}) (ctl b) (progress b) (repository b)) (<[id := object_calls id]> fl))
| creach_call T b fl id t get t' ct : creach T (CSys b fl) → fl !! id = Some t → answers (objects b) id get →
    call get t (ctl b) = Some (t', ct) →
    creach (tracking cfg T b (LReconcile id (queues t)) (with_ctl b ct)) (CSys (with_ctl b ct) (<[id := t']> fl))
| creach_return T b fl id res : creach T (CSys b fl) → fl !! id = Some (Return res) →
    creach T (CSys (returned b res id) (delete id fl))
| creach_change T b fl id o : creach T (CSys b fl) → id_ok id →
    creach T (CSys (Sys (partial_alter (λ _, o) id (objects b)) ({[id]} ∪ dirty b) (ctl b) (progress b) (repository b)) fl)
| creach_worker T b fl l b' : creach T (CSys b fl) → worker_step cfg disk b l b' →
    creach (tracking cfg T b l b') (CSys b' fl)
| creach_push T b fl r' : creach T (CSys b fl) →
    creach (tracking cfg T b LPush (with_repository b r')) (CSys (with_repository b r') fl)
| creach_restart T b fl : creach T (CSys b fl) → creach (λ id, live_file cfg (repository b) id = None) (CSys (restarted b) ∅).
(** ** The simulation

    A reconcile takes effect in the atomic system with its last call, on the object
    as it was when it was read: until then the atomic system has not seen what
    happened to the object since. *)

Definition synced b a (id : object_id) : Prop :=
  objects a !! id = objects b !! id ∧ (id ∈ dirty a ↔ id ∈ dirty b).
Definition same_hash b a (id : object_id) : Prop :=
  Cache (ctl a) !! cache_key id = Cache (ctl b) !! cache_key id.

(** What is left of a reconcile comes to what the whole reconcile would do now, if
    its read were answered as it was. *)
Definition amounts b a (id : object_id) t : Prop := ∃ get0, answers (objects a) id get0 ∧ ∀ q get,
  (run get0 (object_calls id) (RState (Cache (ctl a)) q)).1 = (run get t (RState (Cache (ctl b)) q)).1 ∧
  same_slot id (run get0 (object_calls id) (RState (Cache (ctl a)) q)).2 (run get t (RState (Cache (ctl b)) q)).2.

Inductive phase b a (id : object_id) : calls O → Prop :=
| waiting : objects a !! id = objects b !! id → same_hash b a id → phase b a id (object_calls id)
| acting t : has_read t → about id t → objects a !! id = objects b !! id ∨ id ∈ dirty b → amounts b a id t →
    phase b a id t
| finished : synced b a id → same_hash b a id → phase b a id (Return (Ok tt)).

Definition shared b a : Prop :=
  GitQueue (ctl a) = GitQueue (ctl b) ∧ progress a = progress b ∧ repository a = repository b.

Record sim (fl : gmap object_id (calls O)) b a : Prop := {
  sim_shared : shared b a;
  sim_ids id : is_Some (objects b !! id) ∨ id ∈ dirty b ∨ is_Some (fl !! id) → id_ok id;
  sim_still id : fl !! id = None → synced b a id;
  sim_hash key : (∀ id, is_Some (fl !! id) → key ≠ cache_key id) → Cache (ctl a) !! key = Cache (ctl b) !! key;
  sim_flying id t : fl !! id = Some t → phase b a id t
}.

(** Two states with the same view of an object. *)
Definition same_view (id : object_id) a a' : Prop :=
  objects a' !! id = objects a !! id ∧ (id ∈ dirty a' ↔ id ∈ dirty a) ∧
  Cache (ctl a') !! cache_key id = Cache (ctl a) !! cache_key id.

Lemma answers_same (objs objs' : gmap object_id O) id get :
  id_ok id → objs' !! id = objs !! id → answers objs id get → answers objs' id get.
Proof. intros Hid Ho. unfold answers. rewrite !reader_object by apply Hid. by rewrite Ho. Qed.

Lemma object_calls_about id : id_ok id → about id (object_calls (O := O) id).
Proof.
  intros Hid. destruct (object_calls_get (O := O) id) as (k & Hk & Hall); [apply Hid|].
  rewrite Hk. cbn. do 3 (split; [done|]). intros u. apply Hall.
Qed.

Lemma phase_view b a b' a' id t :
  id_ok id → same_view id b b' → same_view id a a' → phase b a id t → phase b' a' id t.
Proof.
  intros Hid (Hbo & Hbd & Hbc) (Hao & Had & Hac).
  destruct 1 as [Ho Hc|t Hr Ha Hd (get0 & Hans & Hj)|[Ho Hd] Hc].
  - constructor; [by rewrite Hao, Hbo|]. unfold same_hash in *. by rewrite Hac, Hbc.
  - constructor; [done|done|by rewrite Hao, Hbo, Hbd|]. exists get0. split; [by eapply answers_same|].
    intros q get. destruct (Hj q get) as [Hj1 [Hj2 Hj3]].
    destruct (run_local id (object_calls id) get0 get0 (RState (Cache (ctl a)) q) (RState (Cache (ctl a')) q)
      (object_calls_about id Hid)) as [E1 [E2 E3]]; [by right|by split|].
    destruct (run_local id t get get (RState (Cache (ctl b)) q) (RState (Cache (ctl b')) q) Ha) as [E4 [E5 E6]];
      [by left|by split|].
    rewrite <- E1, <- E4. split; [done|]. split; congruence.
  - constructor; [split; [by rewrite Hao, Hbo|by rewrite Had, Hbd]|]. unfold same_hash in *. by rewrite Hac, Hbc.
Qed.
(** A state changed in what concerns one object only. *)
Definition only (id : object_id) a a' : Prop :=
  (∀ id', id' ≠ id → objects a' !! id' = objects a !! id' ∧ (id' ∈ dirty a' ↔ id' ∈ dirty a)) ∧
  ∀ key, key ≠ cache_key id → Cache (ctl a') !! key = Cache (ctl a) !! key.

Lemma only_refl id a : only id a a.
Proof. done. Qed.

Lemma cache_key_same id id' : id_ok id → id_ok id' → cache_key id = cache_key id' → id = id'.
Proof. intros Hid Hid'. apply (id_same id id' Hid Hid'). Qed.

Lemma only_view id id' a a' : id_ok id → id_ok id' → id' ≠ id → only id a a' → same_view id' a a'.
Proof.
  intros Hid Hid' Hne [Hobj Hcache]. destruct (Hobj id' Hne) as [Ho Hd]. split; [done|]. split; [done|].
  apply Hcache. by intros Heq%(cache_key_same id' id Hid' Hid).
Qed.

(** The simulation goes on when both sides do something about one object. *)
Lemma sim_update fl fl' b a b' a' id :
  sim fl b a → id_ok id → only id b b' → only id a a' → shared b' a' →
  (∀ id', id' ≠ id → fl' !! id' = fl !! id') →
  match fl' !! id with Some t => phase b' a' id t | None => synced b' a' id ∧ same_hash b' a' id end →
  sim fl' b' a'.
Proof.
  intros [_ Hids Hstill Hhash Hfly] Hid Hb Ha Hshared Hfl Hnew. split; [done| | | |].
  - intros id' Hx. destruct (decide (id' = id)) as [->|Hne]; [done|]. apply Hids.
    destruct (proj1 Hb id' Hne) as [Ho Hd]. by rewrite Ho, Hd, Hfl in Hx.
  - intros id' Hx. destruct (decide (id' = id)) as [->|Hne]; [rewrite Hx in Hnew; apply Hnew|].
    rewrite Hfl in Hx by done. destruct (Hstill id' Hx) as [Ho Hd].
    destruct (proj1 Hb id' Hne) as [Ho1 Hd1], (proj1 Ha id' Hne) as [Ho2 Hd2].
    split; [by rewrite Ho2, Ho1|by rewrite Hd2, Hd1].
  - intros key Hkey. destruct (decide (key = cache_key id)) as [->|Hne].
    + destruct (fl' !! id) eqn:Hx; [by destruct (Hkey id)|apply Hnew].
    + rewrite (proj2 Hb key Hne), (proj2 Ha key Hne). apply Hhash. intros id' Hx Heq.
      destruct (decide (id' = id)) as [->|Hne']; [done|]. apply (Hkey id'); [by rewrite Hfl|done].
  - intros id' t Hx. destruct (decide (id' = id)) as [->|Hne]; [by rewrite Hx in Hnew|].
    rewrite Hfl in Hx by done. assert (Hid' : id_ok id') by (apply Hids; right; right; by eexists).
    apply (phase_view b a); [done|by apply (only_view id)|by apply (only_view id)|by apply Hfly].
Qed.

(** The hash of an object that is not being reconciled. *)
Lemma sim_same_hash fl b a id : sim fl b a → id_ok id → fl !! id = None → same_hash b a id.
Proof.
  intros Hsim Hid Hfl. apply (sim_hash _ _ _ Hsim). intros id' Hx Heq.
  assert (Hid' : id_ok id') by (apply (sim_ids _ _ _ Hsim); by do 2 right).
  apply (cache_key_same id id' Hid Hid') in Heq as ->. rewrite Hfl in Hx. by destruct Hx.
Qed.

(** The object as it is now, in the atomic system. *)
Lemma catch_up_one T a id o :
  sys_reach T a → id_ok id →
  ∃ a', sys_reach T a' ∧ only id a a' ∧ ctl a' = ctl a ∧ progress a' = progress a ∧
    repository a' = repository a ∧ objects a' = partial_alter (λ _, o) id (objects a) ∧ dirty a' = {[id]} ∪ dirty a.
Proof.
  intros Hr Hid. eexists. split; [exact (sys_next _ _ T a (LChange id) _ Hr (sys_change _ _ a id o Hid))|].
  split; [|done]. split; cbn [objects dirty ctl]; [|done].
  intros id' Hne. rewrite lookup_partial_alter_ne by done. split; [done|]. set_solver.
Qed.

(** The atomic reconcile: what it changes, and whether it queues an operation. *)
Lemma atomic_reconcile T b a id t get0 :
  sys_reach T a → id_ok id → about id t → answers (objects a) id get0 →
  (∀ q get, (run get0 (object_calls id) (RState (Cache (ctl a)) q)).1 = (run get t (RState (Cache (ctl b)) q)).1 ∧
     same_slot id (run get0 (object_calls id) (RState (Cache (ctl a)) q)).2 (run get t (RState (Cache (ctl b)) q)).2) →
  let (res, ct) := reconcile_object get0 id (ctl a) in
  let a1 := Sys (objects a) (requeue res id (dirty a)) ct (progress a) (repository a) in
  ∃ T1, sys_reach T1 a1 ∧ (∀ id', T id' → T1 id') ∧ (queues t = true → T1 id) ∧ only id a a1.
Proof.
  intros Hr Hid Hab Hans Hj. destruct (reconcile_object get0 id (ctl a)) as [res ct] eqn:Hrun. cbv zeta.
  eexists. split; [exact (sys_next _ _ T a _ _ Hr (sys_reconcile _ _ a id get0 res ct Hid Hans Hrun))|]. split; [|split].
  - intros id' HT. unfold tracking. destruct (exports get0 id (Cache (ctl a))); [by left|done].
  - intros Hq. unfold tracking. assert (Hexp : exports get0 id (Cache (ctl a)) = true); [|rewrite Hexp; by right].
    apply bool_decide_eq_true. destruct (Hj ∅ get0) as [_ [_ Heq]]. rewrite run_object in Heq. rewrite Heq.
    by eapply queues_run.
  - split; [intros id' Hne; cbn; split; [done|by apply requeue_other]|]. intros key Hkey. cbn.
    pose proof (run_frame id (object_calls id) get0 (ctl a) key (object_calls_about id Hid) Hkey) as Hf.
    by rewrite run_object, Hrun in Hf.
Qed.

(** The atomic reconcile, followed by what happened to the object meanwhile. *)
Lemma finish T fl b a id t get :
  sys_reach T a → sim fl b a → id_ok id → about id t → objects a !! id = objects b !! id ∨ id ∈ dirty b →
  amounts b a id t →
  let b' := returned (with_ctl b (run get t (ctl b)).2) (run get t (ctl b)).1 id in
  ∃ T' a', sys_reach T' a' ∧ (∀ id', T id' → T' id') ∧ (queues t = true → T' id) ∧ only id a a' ∧
    shared b' a' ∧ synced b' a' id ∧ same_hash b' a' id.
Proof.
  intros Hr Hsim Hid Hab Hchanged (get0 & Hans & Hj) b'. destruct (sim_shared _ _ _ Hsim) as (Hq & Hp & Hrep).
  pose proof (atomic_reconcile T b a id t get0 Hr Hid Hab Hans Hj) as Hatomic.
  specialize (Hj (GitQueue (ctl b)) get).
  assert (Heta : RState (Cache (ctl a)) (GitQueue (ctl b)) = ctl a) by (rewrite <- Hq; by destruct (ctl a)).
  assert (Hetb : RState (Cache (ctl b)) (GitQueue (ctl b)) = ctl b) by by destruct (ctl b).
  rewrite Heta, Hetb, run_object in Hj. destruct (reconcile_object get0 id (ctl a)) as [res ct1].
  destruct (run get t (ctl b)) as [res' ct2]. destruct Hj as [Hres [Hc1 Hq1]]. cbn [fst snd] in *. subst res'.
  destruct Hatomic as (T1 & Hr1 & HT1 & Hq2 & Honly). set (a1 := Sys _ _ ct1 _ _) in *.
  destruct (decide (id ∈ dirty b)) as [Hd|Hd].
  - destruct (catch_up_one _ a1 id (objects b !! id) Hr1 Hid) as (a' & Hr' & Ho' & Hctl & Hpr & Hre & Hobj & Hdi).
    exists T1, a'. split; [done|]. split; [done|]. split; [done|]. split.
    { destruct Ho' as [Ho1 Ho2], Honly as [Ho3 Ho4]. split; [|intros key Hkey; by rewrite Ho2, Ho4].
      intros id' Hne. destruct (Ho1 id' Hne) as [-> ->]. by apply Ho3. }
    unfold shared, synced, same_hash. rewrite Hctl, Hpr, Hre, Hobj, Hdi, lookup_partial_alter_eq.
    split; [split; [exact Hq1|by split]|]. split; [|exact Hc1]. split; [done|]. cbn. destruct (is_ok res); set_solver.
  - exists T1, a1. do 4 (split; [done|]). split; [split; [exact Hq1|by split]|]. split; [|exact Hc1].
    split; [by destruct Hchanged|]. cbn. rewrite requeue_same. destruct (is_ok res); set_solver.
Qed.
(** ** Every step has its counterpart *)

Definition matched (T : object_id → Prop) (fl : gmap object_id (calls O)) b : Prop :=
  ∃ Ta a, sys_reach Ta a ∧ (∀ id, T id → Ta id) ∧ sim fl b a.

Lemma tracking_mono (T Ta : object_id → Prop) b a l b' a' :
  (∀ id, T id → Ta id) → shared b a → shared b' a' → ∀ id, tracking cfg T b l b' id → tracking cfg Ta a l a' id.
Proof.
  intros HT (Hq & _ & Hr) (Hq' & _ & Hr') id. unfold tracking. rewrite Hq, Hr, Hq', Hr'.
  destruct l as [| ? []| | | | |]; naive_solver.
Qed.

Lemma phase_inv b a id t :
  phase b a id t →
  (t = object_calls id ∧ objects a !! id = objects b !! id ∧ same_hash b a id) ∨
  (has_read t ∧ about id t ∧ (objects a !! id = objects b !! id ∨ id ∈ dirty b) ∧ amounts b a id t) ∨
  t = Return (Ok tt) ∧ synced b a id ∧ same_hash b a id.
Proof. intros []; [by left|by right; left|by right; right]. Qed.

Lemma matched_start T b fl id :
  matched T fl b → id_ok id → fl !! id = None →
  matched T (<[id := object_calls id]> fl)
    (Sys (objects b) (dirty b ∖ {[id]}) (ctl b) (progress b) (repository b)).
Proof.
  intros (Ta & a & Hr & HT & Hsim) Hid Hfl. exists Ta, a. split; [done|]. split; [done|].
  apply (sim_update fl _ b a _ _ id); [done|done| |apply only_refl|apply Hsim| |].
  - split; [|done]. intros id' Hne. split; [done|]. cbn. set_solver.
  - intros id' Hne. by rewrite lookup_insert_ne.
  - rewrite lookup_insert_eq. apply waiting; [apply (sim_still _ _ _ Hsim id Hfl)|].
    by apply (sim_same_hash fl b a).
Qed.

(** The object is read, from the cluster as it is. *)
Lemma amounts_read b a id k get :
  id_ok id → object_calls (O := O) id = ClientGet (kind_gvk id.1.1) id.1.2 id.2 k →
  (∀ u, about id (k u) ∧ has_read (k u)) → answers (objects b) id get →
  objects a !! id = objects b !! id → same_hash b a id → amounts b a id (k (get (kind_gvk id.1.1) id.1.2 id.2)).
Proof.
  intros Hid Hk Hall Hans Ho Hc. exists get. split; [by eapply answers_same|]. intros q get'. rewrite Hk. cbn [run].
  apply run_local; [apply Hall|left; apply Hall|]. by split.
Qed.

Lemma matched_call T b fl id t get t' ct :
  matched T fl b → fl !! id = Some t → answers (objects b) id get → call get t (ctl b) = Some (t', ct) →
  matched (tracking cfg T b (LReconcile id (queues t)) (with_ctl b ct)) (<[id := t']> fl) (with_ctl b ct).
Proof.
  intros (Ta & a & Hr & HT & Hsim) Hfl Hans Hcall.
  assert (Hid : id_ok id) by (apply (sim_ids _ _ _ Hsim); right; right; by eexists).
  assert (Hfl' : ∀ id', id' ≠ id → <[id := t']> fl !! id' = fl !! id') by (intros id' Hne; by rewrite lookup_insert_ne).
  destruct (sim_shared _ _ _ Hsim) as (Hq & Hp & Hrep).
  destruct (phase_inv _ _ _ _ (sim_flying _ _ _ Hsim id t Hfl))
    as [(-> & Ho & Hc)|[(Hread & Hab & Hd & Hj)|(-> & _)]]; [| |done].
  - destruct (object_calls_get (O := O) id) as (k & Hk & Hall); [apply Hid|]. rewrite Hk in Hcall |- *.
    injection Hcall as <- <-. exists Ta, a. split; [done|]. split; [done|].
    apply (sim_update fl _ b a _ _ id); [done|done|done|apply only_refl|done|done|].
    rewrite lookup_insert_eq. apply acting; [apply Hall|apply Hall|by left|]. by apply amounts_read.
  - destruct (call_about id t _ _ _ _ Hab Hcall) as (Hab' & Hframe & Hrest).
    assert (Hb : only id b (with_ctl b ct)) by (split; [done|]; intros key Hkey; by apply Hframe).
    destruct (Hrest Hread) as [Hread' Hlast]. destruct (queues t) eqn:Hqueues.
    + subst t'. destruct (finish Ta fl b a id t get Hr Hsim Hid Hab Hd Hj) as (T' & a' & Hr' & HT' & Hqu & Ha' & Hsh & Hsy & Hsa).
      rewrite (call_run _ _ _ _ _ Hcall) in Hsh, Hsy, Hsa. cbn [run fst snd] in Hsh, Hsy, Hsa.
      exists T', a'. split; [done|]. split; [intros id' [?| ->]; auto|].
      apply (sim_update fl _ b a _ _ id); [done|done|done|done|done|done|].
      rewrite lookup_insert_eq. by apply finished.
    + destruct Hlast as [Hqueue Hcalls]. exists Ta, a. split; [done|]. split; [done|].
      apply (sim_update fl _ b a _ _ id); [done|done|done|apply only_refl| |done|].
      { split; [cbn; by rewrite Hqueue|done]. }
      rewrite lookup_insert_eq. apply acting; [done|done|done|]. destruct Hj as (get0 & Hans0 & Hj).
      exists get0. split; [done|]. intros q get'.
      pose proof (Hj q get') as Hjq. by rewrite (call_run _ _ _ _ _ (Hcalls q get')) in Hjq.
Qed.

Lemma matched_return T b fl id res :
  matched T fl b → fl !! id = Some (Return res) → matched T (delete id fl) (returned b res id).
Proof.
  intros (Ta & a & Hr & HT & Hsim) Hfl.
  assert (Hid : id_ok id) by (apply (sim_ids _ _ _ Hsim); right; right; by eexists).
  assert (Hfl' : ∀ id', id' ≠ id → delete id fl !! id' = fl !! id') by (intros id' Hne; by rewrite lookup_delete_ne).
  assert (Hb : only id b (returned b res id)).
  { split; [|done]. intros id' Hne. split; [done|]. cbn. destruct (is_ok res); set_solver. }
  destruct (phase_inv _ _ _ _ (sim_flying _ _ _ Hsim id _ Hfl))
    as [(Hres & _)|[(_ & Hab & Hd & Hj)|([= ->] & Hsy & Hsa)]].
  - destruct (object_calls_get (O := O) id) as (k & Hk & _); [apply Hid|]. by rewrite Hk in Hres.
  - destruct (finish Ta fl b a id _ (cluster_reader (objects b)) Hr Hsim Hid Hab Hd Hj)
      as (T' & a' & Hr' & HT' & _ & Ha' & Hsh & Hsy & Hsa).
    exists T', a'. split; [done|]. split; [auto|].
    apply (sim_update fl _ b a _ _ id); [done|done|exact Hb|done|exact Hsh|done|].
    rewrite lookup_delete_eq. by split.
  - exists Ta, a. split; [done|]. split; [done|].
    apply (sim_update fl _ b a _ _ id); [done|done|exact Hb|apply only_refl|apply Hsim|done|].
    rewrite lookup_delete_eq. by split.
Qed.
Lemma matched_change T b fl id o :
  matched T fl b → id_ok id →
  matched T fl (Sys (partial_alter (λ _, o) id (objects b)) ({[id]} ∪ dirty b) (ctl b) (progress b) (repository b)).
Proof.
  intros (Ta & a & Hr & HT & Hsim) Hid. pose proof (sim_shared _ _ _ Hsim) as (Hq & Hp & Hrep).
  destruct (catch_up_one Ta a id o Hr Hid) as (a' & Hr' & Ha' & Hctl & Hpr & Hre & Hobj & Hdi).
  set (b' := Sys _ _ _ _ _). assert (Hb : only id b b').
  { split; [|done]. intros id' Hne. cbn. rewrite lookup_partial_alter_ne by done. split; [done|set_solver]. }
  assert (Hsh : shared b' a') by (split; [by rewrite Hctl|by rewrite Hpr, Hre]).
  assert (Hsame : objects a' !! id = objects b' !! id) by (rewrite Hobj; cbn; by rewrite !lookup_partial_alter_eq).
  assert (Hsync : synced b' a' id) by (split; [done|]; rewrite Hdi; cbn; set_solver).
  assert (Hhash : same_hash b a id → same_hash b' a' id) by (unfold same_hash; by rewrite Hctl).
  assert (Hnew : ∀ a0, sys_reach Ta a0 → only id a a0 → shared b' a0 →
    match fl !! id with Some t => phase b' a0 id t | None => synced b' a0 id ∧ same_hash b' a0 id end → matched Ta fl b').
  { intros a0 Hr0 Ho0 Hsh0 Hph. exists Ta, a0. split; [done|]. split; [done|]. by apply (sim_update fl _ b a _ _ id). }
  assert (Hdone : matched Ta fl b' → matched T fl b').
  { intros (T' & a0 & Hr0 & HT0 & Hs0). exists T', a0. split; [done|]. split; [auto|done]. }
  apply Hdone. destruct (fl !! id) as [t|] eqn:Hfl.
  - destruct (phase_inv _ _ _ _ (sim_flying _ _ _ Hsim id t Hfl))
      as [(-> & _ & Hc)|[(Hread & Hab & Hd & Hj)|(-> & _ & Hc)]].
    + apply (Hnew a'); [done|done|done|]. apply waiting; auto.
    + apply (Hnew a); [done|apply only_refl|done|]. apply acting; [done|done| |done]. right. cbn. set_solver.
    + apply (Hnew a'); [done|done|done|]. apply finished; auto.
  - apply (Hnew a'); [done|done|done|]. split; [done|]. apply Hhash. by apply (sim_same_hash fl b a).
Qed.

(** The worker sees the queue, the batch in progress and the repository. *)
Lemma worker_transfer b l b' a :
  worker_step cfg disk b l b' → shared b a →
  ∃ a', worker_step cfg disk a l a' ∧ shared b' a' ∧ (∀ id, same_view id a a') ∧ ∀ id, same_view id b b'.
Proof.
  intros Hw (Hq & Hp & Hrep). destruct Hw as
    [b bt q' Hb Ht|b bt dir r0 rp tree order disk' r' Hb Hu Hready Hperm Hexp|b bt d r0 order d' e Hb Hu Hexp
    |b bt dir r0 rp tree order disk' e r' Hb Hu Hready Hperm Hexp|b bt Hb Hu];
    rewrite <- Hp in Hb; try rewrite <- Hq in Ht; try rewrite <- Hrep in Hexp; rewrite <- ?Hrep, <- ?Hq;
    (eexists; split; [by econstructor|]); unfold shared; cbn [ctl GitQueue progress repository]; by rewrite ?Hq, ?Hrep.
Qed.

Lemma worker_frame b l b' : worker_step cfg disk b l b' →
  objects b' = objects b ∧ dirty b' = dirty b ∧ Cache (ctl b') = Cache (ctl b).
Proof. by intros []. Qed.

(** What leaves objects, reconciles and cache alone on both sides. *)
Lemma sim_beside fl b a b' a' :
  sim fl b a → shared b' a' → objects b' = objects b ∧ dirty b' = dirty b ∧ Cache (ctl b') = Cache (ctl b) →
  objects a' = objects a ∧ dirty a' = dirty a ∧ Cache (ctl a') = Cache (ctl a) → sim fl b' a'.
Proof.
  intros [_ Hids Hstill Hhash Hfly] Hsh (Hbo & Hbd & Hbc) (Hao & Had & Hac).
  split; [done|by rewrite Hbo, Hbd| |by rewrite Hac, Hbc|].
  - intros id Hfl. unfold synced. rewrite Hao, Had, Hbo, Hbd. by apply Hstill.
  - intros id t Hfl. apply (phase_view b a); [|unfold same_view; by rewrite Hbo, Hbd, Hbc
      |unfold same_view; by rewrite Hao, Had, Hac|by apply Hfly].
    apply Hids. right. right. by eexists.
Qed.

Lemma matched_worker T b fl l b' : matched T fl b → worker_step cfg disk b l b' → matched (tracking cfg T b l b') fl b'.
Proof.
  intros (Ta & a & Hr & HT & Hsim) Hw. pose proof (sim_shared _ _ _ Hsim) as Hshared.
  destruct (worker_transfer b l b' a Hw Hshared) as (a' & Ha & Hsh & _).
  exists (tracking cfg Ta a l a'), a'. split; [eapply sys_next; [exact Hr|by apply sys_worker]|].
  split; [by apply tracking_mono|]. by apply (sim_beside fl b a); [| |eapply worker_frame|eapply worker_frame].
Qed.

Lemma matched_push T b fl r' :
  matched T fl b → matched (tracking cfg T b LPush (with_repository b r')) fl (with_repository b r').
Proof.
  intros (Ta & a & Hr & HT & Hsim). pose proof (sim_shared _ _ _ Hsim) as (Hq & Hp & Hrep).
  exists (tracking cfg Ta a LPush (with_repository a r')), (with_repository a r').
  split; [eapply sys_next; [exact Hr|by apply sys_push]|]. split; [by apply tracking_mono|].
  by apply (sim_beside fl b a).
Qed.

Lemma catch_up (T : object_id → Prop) a (objs : gmap object_id O) (l : list object_id) :
  sys_reach T a → (∀ id, id ∈ l → id_ok id) →
  ∃ a', sys_reach T a' ∧ repository a' = repository a ∧
    ∀ id, objects a' !! id = if decide (id ∈ l) then objs !! id else objects a !! id.
Proof.
  intros Hr Hl. induction l as [|id l IH].
  - exists a. split; [done|]. split; [done|]. intros id. by rewrite decide_False by apply not_elem_of_nil.
  - destruct IH as (a1 & Hr1 & Hrep1 & Ho1); [intros id' Hid'; apply Hl; by right|].
    destruct (catch_up_one T a1 id (objs !! id) Hr1) as (a' & Hr' & _ & _ & _ & Hrep & Hobj & _);
      [apply Hl; by left|].
    exists a'. split; [done|]. split; [by rewrite Hrep|]. intros id'. rewrite Hobj.
    destruct (decide (id' = id)) as [->|Hne].
    + rewrite lookup_partial_alter_eq, decide_True; [done|by left].
    + rewrite lookup_partial_alter_ne, Ho1 by done. apply decide_ext. set_solver.
Qed.

Lemma matched_restart T b fl :
  matched T fl b → matched (λ id, live_file cfg (repository b) id = None) ∅ (restarted b).
Proof.
  intros (Ta & a & Hr & HT & Hsim). destruct Hsim as [(_ & _ & Hrep) Hids Hstill _ _].
  destruct (catch_up Ta a (objects b) (elements (dom fl)) Hr) as (a' & Hr' & Hrep' & Hobj).
  { intros id Hid%elem_of_elements%elem_of_dom. apply Hids. by do 2 right. }
  assert (Ho : objects a' = objects b).
  { apply map_eq. intros id. rewrite Hobj. case_decide as Hin; [done|].
    apply Hstill. apply not_elem_of_dom. by rewrite elem_of_elements in Hin. }
  assert (Ha : restarted a' = restarted b) by (unfold restarted; by rewrite Ho, Hrep', Hrep).
  eexists _, (restarted a'). split; [by apply (sys_restart _ _ Ta)|]. split; [by rewrite Hrep', Hrep|]. rewrite Ha.
  split; [done| |done|done|done]. unfold restarted. cbn [objects dirty].
  intros id [Hid|[Hid%elem_of_dom|[t Hid]]]; [apply Hids; by left|apply Hids; by left|by rewrite lookup_empty in Hid].
Qed.

Lemma creach_matched T c : creach T c → matched T (flying c) (base c).
Proof.
  induction 1; cbn [base flying] in *; [|by apply matched_start|by eapply matched_call|by apply matched_return
    |by apply matched_change|by apply matched_worker|by apply matched_push|by eapply matched_restart].
  eexists _, _. split; [by apply sys_init|]. split; [done|]. split; try done; cbn.
  intros id [[? Hid]|[Hid|[? Hid]]]; [by rewrite lookup_empty in Hid|by apply elem_of_empty in Hid|by rewrite lookup_empty in Hid].
Qed.
(** C5: reconciles are atomic. However the calls that reconciles of different objects
    make on the cluster, the cache and the queue interleave with each other, with
    changes of the cluster - also of the object between its read and the end of its
    reconcile -, with the batch worker, pushes of others and restarts, and whatever
    their reads are answered with: whenever no reconcile is under way, the state is
    one that the system of [Convergence] reaches, where a reconcile is a single
    step; and every object the process is up to date with here it is up to date with
    there. *)
Theorem reconciles_are_atomic T c :
  creach T c → flying c = ∅ → ∃ T', sys_reach T' (base c) ∧ ∀ id, T id → T' id.
Proof.
  intros Hr%creach_matched Hfl. destruct c as [b fl]. cbn [base flying] in *. subst fl.
  destruct Hr as (Ta & a & Hr & HT & [(Hq & Hp & Hrep) _ Hstill Hhash _]). exists Ta. split; [|done].
  replace b with a; [done|]. destruct a as [oa da [ca qa] pa ra], b as [ob db [cb qb] pb rb].
  cbn [objects dirty ctl Cache GitQueue progress repository] in *. f_equal; [| |f_equal; [|done]|done|done].
  - apply map_eq. intros id. by apply Hstill.
  - apply set_eq. intros id. by apply Hstill.
  - apply map_eq. intros key. apply Hhash. intros id [t Hid]. by rewrite lookup_empty in Hid.
Qed.

(** So Git converges to the cluster also while reconciles of other objects are
    under way: once an object that is not being reconciled has been reconciled after
    its last change and no operation on its path is queued or in progress, the
    branch shows it. *)
Theorem concurrent_inventory_converges T c id :
  creach T c → T id → id_ok id → flying c !! id = None → id ∉ dirty (base c) →
  GitQueue (ctl (base c)) !! export_rel id = None → (progress (base c) ≫= λ bt : batch, bt !! export_rel id) = None →
  converged cfg (base c) id.
Proof.
  intros Hr%creach_matched HT Hid Hfl Hd Hq Hb. destruct c as [b fl]. cbn [base flying] in *.
  destruct Hr as (Ta & a & Hr & HTa & [(Hsq & Hsp & Hrep) _ Hstill _ _]). destruct (Hstill id Hfl) as [Ho Hdirty].
  assert (Hc : converged cfg a id).
  { apply (settled_converged _ Ta); [by eapply reach_inv|by apply HTa|done|by rewrite Hdirty|by rewrite Hsq|by rewrite Hsp]. }
  unfold converged in *. by rewrite <- Ho, <- Hrep.
Qed.
End system.

(** ** Witness: the reconciles of two new objects, call by call in turn *)

Module Sample.
Import Convergence.Sample.
#[local] Existing Instances ascii_tables fragment_engine literal_f64 text_object text_annotations json_yaml
  plain_messages no_faults one_temp history_git history_spec.

Definition both : gmap object_id string :=
  partial_alter (λ _, Some sample_text) b_id (partial_alter (λ _, Some sample_text) a_id ∅).

(** What is left of the reconcile of a new object with this text. *)
Definition to_enqueue (id : object_id) : calls string :=
  QueueEnqueue (Job (export_rel id) a_doc) (Return (Ok tt)).
Definition to_set (id : object_id) : calls string := CacheSet (cache_key id) sample_hash1 (to_enqueue id).
Definition to_look (id : object_id) : calls string := CacheGet (cache_key id) (λ prev,
  if bool_decide (prev = Some sample_hash1) then Return (Ok tt) else to_set id).

Lemma get_call (objs : gmap object_id string) s id :
  id.1.1 = "Application" → objs !! id = Some sample_text →
  call (cluster_reader objs) (object_calls id) s = Some (to_look id, s).
Proof.
  intros Hk Ho. unfold object_calls. rewrite decide_True by done. unfold Reconcile_Application_calls, reconcile_calls.
  cbn [call]. change ApplicationGVK with (kind_gvk "Application"). rewrite <- Hk, reader_object, Ho by by left.
  unfold handle_calls. rewrite sample_hashed1, sample_unannotated, render_default. reflexivity.
Qed.
Lemma look_call get s id : Cache s !! cache_key id = None → call get (to_look id) s = Some (to_set id, s).
Proof. intros Hc. cbn. unfold Get. by rewrite Hc. Qed.
Lemma enqueue_a get cache : call get (to_enqueue a_id) (RState cache ∅) = Some (Return (Ok tt), RState cache a_batch).
Proof.
  change (Some (Return (O := string) (Ok tt), RState cache (Enqueue ∅ (Job (export_rel a_id) a_doc))) =
    Some (Return (Ok tt), RState cache a_batch)).
  assert (Hq : Enqueue ∅ (Job (export_rel a_id) a_doc) = a_batch) by by_vm. by rewrite Hq.
Qed.

Definition hashes : HashCache := <[cache_key b_id := sample_hash1]> (<[cache_key a_id := sample_hash1]> NewHashCache).
Definition under_way (ta tb : calls string) : gmap object_id (calls string) := <[b_id := tb]> (<[a_id := ta]> ∅).
Definition state (cache : HashCache) (q : batch) (pr : option batch) (r : history) : sys (O := string) :=
  Sys both ∅ (RState cache q) pr (r : remote).
Abbreviation reached b ta tb := (∃ T, creach sample_cfg sample_disk T (CSys b (under_way ta tb)) ∧ T a_id).

Lemma ids_differ : a_id ≠ b_id.
Proof. discriminate. Qed.

Lemma tracked (T : object_id → Prop) b id queued b' :
  T a_id → tracking sample_cfg T b (LReconcile id queued) (b' : sys (O := string)) a_id.
Proof. intros HT. destruct queued; [by left|exact HT]. Qed.

Lemma step_a b ta tb ta' ct :
  call (cluster_reader (objects b)) ta (ctl b) = Some (ta', ct) → reached b ta tb → reached (with_ctl b ct) ta' tb.
Proof.
  intros Hcall (T & Hr & HT). eexists. split; [|by apply tracked].
  pose proof (creach_call _ _ T b _ a_id ta (cluster_reader (objects b)) ta' ct Hr) as Hn.
  unfold under_way in *. rewrite (insert_insert_ne _ _ _ _ _ ids_differ), insert_insert_eq in Hn.
  apply Hn; [|by left|done]. rewrite lookup_insert_ne; [apply lookup_insert_eq|discriminate].
Qed.
Lemma step_b b ta tb tb' ct :
  call (cluster_reader (objects b)) tb (ctl b) = Some (tb', ct) → reached b ta tb → reached (with_ctl b ct) ta tb'.
Proof.
  intros Hcall (T & Hr & HT). eexists. split; [|by apply tracked].
  pose proof (creach_call _ _ T b _ b_id tb (cluster_reader (objects b)) tb' ct Hr) as Hn.
  unfold under_way in *. rewrite insert_insert_eq in Hn. apply Hn; [|by left|done]. apply lookup_insert_eq.
Qed.

(** Both objects are created, and both reconciles are started. *)
Lemma both_started : reached (state NewHashCache ∅ None sample_remote) (object_calls a_id) (object_calls b_id).
Proof.
  pose proof (creach_init (O := string) sample_cfg sample_disk (sample_remote : remote)) as H1.
  pose proof (creach_change _ _ _ _ _ a_id (Some sample_text) H1 a_ok) as H2. cbn [objects dirty ctl progress repository] in H2.
  pose proof (creach_change _ _ _ _ _ b_id (Some sample_text) H2 b_ok) as H3. cbn [objects dirty ctl progress repository] in H3.
  pose proof (creach_start _ _ _ _ _ a_id H3 a_ok (lookup_empty _)) as H4. cbn [objects dirty ctl progress repository] in H4.
  pose proof (creach_start _ _ _ _ _ b_id H4 b_ok ltac:(by rewrite lookup_insert_ne)) as H5.
  cbn [objects dirty ctl progress repository] in H5.
  replace (_ ∖ {[b_id]}) with (∅ : gset object_id) in H5 by set_solver. eexists. split; [exact H5|exact (a_no_export a_id a_ok)].
Qed.

(** Each looks its hash up before the other sets its own, and the worker takes the
    batch when one operation is queued. *)
Lemma both_called : reached (state hashes ∅ (Some a_batch) sample_remote) (Return (Ok tt)) (to_enqueue b_id).
Proof.
  assert (Ha : both !! a_id = Some sample_text).
  { unfold both. rewrite lookup_partial_alter_ne; [apply lookup_partial_alter_eq|discriminate]. }
  assert (Hb : both !! b_id = Some sample_text) by apply lookup_partial_alter_eq.
  set (start := state NewHashCache ∅ None sample_remote).
  pose proof (step_a start _ _ _ _ (get_call both (ctl start) a_id eq_refl Ha) both_started) as H1.
  pose proof (step_b start _ _ _ _ (get_call both (ctl start) b_id eq_refl Hb) H1) as H2.
  pose proof (step_b start _ _ _ _ (look_call _ (ctl start) b_id (lookup_empty _)) H2) as H3.
  pose proof (step_a start _ _ _ _ (look_call _ (ctl start) a_id (lookup_empty _)) H3) as H4.
  set (one := RState (Set_ NewHashCache (cache_key a_id) sample_hash1) ∅).
  pose proof (step_a start (to_set a_id) (to_set b_id) (to_enqueue a_id) one eq_refl H4) as H5.
  pose proof (step_b (with_ctl start one) (to_enqueue a_id) (to_set b_id) (to_enqueue b_id) (RState hashes ∅) eq_refl H5) as H6.
  pose proof (step_a (with_ctl start (RState hashes ∅)) (to_enqueue a_id) (to_enqueue b_id) (Return (Ok tt))
    (RState hashes a_batch) (enqueue_a _ hashes) H6) as (T & H7 & HT).
  eexists. split; [eapply creach_worker; [exact H7|]|].
  - exact (worker_take sample_cfg sample_disk (with_ctl start (RState hashes a_batch)) a_batch ∅ eq_refl eq_refl).
  - exact HT.
Qed.

(** The other operation is queued while the batch is exported; both reconciles
    return, and the batch is published. *)
Definition b_queue : batch := Enqueue ∅ (Job (export_rel b_id) a_doc).
Lemma both_done : ∃ T, creach sample_cfg sample_disk T (CSys (state hashes b_queue None a_run.2) ∅) ∧ T a_id.
Proof.
  destruct (step_b (state hashes ∅ (Some a_batch) sample_remote) (Return (Ok tt)) (to_enqueue b_id) (Return (Ok tt))
    (RState hashes b_queue) eq_refl both_called) as (T & H1 & HT).
  pose proof (creach_return _ _ _ _ _ a_id (Ok tt) H1) as H2.
  unfold under_way in H2. rewrite delete_insert_ne, delete_insert_eq, delete_empty in H2 by discriminate.
  specialize (H2 ltac:(rewrite lookup_insert_ne by discriminate; apply lookup_insert_eq)).
  pose proof (creach_return _ _ _ _ _ b_id (Ok tt) H2 (lookup_insert_eq _ _ _)) as H3.
  rewrite delete_insert_eq, delete_empty in H3. eexists. split; [eapply creach_worker; [exact H3|]|].
  - pose proof one_temp_laws as laws. pose proof a_published as Hp. unfold a_run in *.
    destruct (exportBatch _ _ _ _ _ _) as [rd r2] eqn:Hrun. cbn in Hp. subst rd.
    refine (worker_publish sample_cfg sample_disk (state hashes b_queue (Some a_batch) sample_remote) a_batch "/tmp/x"
      sample_remote sample_clone sample_tree (map_to_list a_batch) sample_disk r2 eq_refl _ a_ready (Permutation_refl _) Hrun).
    discriminate.
  - split; [exact HT|reflexivity].
Qed.

Lemma reconciles_are_atomic_witness : ∃ T, sys_reach sample_cfg sample_disk T (state hashes b_queue None a_run.2).
Proof.
  pose proof one_temp_laws as laws. destruct both_done as (T & Hr & _).
  destruct (reconciles_are_atomic sample_cfg sample_disk T _ Hr eq_refl) as (T' & Hr' & _). exists T'. exact Hr'.
Defined.

Lemma concurrent_inventory_converges_witness :
  converged sample_cfg (state hashes b_queue None a_run.2) a_id ∧ live_file sample_cfg (a_run.2 : remote) a_id = Some a_doc.
Proof.
  pose proof one_temp_laws as laws. destruct both_done as (T & Hr & HT). split; [|by_vm].
  apply (concurrent_inventory_converges sample_cfg sample_disk T (CSys (state hashes b_queue None a_run.2) ∅) a_id Hr HT a_ok).
  - apply lookup_empty.
  - apply not_elem_of_empty.
  - unfold base, state, b_queue, Enqueue, set_pending. cbn [ctl GitQueue Path]. rewrite lookup_insert_ne; [apply lookup_empty|].
    intros Heq. apply ids_differ. symmetry. by apply (id_same b_id a_id b_ok a_ok).
  - reflexivity.
Defined.
End Sample.
