(* ===== verification/Quiescence.v ===== *)
(** The inventory side when the cluster stops changing: its work ends, and it ends
    with the branch showing the cluster. *)
From S2P Require Import Prelude GoStrings GoPath GoCrypto GoMap GoJson GoJsonFacts Config ExportPath InventoryPath ConfigMapMaterial Normalize ArchivePath GitBatch Fs BatchWorker BatchWorkerFacts ExportBatch WorkerQueue HashCache Reconciler Convergence.

(** Every call on a clone succeeds, and what is committed on it can be pushed to
    the remote it is a clone of. *)
Class GitUp `{GoGit} : Prop := {
  git_up r o rp tree w : git_PlainClone r o = Ok (rp, tree) →
    ∃ rp' wt0 wt, git_PlainOpen rp = Ok rp' ∧ repo_Worktree rp' = Ok wt0 ∧ wt_AddAll wt0 w = Ok wt ∧
      (∃ clean, wt_IsClean wt w = Ok clean) ∧
      ∀ msg sig, ∃ rp2 r2, wt_CommitAll wt w msg sig = Ok rp2 ∧ repo_Push r rp2 (Auth o) = (Ok tt, r2)
}.

Section work.
Context `{GoUnicode} `{TextTemplate} `{Float64Laws} `{JsonMessages} `{!SigsYaml}.
Context `{OsFaults} `{TempDirsLaws} `{GoGitSpec}.
Context {O : Type} `{!RuntimeObject O} `{!ClientObject O}.
Context (cfg : InventoryControllerConfig) (disk : fs).
Abbreviation sys := (sys (O := O)).
Abbreviation sys_reach := (sys_reach (O := O) cfg disk).
Implicit Types s : sys.

(** The steps of the program by itself: a reconcile of an object that changed, which
    is queued again when it returns an error; a batch taken; a batch published, or
    dropped when no repository is configured. *)
Inductive work_step : sys → sys → Prop :=
| work_reconcile s id res ctl' : id ∈ dirty s →
    reconcile_object (cluster_reader (objects s)) id (ctl s) = (res, ctl') →
    work_step s (Sys (objects s) (requeue res id (dirty s)) ctl' (progress s) (repository s))
| work_take s b q' : progress s = None → flush_take (GitQueue (ctl s)) = Some (b, q') →
    work_step s (Sys (objects s) (dirty s) (RState (Cache (ctl s)) q') (Some b) (repository s))
| work_publish s b dir rp tree order disk' r' : progress s = Some b → has_repository cfg →
    export_ready cfg disk dir (repository s) rp tree b → order ≡ₚ map_to_list b →
    exportBatch cfg disk (repository s) (repository s) b order = (Ok tt, disk', r') →
    work_step s (Sys (objects s) (dirty s) (RState (Cache (ctl s)) (flush_finish (GitQueue (ctl s)) b (Ok tt)))
                  None r')
| work_drop s b : progress s = Some b → ¬ has_repository cfg →
    work_step s (Sys (objects s) (dirty s) (RState (Cache (ctl s)) (flush_finish (GitQueue (ctl s)) b (Ok tt)))
                  None (repository s)).

Lemma work_step_inv s s' :
  work_step s s' →
  (∃ id res ctl', id ∈ dirty s ∧ reconcile_object (cluster_reader (objects s)) id (ctl s) = (res, ctl') ∧
    s' = Sys (objects s) (requeue res id (dirty s)) ctl' (progress s) (repository s)) ∨
  (∃ b q', progress s = None ∧ flush_take (GitQueue (ctl s)) = Some (b, q') ∧
    s' = Sys (objects s) (dirty s) (RState (Cache (ctl s)) q') (Some b) (repository s)) ∨
  (∃ b r', progress s = Some b ∧ s' = Sys (objects s) (dirty s) (RState (Cache (ctl s)) (GitQueue (ctl s))) None r').
Proof.
  intros [].
  - left. by repeat eexists.
  - right. left. by repeat eexists.
  - right. right. by repeat eexists.
  - right. right. by repeat eexists.
Qed.

Definition quiescent s : Prop := dirty s = ∅ ∧ GitQueue (ctl s) = ∅ ∧ progress s = None.

(** What is to be reconciled are objects of the two kinds, and their documents can be
    rendered. *)
Record renderable s : Prop := {
  rend_ids id : id ∈ dirty s → id_ok id;
  rend_objects id obj : objects s !! id = Some obj → is_ok (NormalizedYAMLAndMaterialHash obj) = true
}.

(** Then a reconcile whose read is answered as the cluster is succeeds. *)
Lemma reconcile_ok s id :
  renderable s → id_ok id → is_ok (reconcile_object (cluster_reader (objects s)) id (ctl s)).1 = true.
Proof.
  intros [_ Hobj] Hid. assert (Heta : RState (Cache (ctl s)) (GitQueue (ctl s)) = ctl s) by by destruct (ctl s).
  destruct (reconcile_shape (cluster_reader (objects s)) id (Cache (ctl s)) Hid) as [(res & Hidle & _ & Hq)|(c & op & _ & _ & Hq)];
    specialize (Hq (GitQueue (ctl s))); rewrite Heta in Hq; rewrite Hq; [|done].
  rewrite reader_object in Hidle by apply Hid. unfold idle in Hidle. specialize (Hobj id).
  destruct (objects s !! id) as [obj|]; [|by destruct Hidle]. specialize (Hobj obj eq_refl).
  destruct (NormalizedYAMLAndMaterialHash obj) as [[y h]|]; [|done]. by destruct Hidle as [-> _].
Qed.

Lemma work_renderable s s' : renderable s → work_step s s' → renderable s'.
Proof.
  intros Hs Hw. destruct Hw as [s id res ctl' Hin Hrun| | |]; destruct Hs as [Hids Hobj]; split; try done.
  cbn [dirty]. intros id' [?| ->]%requeue_ids; auto.
Qed.

(** The work left: a reconcile can fill the queue, and a batch taken from the
    queue is still to be published. *)
Definition work_left s : nat :=
  3 * size (dirty s) + (if decide (GitQueue (ctl s) = ∅) then 0 else 2) +
  (if progress s is Some _ then 1 else 0).

Lemma work_decreases s s' : renderable s → work_step s s' → work_left s' < work_left s.
Proof.
  intros Hs Hw. destruct Hw as [s id res ctl' Hin Hrun|s b q' Hp Ht|s b dir rp tree order disk' r' Hp _ _ _|s b Hp _];
    unfold work_left; cbn [dirty ctl progress GitQueue].
  - pose proof (reconcile_ok s id Hs (rend_ids s Hs id Hin)) as Hok. rewrite Hrun in Hok. cbn [fst] in Hok.
    unfold requeue. rewrite Hok.
    assert (Hsize : size (dirty s) = 1 + size (dirty s ∖ {[id]})).
    { rewrite <- (size_singleton (C := gset object_id) id), <- size_union by set_solver.
      f_equal. by apply union_difference_singleton_L. }
    destruct (decide _), (decide _); lia.
  - unfold flush_take in Ht. case_decide as Hq; [done|]. injection Ht as <- <-. rewrite Hp.
    rewrite decide_True by done. lia.
  - rewrite Hp. cbn [flush_finish]. destruct (decide _); lia.
  - rewrite Hp. cbn [flush_finish]. destruct (decide _); lia.
Qed.

(** Runs with setbacks: reconciles whose read fails, so that they are queued again,
    and exports that fail, with the batch put back whatever was enqueued meanwhile:
    [n] steps of the program, [f] of them setbacks. *)
Inductive attempts : nat → nat → sys → sys → Prop :=
| attempts_nil s : attempts 0 0 s s
| attempts_work n f s s1 s' : work_step s s1 → attempts n f s1 s' → attempts (S n) f s s'
| attempts_read n f s s' id get e res ctl' : id ∈ dirty s →
    get (kind_gvk id.1.1) id.1.2 id.2 = Failed e → IsNotFound e = false →
    reconcile_object get id (ctl s) = (res, ctl') →
    attempts n f (Sys (objects s) (requeue res id (dirty s)) ctl' (progress s) (repository s)) s' →
    attempts (S n) (S f) s s'
| attempts_fail n f s s' b d r0 order disk' r' e : progress s = Some b →
    exportBatch cfg d r0 (repository s) b order = (Failed e, disk', r') →
    attempts n f (Sys (objects s) (dirty s) (RState (Cache (ctl s)) (flush_finish (GitQueue (ctl s)) b (Failed e)))
                    None r') s' →
    attempts (S n) (S f) s s'.

(** A failed read leaves everything as it was, the object still to be reconciled. *)
Lemma failed_read s id get e res ctl' :
  id_ok id → id ∈ dirty s → get (kind_gvk id.1.1) id.1.2 id.2 = Failed e → IsNotFound e = false →
  reconcile_object get id (ctl s) = (res, ctl') →
  Sys (objects s) (requeue res id (dirty s)) ctl' (progress s) (repository s) = s.
Proof.
  intros [Hk _] Hin Hget He. unfold reconcile_object. rewrite (reconcile_failed _ _ _ _ _ _ _ Hk Hget He).
  intros [= <- <-]. unfold requeue. cbn [is_ok].
  replace ({[id]} ∪ dirty s) with (dirty s) by set_solver. by destruct s.
Qed.

(** A failed export costs at most the step it is and another flush. *)
Lemma attempts_left n f s s' : renderable s → attempts n f s s' → n + work_left s' ≤ work_left s + 2 * f.
Proof.
  intros Hs Hn. induction Hn as [s|n f s s1 s' Hw _ IH|n f s s' id get e res ctl' Hin Hget He Hrun _ IH
    |n f s s' b d r0 order disk' r' e Hp _ _ IH]; [lia| | |].
  - specialize (IH (work_renderable _ _ Hs Hw)). pose proof (work_decreases _ _ Hs Hw). lia.
  - rewrite (failed_read s id get e res ctl' (rend_ids s Hs id Hin) Hin Hget He Hrun) in IH. specialize (IH Hs). lia.
  - destruct Hs as [Hids Hobj]. specialize (IH ltac:(by split)).
    unfold work_left in IH at 2. unfold work_left at 2. rewrite Hp. cbn [dirty ctl progress GitQueue] in IH.
    destruct (decide (GitQueue (ctl s) = ∅)), (decide _); lia.
Qed.

(** C24: the work ends. However reconciles, takes, publications, failed reads and
    failed exports interleave, from a state with [n] objects to be reconciled, whose
    documents can be rendered, the program makes at most [3 * n + 3] of its steps,
    and two more for every read and every export that fails, before it has to wait
    for the cluster. A reconcile is done with its object because it succeeds: one
    that returns an error is to be done again. *)
Theorem work_ends s s' n f : renderable s → attempts n f s s' → n ≤ 3 * size (dirty s) + 3 + 2 * f.
Proof.
  intros Hs Hn%attempts_left; [|done]. revert Hn. unfold work_left at 2. destruct (decide _), (progress s); lia.
Qed.

(** ** What the process learns *)

(** An object to be reconciled whose hash is not the cached one: the reconcile will
    not take it for exported. Right after a restart that is every object. *)
Definition unseen s (id : object_id) : Prop :=
  id ∈ dirty s ∧ ∀ obj y h, objects s !! id = Some obj → NormalizedYAMLAndMaterialHash obj = Ok (y, h) →
    Cache (ctl s) !! cache_key id ≠ Some h.
Definition applied s (id : object_id) : Prop :=
  ∃ obj y h, objects s !! id = Some obj ∧ NormalizedYAMLAndMaterialHash obj = Ok (y, h) ∧ annotation_matches obj h = true.
Definition known (T : object_id → Prop) s id : Prop := T id ∨ unseen s id ∨ applied s id.

Lemma known_reconcile T s id res ctl' :
  renderable s → id ∈ dirty s → reconcile_object (cluster_reader (objects s)) id (ctl s) = (res, ctl') →
  let s' := Sys (objects s) (requeue res id (dirty s)) ctl' (progress s) (repository s) in
  ∀ id', id_ok id' → known T s id' →
    known (tracking cfg T s (LReconcile id (exports (cluster_reader (objects s)) id (Cache (ctl s)))) s') s' id'.
Proof.
  intros Hs Hin Hrun s' id' Hid' Hk. assert (Hid : id_ok id) by by apply (rend_ids s Hs).
  pose proof (reconcile_ok s id Hs Hid) as Hok. rewrite Hrun in Hok.
  assert (Hother : id' ≠ id → Cache ctl' !! cache_key id' = Cache (ctl s) !! cache_key id' → unseen s id' → unseen s' id').
  { intros Hne Hc [Hd Hun]. split; cbn; [by apply requeue_other|by rewrite Hc]. }
  destruct (reconcile_cases s id _ _ _ Hid (or_introl eq_refl) Hrun) as [(-> & -> & Hdone)|(-> & -> & c & op & -> & _)].
  - destruct Hk as [HT|[Hun|Ha]]; [by left| |by do 2 right].
    destruct (decide (id' = id)) as [->|Hne]; [|right; left; auto].
    destruct res as [[]|]; [|done]. destruct (Hdone eq_refl) as (obj & y & h & Ho & Hy & [Hann|Hc]).
    + do 2 right. by exists obj, y, h.
    + destruct Hun as [_ Hun]. by destruct (Hun obj y h Ho Hy).
  - destruct (decide (id' = id)) as [->|Hne]; [left; by right|].
    destruct Hk as [HT|[Hun|Ha]]; [left; by left| |by do 2 right].
    right. left. apply Hother; [done| |done]. by apply put_other.
Qed.

(** With a repository, what the process is up to date with grows with its work. *)
Lemma work_reach T s s' :
  sys_reach T s → renderable s → has_repository cfg → rtc work_step s s' →
  ∃ T', sys_reach T' s' ∧ renderable s' ∧ ∀ id, id_ok id → known T s id → known T' s' id.
Proof.
  intros Hr Hs Hrepo Hw. revert T Hr Hs. induction Hw as [s|s s1 s' Hw _ IH]; intros T Hr Hs; [by exists T|].
  assert (Hnext : ∃ T1, sys_reach T1 s1 ∧ ∀ id, id_ok id → known T s id → known T1 s1 id).
  { pose proof Hw as Hstep. destruct Hw as [s id res ctl' Hin Hrun|s b q' Hp Ht|s b dir rp tree order disk' r' Hp _ Hready Hperm Hexp|s b Hp Hno].
    - eexists. split; [eapply sys_next; [exact Hr|]|by apply known_reconcile].
      eapply (sys_reconcile _ _ s id); [by apply (rend_ids s Hs)|by left|exact Hrun].
    - eexists. split; [eapply sys_next; [exact Hr|by apply sys_worker, worker_take]|]. by intros id _ [|[|]]; [left|right; left|right; right].
    - eexists. split; [eapply sys_next; [exact Hr|by apply sys_worker; eapply (worker_publish _ _ s b dir (repository s))]|].
      intros id _ [|[|]]; [by left|by right; left|by right; right].
    - done. }
  destruct Hnext as (T1 & Hr1 & HT1). destruct (IH T1 Hr1) as (T' & Hr' & Hs' & HT'); [by eapply work_renderable|].
  exists T'. split; [done|]. split; [done|]. auto.
Qed.

(** ** Publishing succeeds when Git is up *)

Context `{!GitUp}.

Lemma export_succeeds dir r rp tree b order :
  export_ready cfg disk dir r rp tree b → order ≡ₚ map_to_list b →
  ∃ r', exportBatch cfg disk r r b order = (Ok tt, disk, r').
Proof.
  intros Hready Hperm. destruct (exportBatch_steps _ _ _ _ r _ _ _ _ Hready Hperm) as (w & _ & ->).
  destruct Hready as [_ _ _ Hclone _ _ _ _].
  destruct (git_up _ _ _ _ w Hclone) as (rp' & wt0 & wt & H1w & H2w & H3w & [clean H4w] & Hpush).
  unfold commit_and_push. rewrite H1w. cbn [wrap_err mbind result_bind]. rewrite H2w. cbn [wrap_err mbind result_bind].
  rewrite H3w. cbn [wrap_err mbind result_bind]. rewrite H4w. cbn [wrap_err mbind result_bind].
  destruct clean; [by eexists|]. destruct (commitMessageForBatch b (sortedKeysBatch b)) as [subject body].
  destruct (Hpush (fullMsg subject body) (Author "accord-inventory" "accord@local")) as (rp2 & r2 & -> & Hp).
  cbn [wrap_err mbind result_bind]. cbn [Auth clone_options] in Hp. rewrite Hp. by eexists.
Qed.

(** A batch in progress finds the repository as an export needs it. *)
Definition publishable s : Prop :=
  ∀ b, progress s = Some b → ∃ dir rp tree, export_ready cfg disk dir (repository s) rp tree b.

Lemma work_progress s :
  has_repository cfg → publishable s → quiescent s ∨ ∃ s', work_step s s'.
Proof.
  intros Hrepo Hpub. destruct (progress s) as [b|] eqn:Hp.
  - right. destruct (Hpub b Hp) as (dir & rp & tree & Hready).
    destruct (export_succeeds _ _ _ _ _ _ Hready (Permutation_refl _)) as [r' Hexp].
    eexists. by eapply work_publish.
  - destruct (decide (dirty s = ∅)) as [Hd|[id Hid]%set_choose_L].
    + destruct (decide (GitQueue (ctl s) = ∅)) as [Hq|Hq]; [by left|right].
      eexists. apply (work_take s (GitQueue (ctl s)) ∅ Hp). unfold flush_take. by rewrite decide_False.
    + right. destruct (reconcile_object (cluster_reader (objects s)) id (ctl s)) as [res ctl'] eqn:Hrun.
      eexists. by eapply work_reconcile.
Qed.

(** The program gets done with its work. *)
Lemma work_done s :
  renderable s → has_repository cfg → (∀ s', rtc work_step s s' → publishable s') →
  ∃ s', rtc work_step s s' ∧ quiescent s'.
Proof.
  intros Hs Hrepo Hpub. remember (work_left s) as k eqn:Hk. revert s Hk Hs Hpub.
  induction (lt_wf k) as [k _ IH]. intros s -> Hs Hpub.
  destruct (work_progress s Hrepo (Hpub s (rtc_refl _ _))) as [Hq|[s1 Hw]]; [by exists s|].
  destruct (IH (work_left s1) (work_decreases _ _ Hs Hw) s1 eq_refl (work_renderable _ _ Hs Hw)) as (s' & Hs' & Hq).
  - intros s' Hs'. apply Hpub. by eapply rtc_l.
  - exists s'. split; [by eapply rtc_l|done].
Qed.

Lemma work_objects s s' : rtc work_step s s' → objects s' = objects s.
Proof. induction 1 as [|s s1 s' Hw _ IH]; [done|]. rewrite IH. by destruct Hw. Qed.

Lemma quiescent_converged T s id : sys_reach T s → quiescent s → id_ok id → known T s id → converged cfg s id.
Proof.
  intros Hr (Hd & Hq & Hp) Hid [HT|[[Hun _]|(obj & y & h & Ho & Hy & Ha)]].
  - apply (settled_converged cfg T); [by eapply reach_inv|done|done|rewrite Hd; apply not_elem_of_empty|by rewrite Hq|by rewrite Hp].
  - by rewrite Hd in Hun.
  - unfold converged. rewrite Ho. exists y, h. auto.
Qed.

(** C10: Git catches up. When the cluster stops changing, the documents of its objects
    can be rendered, a repository is configured, Git is up and every batch taken on
    the way finds the repository as an export needs it, the program cannot get stuck
    before it is done: a run of its steps that reaches the end exists, and every run
    that cannot be continued has reconciled every change, emptied the queue and
    published every batch, with the objects as they were. Then the branch shows - the
    normalized document, up to a collision of SHA-256 with the document exported
    before, unless the object carries its own hash, or no file if it is gone - every
    object the process was up to date with, and every object that was still to be
    reconciled unless its hash was the cached one. Right after a restart, with an
    empty cache, those are all objects of the cluster, and of the identities without
    an object those that had no file. *)
Theorem inventory_catches_up T s :
  sys_reach T s → (∀ id obj, objects s !! id = Some obj → is_ok (NormalizedYAMLAndMaterialHash obj) = true) →
  has_repository cfg → (∀ s', rtc work_step s s' → publishable s') →
  (∃ s', rtc work_step s s' ∧ quiescent s') ∧
  ∀ s', rtc work_step s s' → (∀ s'', ¬ work_step s' s'') →
    quiescent s' ∧ objects s' = objects s ∧
    ∀ id, id_ok id →
      T id ∨ (id ∈ dirty s ∧ ∀ obj y h, objects s !! id = Some obj → NormalizedYAMLAndMaterialHash obj = Ok (y, h) →
                Cache (ctl s) !! cache_key id ≠ Some h) →
      converged cfg s' id.
Proof.
  intros Hr Hobj Hrepo Hpub.
  assert (Hs : renderable s) by (split; [intros id Hd; apply (inv_ids _ _ _ (reach_inv _ _ _ _ Hr)); by right|exact Hobj]).
  split; [by apply work_done|]. intros s' Hs' Hstuck. assert (Hq : quiescent s').
  { destruct (work_progress s' Hrepo (Hpub s' Hs')) as [Hq|[s'' Hw]]; [done|by destruct (Hstuck s'')]. }
  split; [done|]. split; [by apply work_objects|]. intros id Hid Hk.
  destruct (work_reach _ _ _ Hr Hs Hrepo Hs') as (T' & Hr' & _ & HT').
  apply (quiescent_converged T'); [done|done|done|]. apply HT'; [done|]. destruct Hk; [by left|by right; left].
Qed.

(** Right after a restart the objects of the cluster are all to be reconciled and
    not cached. *)
Lemma restarted_unseen s id : is_Some (objects s !! id) → unseen (restarted s) id.
Proof.
  intros Ho. split; [by apply elem_of_dom|]. intros obj y h _ _. unfold restarted. cbn [ctl Cache].
  unfold NewHashCache. by rewrite lookup_empty.
Qed.
End work.

(** ** Witness: one object created *)

Lemma history_up : GitUp (H := history_git).
Proof.
  split. intros r o rp tree w Hclone. apply history_clone_inv in Hclone as (m & f & h & Hr & -> & _).
  eexists _, _, _. do 3 (split; [reflexivity|]). split; [by eexists|]. intros msg sig. eexists _, _.
  split; [reflexivity|]. unfold repo_Push, history_git, history_push. cbn. rewrite Hr. by rewrite decide_True.
Qed.

Module Sample.
Import Convergence.Sample.
#[local] Existing Instances ascii_tables fragment_engine literal_f64 text_object text_annotations json_yaml
  plain_messages no_faults one_temp history_git history_spec.

Abbreviation step := (work_step (O := string) sample_cfg sample_disk).

Definition on_the_way (s : sys (O := string)) : Prop :=
  s = a_created ∨ s = a_reconciled ∨ s = a_taken ∨ quiescent s.

Lemma created_dirty id : id ∈ dirty a_created → id = a_id.
Proof.
  unfold a_created. cbn [dirty]. intros [Hid|Hid]%elem_of_union; [by apply elem_of_singleton in Hid|].
  by apply elem_of_empty in Hid.
Qed.
Lemma reconciled_dirty id : id ∉ dirty a_reconciled.
Proof.
  unfold a_reconciled. cbn [dirty]. intros [Hid%created_dirty Hn]%elem_of_difference.
  apply Hn. by apply elem_of_singleton.
Qed.

Lemma on_the_way_step s s' : on_the_way s → step s s' → on_the_way s'.
Proof.
  intros Hs [(id & res & ctl' & Hin & Hrun & ->)|[(b & q' & Hp & Ht & ->)|(b & r' & Hp & ->)]]%work_step_inv;
    destruct Hs as [->|[->|[->|(Hd & Hq & Hn)]]].
  - apply created_dirty in Hin as ->. right. left. pose proof (eq_trans (eq_sym Hrun) a_reconcile_run) as Ha.
    injection Ha as -> ->. reflexivity.
  - by apply reconciled_dirty in Hin.
  - by apply reconciled_dirty in Hin.
  - rewrite Hd in Hin. by apply elem_of_empty in Hin.
  - discriminate Ht.
  - do 2 right. left. unfold flush_take in Ht. case_decide as Hq; [discriminate Hq|].
    injection Ht as <- <-. reflexivity.
  - discriminate Hp.
  - rewrite Hq in Ht. discriminate Ht.
  - discriminate Hp.
  - discriminate Hp.
  - do 3 right. split; [|split; reflexivity]. apply set_eq. intros id. split; [|by intros ?%elem_of_empty].
    by intros ?%reconciled_dirty.
  - rewrite Hn in Hp. discriminate Hp.
Qed.

Lemma on_the_way_publishable s : on_the_way s → publishable sample_cfg sample_disk s.
Proof.
  intros [->|[->|[->|(Hd & Hq & Hp)]]] b Hb; [done|done| |by rewrite Hp in Hb].
  injection Hb as <-. exists "/tmp/x", sample_clone, sample_tree. exact a_ready.
Qed.

Lemma created_reach : ∃ T, sys_reach sample_cfg sample_disk T a_created ∧ T a_id.
Proof.
  eexists. split; [eapply (sys_next _ _ _ a_start); [apply sys_init|]|].
  - by apply (sys_change _ _ a_start a_id (Some sample_text)), a_ok.
  - exact (a_no_export a_id a_ok).
Qed.

Lemma created_objects id obj : objects a_created !! id = Some obj → obj = sample_text.
Proof.
  unfold a_created. cbn [objects]. destruct (decide (id = a_id)) as [->|Hne].
  - rewrite lookup_partial_alter_eq. by intros [= <-].
  - rewrite lookup_partial_alter_ne by done. by rewrite lookup_empty.
Qed.
Lemma created_renderable : renderable a_created.
Proof.
  split; [intros id ->%created_dirty; exact a_ok|]. intros id obj ->%created_objects. by rewrite sample_hashed1.
Qed.

Lemma inventory_catches_up_witness :
  ∃ s', rtc step a_created s' ∧ quiescent s' ∧ converged sample_cfg s' a_id.
Proof.
  pose proof one_temp_laws as laws. pose proof history_up as up.
  assert (Hrun : ∀ s s', rtc step s s' → on_the_way s → on_the_way s').
  { intros s s2 Hrun. induction Hrun as [|s s1 s2 Hw _ IH]; [done|]. intros Hs. apply IH. by eapply on_the_way_step. }
  destruct created_reach as (T & Hreach & HT).
  destruct (inventory_catches_up sample_cfg sample_disk T a_created Hreach) as [(s' & Hs' & Hq) Hend].
  - intros id obj ->%created_objects. by rewrite sample_hashed1.
  - discriminate.
  - intros s' Hs'. apply on_the_way_publishable, (Hrun _ _ Hs'). by left.
  - exists s'. split; [exact Hs'|]. split; [exact Hq|]. apply (Hend s' Hs').
    + destruct Hq as (Hd & Hq & Hp).
      intros s'' [(id & res & ctl' & Hin & _)|[(b & q' & _ & Ht & _)|(b & r' & Hb & _)]]%work_step_inv.
      * rewrite Hd in Hin. by apply elem_of_empty in Hin.
      * rewrite Hq in Ht. discriminate Ht.
      * by rewrite Hp in Hb.
    + exact a_ok.
    + left. exact HT.
Defined.

(** A read of the object fails, then its reconcile succeeds; the clone of the first
    export finds no branch, and the batch is taken again and published. *)
Definition no_answer : client_reader string := λ _ _ _, Failed (ErrAPI "Timeout" "timeout").
Definition a_failed : result unit * fs * history :=
  exportBatch (H2 := history_git) sample_cfg sample_disk (∅ : history) sample_remote a_batch (map_to_list a_batch).
Lemma a_failed_run : is_ok a_failed.1.1 = false ∧ a_failed.2 = sample_remote.
Proof. split; by_vm. Qed.

Lemma setbacks : ∃ s', attempts sample_cfg sample_disk 6 2 a_created s'.
Proof.
  pose proof one_temp_laws as laws. pose proof a_failed_run as [Hfails Hsame]. unfold a_failed in *.
  destruct (exportBatch _ _ _ _ _ _) as [[[[]|e] disk'] r'] eqn:Hrun; [done|]. cbn [snd] in Hsame. subst r'.
  assert (Hin : a_id ∈ dirty a_created) by by apply elem_of_union_l, elem_of_singleton.
  destruct (reconcile_object no_answer a_id (ctl a_created)) as [res ctl'] eqn:Hread.
  exists a_done. apply (attempts_read _ _ 5 1 a_created _ a_id no_answer (ErrAPI "Timeout" "timeout") res ctl'
    Hin eq_refl eq_refl Hread).
  rewrite (failed_read a_created a_id no_answer _ _ _ a_ok Hin eq_refl eq_refl Hread).
  apply (attempts_work _ _ _ _ _ a_reconciled); [exact (work_reconcile _ _ a_created a_id (Ok tt) a_ctl Hin a_reconcile_run)|].
  apply (attempts_work _ _ _ _ _ a_taken); [exact (work_take _ _ a_reconciled a_batch ∅ eq_refl eq_refl)|].
  apply (attempts_fail _ _ _ _ a_taken _ a_batch _ _ _ _ _ _ eq_refl Hrun).
  rewrite flush_finish_failed. change (a_batch ∪ GitQueue (ctl a_taken)) with (a_batch ∪ ∅). rewrite map_union_empty.
  eapply attempts_work; [apply (work_take _ _ _ a_batch ∅); reflexivity|].
  eapply attempts_work; [|apply attempts_nil].
  pose proof a_published as Hp. unfold a_run in *. unfold a_done, a_run.
  destruct (exportBatch (H2 := history_git) sample_cfg sample_disk sample_remote sample_remote _ _) as [rd r2] eqn:Hpub.
  cbn in Hp. subst rd.
  refine (work_publish _ _ a_taken a_batch "/tmp/x" sample_clone sample_tree (map_to_list a_batch) sample_disk r2
    eq_refl _ a_ready (Permutation_refl _) Hpub). discriminate.
Qed.

Lemma work_ends_witness :
  (∃ s', attempts sample_cfg sample_disk 6 2 a_created s') ∧ 6 ≤ 3 * size (dirty a_created) + 3 + 2 * 2.
Proof.
  pose proof one_temp_laws as laws. split; [exact setbacks|]. destruct setbacks as [s' Hs'].
  exact (work_ends sample_cfg sample_disk a_created s' 6 2 created_renderable Hs').
Defined.
End Sample.
