(* ===== verification/DeletionLoop.v ===== *)
(** Deletions between the operators: an object that is gone from the cluster is
    archived in Git, and the push that archives it is served by the sync-operator. *)
From S2P Require Import Prelude GoStrings GoPath GoCrypto GoUtf8 GoMap GoJson GoJsonFacts Config ExportPath InventoryPath ConfigMapMaterial Normalize ArchivePath HashCache GitBatch Fs BatchWorker BatchWorkerFacts ExportBatch WorkerQueue Reconciler Hmac GitHubPush Fetch Apply UnstructuredMap Webhook WebhookTrace LoopBreak FeedbackLoop SyncConvergence.

(** The tree of a push holds the files of the branch: a path names the file under
    its elements. *)
Definition holds (t : tree) (f : files) : Prop := ∀ q, t !! q = f !! live_key q.

Section deletion.
Context `{GoUnicode} `{TextTemplate} `{Float64Laws} `{JsonMessages} `{EventMessages} `{!SigsYaml}.
Context `{OsFaults} `{TempDirsLaws} `{GoGitSpec}.
Context {O : Type} `{!RuntimeObject O} `{!ClientObject O}.
Context {U C W : Type} `{!ClientObject U} `{!Unstructured U} `{!UnstructuredLaws}.
Context `{!KubeClient U W} `{!HttpClient C W} `{!Cluster W}.
Context (cfg : InventoryControllerConfig) (kind ns name : string).
Context (Hkind : argo_kind kind) (Hns : plain_elem ns = true) (Hname : segment_name name).
Context (Hyml : strings_HasSuffix name ".yml" = false).
Implicit Types (b : batch) (f : files) (w : W).
Abbreviation ref := (NewBranchReferenceName (branch_of cfg)).
Abbreviation rel := (default_path kind ns name).
Abbreviation obj_name := (Parsed (ArgoPluralKind kind) ns name).

Lemma rel_parsed : ParseInventoryExportPath rel = Some obj_name.
Proof. apply parse_export; [by apply ArgoPluralKind_export|done|done|done|by apply file_yaml]. Qed.

Lemma rel_archive : ArchiveRelativePath rel = Ok (archive_path (ArgoPluralKind kind) ns name).
Proof. apply archive_export. Qed.

Lemma archive_ignored : ParseInventoryExportPath (archive_path (ArgoPluralKind kind) ns name) = None.
Proof. apply parse_archive; [by apply ArgoPluralKind_export|done|by destruct Hname as (_ & _ & ?)]. Qed.

(** A reconcile that does not find the object queues its archive. *)
Lemma gone_queued (get : GroupVersionKind → string → string → result O) s e :
  get (kind_gvk kind) ns name = Failed e → IsNotFound e = true →
  GitQueue (Reconcile kind get defaultExportPathTemplate s ns name).2 = <[rel := Pending opArchive ""]> (GitQueue s).
Proof. intros Hget He. by rewrite (reconcile_gone kind get s ns name e Hkind Hget He). Qed.

(** A batch with the archive, published on a branch. *)
Lemma archive_published disk dir r0 r1 rp clone b order disk' r2 old new :
  b !! rel = Some (Pending opArchive "") →
  export_ready cfg disk dir r0 rp clone b → order ≡ₚ map_to_list b →
  exportBatch cfg disk r0 r1 b order = (Ok tt, disk', r2) →
  branch_files r0 ref = Some old → branch_files r2 ref = Some new → is_Some (old !! live_key rel) →
  published b (λ k, old !! k) (λ k, new !! k).
Proof.
  intros Hb Hready Hperm Hexp Hold Hnew [c Hc].
  destruct (exportBatch_outcome _ _ _ _ _ _ _ _ _ _ _ _ Hready Hperm Hexp) as [_ (old' & w & Hold' & Hpub & Hcases)].
  rewrite Hold in Hold'. injection Hold' as <-. destruct Hcases as [[-> _]|(_ & Hw & _)].
  - pose proof (pub_archived _ _ _ Hpub _ _ Hb) as Hnone. cbn beta in Hnone. congruence.
  - rewrite Hnew in Hw. by injection Hw as <-.
Qed.

Lemma archive_push_removes b old new t t' pu :
  b !! rel = Some (Pending opArchive "") → published b (λ k, old !! k) (λ k, new !! k) →
  is_Some (old !! live_key rel) → holds t old → holds t' new → reports pu t t' →
  rel ∈ removed pu ∧ rel ∉ addedModified pu.
Proof.
  intros Hb Hpub [c Hc] Ht Ht' [Radd _ Rchg]. pose proof (pub_archived _ _ _ Hpub _ _ Hb) as Hgone. cbn in Hgone.
  assert (Hn : rel ∉ addedModified pu).
  { intros [c' Hc']%Radd. rewrite Ht' in Hc'. congruence. }
  split; [|done]. destruct (Rchg rel) as [Hin|Hin]; [rewrite Ht, Ht'; congruence|done|done].
Qed.

Context `{!ClusterUp}.

(** What the handler leaves of an object that only a removed path of a push names. *)
Lemma served_gone h r pu w id p :
  authentic h r pu → p ∈ removed pu → ParseInventoryExportPath p = Some id → live (ServeHTTP h r w).2 id = None.
Proof.
  intros Ha Hin Hp. rewrite (serve_authentic _ _ _ _ Ha). cbn [snd]. unfold sync_push.
  destruct (range_paths (sync_added _ _ _) _ [] w) as [rs w1].
  destruct (removed_live (removed pu) rs w1 id) as [(q & _ & _ & Hnone)|[Hno _]]; [done|by destruct (Hno p)].
Qed.

End deletion.

(** The Application a/x is deleted from the cluster while its file is in Git. *)
Module Sample.
Import LoopBreak.Sample FeedbackLoop.Sample SyncConvergence.Sample.
#[local] Existing Instances ascii_tables fragment_engine literal_f64 plain_messages plain_event_messages json_yaml
  map_object map_runtime map_unstructured cluster_kube cluster_live one_file no_faults one_temp history_git history_spec.

Definition x_key : key := ["inventory"; "applications"; "a"; "x.yaml"].
Definition x_archive : string := "inventory/archive/applications/a/x.yaml".
Definition x_archive_key : key := ["inventory"; "archive"; "applications"; "a"; "x.yaml"].
Definition x_old : files := {[ x_key := manifest ]}.
Definition x_new : files := {[ x_archive_key := manifest ]}.
Definition x_remote : history := {[ "refs/heads/main" := [("init", x_old)] ]}.
Definition x_clone : local_repo := LocalRepo "refs/heads/main" x_old None.
Definition x_batch : batch := {[ a_path := Pending opArchive "" ]}.
Definition x_run : result unit * fs * history :=
  exportBatch (H2 := history_git) sample_cfg sample_disk x_remote x_remote x_batch (map_to_list x_batch).

Lemma x_live_key : live_key a_path = x_key.
Proof. by_vm. Qed.
Lemma x_archive_live_key : live_key x_archive = x_archive_key.
Proof. by_vm. Qed.

Lemma x_tree_files k c : tree_of x_old !! k = Some (NFile c) → k = x_key.
Proof.
  assert (Hall : bool_decide (map_Forall (λ k n, n = NDir ∨ k = x_key) (tree_of x_old)) = true) by by_vm.
  apply bool_decide_eq_true in Hall. intros Hk. by destruct (Hall _ _ Hk).
Qed.

Lemma x_batch_Some rel op : x_batch !! rel = Some op → a_path = rel ∧ Pending opArchive "" = op.
Proof. unfold x_batch. apply lookup_singleton_Some. Qed.

Lemma x_cloned : history_clone x_remote (clone_options sample_cfg) = Ok (x_clone, tree_of x_old).
Proof. by_vm. Qed.

Lemma x_ready : export_ready sample_cfg sample_disk "/tmp/x" (x_remote : remote) x_clone (tree_of x_old) x_batch.
Proof.
  destruct (history_clone_inv _ _ _ _ x_cloned) as (m & f & h & _ & _ & Hwf & Hroot & _).
  split; [done|apply (wf_check_spec sample_disk); by_vm|by_vm|exact x_cloned|exact Hwf|exact Hroot| |].
  - intros rel op [<- _]%x_batch_Some. exists "applications", "a", "x". split; [by left|]. do 2 (split; [by_vm|]). by_vm.
  - intros rel op [<- _]%x_batch_Some. unfold archive_key. rewrite x_live_key.
    split; (split; [|apply (proj1 (bool_decide_eq_false _)); by_vm]);
      intros q r Hq Hqn Hrn c ->%x_tree_files; [|discriminate Hq].
    destruct r; [destruct Hrn; reflexivity|]. apply (f_equal length) in Hq. rewrite length_app in Hq. cbn in Hq. lia.
Qed.

Lemma x_published : x_run.1 = (Ok tt, sample_disk).
Proof. by_vm. Qed.
Lemma x_heads : head_files x_remote "refs/heads/main" = Some x_old ∧ head_files x_run.2 "refs/heads/main" = Some x_new.
Proof. split; by_vm. Qed.

(** GitHub reports the commit of the archive. *)
Definition x_payload : string := print_json (payload_json
  (Payload "o/r" (Some "d00d") "d00d" [([x_archive], [], [a_path])] [])).
Definition x_push : push := Push "o/r" "d00d" [x_archive] [a_path].
Lemma x_authentic : authentic a_handler (signed x_payload) x_push.
Proof.
  split; [done|]. exists x_payload. split; [by_vm|]. split; [|by_vm].
  apply verify_spec. split; [done|]. eexists. split; [reflexivity|]. apply hex_decode_encode.
Qed.

Definition x_before : gmap string string := {[a_path := manifest]}.
Definition x_after : gmap string string := {[x_archive := manifest]}.
Lemma one_file_holds p (c : string) : holds {[p := c]} {[live_key p := c]}.
Proof.
  intros q. destruct (decide (q = p)) as [->|Hq]; [by rewrite !lookup_singleton_eq|].
  rewrite !lookup_singleton_ne; [done| |done]. by intros ?%eq_sym%live_key_inj.
Qed.
Lemma x_holds : holds x_before x_old ∧ holds x_after x_new.
Proof.
  split; [unfold x_old; rewrite <- x_live_key|unfold x_new; rewrite <- x_archive_live_key]; apply one_file_holds.
Qed.

Lemma x_reports : reports x_push x_before x_after.
Proof.
  split.
  - intros p ->%list_elem_of_singleton. eexists. apply lookup_singleton_eq.
  - intros p ->%list_elem_of_singleton. split; [eexists; apply lookup_singleton_eq|].
    apply lookup_singleton_ne. discriminate.
  - intros p Hp. destruct (decide (p = x_archive)) as [->|H1]; [left; by left|].
    destruct (decide (p = a_path)) as [->|H2]; [right; by left|].
    destruct Hp. unfold x_before, x_after. by rewrite !lookup_singleton_ne.
Qed.

Lemma x_path : default_path "Application" "a" "x" = a_path.
Proof. by_vm. Qed.
Lemma x_segment : segment_name "x".
Proof. split; [discriminate|]. split; [discriminate|reflexivity]. Qed.

Definition x_get : client_reader gomap := λ _ _ name, Failed (ErrAPI "NotFound" (name +:+ " not found")).
Lemma x_taken cache :
  flush_take (GitQueue (Reconcile "Application" x_get defaultExportPathTemplate (RState cache ∅) "a" "x").2) =
  Some (x_batch, ∅).
Proof.
  rewrite (reconcile_gone _ _ _ _ _ (ErrAPI "NotFound" "x not found")); [|by left|done|done].
  rewrite x_path. reflexivity.
Qed.

End Sample.
